(* ===== verification/_CoqProject ===== *)
-Q . S2P
Prelude.v
HugeArray.v
SlotId.v
Types.v
PriceLevelBook.v
BookSpec.v
BookMask.v
BookInv.v
BookRefine.v
BookMatch.v
BookOps.v
BookProps.v
BookResting.v
BookTheorems.v
SlotIdPool.v
OrderGateway.v
Coordinator.v
Server.v
ServerRun.v
ServerTypes.v
SequencedSPSC.v
LfqRunner.v
ShmQueue.v
ShmTransport.v
SlidingBuffer.v
Framing.v
VyukovMPMC.v
Channel.v
Serialization.v
Session.v
Fifo.v
Telemetry.v
TradeEngine.v
System.v
ClientConnection.v
Bus.v
Commands.v
ControlCenter.v
Wiring.v
Config.v
FlatOrderBook.v
TurboSPSC.v
StreamBus.v
IpcServer.v
PriceFeed.v
Logging.v
Kafka.v
Postgres.v
FutexWaiter.v
Memory.v
Platform.v
Wire.v
SystemTypes.v
WiredSystem.v
ShmSystem.v
Utils.v
Console.v
Printing.v
Lifetimes.v
Conformance.v
