(* ===== verification/Prelude.v ===== *)
(** * Verification of the hft trading platform

    The repository is a trading platform in C++: a server that matches
    orders, a client that generates them, and a monitor that collects
    latencies.  This library models its logic as Rocq definitions that read
    like the code and proves what makes each part correct.  Paths below are
    relative to src/.

    ** How the program is put together, and which file models what

    A client's order reaches the server over TCP or shared memory, is given a
    client identity by its session, an internal identifier by the order
    gateway, and a worker by the coordinator; the worker matches it in the
    book of its ticker and posts statuses, which go back the same way.  Each
    arrow between threads is a lock-free queue with a futex under it; each
    arrow inside a thread is a direct call through a message bus.

    - Common vocabulary: Prelude (results with faults, machine words, bits,
      sums), HugeArray (common/src/containers/huge_array.hpp), SlotId
      (common/src/id/slot_id.hpp), Types (common/src/types,
      server/src/domain, server/src/gateway).
    - The order book (server/src/execution/orderbook/
      price_level_order_book.hpp): PriceLevelBook holds the definitions,
      BookSpec the abstract book (a queue of resting orders per side and
      price) and the representation relation; BookMask, BookInv, BookRefine,
      BookMatch and BookOps are the steps of the refinement, BookProps the
      simulation, BookResting follows one resting order through a call, and
      BookTheorems has the properties in terms of the code's state.
      FlatOrderBook models the unused flat_order_book.hpp.
    - The order path: SlotIdPool (common/src/id/slot_id_pool.hpp),
      OrderGateway (server/src/gateway), Coordinator (server/src/execution/
      coordinator.hpp, server/src/storage), and Server, which composes
      gateway, coordinator and books along the queues between their threads.
      ServerRun keeps the ledger of such runs for any number of clients
      (which order was answered to whom, which is under way, which was lost to
      a full book or a full queue), and ServerTypes the ranges of the values
      in them.
    - Threads and queues: SequencedSPSC, TurboSPSC and VyukovMPMC
      (common/src/containers), one shared access per step; LfqRunner
      (common/src/runner, spin_wait.hpp, sync_utils.hpp); StreamBus
      (common/src/bus/stream_bus.hpp); Fifo is the interface of a queue to
      its clients, which SequencedSPSC implements.
    - Transport: SlidingBuffer, Framing, Channel (common/src/transport and
      common/src/containers), Wire (two channels over one TCP connection,
      byte by byte: the queues of messages that the files below use), ShmQueue and ShmTransport
      (common/src/transport/shm), Serialization (common/src/serialization).
    - Sessions: Session (server/src/session, server/src/ipc), ClientConnection
      (client/src/connection) with the login handshake of the two ends.
    - The programs around them: Bus (common/src/bus), Wiring (the buses of
      the traits.hpp files and who subscribes to what), Commands (the command
      parsers), Config (the configurations), IpcServer (the network threads of
      server/src/ipc and client/src/ipc), PriceFeed (server/src/price_feed.hpp),
      TradeEngine (client/src/execution), Telemetry (telemetry messages,
      histograms, formatting), ControlCenter (the three control centers, and
      the client over shared memory as one system).
    - System joins the trade engines of any number of clients, their channels
      and the server's order path into one transition system: what
      TradeEngine assumes of the server and what ServerRun assumes of the
      clients is proved of the other side there.  SystemTypes has the types
      of all values in it.  WiredSystem puts the channels, the serializer, the
      shared buffer pools and the connections of Wire in the place of its
      queues and projects every such run onto a run of System.  ShmSystem does
      the same for the build over shared memory: managers, transports,
      reactors and the two shared queues of struct bytes.
    - Around the libraries: Logging (common/src/logging), Kafka and Postgres
      (common/src/adapters; Postgres also has the server's storage and price
      feed over one adapter), Memory (common/src/utils/memory_utils.hpp and
      the constructor of ShmUPtr for processes that attach at once),
      FutexWaiter (futex_waiter.hpp and the rest of sync_utils.hpp), Platform
      (common/src/runner/ctx_runner.hpp, common/src/transport/boost), Console
      (common/src/utils/console_reader.hpp, down to poll and getline), Utils
      (time_utils.hpp, thread_utils.hpp, profiling_utils.hpp, rng.hpp,
      string_utils.hpp, trait_utils.hpp), Lifetimes (who owns the blocks of a
      HugeArray, the reactor and its readers, how threads start and fail, the
      main functions and the
      signals of the three programs).
    - Printing has the text of messages, configurations and histograms in log
      lines.
    - Conformance runs the repository's own unit tests and its order test on
      the model.

    ** How the code is modelled

    A class is a record of its fields and a function per method that returns
    the new state and what the method posts or calls, in order.  What a C++
    run can end in instead (an index out of range, a null dereference, an
    exception, a failed assertion) is a [fault] of the result type [res].
    Integers are [Z] with their wrap-around written out ([u32], [u64], ...);
    arrays are finite maps whose unwritten elements are zero.  Code that more
    than one thread runs is a step relation or a step function of one shared
    access per step, and the theorems hold for every interleaving; memory is
    sequentially consistent there, except that the posting thread of LfqRunner
    has a store buffer, for which the wake-up theorem states what it needs.
    Each handler of the server is one step of its thread on the queues between
    them, which are lists of at most [LFQ_CAPACITY] messages; a message that
    finds its queue full is dropped with an error on the system bus, as
    [LfqRunner::post] does.  The gateway's queue has a single producer, so a
    second worker that posts a status to it is the fault [DataRace] and the
    theorems about the whole server are for at most one worker
    (SequencedSPSC shows what two producers do to such a queue).  Clocks, random draws, stop requests and the answers of
    databases and sockets are inputs of the definitions.  FlatBuffers, the
    SBE codecs, asio, folly's hash map, librdkafka, libpqxx, the system calls
    and floating point are parameters or inputs, with the documented behaviour that is relied on
    as the laws of a class or as named hypotheses, and an instance of each in
    a witness.

    ** What is shown

    - Refinement: clients and server over TCP connections, with every byte,
      frame and pooled buffer, and over shared memory, with every slot and
      poll, do step for step what the system of queues does; one call of the book on any represented state does what the
      price-time priority book does; the sequenced queue and the MPMC queue
      are FIFOs in every interleaving; two channels over a connection are a
      queue of messages, as long as the connection sends one write after the
      other; a bus delivers what is posted, in order.
    - Invariants: best prices and masks are exact, the book is never crossed,
      identifiers that are out are distinct, the gateway answers the owner of
      each order, reference counts of shared queues are exact when processes
      attach one after the other with any call failing, and while they attach
      at once unless one warms the memory up over another's increment, a
      client trades only while connected.
    - The whole order path, with one worker: whatever any number of clients
      send on the traded tickers and the price grid, and however the threads
      interleave, nothing faults and the ledger of orders and answers balances;
      values stay within their types; trade engines and server keep the
      protocol they expect of each other; the server's threads can always
      answer every order they were given.  Where cancels are sent this assumes
      that the order of each still rests when the worker takes it, since the
      code does not survive the other case (see Errors).
    - Liveness and termination: no wake-up of a runner is lost unless its
      posting thread reads past its own store, a requested stop joins, an
      order makes its round trip, the handshake authenticates in whatever order
      the network delivers, the console posts every line that is typed.
    - Round trips: handles, both serializers, framing, commands; the status
      lines of the log name their message without ambiguity.
    - Errors: what the code does with stale cancels, cancels under another
      ticker, filled orders that are cancelled, and missed notifications; what
      failing calls leave behind in the adapters, the runner and the shared
      files.

    ** Bounds and fuel

    The matching loops take fuel; the refinement theorems give the fuel the
    code's own counts bound (the resting orders of a side, the levels of a
    price range), so none of them assumes that a loop returns.  The
    capacities are those of common/src/types/constants.hpp, as fields of
    [Types.Build] where the build configuration decides them.  Bus queues and
    histories are unbounded; the positions of the queues, connection ids,
    tokens and the futex of a runner wrap as in the code, and the theorems
    that need them not to have wrapped say so.

    ** Not modelled

    What the system calls and asio do with the calls made on them: their
    answers are inputs; the parsing of command lines and
    configuration files by Boost; the dummy adapters, which do nothing;
    the C++ concepts (busable.hpp, transportable.hpp, shm_concepts.hpp), which
    the compiler checks; benchmarks, data generators, scripts.
    Weak memory is modelled only where stated above. *)

From stdpp Require Export base gmap list list_numbers strings numbers sorting.
From stdpp Require Export option list.

(** ** Machine-level vocabulary shared by every component *)

#[global] Open Scope Z_scope.
#[export] Set Warnings "-clear-no-such-hyp".

(** What a C++ run can end in instead of a value: an access outside an
    array, a null dereference, an exception with its message, a failed
    [assert], a data race (two threads in a queue that is made for one), or a
    loop bound of the model that was too small. *)
Inductive fault : Type :=
| OutOfBounds
| NullDeref
| Throw (msg : string)
| AssertFailed
| DataRace
| OutOfFuel.

Inductive res (A : Type) : Type :=
| Ok (a : A)
| Err (f : fault).
Arguments Ok {A} _.
Arguments Err {A} _.

Declare Scope hft_scope.
Delimit Scope hft_scope with hft.
#[global] Open Scope hft_scope.

Notation "'let!' p ':=' e 'in' k" :=
  (match e with Ok p => k | Err f_ => Err f_ end)
  (at level 10, p pattern, e at level 200, k at level 200,
   format "'[v' 'let!'  p  ':='  e  'in' '/' k ']'") : hft_scope.

#[global] Instance fault_eq_dec : EqDecision fault.
Proof. solve_decision. Defined.

#[global] Instance res_eq_dec {A} `{EqDecision A} : EqDecision (res A).
Proof. solve_decision. Defined.

Definition is_ok {A} (r : res A) : Prop :=
  match r with Ok _ => True | Err _ => False end.

(** Unsigned integers of 8, 16, 32 and 64 bits are [Z] values kept in range
    by these wrap-around functions. *)
Definition u8 (x : Z) : Z := x mod 2 ^ 8.
Definition u16 (x : Z) : Z := x mod 2 ^ 16.
Definition u32 (x : Z) : Z := x mod 2 ^ 32.
Definition u64 (x : Z) : Z := x mod 2 ^ 64.

(** [~x] on a 64-bit word. *)
Definition not64 (x : Z) : Z := Z.lxor (Z.ones 64) x.

(** [__builtin_ctzll] and [__builtin_clzll] on a non-zero word. *)
Fixpoint ctz_pos (p : positive) : Z :=
  match p with
  | xO q => 1 + ctz_pos q
  | _ => 0
  end.

Definition ctzll (w : Z) : Z :=
  match w with Zpos p => ctz_pos p | _ => 64 end.

Definition clzll (w : Z) : Z := 63 - Z.log2 w.

(** The all-zero object a freshly mapped, zero-filled page holds. *)
Class Zeroed (A : Type) := zeroed : A.
#[global] Instance Z_zeroed : Zeroed Z := 0.
#[global] Instance bool_zeroed : Zeroed bool := false.

Create HintDb hft discriminated.

(** ** Tactics *)

(** Case analysis on every [let!] and [if] of a hypothesis or the goal. *)
Ltac destruct_res :=
  repeat match goal with
  | H : Ok _ = Ok _ |- _ => injection H; clear H; intros; subst
  | H : Err _ = Ok _ |- _ => discriminate H
  | H : Ok _ = Err _ |- _ => discriminate H
  | H : match ?e with Ok _ => _ | Err _ => _ end = _ |- _ =>
      let E := fresh "Hr" in destruct e eqn:E; try discriminate H
  end.

(** Turns the boolean tests of the code into propositions. *)
Ltac bool_to_prop :=
  repeat match goal with
  | H : (_ <? _) = true |- _ => apply Z.ltb_lt in H
  | H : (_ <? _) = false |- _ => apply Z.ltb_ge in H
  | H : (_ <=? _) = true |- _ => apply Z.leb_le in H
  | H : (_ <=? _) = false |- _ => apply Z.leb_gt in H
  | H : (_ =? _) = true |- _ => apply Z.eqb_eq in H
  | H : (_ =? _) = false |- _ => apply Z.eqb_neq in H
  | H : (_ && _)%bool = true |- _ => apply andb_true_iff in H; destruct H
  | H : (_ || _)%bool = false |- _ => apply orb_false_iff in H; destruct H
  end.

(** Case split on the first boolean test of the goal. *)
Ltac case_test :=
  match goal with
  | |- context [Z.ltb ?a ?b] => destruct (Z.ltb_spec a b)
  | |- context [Z.leb ?a ?b] => destruct (Z.leb_spec a b)
  | |- context [Z.eqb ?a ?b] => destruct (Z.eqb_spec a b)
  end.

(** ** Wrap-around arithmetic *)

Lemma u32_small x : 0 <= x < 2 ^ 32 -> u32 x = x.
Proof. intros. unfold u32. by apply Z.mod_small. Qed.

Lemma u64_small x : 0 <= x < 2 ^ 64 -> u64 x = x.
Proof. intros. unfold u64. by apply Z.mod_small. Qed.

Lemma u32_range x : 0 <= u32 x < 2 ^ 32.
Proof. unfold u32. apply Z.mod_pos_bound. lia. Qed.

Lemma u64_range x : 0 <= u64 x < 2 ^ 64.
Proof. unfold u64. apply Z.mod_pos_bound. lia. Qed.

#[export] Hint Resolve u32_range u64_range : hft.

(** Low and high parts of a word do not overlap: [lor] is [+]. *)
Lemma lor_shiftl_add lo hi bits :
  0 <= bits -> 0 <= lo < 2 ^ bits -> Z.lor lo (Z.shiftl hi bits) = lo + hi * 2 ^ bits.
Proof.
  intros Hb Hlo.
  assert (Hadd := Z.add_lor_land lo (Z.shiftl hi bits)).
  assert (Hd : Z.land lo (Z.shiftl hi bits) = 0).
  { apply Z.bits_inj'. intros i Hi. rewrite Z.land_spec, Z.bits_0.
    destruct (Z.lt_ge_cases i bits) as [Hlt|Hge].
    - rewrite Z.shiftl_spec_low by lia. apply andb_false_r.
    - destruct (Z.eq_dec lo 0) as [->|Hne]; [by rewrite Z.bits_0|].
      rewrite (Z.bits_above_log2 lo); [done|lia|].
      apply Z.lt_le_trans with bits; [|done]. apply Z.log2_lt_pow2; lia. }
  rewrite Hd, Z.add_0_r in Hadd. rewrite Hadd, Z.shiftl_mul_pow2 by lia. done.
Qed.

(** ** Bit scans *)

Lemma ctz_pos_nonneg p : 0 <= ctz_pos p.
Proof. induction p; simpl; lia. Qed.

Lemma ctz_pos_bit p : Z.testbit (Zpos p) (ctz_pos p) = true.
Proof.
  induction p as [p IH|p IH|]; try done.
  cbn [ctz_pos].
  replace (1 + ctz_pos p) with (Z.succ (ctz_pos p)) by lia.
  rewrite (Pos2Z.inj_xO p), Z.testbit_even_succ; auto using ctz_pos_nonneg.
Qed.

Lemma ctz_pos_below p i : 0 <= i < ctz_pos p -> Z.testbit (Zpos p) i = false.
Proof.
  revert i. induction p as [p IH|p IH|]; intros i Hi; simpl in Hi; try lia.
  rewrite (Pos2Z.inj_xO p).
  destruct (Z.eq_dec i 0) as [->|Hne]; [by rewrite Z.testbit_even_0|].
  replace i with (Z.succ (i - 1)) by lia.
  rewrite Z.testbit_even_succ by lia. apply IH. lia.
Qed.

Section scans.
Context (w : Z) (Hw : 0 < w < 2 ^ 64).

Lemma ctzll_spec :
  0 <= ctzll w < 64 /\ Z.testbit w (ctzll w) = true /\
  (forall i, 0 <= i < ctzll w -> Z.testbit w i = false).
Proof.
  destruct w as [|p|p]; try lia. cbn [ctzll].
  assert (Hb := ctz_pos_bit p). assert (Hn := ctz_pos_nonneg p).
  repeat split; auto using ctz_pos_below.
  destruct (Z.lt_ge_cases (ctz_pos p) 64) as [|Hge]; [done|].
  rewrite Z.bits_above_log2 in Hb; [done|lia|].
  apply Z.log2_lt_pow2; [lia|]. apply Z.lt_le_trans with (2 ^ 64); [lia|].
  apply Z.pow_le_mono_r; lia.
Qed.

Lemma clzll_spec :
  0 <= 63 - clzll w < 64 /\ Z.testbit w (63 - clzll w) = true /\
  (forall i, 63 - clzll w < i -> Z.testbit w i = false).
Proof.
  unfold clzll. replace (63 - (63 - Z.log2 w)) with (Z.log2 w) by lia.
  repeat split.
  - apply Z.log2_nonneg.
  - apply Z.log2_lt_pow2; lia.
  - apply Z.bit_log2. lia.
  - intros i Hi. apply Z.bits_above_log2; lia.
Qed.
End scans.

Lemma word_zero_bits w :
  0 <= w < 2 ^ 64 -> (forall i, 0 <= i < 64 -> Z.testbit w i = false) -> w = 0.
Proof.
  intros Hw Hb. destruct (Z.eq_dec w 0) as [|Hne]; [done|exfalso].
  destruct (ctzll_spec w) as (Hr & Ht & _); [lia|].
  rewrite Hb in Ht by lia. done.
Qed.

Lemma testbit_not64 x i : 0 <= i < 64 -> Z.testbit (not64 x) i = negb (Z.testbit x i).
Proof. intros. unfold not64. rewrite Z.lxor_spec, Z.ones_spec_low by lia. done. Qed.

Lemma testbit_bit b i : 0 <= b -> Z.testbit (Z.shiftl 1 b) i = bool_decide (i = b).
Proof.
  intros Hb. rewrite Z.shiftl_1_l. case_bool_decide as H.
  - subst. by apply Z.pow2_bits_true.
  - apply Z.pow2_bits_false. lia.
Qed.

Lemma word_range_of_bits w :
  0 <= w -> (forall i, 64 <= i -> Z.testbit w i = false) -> 0 <= w < 2 ^ 64.
Proof.
  intros Hw Hb. split; [done|].
  destruct (Z.eq_dec w 0) as [->|Hne]; [lia|].
  apply Z.log2_lt_pow2; [lia|].
  destruct (Z.lt_ge_cases (Z.log2 w) 64) as [|Hge]; [done|].
  specialize (Hb _ Hge). rewrite Z.bit_log2 in Hb; [done|lia].
Qed.

Lemma testbit_high w i : 0 <= w < 2 ^ 64 -> 64 <= i -> Z.testbit w i = false.
Proof.
  intros Hw Hi. destruct (Z.eq_dec w 0) as [->|Hne]; [apply Z.bits_0|].
  apply Z.bits_above_log2; [lia|]. assert (Z.log2 w < 64); [|lia].
  apply Z.log2_lt_pow2; lia.
Qed.

(** ** Lists *)

Definition sumZ (l : list Z) : Z := foldr Z.add 0 l.

Lemma sumZ_app l1 l2 : sumZ (l1 ++ l2) = sumZ l1 + sumZ l2.
Proof. induction l1; simpl; lia. Qed.

Lemma sumZ_nonneg l : Forall (fun x => 0 <= x) l -> 0 <= sumZ l.
Proof. induction 1; simpl; lia. Qed.

Lemma sumZ_bound b l :
  Forall (fun x => x <= b) l -> sumZ l <= b * Z.of_nat (length l).
Proof. induction 1; cbn [sumZ foldr length]; unfold sumZ in *; lia. Qed.

(** A duplicate-free list of integers of an interval is no longer than it. *)
Lemma NoDup_range_length lo hi (l : list Z) :
  lo <= hi -> NoDup l -> Forall (fun x => lo <= x < hi) l ->
  Z.of_nat (length l) <= hi - lo.
Proof.
  intros Hle Hnd Hr.
  assert (Hsub : (length l <= length (seqZ lo (hi - lo)))%nat).
  { apply submseteq_length, NoDup_submseteq; [done|].
    intros x Hx. rewrite Forall_forall in Hr. specialize (Hr x Hx).
    apply elem_of_seqZ. lia. }
  rewrite length_seqZ in Hsub. lia.
Qed.
