(* ===== verification/HugeArray.v ===== *)
(** * Fixed-size zero-initialised arrays

    Models [HugeArray<T, Capacity>] (common/src/containers/huge_array.hpp),
    the page rounding of [utils::alignHuge] (common/src/utils/memory_utils.hpp)
    and plain C arrays: an array is a finite map from index to element, an
    index never written reads the all-zero element, and an access at or past
    the capacity, which the code leaves undefined, is the fault
    [OutOfBounds].  The theorems of the other files show that no such access
    happens. *)

From S2P Require Import Prelude.

Module HugeArray.

Create Rewrite HintDb hft_arr.

Section array.
Context {T : Type} `{Zeroed T}.

(** The mapped page as [allocHuge] leaves it: [warmMemory(ptr, size, true)]
    has zero-filled it. *)
Definition alloc : gmap Z T := ∅.

Definition get (Capacity : Z) (a : gmap Z T) (index : Z) : res T :=
  if (0 <=? index) && (index <? Capacity)
  then Ok (default zeroed (a !! index))
  else Err OutOfBounds.

Definition set (Capacity : Z) (a : gmap Z T) (index : Z) (x : T) : res (gmap Z T) :=
  if (0 <=? index) && (index <? Capacity)
  then Ok (<[index := x]> a)
  else Err OutOfBounds.

(** [std::memset(data_, 0, ByteSize)]. *)
Definition clear (a : gmap Z T) : gmap Z T := ∅.

(** The element at an index, for specifications. *)
Definition at_ (a : gmap Z T) (index : Z) : T := default zeroed (a !! index).

Lemma get_ok c a i : 0 <= i < c -> get c a i = Ok (at_ a i).
Proof.
  intros Hi. unfold get.
  destruct (Z.leb_spec 0 i), (Z.ltb_spec i c); try lia. done.
Qed.

Lemma set_ok c a i x : 0 <= i < c -> set c a i x = Ok (<[i := x]> a).
Proof.
  intros Hi. unfold set.
  destruct (Z.leb_spec 0 i), (Z.ltb_spec i c); try lia. done.
Qed.

Lemma get_oob c a i : ~ (0 <= i < c) -> get c a i = Err OutOfBounds.
Proof.
  intros Hi. unfold get.
  destruct (Z.leb_spec 0 i), (Z.ltb_spec i c); try lia; done.
Qed.

Lemma at_set_eq a i x : at_ (<[i := x]> a) i = x.
Proof. unfold at_. by rewrite lookup_insert_eq. Qed.

Lemma at_set_ne a i j x : i <> j -> at_ (<[i := x]> a) j = at_ a j.
Proof. intros. unfold at_. by rewrite lookup_insert_ne. Qed.

Lemma at_set a i j x :
  at_ (<[i := x]> a) j = if decide (i = j) then x else at_ a j.
Proof. case_decide; subst; auto using at_set_eq, at_set_ne. Qed.

Lemma at_alloc i : at_ alloc i = zeroed.
Proof. unfold at_, alloc. by rewrite lookup_empty. Qed.
End array.

#[export] Hint Rewrite @at_set_eq @at_alloc : hft_arr.
#[export] Hint Rewrite @at_set_ne using done : hft_arr.

Definition HUGE_PAGE_SIZE : Z := 2 * 1024 * 1024.

(** [(size + HUGE_PAGE_SIZE - 1) & ~(HUGE_PAGE_SIZE - 1)] on [size_t]. *)
Definition alignHuge (size : Z) : Z :=
  Z.land (u64 (size + HUGE_PAGE_SIZE - 1)) (not64 (HUGE_PAGE_SIZE - 1)).

Lemma land_not64_low x k :
  0 <= x < 2 ^ 64 -> 0 <= k <= 64 ->
  Z.land x (not64 (2 ^ k - 1)) = 2 ^ k * (x / 2 ^ k).
Proof.
  intros Hx Hk. rewrite Z.mul_comm, <- Z.shiftr_div_pow2, <- Z.shiftl_mul_pow2 by lia.
  apply Z.bits_inj'. intros i Hi.
  rewrite Z.land_spec.
  destruct (Z.lt_ge_cases i 64) as [Hlt|Hge].
  - rewrite testbit_not64 by lia.
    replace (2 ^ k - 1) with (Z.ones k) by (rewrite Z.ones_equiv; lia).
    destruct (Z.lt_ge_cases i k) as [Hik|Hik].
    + rewrite Z.ones_spec_low, Z.shiftl_spec_low by lia. apply andb_false_r.
    + rewrite Z.ones_spec_high, Z.shiftl_spec, Z.shiftr_spec by lia.
      rewrite andb_true_r. f_equal. lia.
  - rewrite (testbit_high x) by lia. rewrite Z.shiftl_spec, Z.shiftr_spec by lia.
    rewrite Z.sub_add, (testbit_high x) by lia. done.
Qed.

(** The mapping length is the smallest multiple of the huge page size that
    holds [size] bytes. *)
Lemma alignHuge_spec size :
  0 <= size <= 2 ^ 64 - HUGE_PAGE_SIZE ->
  (HUGE_PAGE_SIZE | alignHuge size) /\
  size <= alignHuge size < size + HUGE_PAGE_SIZE.
Proof.
  unfold alignHuge, HUGE_PAGE_SIZE. intros Hs.
  rewrite u64_small by lia.
  change (2 * 1024 * 1024 - 1) with (2 ^ 21 - 1).
  change (2 * 1024 * 1024) with (2 ^ 21).
  rewrite land_not64_low by lia.
  set (q := (size + 2 ^ 21 - 1) / 2 ^ 21).
  assert (H := Z.div_mod (size + 2 ^ 21 - 1) (2 ^ 21) ltac:(lia)).
  assert (Hm := Z.mod_pos_bound (size + 2 ^ 21 - 1) (2 ^ 21) ltac:(lia)).
  fold q in H. split; [exists q; lia|lia].
Qed.

End HugeArray.
