(* ===== verification/SlotId.v ===== *)
(** * Versioned slot handles

    Models [SlotId<MaxCapacity>] (common/src/id/slot_id.hpp) and
    [utils::bitWidth] (common/src/utils/binary_utils.hpp).  A handle is its
    raw 32-bit value: the low [IndexBits] bits are the slot, the high
    [GenBits] bits the generation; generation 0 marks an invalid handle. *)

From S2P Require Import Prelude.

(** [x == 0 ? 0 : 32 - __builtin_clz(x - 1)]; [__builtin_clz] of a positive
    [y] is [31 - log2 y] (of 0 it is undefined, which a capacity of 1 would
    reach). *)
Definition bitWidth (x : Z) : Z :=
  if x =? 0 then 0 else 32 - (31 - Z.log2 (x - 1)).

Module SlotId.

Section SlotId.
Context (MaxCapacity : Z).

Definition IndexBits : Z := bitWidth MaxCapacity.
Definition GenBits : Z := 32 - IndexBits.

Definition INDEX_MASK : Z := u32 (Z.shiftl 1 IndexBits) - 1.
Definition GEN_MASK : Z := u32 (Z.shiftl 1 GenBits) - 1.

(** [BookOrderId{}] / [SystemOrderId{}]: value-initialised. *)
Definition invalid : Z := 0.

Definition make (index gen : Z) : Z :=
  Z.lor (u32 (Z.shiftl (Z.land gen GEN_MASK) IndexBits)) (Z.land index INDEX_MASK).

(** The two [assert]s of [make]. *)
Definition make_asserts (index gen : Z) : bool :=
  (index <=? INDEX_MASK) && (gen <=? GEN_MASK).

Definition index (value_ : Z) : Z := Z.land value_ INDEX_MASK.

Definition gen (value_ : Z) : Z := Z.land (Z.shiftr value_ IndexBits) GEN_MASK.

Definition raw (value_ : Z) : Z := value_.

Definition isValid (value_ : Z) : bool := negb (gen value_ =? 0).

Definition nextGen (value_ : Z) : Z :=
  let g := Z.land (u32 (gen value_ + 1)) GEN_MASK in
  let g := if g =? 0 then 1 else g in
  Z.lor (Z.land value_ INDEX_MASK) (u32 (Z.shiftl g IndexBits)).

Definition maxIndex : Z := INDEX_MASK.
Definition maxGen : Z := GEN_MASK.

End SlotId.

(** The capacities the code instantiates: a power of two that leaves at
    least one generation bit (the two [static_assert]s of the class). *)
Class SlotCapacity (cap bits : Z) : Prop := {
  cap_pow2 : cap = 2 ^ bits;
  cap_bits : 1 <= bits < 32
}.

Section Laws.
Context (cap bits : Z) `{SC : SlotCapacity cap bits}.

Abbreviation INDEX_MASK := (INDEX_MASK cap).
Abbreviation GEN_MASK := (GEN_MASK cap).

Lemma IndexBits_eq : IndexBits cap = bits.
Proof.
  destruct SC as [-> Hb]. unfold IndexBits, bitWidth.
  destruct (Z.eqb_spec (2 ^ bits) 0) as [E|_].
  { assert (0 < 2 ^ bits) by (apply Z.pow_pos_nonneg; lia). lia. }
  assert (Z.log2 (2 ^ bits - 1) = bits - 1); [|lia].
  rewrite Z.sub_1_r. apply Z.log2_pred_pow2. lia.
Qed.

Lemma pow_bits_split : 2 ^ 32 = 2 ^ bits * 2 ^ (32 - bits).
Proof. destruct SC. rewrite <- Z.pow_add_r by lia. f_equal. lia. Qed.

Lemma pow_bits_bounds : 2 <= 2 ^ bits <= 2 ^ 31 /\ 2 <= 2 ^ (32 - bits) <= 2 ^ 31.
Proof.
  destruct SC as [_ Hb].
  assert (2 ^ 1 <= 2 ^ bits) by (apply Z.pow_le_mono_r; lia).
  assert (2 ^ 1 <= 2 ^ (32 - bits)) by (apply Z.pow_le_mono_r; lia).
  assert (2 ^ bits <= 2 ^ 31) by (apply Z.pow_le_mono_r; lia).
  assert (2 ^ (32 - bits) <= 2 ^ 31) by (apply Z.pow_le_mono_r; lia).
  lia.
Qed.

Lemma INDEX_MASK_eq : INDEX_MASK = Z.ones bits.
Proof.
  unfold SlotId.INDEX_MASK. rewrite IndexBits_eq, Z.shiftl_1_l, Z.ones_equiv.
  pose proof pow_bits_bounds. rewrite u32_small by lia. lia.
Qed.

Lemma GEN_MASK_eq : GEN_MASK = Z.ones (32 - bits).
Proof.
  unfold SlotId.GEN_MASK, GenBits. rewrite IndexBits_eq, Z.shiftl_1_l, Z.ones_equiv.
  pose proof pow_bits_bounds. rewrite u32_small by lia. lia.
Qed.

Lemma index_mod v : index cap v = v mod 2 ^ bits.
Proof.
  unfold index. rewrite INDEX_MASK_eq, Z.land_ones; [done|]. destruct SC. lia.
Qed.

Lemma gen_mod v : gen cap v = (v / 2 ^ bits) mod 2 ^ (32 - bits).
Proof.
  unfold gen. rewrite GEN_MASK_eq, IndexBits_eq, Z.land_ones, Z.shiftr_div_pow2;
    destruct SC; auto with lia.
Qed.

Lemma index_range v : 0 <= index cap v < cap.
Proof.
  rewrite index_mod. destruct SC as [-> ?]. apply Z.mod_pos_bound.
  apply Z.pow_pos_nonneg; lia.
Qed.

Lemma gen_range v : 0 <= gen cap v < 2 ^ (32 - bits).
Proof. rewrite gen_mod. apply Z.mod_pos_bound. apply Z.pow_pos_nonneg; destruct SC; lia. Qed.

(** A handle built from a slot and a generation of the ranges the asserts
    of [make] demand. *)
Lemma make_eq i g :
  0 <= i < 2 ^ bits -> 0 <= g < 2 ^ (32 - bits) ->
  make cap i g = i + g * 2 ^ bits.
Proof.
  destruct SC as [_ Hb]. intros Hi Hg. unfold make.
  rewrite INDEX_MASK_eq, GEN_MASK_eq, IndexBits_eq, !Z.land_ones by lia.
  rewrite !Z.mod_small by lia.
  rewrite u32_small, Z.lor_comm, lor_shiftl_add; [done|lia|done|].
  rewrite Z.shiftl_mul_pow2 by lia. rewrite pow_bits_split.
  assert (0 < 2 ^ bits) by (apply Z.pow_pos_nonneg; lia). nia.
Qed.

Lemma make_asserts_ok i g :
  0 <= i < 2 ^ bits -> 0 <= g < 2 ^ (32 - bits) -> make_asserts cap i g = true.
Proof.
  intros Hi Hg. unfold make_asserts. rewrite INDEX_MASK_eq, GEN_MASK_eq, !Z.ones_equiv.
  apply andb_true_intro. split; apply Z.leb_le; lia.
Qed.

Lemma make_u32 i g :
  0 <= i < 2 ^ bits -> 0 <= g < 2 ^ (32 - bits) -> 0 <= make cap i g < 2 ^ 32.
Proof.
  intros Hi Hg. rewrite make_eq by done. rewrite pow_bits_split.
  pose proof pow_bits_bounds. nia.
Qed.

Lemma index_make i g :
  0 <= i < 2 ^ bits -> 0 <= g < 2 ^ (32 - bits) -> index cap (make cap i g) = i.
Proof.
  intros Hi Hg. rewrite index_mod, make_eq, Z.mod_add by lia.
  by apply Z.mod_small.
Qed.

Lemma gen_make i g :
  0 <= i < 2 ^ bits -> 0 <= g < 2 ^ (32 - bits) -> gen cap (make cap i g) = g.
Proof.
  intros Hi Hg. rewrite gen_mod, make_eq, Z.div_add by lia.
  rewrite Z.div_small, Z.add_0_l by lia. by apply Z.mod_small.
Qed.

(** Every 32-bit value is a handle: its slot and generation give it back. *)
Lemma make_index_gen v :
  0 <= v < 2 ^ 32 -> make cap (index cap v) (gen cap v) = v.
Proof.
  intros Hv. pose proof (index_range v). pose proof (gen_range v).
  assert (Hc := @cap_pow2 _ _ SC). rewrite make_eq by lia.
  rewrite index_mod, gen_mod. pose proof pow_bits_bounds.
  rewrite (Z.mod_small (v / 2 ^ bits)).
  - rewrite Z.mul_comm, Z.add_comm. symmetry. apply Z.div_mod. lia.
  - split; [apply Z.div_pos; lia|]. apply Z.div_lt_upper_bound; [lia|].
    rewrite <- pow_bits_split. lia.
Qed.

(** The generation after [g]: it counts up and skips 0 when it wraps. *)
Definition succ_gen (g : Z) : Z := if g =? 2 ^ (32 - bits) - 1 then 1 else g + 1.

Lemma nextGen_make v :
  0 <= v < 2 ^ 32 -> nextGen cap v = make cap (index cap v) (succ_gen (gen cap v)).
Proof.
  intros Hv. unfold nextGen, succ_gen. cbv zeta.
  pose proof (gen_range v) as Hg. pose proof (index_range v) as Hi.
  pose proof pow_bits_bounds as Hp. assert (Hc := @cap_pow2 _ _ SC).
  assert (Hb := @cap_bits _ _ SC).
  set (g := gen cap v) in *. rewrite (u32_small (g + 1)) by lia.
  rewrite GEN_MASK_eq, Z.land_ones by lia.
  assert (Hsum : forall h, 0 <= h < 2 ^ (32 - bits) ->
    Z.lor (Z.land v INDEX_MASK) (u32 (Z.shiftl h (IndexBits cap))) = make cap (index cap v) h).
  { intros h Hh. rewrite make_eq by lia. fold (index cap v).
    rewrite IndexBits_eq, u32_small, lor_shiftl_add; [done|lia|lia|].
    rewrite Z.shiftl_mul_pow2, pow_bits_split by lia. nia. }
  destruct (Z.eqb_spec g (2 ^ (32 - bits) - 1)) as [->|Hne].
  - replace (2 ^ (32 - bits) - 1 + 1) with (2 ^ (32 - bits)) by lia.
    rewrite Z.mod_same by lia. simpl. apply Hsum. lia.
  - rewrite Z.mod_small by lia. destruct (Z.eqb_spec (g + 1) 0); [lia|].
    apply Hsum. lia.
Qed.

Lemma succ_gen_range g :
  0 <= g < 2 ^ (32 - bits) -> 1 <= succ_gen g < 2 ^ (32 - bits).
Proof. intros. unfold succ_gen. pose proof pow_bits_bounds. case_test; lia. Qed.

Lemma nextGen_u32 v : 0 <= v < 2 ^ 32 -> 0 <= nextGen cap v < 2 ^ 32.
Proof.
  intros Hv. rewrite nextGen_make by done. pose proof (index_range v).
  pose proof (succ_gen_range _ (gen_range v)). assert (Hc := @cap_pow2 _ _ SC).
  apply make_u32; lia.
Qed.

Lemma index_nextGen v : 0 <= v < 2 ^ 32 -> index cap (nextGen cap v) = index cap v.
Proof.
  intros Hv. rewrite nextGen_make by done. pose proof (index_range v).
  pose proof (succ_gen_range _ (gen_range v)). assert (Hc := @cap_pow2 _ _ SC).
  apply index_make; lia.
Qed.

Lemma gen_nextGen v : 0 <= v < 2 ^ 32 -> gen cap (nextGen cap v) = succ_gen (gen cap v).
Proof.
  intros Hv. rewrite nextGen_make by done. pose proof (index_range v).
  pose proof (succ_gen_range _ (gen_range v)). assert (Hc := @cap_pow2 _ _ SC).
  apply gen_make; lia.
Qed.

Lemma isValid_gen v : isValid cap v = true <-> gen cap v <> 0.
Proof. unfold isValid. case_test; naive_solver. Qed.

Lemma nextGen_valid v : 0 <= v < 2 ^ 32 -> isValid cap (nextGen cap v) = true.
Proof.
  intros Hv. apply isValid_gen. rewrite gen_nextGen by done.
  pose proof (succ_gen_range _ (gen_range v)). lia.
Qed.

Lemma invalid_not_valid : isValid cap invalid = false.
Proof.
  unfold isValid, gen, invalid. by rewrite Z.shiftr_0_l, Z.land_0_l.
Qed.

(** [n] calls of [nextGen]. *)
Definition nextGens (n : nat) (v : Z) : Z := Nat.iter n (nextGen cap) v.

Lemma nextGens_facts n v :
  0 <= v < 2 ^ 32 -> gen cap v <> 0 ->
  0 <= nextGens n v < 2 ^ 32 /\ index cap (nextGens n v) = index cap v /\
  gen cap (nextGens n v) = (gen cap v - 1 + Z.of_nat n) mod (2 ^ (32 - bits) - 1) + 1.
Proof.
  intros Hv Hg. pose proof (gen_range v). pose proof pow_bits_bounds.
  induction n as [|n IH].
  - simpl. rewrite Z.add_0_r, Z.mod_small by lia. repeat split; lia.
  - destruct IH as (Hr & Hi & Hgn). simpl. fold (nextGens n v).
    rewrite index_nextGen, gen_nextGen by done. split; [by apply nextGen_u32|].
    split; [done|]. rewrite Hgn. unfold succ_gen.
    set (m := 2 ^ (32 - bits) - 1) in *.
    set (x := gen cap v - 1 + Z.of_nat n).
    replace (gen cap v - 1 + Z.of_nat (S n)) with (x + 1) by (unfold x; lia).
    replace (2 ^ (32 - bits) - 1) with m by done.
    assert (Hm := Z.mod_pos_bound x m ltac:(lia)).
    rewrite <- (Z.add_mod_idemp_l x 1 m) by lia.
    destruct (Z.eqb_spec (x mod m + 1) m) as [E|E].
    + rewrite E, Z.mod_same by lia. lia.
    + rewrite (Z.mod_small (x mod m + 1)) by lia. lia.
Qed.
End Laws.

End SlotId.

(** Packing a slot and a generation into a handle and reading them back
    are inverse to each other, in both directions, for every capacity the
    class accepts; the asserts of [make] hold on every such pair. *)
Theorem slot_id_roundtrip cap bits (SC : SlotId.SlotCapacity cap bits) :
  (forall i g, 0 <= i < cap -> 0 <= g < 2 ^ (32 - bits) ->
     SlotId.make_asserts cap i g = true /\
     SlotId.index cap (SlotId.make cap i g) = i /\
     SlotId.gen cap (SlotId.make cap i g) = g) /\
  (forall v, 0 <= v < 2 ^ 32 ->
     SlotId.make cap (SlotId.index cap v) (SlotId.gen cap v) = v).
Proof.
  assert (Hc := @SlotId.cap_pow2 _ _ SC). split; [intros i g Hi Hg|intros v Hv].
  - rewrite Hc in Hi. split; [by eapply SlotId.make_asserts_ok|].
    split; [by eapply SlotId.index_make|by eapply SlotId.gen_make].
  - by eapply SlotId.make_index_gen.
Qed.

#[export] Instance slot_capacity_24 : SlotId.SlotCapacity (2 ^ 24) 24.
Proof. split; lia. Qed.

#[export] Instance slot_capacity_17 : SlotId.SlotCapacity (2 ^ 17) 17.
Proof. split; lia. Qed.

#[export] Instance slot_capacity_10 : SlotId.SlotCapacity (2 ^ 10) 10.
Proof. split; lia. Qed.

Lemma slot_id_roundtrip_witness :
  SlotId.index (2 ^ 17) (SlotId.make (2 ^ 17) 5 3) = 5 /\
  SlotId.make (2 ^ 17) (SlotId.index (2 ^ 17) 393221) (SlotId.gen (2 ^ 17) 393221) = 393221.
Proof.
  destruct (slot_id_roundtrip (2 ^ 17) 17 _) as [H1 H2].
  split; [apply (H1 5 3); lia|apply H2; lia].
Defined.

(** Recycling a handle any number of times keeps its slot and keeps it
    valid, and it only repeats an earlier handle after a whole cycle of
    [2^GenBits - 1] generations (the ABA protection the class promises). *)
Theorem next_gen_aba cap bits (SC : SlotId.SlotCapacity cap bits) v n :
  0 <= v < 2 ^ 32 -> SlotId.isValid cap v = true ->
  SlotId.index cap (SlotId.nextGens cap n v) = SlotId.index cap v /\
  SlotId.isValid cap (SlotId.nextGens cap n v) = true /\
  (SlotId.nextGens cap n v = v <-> Z.of_nat n mod (2 ^ (32 - bits) - 1) = 0).
Proof.
  intros Hv Hval. apply SlotId.isValid_gen in Hval.
  destruct (SlotId.nextGens_facts cap bits n v Hv Hval) as (Hr & Hi & Hg).
  pose proof (SlotId.gen_range cap bits v) as Hgr.
  pose proof (SlotId.pow_bits_bounds cap bits) as Hp.
  set (m := 2 ^ (32 - bits) - 1) in *. set (g := SlotId.gen cap v) in *.
  assert (Hm := Z.mod_pos_bound (g - 1 + Z.of_nat n) m ltac:(lia)).
  split; [done|]. split; [apply SlotId.isValid_gen; lia|].
  rewrite <- (Z.add_mod_idemp_r (g - 1)) in Hg by lia.
  assert (Hn := Z.mod_pos_bound (Z.of_nat n) m ltac:(lia)).
  set (k := Z.of_nat n mod m) in *. split.
  - intros E. rewrite E in Hg. fold g in Hg.
    destruct (Z.lt_ge_cases (g - 1 + k) m) as [Hlt|Hge].
    + rewrite Z.mod_small in Hg by lia. lia.
    + replace (g - 1 + k) with (g - 1 + k - m + 1 * m) in Hg by lia.
      rewrite Z.mod_add, Z.mod_small in Hg by lia. lia.
  - intros Hk. rewrite Hk, Z.add_0_r, Z.mod_small in Hg by lia.
    rewrite <- (SlotId.make_index_gen cap bits (SlotId.nextGens cap n v)) by done.
    rewrite Hi, Hg, Z.sub_add. unfold g. by apply (SlotId.make_index_gen cap bits).
Qed.

Lemma next_gen_aba_witness :
  SlotId.nextGens (2 ^ 24) 3 (SlotId.make (2 ^ 24) 7 254) <> SlotId.make (2 ^ 24) 7 254 /\
  SlotId.index (2 ^ 24) (SlotId.nextGens (2 ^ 24) 3 (SlotId.make (2 ^ 24) 7 254)) = 7.
Proof.
  destruct (next_gen_aba (2 ^ 24) 24 _ (SlotId.make (2 ^ 24) 7 254) 3)
    as (H1 & _ & H3); [vm_compute; split; congruence|reflexivity|].
  split; [|rewrite H1; reflexivity].
  intros E. apply H3 in E. vm_compute in E. discriminate E.
Defined.
