(* ===== verification/Types.v ===== *)
(** * Domain types

    The data of common/src/types (domain_types.hpp, ticker.hpp,
    status_code.hpp, io_result.hpp, internal_error.hpp, constants.hpp),
    server/src/schema.hpp and the server-side wrappers of
    server/src/domain and server/src/gateway.  Quantities, prices and
    identifiers are 32-bit values, kept as [Z]. *)

From Stdlib Require Import Ascii.
From S2P Require Import Prelude SlotId.

(** ** Build constants (constants.hpp): the [CICD] and the default build *)

Class Build := {
  SYSTEM_ORDER_BITS : Z;
  BOOK_ORDER_BITS : Z;
  TICK_BITS : Z
}.

Definition build_cicd : Build :=
  {| SYSTEM_ORDER_BITS := 17; BOOK_ORDER_BITS := 10; TICK_BITS := 7 |}.

Definition build_default : Build :=
  {| SYSTEM_ORDER_BITS := 24; BOOK_ORDER_BITS := 17; TICK_BITS := 13 |}.

Definition MAX_SYSTEM_ORDERS `{Build} : Z := Z.shiftl 1 SYSTEM_ORDER_BITS.
Definition MAX_BOOK_ORDERS `{Build} : Z := Z.shiftl 1 BOOK_ORDER_BITS.
Definition MAX_TICKS `{Build} : Z := Z.shiftl 1 TICK_BITS.

(** What the theorems need of the constants; both builds satisfy it. *)
Class BuildOk (b : Build) : Prop := {
  system_bits_range : 1 <= SYSTEM_ORDER_BITS < 32;
  book_bits_range : 1 <= BOOK_ORDER_BITS < 32;
  tick_bits_range : 1 <= TICK_BITS < 31
}.

#[export] Instance build_cicd_ok : BuildOk build_cicd.
Proof. split; simpl; lia. Qed.

#[export] Instance build_default_ok : BuildOk build_default.
Proof. split; simpl; lia. Qed.

(** ** Tickers (ticker.hpp) *)

Definition TICKER_SIZE : nat := 4.

(** [std::array<char, 4>]. *)
Abbreviation Ticker := (list ascii).

(** [Ticker ticker{}; memcpy(ticker.data(), str.data(), min(str.size(), 4))] *)
Definition makeTicker (str : list ascii) : Ticker :=
  let n := Nat.min (length str) TICKER_SIZE in
  take n str ++ replicate (TICKER_SIZE - n) zero.

(** The little-endian word the four bytes are copied into. *)
Definition ticker_word (t : Ticker) : Z :=
  foldr (fun c acc => Z.of_N (N_of_ascii c) + 256 * acc) 0 t.

(** [static_cast<size_t>(val * 2654435761u)]: a 32-bit product. *)
Definition TickerHash (t : Ticker) : Z := u32 (ticker_word t * 2654435761).

(** ** Enumerations *)

Inductive OrderAction := Dummy | Buy | Sell | Modify | Cancel.

Inductive OrderState := Accepted | Rejected | Cancelled | Partial | Full.

Inductive StatusCode := SOk | SError | DbError | AuthUserNotFound | AuthInvalidPassword.

Inductive IoStatus := IoOk | WouldBlock | Closed | IoError.

#[export] Instance OrderAction_eq_dec : EqDecision OrderAction.
Proof. solve_decision. Defined.

#[export] Instance OrderState_eq_dec : EqDecision OrderState.
Proof. solve_decision. Defined.

#[export] Instance StatusCode_eq_dec : EqDecision StatusCode.
Proof. solve_decision. Defined.

#[export] Instance IoStatus_eq_dec : EqDecision IoStatus.
Proof. solve_decision. Defined.

(** The underlying [uint8_t] values: an action is a bit flag. *)
Definition OrderAction_value (a : OrderAction) : Z :=
  match a with
  | Dummy => 0
  | Buy => Z.shiftl 1 0
  | Sell => Z.shiftl 1 1
  | Modify => Z.shiftl 1 2
  | Cancel => Z.shiftl 1 3
  end.

Definition OrderState_value (s : OrderState) : Z :=
  match s with Accepted => 0 | Rejected => 1 | Cancelled => 2 | Partial => 3 | Full => 4 end.

Definition toString_OrderState (s : OrderState) : string :=
  match s with
  | Accepted => "Accepted"
  | Rejected => "Rejected"
  | Cancelled => "Cancelled"
  | Partial => "Partial"
  | Full => "Full"
  end.

Definition toString_OrderAction (a : OrderAction) : string :=
  match a with
  | Dummy => "Dummy"
  | Buy => "Buy"
  | Sell => "Sell"
  | Modify => "Modify"
  | Cancel => "Cancel"
  end.

Definition toString_StatusCode (c : StatusCode) : string :=
  match c with
  | SOk => "Ok"
  | SError => "Error"
  | DbError => "DbError"
  | AuthUserNotFound => "AuthUserNotFound"
  | AuthInvalidPassword => "AuthInvalidPassword"
  end.

Definition toString_IoStatus (s : IoStatus) : string :=
  match s with
  | IoOk => "Ok"
  | WouldBlock => "WouldBlock"
  | Closed => "Closed"
  | IoError => "Error"
  end.

(** ** Messages (domain_types.hpp) *)

Record LoginRequest := mkLoginRequest { lr_name : string; lr_password : string }.

Record TokenBindRequest := mkTokenBindRequest { tbr_token : Z }.

Record LoginResponse := mkLoginResponse { lresp_token : Z; lresp_ok : bool; lresp_error : string }.

Record Order := mkOrder {
  o_id : Z;
  o_ticker : Ticker;
  o_quantity : Z;
  o_price : Z;
  o_action : OrderAction
}.

Record OrderStatus := mkOrderStatus {
  os_orderId : Z;
  os_systemOrderId : Z;
  os_quantity : Z;
  os_fillPrice : Z;
  os_state : OrderState
}.

Record TickerPrice := mkTickerPrice { tp_ticker : Ticker; tp_price : Z }.

(** internal_error.hpp *)
Record InternalError := mkInternalError { ie_code : StatusCode; ie_what : string }.

(** io_result.hpp *)
Record IoResult := mkIoResult { io_bytes : Z; io_code : IoStatus }.

(** [explicit operator bool] *)
Definition io_ok (r : IoResult) : bool := bool_decide (io_code r = IoOk).

(** ** Server-side messages *)

(** schema.hpp: [SystemOrderId] and [BookOrderId] are raw [SlotId] values. *)
Abbreviation SystemOrderId := Z (only parsing).
Abbreviation BookOrderId := Z (only parsing).

(** gateway/internal_order.hpp *)
Record InternalOrder := mkInternalOrder {
  io_id : SystemOrderId;
  io_bookOId : BookOrderId;
  io_quantity : Z;
  io_price : Z
}.

Definition partialFill (o : InternalOrder) (fill : Z) : InternalOrder :=
  {| io_id := io_id o; io_bookOId := io_bookOId o;
     io_quantity := if io_quantity o <? fill then 0 else io_quantity o - fill;
     io_price := io_price o |}.

Definition isFilled (o : InternalOrder) : bool := io_quantity o =? 0.

(** The [data] pointer into the market data is resolved by the coordinator
    and is not part of the event here. *)
Record InternalOrderEvent := mkInternalOrderEvent {
  ioe_order : InternalOrder;
  ioe_ticker : Ticker;
  ioe_action : OrderAction
}.

(** gateway/internal_order_status.hpp *)
Record InternalOrderStatus := mkInternalOrderStatus {
  ios_id : SystemOrderId;
  ios_bookOId : BookOrderId;
  ios_fillQty : Z;
  ios_fillPrice : Z;
  ios_state : OrderState
}.

(** domain/server_order_messages.hpp *)
Record ServerOrder := mkServerOrder { so_clientId : Z; so_order : Order }.

Record ServerOrderStatus := mkServerOrderStatus {
  sos_clientId : Z;
  sos_orderStatus : OrderStatus
}.

#[export] Instance InternalOrderStatus_eq_dec : EqDecision InternalOrderStatus.
Proof. solve_decision. Defined.

#[export] Instance InternalError_eq_dec : EqDecision InternalError.
Proof. solve_decision. Defined.

#[export] Instance Order_eq_dec : EqDecision Order.
Proof. solve_decision. Defined.

#[export] Instance OrderStatus_eq_dec : EqDecision OrderStatus.
Proof. solve_decision. Defined.

#[export] Instance TickerPrice_eq_dec : EqDecision TickerPrice.
Proof. solve_decision. Defined.

#[export] Instance LoginRequest_eq_dec : EqDecision LoginRequest.
Proof. solve_decision. Defined.

#[export] Instance TokenBindRequest_eq_dec : EqDecision TokenBindRequest.
Proof. solve_decision. Defined.

#[export] Instance LoginResponse_eq_dec : EqDecision LoginResponse.
Proof. solve_decision. Defined.

#[export] Instance IoResult_eq_dec : EqDecision IoResult.
Proof. solve_decision. Defined.

(** A value of an unsigned 32-bit field. *)
Definition is_u32 (x : Z) : Prop := 0 <= x < 2 ^ 32.
Definition is_u64 (x : Z) : Prop := 0 <= x < 2 ^ 64.

(** ** Facts *)

Section build_facts.
Context `{B : Build} `{BO : !BuildOk B}.

#[export] Instance book_slot_capacity : SlotId.SlotCapacity MAX_BOOK_ORDERS BOOK_ORDER_BITS.
Proof.
  destruct BO. split; [|done]. unfold MAX_BOOK_ORDERS. by rewrite Z.shiftl_1_l.
Qed.

#[export] Instance system_slot_capacity : SlotId.SlotCapacity MAX_SYSTEM_ORDERS SYSTEM_ORDER_BITS.
Proof.
  destruct BO. split; [|done]. unfold MAX_SYSTEM_ORDERS. by rewrite Z.shiftl_1_l.
Qed.

Lemma max_book_orders_range : 2 <= MAX_BOOK_ORDERS <= 2 ^ 31.
Proof.
  rewrite (@SlotId.cap_pow2 _ _ book_slot_capacity). destruct BO.
  assert (2 ^ 1 <= 2 ^ BOOK_ORDER_BITS) by (apply Z.pow_le_mono_r; lia).
  assert (2 ^ BOOK_ORDER_BITS <= 2 ^ 31) by (apply Z.pow_le_mono_r; lia). lia.
Qed.

Lemma max_ticks_range : 2 <= MAX_TICKS <= 2 ^ 30.
Proof.
  unfold MAX_TICKS. rewrite Z.shiftl_1_l. destruct BO.
  assert (2 ^ 1 <= 2 ^ TICK_BITS) by (apply Z.pow_le_mono_r; lia).
  assert (2 ^ TICK_BITS <= 2 ^ 30) by (apply Z.pow_le_mono_r; lia). lia.
Qed.
End build_facts.

Lemma makeTicker_length str : length (makeTicker str) = TICKER_SIZE.
Proof.
  unfold makeTicker. rewrite length_app, length_take, length_replicate. lia.
Qed.

Lemma ticker_word_range t : 0 <= ticker_word t < 256 ^ Z.of_nat (length t).
Proof.
  induction t as [|c t IH]; cbn [ticker_word foldr length]; [lia|].
  fold (ticker_word t). assert (Hc := N_ascii_bounded c).
  rewrite Nat2Z.inj_succ, Z.pow_succ_r by lia. lia.
Qed.

Lemma ticker_word_inj t1 t2 :
  length t1 = length t2 -> ticker_word t1 = ticker_word t2 -> t1 = t2.
Proof.
  revert t2. induction t1 as [|c t1 IH]; intros [|d t2] Hl Hw; try done.
  cbn [ticker_word foldr] in Hw. fold (ticker_word t1) (ticker_word t2) in Hw.
  assert (Hc := N_ascii_bounded c). assert (Hd := N_ascii_bounded d).
  assert (E : Z.of_N (N_of_ascii c) = Z.of_N (N_of_ascii d)) by lia.
  f_equal.
  - apply N2Z.inj in E. rewrite <- (ascii_N_embedding c), <- (ascii_N_embedding d). by f_equal.
  - apply IH; [simpl in Hl; lia|lia].
Qed.
