(* ===== verification/PriceLevelBook.v ===== *)
(** * The price-level order book: definitions

    Models [PriceLevelOrderBook]
    (server/src/execution/orderbook/price_level_order_book.hpp), the matching
    engine of the server: a pool of order nodes linked into one FIFO queue
    per price and side, occupancy bit masks for best-price discovery, and a
    free stack of recycled [BookOrderId]s.

    Every array access goes through [HugeArray.get]/[HugeArray.set], so an
    index outside an array is a fault; the messages posted to the
    [consumer] are returned in order.  Nodes, levels and masks are updated in
    place, as the code does through references. *)

From S2P Require Import Prelude SlotId HugeArray Types.

Module Book.

Inductive Side := SBuy | SSell.

#[export] Instance Side_eq_dec : EqDecision Side.
Proof. solve_decision. Defined.

Record Node := mkNode {
  nd_next : Z;
  nd_prev : Z;
  nd_price : Z;
  nd_qty : Z;
  nd_localId : BookOrderId;
  nd_systemId : SystemOrderId;
  nd_side : Side
}.

#[export] Instance Node_zeroed : Zeroed Node := mkNode 0 0 0 0 0 0 SBuy.

Record PriceLevelSide := mkLevelSide { ls_volume : Z; ls_head : Z; ls_tail : Z }.

Record PriceLevel := mkLevel { lv_bid : PriceLevelSide; lv_ask : PriceLevelSide }.

#[export] Instance PriceLevel_zeroed : Zeroed PriceLevel :=
  mkLevel (mkLevelSide 0 0 0) (mkLevelSide 0 0 0).

(** [BestPrice{price, exists}]. *)
Record BestPrice := mkBestPrice { bp_price : Z; bp_exists : bool }.

(** What the book posts to its consumer. *)
Inductive Msg :=
| PostStatus (s : InternalOrderStatus)
| PostError (e : InternalError).

#[export] Instance Msg_eq_dec : EqDecision Msg.
Proof. solve_decision. Defined.

Section Book.
Context `{B : Build}.

Definition MASK_SIZE : Z := MAX_TICKS / 64 + 1.

Record State := mkState {
  nodePool_ : gmap Z Node;
  levels_ : gmap Z PriceLevel;
  bidMask_ : gmap Z Z;
  askMask_ : gmap Z Z;
  freeStack_ : gmap Z BookOrderId;
  freeTop_ : Z;
  nextAvailableIdx_ : Z;
  minAsk_ : Z;
  maxBid_ : Z
}.

(** ** Field updates *)

Definition set_nodePool (s : State) v : State :=
  mkState v (levels_ s) (bidMask_ s) (askMask_ s) (freeStack_ s) (freeTop_ s)
    (nextAvailableIdx_ s) (minAsk_ s) (maxBid_ s).
Definition set_levels (s : State) v : State :=
  mkState (nodePool_ s) v (bidMask_ s) (askMask_ s) (freeStack_ s) (freeTop_ s)
    (nextAvailableIdx_ s) (minAsk_ s) (maxBid_ s).
Definition set_mask (s : State) (sd : Side) v : State :=
  match sd with
  | SBuy => mkState (nodePool_ s) (levels_ s) v (askMask_ s) (freeStack_ s) (freeTop_ s)
      (nextAvailableIdx_ s) (minAsk_ s) (maxBid_ s)
  | SSell => mkState (nodePool_ s) (levels_ s) (bidMask_ s) v (freeStack_ s) (freeTop_ s)
      (nextAvailableIdx_ s) (minAsk_ s) (maxBid_ s)
  end.
Definition set_free (s : State) st top : State :=
  mkState (nodePool_ s) (levels_ s) (bidMask_ s) (askMask_ s) st top
    (nextAvailableIdx_ s) (minAsk_ s) (maxBid_ s).
Definition set_nextAvailableIdx (s : State) v : State :=
  mkState (nodePool_ s) (levels_ s) (bidMask_ s) (askMask_ s) (freeStack_ s) (freeTop_ s)
    v (minAsk_ s) (maxBid_ s).
Definition set_minAsk (s : State) v : State :=
  mkState (nodePool_ s) (levels_ s) (bidMask_ s) (askMask_ s) (freeStack_ s) (freeTop_ s)
    (nextAvailableIdx_ s) v (maxBid_ s).
Definition set_maxBid (s : State) v : State :=
  mkState (nodePool_ s) (levels_ s) (bidMask_ s) (askMask_ s) (freeStack_ s) (freeTop_ s)
    (nextAvailableIdx_ s) (minAsk_ s) v.

Definition mask (s : State) (sd : Side) : gmap Z Z :=
  match sd with SBuy => bidMask_ s | SSell => askMask_ s end.

Definition level_side (l : PriceLevel) (sd : Side) : PriceLevelSide :=
  match sd with SBuy => lv_bid l | SSell => lv_ask l end.

Definition set_level_side (l : PriceLevel) (sd : Side) (x : PriceLevelSide) : PriceLevel :=
  match sd with
  | SBuy => mkLevel x (lv_ask l)
  | SSell => mkLevel (lv_bid l) x
  end.

Definition set_qty (n : Node) v := mkNode (nd_next n) (nd_prev n) (nd_price n) v
  (nd_localId n) (nd_systemId n) (nd_side n).
Definition set_next (n : Node) v := mkNode v (nd_prev n) (nd_price n) (nd_qty n)
  (nd_localId n) (nd_systemId n) (nd_side n).
Definition set_prev (n : Node) v := mkNode (nd_next n) v (nd_price n) (nd_qty n)
  (nd_localId n) (nd_systemId n) (nd_side n).

(** [nodePool_[i]], [levels_[p].bid/.ask], and writes through references to
    them. *)
Definition get_node (s : State) (i : Z) : res Node :=
  HugeArray.get MAX_BOOK_ORDERS (nodePool_ s) i.

Definition put_node (s : State) (i : Z) (n : Node) : res State :=
  let! np := HugeArray.set MAX_BOOK_ORDERS (nodePool_ s) i n in Ok (set_nodePool s np).

Definition get_level (s : State) (p : Z) (sd : Side) : res PriceLevelSide :=
  let! l := HugeArray.get MAX_TICKS (levels_ s) p in Ok (level_side l sd).

Definition put_level (s : State) (p : Z) (sd : Side) (x : PriceLevelSide) : res State :=
  let! l := HugeArray.get MAX_TICKS (levels_ s) p in
  let! ls := HugeArray.set MAX_TICKS (levels_ s) p (set_level_side l sd x) in
  Ok (set_levels s ls).

(** ** Construction and [clear] *)

Definition init : State :=
  mkState HugeArray.alloc HugeArray.alloc HugeArray.alloc HugeArray.alloc
    HugeArray.alloc 0 1 MAX_TICKS 0.

Definition clear (s : State) : State :=
  mkState (HugeArray.clear (nodePool_ s)) (HugeArray.clear (levels_ s)) ∅ ∅
    (freeStack_ s) 0 1 MAX_TICKS 0.

(** ** Identifiers *)

Definition acquireId (s : State) : res (State * BookOrderId) :=
  if 0 <? freeTop_ s then
    let top := freeTop_ s - 1 in
    let! id := HugeArray.get MAX_BOOK_ORDERS (freeStack_ s) top in
    Ok (set_free s (freeStack_ s) top, id)
  else if MAX_BOOK_ORDERS <=? nextAvailableIdx_ s then
    Ok (s, SlotId.invalid)
  else
    Ok (set_nextAvailableIdx s (u32 (nextAvailableIdx_ s + 1)),
        SlotId.make MAX_BOOK_ORDERS (nextAvailableIdx_ s) 1).

Definition releaseId (s : State) (idx : BookOrderId) : res State :=
  let idx := SlotId.nextGen MAX_BOOK_ORDERS idx in
  let! st := HugeArray.set MAX_BOOK_ORDERS (freeStack_ s) (freeTop_ s) idx in
  Ok (set_free s st (u32 (freeTop_ s + 1))).

Definition getSide (action : OrderAction) : Side :=
  match action with Buy => SBuy | _ => SSell end.

(** ** Best-price discovery *)

(** [for (int i = startWord; i >= 0; --i)]: the counter is the [nat]. *)
Fixpoint findNewMaxBid_loop (s : State) (i : nat) : res State :=
  let! w := HugeArray.get MASK_SIZE (bidMask_ s) (Z.of_nat i) in
  if negb (w =? 0) then
    Ok (set_maxBid s (Z.shiftl (Z.of_nat i) 6 + (63 - clzll w)))
  else
    match i with
    | O => Ok (set_maxBid s 0)
    | S j => findNewMaxBid_loop s j
    end.

Definition findNewMaxBid (s : State) (startWord : Z) : res State :=
  findNewMaxBid_loop s (Z.to_nat startWord).

(** [for (i = startWord; i < MASK_SIZE; ++i)]: [n] iterations are left. *)
Fixpoint findNewMinAsk_loop (s : State) (n : nat) (i : Z) : res State :=
  match n with
  | O => Ok (set_minAsk s MAX_TICKS)
  | S n =>
      let! w := HugeArray.get MASK_SIZE (askMask_ s) i in
      if negb (w =? 0) then
        Ok (set_minAsk s (Z.shiftl i 6 + ctzll w))
      else findNewMinAsk_loop s n (i + 1)
  end.

Definition findNewMinAsk (s : State) (startWord : Z) : res State :=
  findNewMinAsk_loop s (Z.to_nat (MASK_SIZE - startWord)) startWord.

Definition updateOccupancy (s : State) (sd : Side) (priceIdx : Z) (active : bool) : res State :=
  let wordIdx := Z.shiftr priceIdx 6 in
  let bit := Z.shiftl 1 (Z.land priceIdx 63) in
  let! level := get_level s priceIdx sd in
  let volume := ls_volume level in
  let! w := HugeArray.get MASK_SIZE (mask s sd) wordIdx in
  if active then
    let! m := HugeArray.set MASK_SIZE (mask s sd) wordIdx (Z.lor w bit) in
    let s := set_mask s sd m in
    match sd with
    | SBuy => Ok (set_maxBid s (Z.max (maxBid_ s) priceIdx))
    | SSell => Ok (set_minAsk s (Z.min (minAsk_ s) priceIdx))
    end
  else
    let! m := (if volume =? 0
               then HugeArray.set MASK_SIZE (mask s sd) wordIdx (Z.land w (not64 bit))
               else Ok (mask s sd)) in
    let s := set_mask s sd m in
    match sd with
    | SBuy => if priceIdx =? maxBid_ s then findNewMaxBid s wordIdx else Ok s
    | SSell => if priceIdx =? minAsk_ s then findNewMinAsk s wordIdx else Ok s
    end.

(** [for (i = startWord; i <= maxWord; ++i)]: [n] iterations are left. *)
Fixpoint getBestAsk_loop (s : State) (limitPrice : Z) (n : nat) (i : Z) : res BestPrice :=
  match n with
  | O => Ok (mkBestPrice 0 false)
  | S n =>
      let! w := HugeArray.get MASK_SIZE (askMask_ s) i in
      if negb (w =? 0) then
        let p := Z.shiftl i 6 + ctzll w in
        if p <=? limitPrice then
          let! level := get_level s p SSell in
          if negb (ls_head level =? 0) then Ok (mkBestPrice p true)
          else Ok (mkBestPrice 0 false)
        else Ok (mkBestPrice 0 false)
      else getBestAsk_loop s limitPrice n (i + 1)
  end.

Definition getBestAsk (s : State) (limitPrice : Z) : res BestPrice :=
  let startWord := Z.shiftr (minAsk_ s) 6 in
  let maxWord := Z.shiftr limitPrice 6 in
  getBestAsk_loop s limitPrice (Z.to_nat (maxWord - startWord + 1)) startWord.

(** [for (int i = startWord; i >= minWord; --i)]: [n] iterations are left. *)
Fixpoint getBestBid_loop (s : State) (limitPrice : Z) (n : nat) (i : Z) : res BestPrice :=
  match n with
  | O => Ok (mkBestPrice 0 false)
  | S n =>
      let! w := HugeArray.get MASK_SIZE (bidMask_ s) i in
      if negb (w =? 0) then
        let p := Z.shiftl i 6 + (63 - clzll w) in
        if limitPrice <=? p then
          let! level := get_level s p SBuy in
          if negb (ls_head level =? 0) then Ok (mkBestPrice p true)
          else Ok (mkBestPrice 0 false)
        else Ok (mkBestPrice 0 false)
      else getBestBid_loop s limitPrice n (i - 1)
  end.

Definition getBestBid (s : State) (limitPrice : Z) : res BestPrice :=
  let startWord := Z.shiftr (maxBid_ s) 6 in
  let minWord := Z.shiftr limitPrice 6 in
  getBestBid_loop s limitPrice (Z.to_nat (startWord - minWord + 1)) startWord.

(** ** Matching *)

(** One pass of the inner loop: fill against the head node of the level,
    unlink and recycle it when it is used up. *)
Definition fillHead (s : State) (sd : Side) (price : Z) (level : PriceLevelSide)
    (remainingQty : Z) : res (State * Z) :=
  let head := ls_head level in
  let! restingNode := get_node s head in
  let fillQty := Z.min remainingQty (nd_qty restingNode) in
  let remainingQty := u32 (remainingQty - fillQty) in
  let restingNode := set_qty restingNode (u32 (nd_qty restingNode - fillQty)) in
  let! s := put_node s head restingNode in
  let level := mkLevelSide (u64 (ls_volume level - fillQty)) head (ls_tail level) in
  let! s := put_level s price sd level in
  if nd_qty restingNode =? 0 then
    let next := nd_next restingNode in
    let level := mkLevelSide (ls_volume level) next (ls_tail level) in
    let! s := put_level s price sd level in
    let! s :=
      (if negb (next =? 0) then
         let! nn := get_node s next in put_node s next (set_prev nn 0)
       else
         let! s := put_level s price sd (mkLevelSide (ls_volume level) next 0) in
         updateOccupancy s (nd_side restingNode) price false) in
    let! s := releaseId s (nd_localId restingNode) in
    Ok (s, remainingQty)
  else Ok (s, remainingQty).

(** [while (level.head != 0 && remainingQty > 0)] on the level of the
    resting side [sd] at [price]. *)
Fixpoint drainLevel (fuel : nat) (s : State) (sd : Side) (price remainingQty : Z)
    : res (State * Z) :=
  match fuel with
  | O => Err OutOfFuel
  | S fuel =>
      let! level := get_level s price sd in
      if negb (ls_head level =? 0) && (0 <? remainingQty) then
        let! (s, remainingQty) := fillHead s sd price level remainingQty in
        drainLevel fuel s sd price remainingQty
      else Ok (s, remainingQty)
  end.

(** Enough iterations for both loops: a pass of either uses up at least one
    of the nodes that were ever handed out, or ends the loop. *)
Definition fuel_of (s : State) : nat := S (S (Z.to_nat (nextAvailableIdx_ s))).

Definition opposite (sd : Side) : Side :=
  match sd with SBuy => SSell | SSell => SBuy end.

(** The outer loop of [match]; [side] is the side of the incoming order. *)
Fixpoint match_loop (fuel : nat) (s : State) (o : InternalOrder) (side : Side)
    (remainingQty : Z) : res (State * Z) :=
  match fuel with
  | O => Err OutOfFuel
  | S fuel =>
      if 0 <? remainingQty then
        if match side with
           | SBuy => io_price o <? minAsk_ s
           | SSell => maxBid_ s <? io_price o
           end
        then Ok (s, remainingQty)
        else
          let! bestPrice :=
            match side with
            | SBuy => getBestAsk s (io_price o)
            | SSell => getBestBid s (io_price o)
            end in
          if negb (bp_exists bestPrice) then Ok (s, remainingQty)
          else
            let! level := get_level s (bp_price bestPrice) (opposite side) in
            if ls_head level =? 0 then
              let! s := updateOccupancy s (opposite side) (bp_price bestPrice) false in
              match_loop fuel s o side remainingQty
            else
              let! (s, remainingQty) :=
                drainLevel (fuel_of s) s (opposite side) (bp_price bestPrice) remainingQty in
              match_loop fuel s o side remainingQty
      else Ok (s, remainingQty)
  end.

Definition match_ (s : State) (o : InternalOrder) (side : Side) : res (State * Z) :=
  match_loop (fuel_of s) s o side (io_quantity o).

(** ** Resting, cancelling, adding *)

Definition restOrder (s : State) (o : InternalOrder) (side : Side) (qty : Z)
    : res (State * list Msg) :=
  let! (s, localId) := acquireId s in
  if negb (SlotId.isValid MAX_BOOK_ORDERS localId) then
    Ok (s, [PostError (mkInternalError SError "OrderBook is full")])
  else
    let idx := SlotId.index MAX_BOOK_ORDERS localId in
    let! level := get_level s (io_price o) side in
    let node := mkNode 0 (ls_tail level) (io_price o) qty localId (io_id o) side in
    let! s := put_node s idx node in
    let! s :=
      (if negb (ls_tail level =? 0) then
         let! t := get_node s (ls_tail level) in
         put_node s (ls_tail level) (set_next t idx)
       else
         let! s := put_level s (io_price o) side (mkLevelSide (ls_volume level) idx (ls_tail level)) in
         updateOccupancy s side (io_price o) true) in
    let! level := get_level s (io_price o) side in
    let! s := put_level s (io_price o) side
                (mkLevelSide (u64 (ls_volume level + qty)) (ls_head level) idx) in
    let fillTtl := u32 (io_quantity o - qty) in
    let state := if fillTtl =? 0 then Accepted else Partial in
    Ok (s, [PostStatus (mkInternalOrderStatus (io_id o) localId fillTtl (io_price o) state)]).

(** [nodePool_[node.prev].next = node.next] or [level.head = node.next]. *)
Definition unlinkPrev (s : State) (node : Node) : res State :=
  if negb (nd_prev node =? 0) then
    let! p := get_node s (nd_prev node) in
    put_node s (nd_prev node) (set_next p (nd_next node))
  else
    let! level := get_level s (nd_price node) (nd_side node) in
    put_level s (nd_price node) (nd_side node)
      (mkLevelSide (ls_volume level) (nd_next node) (ls_tail level)).

(** [nodePool_[node.next].prev = node.prev] or [level.tail = node.prev]. *)
Definition unlinkNext (s : State) (node : Node) : res State :=
  if negb (nd_next node =? 0) then
    let! n := get_node s (nd_next node) in
    put_node s (nd_next node) (set_prev n (nd_prev node))
  else
    let! level := get_level s (nd_price node) (nd_side node) in
    put_level s (nd_price node) (nd_side node)
      (mkLevelSide (ls_volume level) (ls_head level) (nd_prev node)).

Definition cancelOrder (s : State) (o : InternalOrder) : res (State * list Msg) :=
  let idx := SlotId.index MAX_BOOK_ORDERS (io_bookOId o) in
  let! node := get_node s idx in
  if negb (nd_localId node =? io_bookOId o) then
    Ok (s, [PostStatus (mkInternalOrderStatus (io_id o) (io_bookOId o) 0 0 Rejected)])
  else
    let! s := unlinkPrev s node in
    let! node := get_node s idx in
    let! s := unlinkNext s node in
    let! node := get_node s idx in
    let! level := get_level s (nd_price node) (nd_side node) in
    let volume := u64 (ls_volume level - nd_qty node) in
    let! s := put_level s (nd_price node) (nd_side node)
                (mkLevelSide volume (ls_head level) (ls_tail level)) in
    let! s := (if volume =? 0
               then updateOccupancy s (nd_side node) (nd_price node) false
               else Ok s) in
    let! s := releaseId s (nd_localId node) in
    Ok (s, [PostStatus (mkInternalOrderStatus (io_id o) (io_bookOId o) 0 0 Cancelled)]).

(** The result of [add]: the book, what it posted, and the returned flag. *)
Definition add (s : State) (ioe : InternalOrderEvent) : res (State * list Msg * bool) :=
  let o := ioe_order ioe in
  match ioe_action ioe with
  | Cancel =>
      let! (s, msgs) := cancelOrder s o in Ok (s, msgs, true)
  | action =>
      let side := getSide action in
      if MAX_TICKS <=? io_price o then Ok (s, [], false)
      else
        let! (s, remainingQty) := match_ s o side in
        if 0 <? remainingQty then
          let! (s, msgs) := restOrder s o side remainingQty in Ok (s, msgs, true)
        else
          Ok (s, [PostStatus (mkInternalOrderStatus (io_id o) SlotId.invalid
                                (io_quantity o) (io_price o) Full)], true)
  end.

(** The calls of [add] in sequence. *)
Fixpoint add_all (s : State) (es : list InternalOrderEvent) : res (State * list Msg) :=
  match es with
  | [] => Ok (s, [])
  | e :: es =>
      let! (s, m1, _) := add s e in
      let! (s, m2) := add_all s es in
      Ok (s, m1 ++ m2)
  end.

End Book.
End Book.
