(* ===== verification/BookSpec.v ===== *)
(** * The order book as price-time priority queues

    The abstract book the price-level order book implements, its reference
    operations, and the representation relation between the two.  The
    abstract book has one FIFO queue of resting orders per side and price;
    an incoming order sweeps the opposite queues from the best price to its
    limit and rests with what is left of it. *)

From S2P Require Import Prelude SlotId HugeArray Types PriceLevelBook.
Import Book.

Module BookSpec.

Record Entry := mkEntry { e_id : BookOrderId; e_sys : SystemOrderId; e_qty : Z }.

#[export] Instance Entry_eq_dec : EqDecision Entry.
Proof. solve_decision. Defined.

Section Spec.
Context `{B : Build}.

(** The free identifiers are a stack, the top first; [a_next] is the lowest
    slot that was never used. *)
Record ABook := mkABook {
  a_queue : Side -> Z -> list Entry;
  a_free : list BookOrderId;
  a_next : Z
}.

Definition idx (e : Entry) : Z := SlotId.index MAX_BOOK_ORDERS (e_id e).

Definition a_init : ABook := mkABook (fun _ _ => []) [] 1.

Definition set_queue (a : ABook) (sd : Side) (p : Z) (l : list Entry) : ABook :=
  mkABook (fun sd' p' => if decide (sd' = sd /\ p' = p) then l else a_queue a sd' p')
    (a_free a) (a_next a).

Definition push_free (a : ABook) (id : BookOrderId) : ABook :=
  mkABook (a_queue a) (SlotId.nextGen MAX_BOOK_ORDERS id :: a_free a) (a_next a).

(** Fill [qty] against a queue, oldest first: the entries used up, what is
    left of the queue, and what is left of [qty]. *)
Fixpoint consume (qty : Z) (l : list Entry) : list Entry * list Entry * Z :=
  match l with
  | [] => ([], [], qty)
  | e :: l' =>
      if qty =? 0 then ([], l, qty)
      else if e_qty e <=? qty then
        let '(used, rest, rem) := consume (qty - e_qty e) l' in (e :: used, rest, rem)
      else ([], mkEntry (e_id e) (e_sys e) (e_qty e - qty) :: l', 0)
  end.

(** Fill [qty] against the queues of side [sd] at the prices [ps], in that
    order, recycling the identifiers of the orders used up. *)
Fixpoint sweep (ps : list Z) (a : ABook) (sd : Side) (qty : Z) : ABook * Z :=
  match ps with
  | [] => (a, qty)
  | p :: ps =>
      if qty =? 0 then (a, qty)
      else match a_queue a sd p with
           | [] => sweep ps a sd qty
           | l =>
               let '(used, rest, rem) := consume qty l in
               sweep ps (foldl push_free (set_queue a sd p rest) (map e_id used)) sd rem
           end
  end.

(** The prices an order with limit [limit] can trade at, best first: asks
    upwards to the limit, bids downwards to it. *)
Definition eligible (resting : Side) (limit : Z) : list Z :=
  match resting with
  | SSell => seqZ 0 (limit + 1)
  | SBuy => reverse (seqZ limit (MAX_TICKS - limit))
  end.

Definition spec_match (a : ABook) (side : Side) (limit qty : Z) : ABook * Z :=
  sweep (eligible (opposite side) limit) a (opposite side) qty.

Definition spec_acquire (a : ABook) : option (ABook * BookOrderId) :=
  match a_free a with
  | id :: fr => Some (mkABook (a_queue a) fr (a_next a), id)
  | [] =>
      if MAX_BOOK_ORDERS <=? a_next a then None
      else Some (mkABook (a_queue a) [] (a_next a + 1),
                 SlotId.make MAX_BOOK_ORDERS (a_next a) 1)
  end.

(** Rest [qty] of an order of total quantity [total] at the end of the queue
    of its price. *)
Definition spec_rest (a : ABook) (side : Side) (sys price total qty : Z) : ABook * list Msg :=
  match spec_acquire a with
  | None => (a, [PostError (mkInternalError SError "OrderBook is full")])
  | Some (a, id) =>
      (set_queue a side price (a_queue a side price ++ [mkEntry id sys qty]),
       [PostStatus (mkInternalOrderStatus sys id (total - qty) price
                      (if total - qty =? 0 then Accepted else Partial))])
  end.

(** A new order: match, then rest or report the fill. *)
Definition spec_new (a : ABook) (side : Side) (o : InternalOrder) : ABook * list Msg :=
  let '(a, rem) := spec_match a side (io_price o) (io_quantity o) in
  if 0 <? rem then spec_rest a side (io_id o) (io_price o) (io_quantity o) rem
  else (a, [PostStatus (mkInternalOrderStatus (io_id o) SlotId.invalid
                          (io_quantity o) (io_price o) Full)]).

(** Withdraw the order [id] from the queue of [sd] at [p]. *)
Definition spec_cancel (a : ABook) (sd : Side) (p : Z) (id : BookOrderId) : ABook :=
  push_free (set_queue a sd p (filter (fun e => e_id e <> id) (a_queue a sd p))) id.

(** ** Well-formed abstract books *)

Definition wf_id (a : ABook) (id : BookOrderId) : Prop :=
  0 <= id < 2 ^ 32 /\ SlotId.gen MAX_BOOK_ORDERS id <> 0 /\
  1 <= SlotId.index MAX_BOOK_ORDERS id < a_next a.

Record AOk (a : ABook) : Prop := {
  a_next_range : 1 <= a_next a <= MAX_BOOK_ORDERS;
  a_prices : forall sd p, a_queue a sd p <> [] -> 0 <= p < MAX_TICKS;
  a_ids : forall sd p e, e ∈ a_queue a sd p -> wf_id a (e_id e);
  a_qtys : forall sd p e, e ∈ a_queue a sd p -> 0 < e_qty e < 2 ^ 32;
  a_nodup : forall sd p, NoDup (map idx (a_queue a sd p));
  a_disjoint : forall sd p e sd' p' e',
    e ∈ a_queue a sd p -> e' ∈ a_queue a sd' p' -> idx e = idx e' ->
    sd = sd' /\ p = p';
  a_free_ids : forall id, id ∈ a_free a -> wf_id a id;
  a_free_nodup : NoDup (map (SlotId.index MAX_BOOK_ORDERS) (a_free a));
  a_free_disjoint : forall sd p e id,
    e ∈ a_queue a sd p -> id ∈ a_free a -> idx e <> SlotId.index MAX_BOOK_ORDERS id
}.

(** ** Representation *)

Definition hd_idx (nxt : Z) (l : list Entry) : Z :=
  match l with [] => nxt | e :: _ => idx e end.

Fixpoint last_idx (prv : Z) (l : list Entry) : Z :=
  match l with [] => prv | e :: l => last_idx (idx e) l end.

(** The nodes of [l] form a doubly linked segment between [prv] and [nxt]. *)
Fixpoint dseg (np : gmap Z Node) (sd : Side) (p prv : Z) (l : list Entry) (nxt : Z) : Prop :=
  match l with
  | [] => True
  | e :: l =>
      HugeArray.at_ np (idx e) =
        mkNode (hd_idx nxt l) prv p (e_qty e) (e_id e) (e_sys e) sd /\
      dseg np sd p (idx e) l nxt
  end.

Definition volume (l : list Entry) : Z := sumZ (map e_qty l).

Definition level_rep (s : State) (sd : Side) (p : Z) (l : list Entry) : Prop :=
  level_side (HugeArray.at_ (levels_ s) p) sd =
    mkLevelSide (volume l) (hd_idx 0 l) (last_idx 0 l) /\
  dseg (nodePool_ s) sd p 0 l 0.

(** The occupancy masks say which prices are in [f]. *)
Record mask_rep (m : gmap Z Z) (f : Z -> bool) : Prop := {
  mask_word : forall w, 0 <= w < MASK_SIZE -> 0 <= HugeArray.at_ m w < 2 ^ 64;
  mask_bit : forall p, 0 <= p < 64 * MASK_SIZE ->
    Z.testbit (HugeArray.at_ m (p / 64)) (p mod 64) = f p
}.

(** [m] is the lowest price of [f], [MAX_TICKS] when there is none. *)
Definition is_min_ask (f : Z -> bool) (m : Z) : Prop :=
  0 <= m <= MAX_TICKS /\ (forall p, p < m -> f p = false) /\
  (f m = true \/ m = MAX_TICKS).

(** [m] is the highest price of [f], 0 when there is none. *)
Definition is_max_bid (f : Z -> bool) (m : Z) : Prop :=
  0 <= m < MAX_TICKS /\ (forall p, m < p -> f p = false) /\
  (f m = true \/ m = 0).

Definition occupied (a : ABook) (sd : Side) (p : Z) : bool :=
  match a_queue a sd p with [] => false | _ => true end.

Record Rep (s : State) (a : ABook) : Prop := {
  rep_wf : AOk a;
  rep_level : forall sd p, 0 <= p < MAX_TICKS -> level_rep s sd p (a_queue a sd p);
  rep_mask : forall sd, mask_rep (mask s sd) (occupied a sd);
  rep_min : is_min_ask (occupied a SSell) (minAsk_ s);
  rep_max : is_max_bid (occupied a SBuy) (maxBid_ s);
  rep_next : nextAvailableIdx_ s = a_next a;
  rep_top : freeTop_ s = Z.of_nat (length (a_free a));
  rep_free : forall k id, reverse (a_free a) !! k = Some id ->
    HugeArray.at_ (freeStack_ s) (Z.of_nat k) = id
}.

End Spec.
End BookSpec.
