(* ===== verification/BookMask.v ===== *)
(** * Occupancy masks and best prices

    The bit masks of the price-level book say exactly which prices have
    resting orders, [findNewMinAsk]/[findNewMaxBid] recompute the best price
    from them, and [getBestAsk]/[getBestBid] find it. *)

From S2P Require Import Prelude SlotId HugeArray Types PriceLevelBook BookSpec.
Import Book BookSpec.

Module BookMask.

(** Setting one price in an occupancy function. *)
Definition upd (f : Z -> bool) (p : Z) (b : bool) : Z -> bool :=
  fun q => if decide (q = p) then b else f q.

Section Mask.
Context `{B : Build} `{BO : !BuildOk B}.

Lemma mask_size_eq : 64 * MASK_SIZE = 64 * (MAX_TICKS / 64) + 64.
Proof. unfold MASK_SIZE. lia. Qed.

Lemma ticks_below_mask p : p <= MAX_TICKS -> p < 64 * MASK_SIZE.
Proof.
  intros. rewrite mask_size_eq.
  pose proof (Z.div_mod MAX_TICKS 64 ltac:(lia)).
  pose proof (Z.mod_pos_bound MAX_TICKS 64 ltac:(lia)). lia.
Qed.

Lemma word_of p : 0 <= p <= MAX_TICKS -> 0 <= p / 64 < MASK_SIZE.
Proof.
  intros Hp. assert (p < 64 * MASK_SIZE) by (apply ticks_below_mask; lia).
  split; [apply Z.div_pos; lia|apply Z.div_lt_upper_bound; lia].
Qed.

Lemma shiftr_6 p : Z.shiftr p 6 = p / 64.
Proof. by rewrite Z.shiftr_div_pow2. Qed.

Lemma land_63 p : Z.land p 63 = p mod 64.
Proof. change 63 with (Z.ones 6). by rewrite Z.land_ones. Qed.

Lemma shiftl_6 i : Z.shiftl i 6 = 64 * i.
Proof. rewrite Z.shiftl_mul_pow2 by lia. lia. Qed.

Lemma div_mod_64 w b : 0 <= b < 64 -> (64 * w + b) / 64 = w /\ (64 * w + b) mod 64 = b.
Proof.
  intros. split.
  - rewrite Z.mul_comm, Z.div_add_l by lia. rewrite Z.div_small; lia.
  - rewrite Z.add_comm, Z.mul_comm, Z.mod_add by lia. apply Z.mod_small. lia.
Qed.

Lemma split_64 p : p = 64 * (p / 64) + p mod 64 /\ 0 <= p mod 64 < 64.
Proof.
  pose proof (Z.div_mod p 64 ltac:(lia)). pose proof (Z.mod_pos_bound p 64 ltac:(lia)). lia.
Qed.

Lemma not64_nonneg x : 0 <= x < 2 ^ 64 -> 0 <= not64 x.
Proof. intros. unfold not64. apply Z.lxor_nonneg. split; intros; [lia|vm_compute; congruence]. Qed.

Lemma bit_range b : 0 <= b < 64 -> 0 <= Z.shiftl 1 b < 2 ^ 64.
Proof.
  intros. rewrite Z.shiftl_1_l. split; [apply Z.pow_nonneg; lia|].
  apply Z.pow_lt_mono_r; lia.
Qed.

Section word.
Context (m : gmap Z Z) (f : Z -> bool) (Hm : mask_rep m f).

Lemma mask_bit_word w b :
  0 <= w < MASK_SIZE -> 0 <= b < 64 ->
  Z.testbit (HugeArray.at_ m w) b = f (64 * w + b).
Proof.
  intros Hw Hb. destruct (div_mod_64 w b Hb) as [E1 E2].
  rewrite <- (mask_bit _ _ Hm (64 * w + b)) by lia. by rewrite E1, E2.
Qed.

Lemma mask_zero_word w :
  0 <= w < MASK_SIZE -> HugeArray.at_ m w = 0 ->
  forall b, 0 <= b < 64 -> f (64 * w + b) = false.
Proof. intros Hw E b Hb. rewrite <- mask_bit_word by done. rewrite E. apply Z.bits_0. Qed.

Lemma mask_upd p w' b :
  0 <= p < 64 * MASK_SIZE -> 0 <= w' < 2 ^ 64 ->
  (forall i, 0 <= i < 64 -> Z.testbit w' i =
     if decide (i = p mod 64) then b else Z.testbit (HugeArray.at_ m (p / 64)) i) ->
  mask_rep (<[p / 64 := w']> m) (upd f p b).
Proof.
  intros Hp Hw' Hbits. split.
  - intros w Hw. rewrite HugeArray.at_set. case_decide; [done|by apply (mask_word _ _ Hm)].
  - intros q Hq. destruct (split_64 p) as [Ep Hpm], (split_64 q) as [Eq Hqm].
    rewrite HugeArray.at_set. unfold upd. case_decide as Hw.
    + rewrite Hbits by done. rewrite Hw.
      destruct (decide (q mod 64 = p mod 64)), (decide (q = p)); try lia; [done|].
      by apply (mask_bit _ _ Hm).
    + rewrite (mask_bit _ _ Hm) by done. case_decide; [congruence|done].
Qed.

Lemma mask_set_on p :
  0 <= p <= MAX_TICKS ->
  mask_rep (<[p / 64 := Z.lor (HugeArray.at_ m (p / 64)) (Z.shiftl 1 (p mod 64))]> m) (upd f p true).
Proof.
  intros Hp. destruct (split_64 p) as [_ Hpm]. pose proof (word_of p Hp) as Hw.
  pose proof (mask_word _ _ Hm _ Hw) as Hword. pose proof (bit_range _ Hpm) as Hbit.
  apply mask_upd.
  - pose proof (ticks_below_mask p). lia.
  - apply word_range_of_bits; [apply Z.lor_nonneg; lia|].
    intros i Hi. rewrite Z.lor_spec, !testbit_high by lia. done.
  - intros i Hi. rewrite Z.lor_spec, testbit_bit by lia.
    case_bool_decide; case_decide; try done; [by rewrite orb_true_r|by rewrite orb_false_r].
Qed.

Lemma mask_set_off p :
  0 <= p <= MAX_TICKS ->
  mask_rep (<[p / 64 := Z.land (HugeArray.at_ m (p / 64)) (not64 (Z.shiftl 1 (p mod 64)))]> m)
    (upd f p false).
Proof.
  intros Hp. destruct (split_64 p) as [_ Hpm]. pose proof (word_of p Hp) as Hw.
  pose proof (mask_word _ _ Hm _ Hw) as Hword. pose proof (bit_range _ Hpm) as Hbit.
  apply mask_upd.
  - pose proof (ticks_below_mask p). lia.
  - apply word_range_of_bits; [apply Z.land_nonneg; lia|].
    intros i Hi. rewrite Z.land_spec, testbit_high by lia. done.
  - intros i Hi. rewrite Z.land_spec, testbit_not64, testbit_bit by lia.
    case_bool_decide; case_decide; try done; [by rewrite andb_false_r|by rewrite andb_true_r].
Qed.
End word.

(** ** Recomputing the best price *)

Section best.
Context (s : State) (f : Z -> bool).

Lemma findNewMinAsk_ok startWord :
  mask_rep (askMask_ s) f ->
  (forall p, f p = true -> 0 <= p < MAX_TICKS) ->
  0 <= startWord < MASK_SIZE ->
  (forall p, p < 64 * startWord -> f p = false) ->
  exists m, findNewMinAsk s startWord = Ok (set_minAsk s m) /\ is_min_ask f m.
Proof.
  intros Hm Hf. unfold findNewMinAsk.
  remember (Z.to_nat (MASK_SIZE - startWord)) as n eqn:Hn. revert startWord Hn.
  induction n as [|n IH]; intros i Hn Hi Hlow; [lia|].
  cbn [findNewMinAsk_loop]. rewrite HugeArray.get_ok by done.
  destruct (Z.eqb_spec (HugeArray.at_ (askMask_ s) i) 0) as [E|E]; simpl.
  - assert (Hlow' : forall p, p < 64 * (i + 1) -> f p = false).
    { intros p Hp. destruct (Z.lt_ge_cases p (64 * i)); [by apply Hlow|].
      replace p with (64 * i + (p - 64 * i)) by lia.
      eapply mask_zero_word; eauto. lia. }
    destruct (Z.eq_dec (i + 1) MASK_SIZE) as [Elast|Hne].
    + assert (n = O) as -> by lia. simpl. exists MAX_TICKS. split; [done|].
      pose proof max_ticks_range. split; [lia|]. split; [|by right].
      intros p Hp. destruct (f p) eqn:Ef; [|done].
      rewrite Hlow' in Ef; [done|]. pose proof (ticks_below_mask p). lia.
    + apply IH; [lia|lia|done].
  - destruct (ctzll_spec (HugeArray.at_ (askMask_ s) i)) as (Hr & Hb & Hlo).
    { pose proof (mask_word _ _ Hm i Hi). lia. }
    rewrite shiftl_6. eexists. split; [done|].
    rewrite (mask_bit_word _ _ Hm) in Hb by done.
    pose proof (Hf _ Hb). split; [lia|]. split; [|by left].
    intros p Hp. destruct (Z.lt_ge_cases p (64 * i)); [by apply Hlow|].
    replace p with (64 * i + (p - 64 * i)) by lia.
    rewrite <- (mask_bit_word _ _ Hm) by lia. apply Hlo. lia.
Qed.

Lemma findNewMaxBid_ok startWord :
  mask_rep (bidMask_ s) f ->
  (forall p, f p = true -> 0 <= p < MAX_TICKS) ->
  0 <= startWord < MASK_SIZE ->
  (forall p, 64 * (startWord + 1) <= p -> f p = false) ->
  exists m, findNewMaxBid s startWord = Ok (set_maxBid s m) /\ is_max_bid f m.
Proof.
  intros Hm Hf. unfold findNewMaxBid. intros Hi Hhigh.
  remember (Z.to_nat startWord) as n eqn:Hn.
  assert (startWord = Z.of_nat n) as -> by lia. clear Hn.
  induction n as [|n IH].
  all: cbn [findNewMaxBid_loop]; rewrite HugeArray.get_ok by done;
    match goal with |- context [HugeArray.at_ (bidMask_ s) ?i =? 0] =>
      destruct (Z.eqb_spec (HugeArray.at_ (bidMask_ s) i) 0) as [E|E] end; simpl.
  2, 4: match goal with E : HugeArray.at_ _ ?i <> 0 |- _ =>
      destruct (clzll_spec (HugeArray.at_ (bidMask_ s) i)) as (Hr & Hb & Hhi);
      [pose proof (mask_word _ _ Hm i Hi); lia|];
      rewrite shiftl_6; eexists; split; [done|];
      rewrite (mask_bit_word _ _ Hm) in Hb by done;
      pose proof (Hf _ Hb); split; [lia|]; split; [|by left];
      intros p Hp; destruct (Z.lt_ge_cases p (64 * (i + 1))); [|by apply Hhigh];
      replace p with (64 * i + (p - 64 * i)) by lia;
      rewrite <- (mask_bit_word _ _ Hm) by lia; apply Hhi; lia end.
  - exists 0. split; [done|]. pose proof max_ticks_range. split; [lia|].
    split; [|by right]. intros p Hp.
    destruct (Z.lt_ge_cases p 64); [|apply Hhigh; lia].
    apply (mask_zero_word _ _ Hm 0 Hi E). lia.
  - apply IH; [|lia]. intros p Hp.
    destruct (Z.lt_ge_cases p (64 * (Z.of_nat (S n) + 1))); [|by apply Hhigh].
    replace p with (64 * Z.of_nat (S n) + (p - 64 * Z.of_nat (S n))) by lia.
    eapply mask_zero_word; eauto. lia.
Qed.
End best.

(** ** [updateOccupancy] *)

Record Occ (s : State) (f : Side -> Z -> bool) : Prop := {
  occ_mask : forall sd, mask_rep (mask s sd) (f sd);
  occ_dom : forall sd p, f sd p = true -> 0 <= p < MAX_TICKS;
  occ_min : is_min_ask (f SSell) (minAsk_ s);
  occ_max : is_max_bid (f SBuy) (maxBid_ s)
}.

(** The fields [updateOccupancy] does not touch. *)
Definition same_core (s s' : State) : Prop :=
  nodePool_ s' = nodePool_ s /\ levels_ s' = levels_ s /\
  freeStack_ s' = freeStack_ s /\ freeTop_ s' = freeTop_ s /\
  nextAvailableIdx_ s' = nextAvailableIdx_ s.

Definition upd2 (f : Side -> Z -> bool) (sd : Side) (p : Z) (b : bool) : Side -> Z -> bool :=
  fun sd' p' => if decide (sd' = sd /\ p' = p) then b else f sd' p'.

Lemma upd2_same f sd p b q : upd2 f sd p b sd q = upd (f sd) p b q.
Proof.
  unfold upd2, upd. destruct (decide (q = p)) as [->|].
  - by rewrite decide_True.
  - rewrite decide_False; [done|]. by intros [_ ?].
Qed.

Lemma upd2_other f sd sd' p b q : sd' <> sd -> upd2 f sd p b sd' q = f sd' q.
Proof. intros Hne. unfold upd2. rewrite decide_False; [done|]. intros [E _]. by apply Hne. Qed.

Lemma mask_rep_ext m f g : mask_rep m f -> (forall p, f p = g p) -> mask_rep m g.
Proof. intros [H1 H2] E. split; [done|]. intros p Hp. rewrite <- E. by apply H2. Qed.

Lemma is_min_ask_ext f g m : is_min_ask f m -> (forall p, f p = g p) -> is_min_ask g m.
Proof. intros (?&Hl&Hm) E. rewrite E in Hm. repeat split; try lia; [|done]. intros. rewrite <- E. auto. Qed.

Lemma is_max_bid_ext f g m : is_max_bid f m -> (forall p, f p = g p) -> is_max_bid g m.
Proof. intros (?&Hl&Hm) E. rewrite E in Hm. repeat split; try lia; [|done]. intros. rewrite <- E. auto. Qed.

Section update.
Context (s : State) (f : Side -> Z -> bool) (Ho : Occ s f).
Context (sd : Side) (p : Z) (Hp : 0 <= p < MAX_TICKS).

Lemma upd2_dom b sd' q : upd2 f sd p b sd' q = true -> 0 <= q < MAX_TICKS.
Proof. unfold upd2. destruct (decide _) as [[_ ->]|]; [done|apply (occ_dom _ _ Ho)]. Qed.

(** A new mask for one side leaves the other side's as it was. *)
Lemma set_masks b m' : mask_rep m' (upd (f sd) p b) -> forall sd', mask_rep (mask (set_mask s sd m') sd') (upd2 f sd p b sd').
Proof.
  intros Hm sd'. destruct (decide (sd' = sd)) as [->|Hne].
  - eapply mask_rep_ext; [|symmetry; apply upd2_same]. by destruct sd.
  - eapply mask_rep_ext; [|symmetry; by apply upd2_other].
    pose proof (occ_mask _ _ Ho sd'). by destruct sd, sd'.
Qed.

Lemma min_other b : sd <> SSell -> is_min_ask (upd2 f sd p b SSell) (minAsk_ s).
Proof. intros Hne. eapply is_min_ask_ext; [apply (occ_min _ _ Ho)|]. intros q. by rewrite upd2_other. Qed.

Lemma max_other b : sd <> SBuy -> is_max_bid (upd2 f sd p b SBuy) (maxBid_ s).
Proof. intros Hne. eapply is_max_bid_ext; [apply (occ_max _ _ Ho)|]. intros q. by rewrite upd2_other. Qed.

Lemma updateOccupancy_on :
  exists s', updateOccupancy s sd p true = Ok s' /\
    Occ s' (upd2 f sd p true) /\ same_core s s'.
Proof.
  unfold updateOccupancy, get_level. rewrite shiftr_6, land_63.
  rewrite !(HugeArray.get_ok MAX_TICKS) by done.
  pose proof (word_of p ltac:(lia)) as Hw.
  rewrite (HugeArray.get_ok MASK_SIZE), HugeArray.set_ok by done.
  pose proof (mask_set_on _ _ (occ_mask _ _ Ho sd) p ltac:(lia)) as Hm'.
  pose proof (upd2_dom true) as Hdom. pose proof (set_masks true _ Hm') as Hmasks.
  destruct (occ_min _ _ Ho) as (Hmr & Hml & Hmm), (occ_max _ _ Ho) as (Hxr & Hxh & Hxm).
  destruct sd; eexists; (split; [reflexivity|]); split; try done; split; try done.
  - cbn. eapply is_max_bid_ext; [|symmetry; apply upd2_same]. unfold upd.
    split; [lia|]. split.
    + intros q Hq. case_decide; [lia|]. apply Hxh. lia.
    + destruct (Z.max_spec (maxBid_ s) p) as [[Hlt ->]|[Hle ->]].
      * left. by rewrite decide_True.
      * case_decide as Ed; [by left|]. destruct Hxm as [|E]; [by left|]. lia.
  - cbn. eapply is_min_ask_ext; [|symmetry; apply upd2_same]. unfold upd.
    split; [lia|]. split.
    + intros q Hq. case_decide; [lia|]. apply Hml. lia.
    + destruct (Z.min_spec (minAsk_ s) p) as [[Hlt ->]|[Hle ->]].
      * case_decide as Ed; [by left|]. destruct Hmm as [|E]; [by left|]. lia.
      * left. by rewrite decide_True.
Qed.

Lemma updateOccupancy_off :
  ls_volume (level_side (HugeArray.at_ (levels_ s) p) sd) = 0 ->
  exists s', updateOccupancy s sd p false = Ok s' /\
    Occ s' (upd2 f sd p false) /\ same_core s s'.
Proof.
  intros Hvol. unfold updateOccupancy, get_level. rewrite shiftr_6, land_63.
  rewrite !(HugeArray.get_ok MAX_TICKS) by done. rewrite Hvol. simpl.
  pose proof (word_of p ltac:(lia)) as Hw.
  rewrite (HugeArray.get_ok MASK_SIZE), HugeArray.set_ok by done.
  pose proof (mask_set_off _ _ (occ_mask _ _ Ho sd) p ltac:(lia)) as Hm'.
  pose proof (set_masks false _ Hm') as Hmasks. pose proof (upd2_dom false) as Hdom.
  pose proof (min_other false) as Hmin'. pose proof (max_other false) as Hmax'.
  destruct (occ_min _ _ Ho) as (Hmr & Hml & Hmm), (occ_max _ _ Ho) as (Hxr & Hxh & Hxm).
  destruct (split_64 p) as [Ep Hpm]. set (m' := <[p / 64 := _]> (mask s sd)) in *.
  destruct sd.
  - change (maxBid_ (set_mask s SBuy m')) with (maxBid_ s). destruct (Z.eqb_spec p (maxBid_ s)) as [Em|Em].
    + destruct (findNewMaxBid_ok (set_mask s SBuy m') (upd2 f SBuy p false SBuy) (p / 64))
        as (m & -> & Hmax); [apply (Hmasks SBuy)|exact (Hdom SBuy)|done| |].
      { intros q Hq. rewrite upd2_same. unfold upd. case_decide; [done|]. apply Hxh. lia. }
      eexists. split; [done|]. split; [|done]. split; [apply Hmasks|done|by apply Hmin'|done].
    + eexists. split; [done|]. split; [|done]. split; [apply Hmasks|done|by apply Hmin'|].
      eapply is_max_bid_ext; [|symmetry; apply upd2_same]. unfold upd. cbn.
      split; [lia|]. split; [|by rewrite decide_False by congruence].
      intros q Hq. case_decide; [done|]. by apply Hxh.
  - change (minAsk_ (set_mask s SSell m')) with (minAsk_ s). destruct (Z.eqb_spec p (minAsk_ s)) as [Em|Em].
    + destruct (findNewMinAsk_ok (set_mask s SSell m') (upd2 f SSell p false SSell) (p / 64))
        as (m & -> & Hmin); [apply (Hmasks SSell)|exact (Hdom SSell)|done| |].
      { intros q Hq. rewrite upd2_same. unfold upd. case_decide; [done|]. apply Hml. lia. }
      eexists. split; [done|]. split; [|done]. split; [apply Hmasks|done|done|by apply Hmax'].
    + eexists. split; [done|]. split; [|done]. split; [apply Hmasks|done| |by apply Hmax'].
      eapply is_min_ask_ext; [|symmetry; apply upd2_same]. unfold upd. cbn.
      split; [lia|]. split; [|by rewrite decide_False by congruence].
      intros q Hq. case_decide; [done|]. by apply Hml.
Qed.
End update.

(** ** Finding the best price *)

Section find.
Context (s : State) (f : Side -> Z -> bool) (Ho : Occ s f).
Context (Hhead : forall sd p, 0 <= p < MAX_TICKS ->
  f sd p = negb (ls_head (level_side (HugeArray.at_ (levels_ s) p) sd) =? 0)).

Lemma getBestAsk_ok limit :
  0 <= limit < MAX_TICKS -> minAsk_ s <= limit ->
  getBestAsk s limit = Ok (mkBestPrice (minAsk_ s) true).
Proof.
  intros Hl Hle. unfold getBestAsk. rewrite !shiftr_6.
  destruct (occ_min _ _ Ho) as (Hr & Hlow & [Hm|Hm]); [|lia].
  destruct (split_64 (minAsk_ s)) as [Es Hs].
  assert (Hdiv : minAsk_ s / 64 <= limit / 64) by (apply Z.div_le_mono; lia).
  replace (Z.to_nat (limit / 64 - minAsk_ s / 64 + 1))
    with (S (Z.to_nat (limit / 64 - minAsk_ s / 64))) by lia.
  cbn [getBestAsk_loop]. pose proof (word_of (minAsk_ s) ltac:(lia)) as Hw.
  rewrite HugeArray.get_ok by done. set (w := HugeArray.at_ _ _).
  pose proof (mask_word _ _ (occ_mask _ _ Ho SSell) _ Hw) as Hword. cbn in Hword. fold w in Hword.
  assert (Hbit : Z.testbit w (minAsk_ s mod 64) = true).
  { unfold w. pose proof (mask_bit_word _ _ (occ_mask _ _ Ho SSell) _ _ Hw Hs) as E. cbn in E.
    rewrite E, <- Es. done. }
  destruct (Z.eqb_spec w 0) as [E|E]; [by rewrite E, Z.bits_0 in Hbit|]. cbn [negb].
  destruct (ctzll_spec w) as (Hc & Hcb & Hcl); [lia|].
  assert (Ec : ctzll w = minAsk_ s mod 64).
  { destruct (Z.lt_trichotomy (ctzll w) (minAsk_ s mod 64)) as [Hlt|[->|Hgt]]; [|done|].
    - pose proof (mask_bit_word _ _ (occ_mask _ _ Ho SSell) _ _ Hw Hc) as E2. cbn in E2.
      fold w in E2. rewrite Hcb in E2. rewrite Hlow in E2; [done|lia].
    - rewrite Hcl in Hbit; [done|lia]. }
  rewrite Ec, shiftl_6, <- Es. rewrite (proj2 (Z.leb_le _ _) Hle).
  unfold get_level. rewrite HugeArray.get_ok by lia.
  rewrite <- (Hhead SSell) by lia. by rewrite Hm.
Qed.

Lemma getBestBid_ok limit :
  0 <= limit < MAX_TICKS -> limit <= maxBid_ s -> f SBuy (maxBid_ s) = true ->
  getBestBid s limit = Ok (mkBestPrice (maxBid_ s) true).
Proof.
  intros Hl Hle Hm. unfold getBestBid. rewrite !shiftr_6.
  destruct (occ_max _ _ Ho) as (Hr & Hhigh & _).
  destruct (split_64 (maxBid_ s)) as [Es Hs].
  assert (Hdiv : limit / 64 <= maxBid_ s / 64) by (apply Z.div_le_mono; lia).
  replace (Z.to_nat (maxBid_ s / 64 - limit / 64 + 1))
    with (S (Z.to_nat (maxBid_ s / 64 - limit / 64))) by lia.
  cbn [getBestBid_loop]. pose proof (word_of (maxBid_ s) ltac:(lia)) as Hw.
  rewrite HugeArray.get_ok by done. set (w := HugeArray.at_ _ _).
  pose proof (mask_word _ _ (occ_mask _ _ Ho SBuy) _ Hw) as Hword. cbn in Hword. fold w in Hword.
  assert (Hbit : Z.testbit w (maxBid_ s mod 64) = true).
  { unfold w. pose proof (mask_bit_word _ _ (occ_mask _ _ Ho SBuy) _ _ Hw Hs) as E. cbn in E.
    rewrite E, <- Es. done. }
  destruct (Z.eqb_spec w 0) as [E|E]; [by rewrite E, Z.bits_0 in Hbit|]. cbn [negb].
  destruct (clzll_spec w) as (Hc & Hcb & Hcl); [lia|].
  assert (Ec : 63 - clzll w = maxBid_ s mod 64).
  { destruct (Z.lt_trichotomy (63 - clzll w) (maxBid_ s mod 64)) as [Hlt|[->|Hgt]]; [|done|].
    - rewrite Hcl in Hbit; [done|lia].
    - pose proof (mask_bit_word _ _ (occ_mask _ _ Ho SBuy) _ _ Hw Hc) as E2. cbn in E2.
      fold w in E2. rewrite Hcb in E2. rewrite Hhigh in E2; [done|lia]. }
  rewrite Ec, shiftl_6, <- Es. rewrite (proj2 (Z.leb_le _ _) Hle).
  unfold get_level. rewrite HugeArray.get_ok by lia.
  rewrite <- (Hhead SBuy) by lia. by rewrite Hm.
Qed.

(** With no bid at all [maxBid_] is 0, and the scan finds nothing. *)
Lemma getBestBid_none limit :
  0 <= limit < MAX_TICKS -> limit <= maxBid_ s -> f SBuy (maxBid_ s) = false ->
  getBestBid s limit = Ok (mkBestPrice 0 false).
Proof.
  intros Hl Hle Hm. unfold getBestBid.
  destruct (occ_max _ _ Ho) as (Hr & Hhigh & [Hc|Hc]); [congruence|].
  assert (limit = 0) as -> by lia. rewrite Hc. change (Z.shiftr 0 6) with 0.
  change (Z.to_nat (0 - 0 + 1)) with 1%nat. cbn [getBestBid_loop].
  pose proof (word_of 0 ltac:(lia)) as Hw. change (0 / 64) with 0 in Hw.
  rewrite HugeArray.get_ok by done.
  assert (HugeArray.at_ (bidMask_ s) 0 = 0) as ->; [|done].
  apply word_zero_bits; [apply (mask_word _ _ (occ_mask _ _ Ho SBuy) 0 Hw)|].
  intros i Hi. pose proof (mask_bit_word _ _ (occ_mask _ _ Ho SBuy) 0 i Hw Hi) as E.
  replace (64 * 0 + i) with i in E by lia. change (mask s SBuy) with (bidMask_ s) in E. rewrite E.
  destruct (Z.eq_dec i 0) as [->|]; [by rewrite <- Hc|]. apply Hhigh. lia.
Qed.
End find.
End Mask.
End BookMask.
