(* ===== verification/BookInv.v ===== *)
(** * Structure lemmas of the order book

    Reads and writes of nodes and levels as total updates, the doubly linked
    segments, equivalence of abstract books, and preservation of the
    well-formedness of abstract books. *)

From S2P Require Import Prelude SlotId HugeArray Types PriceLevelBook BookSpec BookMask.
Import Book BookSpec BookMask.

Module BookInv.

Create Rewrite HintDb hft_book.

Section Access.
Context `{B : Build} `{BO : !BuildOk B}.

(** ** Nodes and levels *)

Definition node (s : State) (i : Z) : Node := HugeArray.at_ (nodePool_ s) i.
Definition lvl (s : State) (p : Z) (sd : Side) : PriceLevelSide :=
  level_side (HugeArray.at_ (levels_ s) p) sd.
Definition with_node (s : State) (i : Z) (n : Node) : State :=
  set_nodePool s (<[i := n]> (nodePool_ s)).
Definition with_level (s : State) (p : Z) (sd : Side) (x : PriceLevelSide) : State :=
  set_levels s (<[p := set_level_side (HugeArray.at_ (levels_ s) p) sd x]> (levels_ s)).

Lemma get_node_ok s i : 0 <= i < MAX_BOOK_ORDERS -> get_node s i = Ok (node s i).
Proof. intros. unfold get_node. by rewrite HugeArray.get_ok. Qed.

Lemma put_node_ok s i n : 0 <= i < MAX_BOOK_ORDERS -> put_node s i n = Ok (with_node s i n).
Proof. intros. unfold put_node. by rewrite HugeArray.set_ok. Qed.

Lemma get_level_ok s p sd : 0 <= p < MAX_TICKS -> get_level s p sd = Ok (lvl s p sd).
Proof. intros. unfold get_level. by rewrite HugeArray.get_ok. Qed.

Lemma put_level_ok s p sd x : 0 <= p < MAX_TICKS -> put_level s p sd x = Ok (with_level s p sd x).
Proof. intros. unfold put_level. by rewrite HugeArray.get_ok, HugeArray.set_ok. Qed.

Lemma node_with_node_eq s i n : node (with_node s i n) i = n.
Proof. apply HugeArray.at_set_eq. Qed.

Lemma node_with_node_ne s i j n : i <> j -> node (with_node s i n) j = node s j.
Proof. apply HugeArray.at_set_ne. Qed.

Lemma node_with_level s p sd x i : node (with_level s p sd x) i = node s i.
Proof. done. Qed.

Lemma lvl_with_level_eq s p sd x : lvl (with_level s p sd x) p sd = x.
Proof. unfold lvl, with_level. cbn. rewrite HugeArray.at_set_eq. by destruct sd. Qed.

Lemma lvl_with_level_ne s p sd x p' sd' :
  ~ (sd' = sd /\ p' = p) -> lvl (with_level s p sd x) p' sd' = lvl s p' sd'.
Proof.
  intros Hne. unfold lvl, with_level. cbn. rewrite HugeArray.at_set. case_decide as E; [|done].
  subst. destruct sd, sd'; tauto.
Qed.

Lemma lvl_with_node s i n p sd : lvl (with_node s i n) p sd = lvl s p sd.
Proof. done. Qed.

(** The masks, best prices, free stack and counter: the rest of the state. *)
Definition same_rest (s s' : State) : Prop :=
  bidMask_ s' = bidMask_ s /\ askMask_ s' = askMask_ s /\
  minAsk_ s' = minAsk_ s /\ maxBid_ s' = maxBid_ s /\
  freeStack_ s' = freeStack_ s /\ freeTop_ s' = freeTop_ s /\
  nextAvailableIdx_ s' = nextAvailableIdx_ s.

#[export] Instance same_rest_preorder : PreOrder same_rest.
Proof. split; unfold same_rest; [done|]. intros x y z. intuition congruence. Qed.

Lemma same_rest_node s i n : same_rest s (with_node s i n).
Proof. done. Qed.

Lemma same_rest_level s p sd x : same_rest s (with_level s p sd x).
Proof. done. Qed.

Lemma Occ_same_rest s s' f : same_rest s s' -> Occ s f -> Occ s' f.
Proof.
  intros (E1 & E2 & E3 & E4 & _) [H1 H2 H3 H4].
  split; rewrite ?E3, ?E4; try done. intros []; cbn; rewrite ?E1, ?E2; [apply (H1 SBuy)|apply (H1 SSell)].
Qed.

Lemma Occ_ext s f g : (forall sd p, f sd p = g sd p) -> Occ s f -> Occ s g.
Proof.
  intros E [H1 H2 H3 H4]. split.
  - intros sd. eapply mask_rep_ext; eauto.
  - intros sd p. rewrite <- E. apply H2.
  - eapply is_min_ask_ext; eauto.
  - eapply is_max_bid_ext; eauto.
Qed.
End Access.

#[export] Hint Rewrite @node_with_node_eq @lvl_with_level_eq @node_with_level @lvl_with_node
  : hft_book.
#[export] Hint Rewrite @node_with_node_ne using (done || lia) : hft_book.

(** ** Doubly linked segments *)

Section Dll.
Context `{B : Build} `{BO : !BuildOk B}.

Lemma idx_range e : 0 <= idx e < MAX_BOOK_ORDERS.
Proof. apply (SlotId.index_range _ BOOK_ORDER_BITS). Qed.

Lemma hd_idx_app nxt l1 l2 : hd_idx nxt (l1 ++ l2) = hd_idx (hd_idx nxt l2) l1.
Proof. by destruct l1. Qed.

Lemma last_idx_app prv l1 l2 : last_idx prv (l1 ++ l2) = last_idx (last_idx prv l1) l2.
Proof. revert prv. induction l1; simpl; auto. Qed.

Lemma dseg_app np sd p prv l1 l2 nxt :
  dseg np sd p prv (l1 ++ l2) nxt <->
  dseg np sd p prv l1 (hd_idx nxt l2) /\ dseg np sd p (last_idx prv l1) l2 nxt.
Proof.
  revert prv. induction l1 as [|e l1 IH]; intros prv; simpl; [tauto|].
  rewrite IH, hd_idx_app. tauto.
Qed.

Lemma dseg_frame np np' sd p prv l nxt :
  (forall e, e ∈ l -> HugeArray.at_ np' (idx e) = HugeArray.at_ np (idx e)) ->
  dseg np sd p prv l nxt -> dseg np' sd p prv l nxt.
Proof.
  revert prv. induction l as [|e l IH]; intros prv Hf; simpl; [done|].
  intros [E Hl]. split; [rewrite Hf; [done|left]|].
  apply IH; [|done]. intros e' He'. apply Hf. by right.
Qed.

Lemma dseg_insert np sd p prv l nxt i n :
  i ∉ map idx l -> dseg np sd p prv l nxt -> dseg (<[i := n]> np) sd p prv l nxt.
Proof.
  intros Hi. apply dseg_frame. intros e He. apply HugeArray.at_set_ne.
  intros ->. apply Hi. apply list_elem_of_fmap. by exists e.
Qed.

(** Relinking the last node to a new successor. *)
Lemma dseg_relink_last np sd p prv l e nxt nxt' :
  NoDup (map idx (l ++ [e])) -> dseg np sd p prv (l ++ [e]) nxt ->
  dseg (<[idx e := set_next (HugeArray.at_ np (idx e)) nxt']> np) sd p prv (l ++ [e]) nxt'.
Proof.
  intros Hnd. rewrite !dseg_app. cbn [hd_idx dseg]. intros (Hl & He & _).
  rewrite map_app in Hnd. apply NoDup_app in Hnd as (_ & Hx & _). repeat split.
  - apply dseg_insert; [|done]. intros Hin. apply (Hx _ Hin). left.
  - by rewrite HugeArray.at_set_eq, He.
Qed.

(** Relinking the first node to a new predecessor. *)
Lemma dseg_relink_first np sd p prv prv' e l nxt :
  NoDup (map idx (e :: l)) -> dseg np sd p prv (e :: l) nxt ->
  dseg (<[idx e := set_prev (HugeArray.at_ np (idx e)) prv']> np) sd p prv' (e :: l) nxt.
Proof.
  cbn [dseg map fmap list_fmap]. intros [Hn _]%NoDup_cons [He Hl]. split.
  - by rewrite HugeArray.at_set_eq, He.
  - by apply dseg_insert.
Qed.

Lemma dseg_lookup np sd p prv l1 e l2 nxt :
  dseg np sd p prv (l1 ++ e :: l2) nxt ->
  HugeArray.at_ np (idx e) =
    mkNode (hd_idx nxt l2) (last_idx prv l1) p (e_qty e) (e_id e) (e_sys e) sd.
Proof. rewrite dseg_app. by intros (_ & E & _). Qed.

(** With positive indices, an end of a queue is 0 exactly when it is empty. *)
Lemma hd_idx_0 l : Forall (fun e => idx e <> 0) l -> (hd_idx 0 l =? 0) = bool_decide (l = []).
Proof.
  intros H. destruct H as [|e l He]; [done|]. cbn [hd_idx].
  rewrite bool_decide_false by done. by apply Z.eqb_neq.
Qed.

Lemma last_idx_snoc prv l e : last_idx prv (l ++ [e]) = idx e.
Proof. by rewrite last_idx_app. Qed.

Lemma last_idx_0 l : Forall (fun e => idx e <> 0) l -> (last_idx 0 l =? 0) = bool_decide (l = []).
Proof.
  intros H. destruct l as [|e l _] using rev_ind; [done|]. rewrite last_idx_snoc.
  rewrite bool_decide_false by (by destruct l). apply Z.eqb_neq.
  apply Forall_app in H as [_ H]. by inversion H.
Qed.

Lemma volume_app l1 l2 : volume (l1 ++ l2) = volume l1 + volume l2.
Proof. unfold volume. by rewrite map_app, sumZ_app. Qed.

Lemma volume_cons e l : volume (e :: l) = e_qty e + volume l.
Proof. done. Qed.
End Dll.

(** ** Equivalence of abstract books

    Books are equal when they have the same queues, free identifiers and
    counter; the queues are functions, compared pointwise. *)

Section Equiv.
Context `{B : Build} `{BO : !BuildOk B}.

#[export] Instance abook_equiv : Equiv ABook := fun a b =>
  (forall sd p, a_queue a sd p = a_queue b sd p) /\ a_free a = a_free b /\ a_next a = a_next b.

#[export] Instance abook_equivalence : Equivalence (≡@{ABook}).
Proof.
  split.
  - done.
  - intros a b (Hq & ? & ?). by split.
  - intros a b c (Hq & ? & ?) (Hq' & ? & ?). split; [|split; congruence].
    intros. by rewrite Hq.
Qed.

#[export] Instance push_free_proper : Proper ((≡) ==> eq ==> (≡)) push_free.
Proof. intros a b (Hq & Hf & Hn) id _ <-. split; [done|]. cbn. by rewrite Hf. Qed.

#[export] Instance set_queue_proper : Proper ((≡) ==> eq ==> eq ==> eq ==> (≡)) set_queue.
Proof.
  intros a b (Hq & Hf & Hn) sd _ <- p _ <- l _ <-. split; [|done].
  intros sd' p'. cbn. by rewrite Hq.
Qed.

Lemma foldl_push_free_proper a b ids : a ≡ b -> foldl push_free a ids ≡ foldl push_free b ids.
Proof. revert a b. induction ids as [|id ids IH]; intros a b E; cbn; [done|]. apply IH. by rewrite E. Qed.

Lemma queue_set_eq a sd p l : a_queue (set_queue a sd p l) sd p = l.
Proof. cbn. by rewrite decide_True. Qed.

Lemma queue_set_ne a sd p l sd' p' :
  ~ (sd' = sd /\ p' = p) -> a_queue (set_queue a sd p l) sd' p' = a_queue a sd' p'.
Proof. intros. cbn. by rewrite decide_False. Qed.

Lemma set_queue_twice a sd p l l' : set_queue (set_queue a sd p l) sd p l' ≡ set_queue a sd p l'.
Proof. split; [|done]. intros sd' p'. cbn. by destruct (decide _). Qed.

Lemma set_queue_self a sd p : set_queue a sd p (a_queue a sd p) ≡ a.
Proof. split; [|done]. intros sd' p'. cbn. by destruct (decide _) as [[-> ->]|]. Qed.

Lemma set_queue_push_free a sd p l id :
  set_queue (push_free a id) sd p l ≡ push_free (set_queue a sd p l) id.
Proof. done. Qed.

#[export] Instance AOk_proper : Proper ((≡) ==> iff) AOk.
Proof.
  assert (H : forall a b : ABook, a ≡ b -> AOk a -> AOk b).
  { intros a b (Hq & Hf & Hn) [H1 H2 H3 H4 H5 H6 H7 H8 H9]. unfold wf_id in *.
    split; unfold wf_id.
    - by rewrite <- Hn.
    - intros. eapply H2. by rewrite Hq.
    - rewrite <- Hn. intros sd p e. rewrite <- Hq. apply H3.
    - intros sd p e. rewrite <- Hq. apply H4.
    - intros sd p. rewrite <- Hq. apply H5.
    - intros sd p e sd' p' e'. rewrite <- !Hq. apply H6.
    - rewrite <- Hf, <- Hn. apply H7.
    - by rewrite <- Hf.
    - intros sd p e id. rewrite <- Hq, <- Hf. apply H9. }
  intros a b E. split; apply H; [done|by symmetry].
Qed.

Lemma occupied_equiv a b : a ≡ b -> forall sd p, occupied a sd p = occupied b sd p.
Proof. intros (Hq & _) sd p. unfold occupied. by rewrite Hq. Qed.

#[export] Instance Rep_proper : Proper (eq ==> (≡) ==> iff) Rep.
Proof.
  assert (H : forall s (a b : ABook), a ≡ b -> Rep s a -> Rep s b).
  { intros s a b E [H1 H2 H3 H4 H5 H6 H7 H8]. pose proof (occupied_equiv _ _ E) as Eo.
    destruct E as (Hq & Hf & Hn). split.
    - by apply (AOk_proper a b).
    - intros sd p. rewrite <- Hq. apply H2.
    - intros sd. eapply mask_rep_ext; [apply H3|done].
    - eapply is_min_ask_ext; [apply H4|done].
    - eapply is_max_bid_ext; [apply H5|done].
    - congruence.
    - by rewrite <- Hf.
    - by rewrite <- Hf. }
  intros s _ <- a b E. split; apply H; [done|by symmetry].
Qed.
End Equiv.

(** ** Well-formedness of abstract books *)

Section Wf.
Context `{B : Build} `{BO : !BuildOk B}.

(** The slot of no resting order and of no free identifier. *)
Definition unused (a : ABook) (i : Z) : Prop :=
  (forall sd p e, e ∈ a_queue a sd p -> idx e <> i) /\
  (forall id, id ∈ a_free a -> SlotId.index MAX_BOOK_ORDERS id <> i).

Lemma AOk_set_queue a sd p l :
  AOk a -> 0 <= p < MAX_TICKS ->
  (forall e, e ∈ l -> wf_id a (e_id e) /\ 0 < e_qty e < 2 ^ 32) ->
  NoDup (map idx l) ->
  (forall e, e ∈ l -> idx e ∈ map idx (a_queue a sd p) \/ unused a (idx e)) ->
  AOk (set_queue a sd p l).
Proof.
  intros [H1 H2 H3 H4 H5 H6 H7 H8 H9] Hp Hl Hnd Hold.
  assert (Hd : forall sd' p' e e', e ∈ l -> e' ∈ a_queue a sd' p' -> idx e = idx e' ->
    sd = sd' /\ p = p').
  { intros sd' p' e e' He He' E. destruct (Hold _ He) as [Hin|[Hun _]].
    - apply list_elem_of_fmap in Hin as (e0 & E0 & He0). eapply (H6 _ _ e0); eauto. congruence.
    - by destruct (Hun _ _ _ He'). }
  split; cbn; try done.
  - intros sd' p'. destruct (decide _) as [[-> ->]|]; [done|apply H2].
  - intros sd' p' e. destruct (decide _) as [[-> ->]|]; [apply Hl|apply H3].
  - intros sd' p' e. destruct (decide _) as [[-> ->]|]; [apply Hl|apply H4].
  - intros sd' p'. destruct (decide _) as [[-> ->]|]; auto.
  - intros sd1 p1 e1 sd2 p2 e2.
    destruct (decide _) as [[-> ->]|], (decide _) as [[-> ->]|]; [done|eauto| |eauto].
    intros ? ? ?. assert (sd = sd1 /\ p = p1) as [-> ->] by eauto. done.
  - intros sd' p' e id. destruct (decide _) as [[-> ->]|]; [|eauto]. intros He Hid.
    destruct (Hold _ He) as [Hin|[_ Hun]]; [|intros E; by apply (Hun _ Hid)].
    apply list_elem_of_fmap in Hin as (e0 & -> & He0). eauto.
Qed.

(** Queues that keep only (parts of) old entries. *)
Lemma AOk_shrink a sd p l :
  AOk a -> 0 <= p < MAX_TICKS ->
  (forall e, e ∈ l -> 0 < e_qty e < 2 ^ 32) ->
  NoDup (map idx l) ->
  (forall e, e ∈ l -> exists e0, e0 ∈ a_queue a sd p /\ e_id e0 = e_id e) ->
  AOk (set_queue a sd p l).
Proof.
  intros H Hp Hq Hnd Hold. apply AOk_set_queue; auto.
  - intros e He. split; [|auto]. destruct (Hold _ He) as (e0 & He0 & <-).
    by apply (a_ids _ H _ _ _ He0).
  - intros e He. left. destruct (Hold _ He) as (e0 & He0 & E).
    apply list_elem_of_fmap. exists e0. unfold idx. by rewrite E.
Qed.

Lemma wf_id_nextGen a id :
  wf_id a id -> wf_id a (SlotId.nextGen MAX_BOOK_ORDERS id) /\
  SlotId.index MAX_BOOK_ORDERS (SlotId.nextGen MAX_BOOK_ORDERS id) =
    SlotId.index MAX_BOOK_ORDERS id.
Proof.
  intros (Hr & Hg & Hi).
  assert (E : SlotId.index MAX_BOOK_ORDERS (SlotId.nextGen MAX_BOOK_ORDERS id) =
    SlotId.index MAX_BOOK_ORDERS id) by (by apply (SlotId.index_nextGen _ BOOK_ORDER_BITS)).
  repeat split; rewrite ?E; try done; try lia.
  - apply (SlotId.nextGen_u32 _ BOOK_ORDER_BITS). done.
  - apply (SlotId.nextGen_u32 _ BOOK_ORDER_BITS). done.
  - apply (SlotId.isValid_gen MAX_BOOK_ORDERS).
    by apply (SlotId.nextGen_valid _ BOOK_ORDER_BITS).
Qed.

Lemma AOk_push_free a id :
  AOk a -> wf_id a id -> unused a (SlotId.index MAX_BOOK_ORDERS id) -> AOk (push_free a id).
Proof.
  intros [H1 H2 H3 H4 H5 H6 H7 H8 H9] Hid [Hun1 Hun2].
  destruct (wf_id_nextGen _ _ Hid) as [Hwf E]. split; cbn; try done.
  - intros id' [->|]%elem_of_cons; [done|by apply H7].
  - rewrite E. apply NoDup_cons. split; [|done].
    intros (id' & E' & Hin)%list_elem_of_fmap. by apply (Hun2 _ Hin).
  - intros sd p e id' He [->|]%elem_of_cons; [|eauto]. rewrite E. by apply (Hun1 _ _ _ He).
Qed.

(** The free stack never overflows: its slots are distinct and in range. *)
Lemma free_length a : AOk a -> Z.of_nat (length (a_free a)) <= a_next a - 1.
Proof.
  intros H. pose proof (a_next_range _ H).
  rewrite <- (length_map (SlotId.index MAX_BOOK_ORDERS)).
  apply NoDup_range_length; [lia|apply (a_free_nodup _ H)|].
  apply Forall_forall. intros i (id & -> & Hid)%list_elem_of_fmap.
  by destruct (a_free_ids _ H _ Hid) as (_ & _ & ?).
Qed.

Lemma queue_length a sd p : AOk a -> Z.of_nat (length (a_queue a sd p)) <= a_next a - 1.
Proof.
  intros H. pose proof (a_next_range _ H). rewrite <- (length_map idx).
  apply NoDup_range_length; [lia|apply (a_nodup _ H)|].
  apply Forall_forall. intros i (e & -> & He)%list_elem_of_fmap.
  by destruct (a_ids _ H _ _ _ He) as (_ & _ & ?).
Qed.

Lemma queue_idx_pos a sd p e : AOk a -> e ∈ a_queue a sd p -> 1 <= idx e < a_next a.
Proof. intros H He. by destruct (a_ids _ H _ _ _ He) as (_ & _ & ?). Qed.

Lemma queue_idx_nonzero a sd p : AOk a -> Forall (fun e => idx e <> 0) (a_queue a sd p).
Proof. intros H. apply Forall_forall. intros e He. pose proof (queue_idx_pos _ _ _ _ H He). lia. Qed.

Lemma volume_bound a sd p : AOk a -> 0 <= volume (a_queue a sd p) < 2 ^ 63.
Proof.
  intros H. pose proof (queue_length _ sd p H). pose proof (a_next_range _ H).
  pose proof max_book_orders_range. unfold volume. split.
  - apply sumZ_nonneg, Forall_forall. intros q (e & -> & He)%list_elem_of_fmap.
    pose proof (a_qtys _ H _ _ _ He). lia.
  - assert (sumZ (map e_qty (a_queue a sd p)) <=
      (2 ^ 32 - 1) * Z.of_nat (length (map e_qty (a_queue a sd p)))); [|rewrite length_map in *; nia].
    apply sumZ_bound, Forall_forall. intros q (e & -> & He)%list_elem_of_fmap.
    pose proof (a_qtys _ H _ _ _ He). lia.
Qed.

Lemma volume_pos a sd p : AOk a -> (volume (a_queue a sd p) =? 0) = bool_decide (a_queue a sd p = []).
Proof.
  intros H. destruct (a_queue a sd p) as [|e l] eqn:E; [done|].
  rewrite bool_decide_false by done. apply Z.eqb_neq. rewrite volume_cons.
  assert (He : e ∈ a_queue a sd p) by (rewrite E; left).
  pose proof (a_qtys _ H _ _ _ He). assert (0 <= volume l); [|lia].
  apply sumZ_nonneg, Forall_forall. intros q (e' & -> & He')%list_elem_of_fmap.
  assert (He2 : e' ∈ a_queue a sd p) by (rewrite E; by right).
  pose proof (a_qtys _ H _ _ _ He2). lia.
Qed.
End Wf.

End BookInv.
