(* ===== verification/BookRefine.v ===== *)
(** * The price-level book refines the price-time priority book

    Each operation of the price-level book, run on a state that represents
    an abstract book, ends without a fault in a state that represents the
    result of the reference operation. *)

From S2P Require Import Prelude SlotId HugeArray Types PriceLevelBook BookSpec BookMask BookInv.
Import Book BookSpec BookMask BookInv.

Module BookRefine.
Section Refine.
Context `{B : Build} `{BO : !BuildOk B}.

(** ** Parts of the representation *)

Definition Levels (s : State) (a : ABook) : Prop :=
  forall sd p, 0 <= p < MAX_TICKS -> level_rep s sd p (a_queue a sd p).

Record FreeRep (s : State) (a : ABook) : Prop := {
  fr_next : nextAvailableIdx_ s = a_next a;
  fr_top : freeTop_ s = Z.of_nat (length (a_free a));
  fr_stack : forall k id, reverse (a_free a) !! k = Some id ->
    HugeArray.at_ (freeStack_ s) (Z.of_nat k) = id
}.

Lemma occupied_prices a sd p : AOk a -> occupied a sd p = true -> 0 <= p < MAX_TICKS.
Proof.
  intros H. unfold occupied. destruct (a_queue a sd p) eqn:E; [done|]. intros _.
  apply (a_prices _ H sd). by rewrite E.
Qed.

Lemma Rep_parts s a :
  Rep s a <-> AOk a /\ Levels s a /\ Occ s (occupied a) /\ FreeRep s a.
Proof.
  split.
  - intros [H1 H2 H3 H4 H5 H6 H7 H8]. split; [done|]. split; [done|]. split; [|by split].
    split; try done. intros sd p. by apply occupied_prices.
  - intros (H1 & H2 & [H3 H4 H5 H6] & [H7 H8 H9]). by split.
Qed.

Lemma Levels_core s s' a :
  nodePool_ s' = nodePool_ s -> levels_ s' = levels_ s -> Levels s a -> Levels s' a.
Proof. intros E1 E2 H sd p Hp. unfold level_rep. rewrite E1, E2. by apply H. Qed.

Lemma FreeRep_core s s' a b :
  freeStack_ s' = freeStack_ s -> freeTop_ s' = freeTop_ s ->
  nextAvailableIdx_ s' = nextAvailableIdx_ s ->
  a_free b = a_free a -> a_next b = a_next a -> FreeRep s a -> FreeRep s' b.
Proof. intros E1 E2 E3 E4 E5 [H1 H2 H3]. split; rewrite ?E1, ?E2, ?E3, ?E4, ?E5; done. Qed.

(** Rewriting the nodes and the level of one queue leaves the others. *)
Lemma Levels_upd s s' a sd p l :
  Levels s a ->
  (forall sd' p', ~ (sd' = sd /\ p' = p) -> lvl s' p' sd' = lvl s p' sd') ->
  (forall sd' p' e, ~ (sd' = sd /\ p' = p) -> e ∈ a_queue a sd' p' ->
     node s' (idx e) = node s (idx e)) ->
  level_rep s' sd p l ->
  Levels s' (set_queue a sd p l).
Proof.
  intros H Hlv Hnd Hl sd' p' Hp. destruct (decide (sd' = sd /\ p' = p)) as [[-> ->]|Hne].
  - by rewrite queue_set_eq.
  - rewrite queue_set_ne by done. destruct (H sd' p' Hp) as [H1 H2]. split.
    + rewrite <- H1. by apply Hlv.
    + eapply dseg_frame; [|done]. intros e He. by eapply Hnd.
Qed.

Lemma occupied_set_queue a sd p l sd' p' :
  occupied (set_queue a sd p l) sd' p' =
  upd2 (occupied a) sd p (negb (bool_decide (l = []))) sd' p'.
Proof.
  unfold occupied, upd2. cbn. destruct (decide _) as [[-> ->]|]; [|done]. by destruct l.
Qed.

(** ** Identifiers *)

Lemma releaseId_ok s a id :
  FreeRep s a -> Z.of_nat (length (a_free a)) < MAX_BOOK_ORDERS ->
  exists s', releaseId s id = Ok s' /\ FreeRep s' (push_free a id) /\
    nodePool_ s' = nodePool_ s /\ levels_ s' = levels_ s /\
    (forall f, Occ s f -> Occ s' f).
Proof.
  intros [H1 H2 H3] Hlen. unfold releaseId. pose proof max_book_orders_range.
  rewrite H2, HugeArray.set_ok by lia. rewrite u32_small by lia.
  eexists. split; [done|]. split; [split|split; [done|split; [done|]]]; try done.
  - cbn. lia.
  - intros k x. cbn [push_free a_free]. rewrite reverse_cons. intros Hk.
    apply lookup_app_Some in Hk as [Hk|[Hge Hk]].
    + cbn. rewrite HugeArray.at_set_ne; [by apply H3|].
      apply lookup_lt_Some in Hk. rewrite length_reverse in Hk. lia.
    + rewrite length_reverse in *. apply list_lookup_singleton_Some in Hk as [Hk <-].
      replace (Z.of_nat k) with (Z.of_nat (length (a_free a))) by lia.
      apply HugeArray.at_set_eq.
  - intros f [E1 E2 E3 E4]. by split.
Qed.

(** ** Taking an order out of its queue

    [l] is the queue of [sd] at [p] without the entry [e]. *)

Record taken (a : ABook) (sd : Side) (p : Z) (e : Entry) (l : list Entry) : Prop := {
  tk_price : 0 <= p < MAX_TICKS;
  tk_in : e ∈ a_queue a sd p;
  tk_sub : forall e', e' ∈ l -> e' ∈ a_queue a sd p /\ idx e' <> idx e;
  tk_nodup : NoDup (map idx l)
}.

Lemma taken_split a sd p l1 e l2 :
  AOk a -> 0 <= p < MAX_TICKS -> a_queue a sd p = l1 ++ e :: l2 -> taken a sd p e (l1 ++ l2).
Proof.
  intros Ha Hp E. pose proof (a_nodup _ Ha sd p) as Hnd. rewrite E in Hnd.
  assert (Hperm : map idx (l1 ++ e :: l2) ≡ₚ idx e :: map idx (l1 ++ l2))
    by (by rewrite <- Permutation_middle).
  rewrite Hperm in Hnd. apply NoDup_cons in Hnd as [Hni Hnd].
  split; try done; rewrite E.
  - rewrite elem_of_app, elem_of_cons. auto.
  - intros e' He'. split; [rewrite elem_of_app, elem_of_cons; apply elem_of_app in He'; tauto|]. intros Eq. apply Hni. rewrite <- Eq.
    apply list_elem_of_fmap. by exists e'.
Qed.

Section Taken.
Context (a : ABook) (sd : Side) (p : Z) (e : Entry) (l : list Entry).
Context (Ha : AOk a) (Ht : taken a sd p e l).

Lemma taken_AOk : AOk (set_queue a sd p l).
Proof.
  destruct Ht as [Hp Hin Hsub Hnd]. apply AOk_shrink; auto.
  - intros e' He'. apply (a_qtys _ Ha sd p). by apply Hsub.
  - intros e' He'. exists e'. split; [by apply Hsub|done].
Qed.

Lemma taken_unused : unused (set_queue a sd p l) (idx e).
Proof.
  destruct Ht as [Hp Hin Hsub Hnd]. split.
  - intros sd' p' e'. cbn. destruct (decide _) as [[-> ->]|Hne]; [by intros [_ ?]%Hsub|].
    intros He' E. apply Hne. by apply (a_disjoint _ Ha _ _ _ _ _ _ He' Hin).
  - intros id Hid E. by apply (a_free_disjoint _ Ha _ _ _ _ Hin Hid).
Qed.

Lemma taken_room : Z.of_nat (length (a_free a)) < MAX_BOOK_ORDERS.
Proof. pose proof (free_length _ Ha). pose proof (a_next_range _ Ha). lia. Qed.

(** The occupancy of the level after the entry is gone. *)
Lemma occupancy_taken s :
  Occ s (occupied a) ->
  ls_volume (lvl s p sd) = volume l ->
  exists s', (if bool_decide (l = []) then updateOccupancy s sd p false else Ok s) = Ok s' /\
    Occ s' (occupied (set_queue a sd p l)) /\ same_core s s'.
Proof.
  intros Ho Hv. destruct Ht as [Hp Hin _ _]. case_bool_decide as El.
  - destruct (updateOccupancy_off s (occupied a) Ho sd p Hp) as (s' & E & Ho' & Hc).
    { subst l. exact Hv. }
    exists s'. split; [done|]. split; [|done]. eapply Occ_ext; [|done].
    intros. rewrite occupied_set_queue. by rewrite bool_decide_true.
  - exists s. split; [done|]. split; [|done]. eapply Occ_ext; [|done].
    intros sd' p'. rewrite occupied_set_queue, bool_decide_false by done.
    unfold upd2. destruct (decide _) as [[-> ->]|]; [|done].
    unfold occupied. destruct (a_queue a sd p); [by apply elem_of_nil in Hin|done].
Qed.

(** Recycling the identifier completes the removal. *)
Lemma release_taken s :
  Levels s (set_queue a sd p l) -> Occ s (occupied (set_queue a sd p l)) -> FreeRep s a ->
  exists s', releaseId s (e_id e) = Ok s' /\ Rep s' (push_free (set_queue a sd p l) (e_id e)).
Proof.
  intros Hl Ho Hf.
  destruct (releaseId_ok s (set_queue a sd p l) (e_id e)) as (s' & E & Hf' & En & El & Hocc).
  { by eapply FreeRep_core; [..|apply Hf]. }
  { apply taken_room. }
  exists s'. split; [done|]. apply Rep_parts. split; [|split; [|split]].
  - apply AOk_push_free; [apply taken_AOk| |apply taken_unused].
    apply (a_ids _ Ha sd p). apply (tk_in _ _ _ _ _ Ht).
  - by apply (Levels_core s).
  - by apply Hocc.
  - done.
Qed.
End Taken.

(** ** Filling against the head of a level *)

Lemma FreeRep_same_rest s s' a b :
  same_rest s s' -> a_free b = a_free a -> a_next b = a_next a -> FreeRep s a -> FreeRep s' b.
Proof. intros (_ & _ & _ & _ & ? & ? & ?). by apply FreeRep_core. Qed.

Lemma other_queue_idx a sd p e sd' p' e' :
  AOk a -> e ∈ a_queue a sd p -> e' ∈ a_queue a sd' p' -> ~ (sd' = sd /\ p' = p) ->
  idx e <> idx e'.
Proof.
  intros Ha He He' Hne E. apply Hne.
  destruct (a_disjoint _ Ha _ _ _ _ _ _ He He' E) as [-> ->]. done.
Qed.

(** Node and level of one queue rewritten, the rest of the state kept. *)
Lemma Levels_local s s' a sd p l :
  AOk a -> Levels s a ->
  (forall sd' p', ~ (sd' = sd /\ p' = p) -> lvl s' p' sd' = lvl s p' sd') ->
  (forall i, i ∉ map idx (a_queue a sd p) -> node s' i = node s i) ->
  level_rep s' sd p l -> Levels s' (set_queue a sd p l).
Proof.
  intros Ha Hl Hlv Hnd Hr. apply (Levels_upd s); auto.
  intros sd' p' e' Hne He'. apply Hnd. intros (e & E & He)%list_elem_of_fmap.
  by apply (other_queue_idx a sd p e sd' p' e').
Qed.

Section Fill.
Context (s : State) (a : ABook) (sd : Side) (p : Z) (e : Entry) (l : list Entry).
Context (HR : Rep s a) (Hp : 0 <= p < MAX_TICKS) (E : a_queue a sd p = e :: l).

Lemma head_in : e ∈ a_queue a sd p.
Proof. rewrite E. left. Qed.

Lemma head_level :
  lvl s p sd = mkLevelSide (e_qty e + volume l) (idx e) (last_idx (idx e) l) /\
  node s (idx e) = mkNode (hd_idx 0 l) 0 p (e_qty e) (e_id e) (e_sys e) sd /\
  dseg (nodePool_ s) sd p (idx e) l 0.
Proof. destruct (rep_level _ _ HR sd p Hp) as [H1 H2]. rewrite E in H1, H2. split; [done|apply H2]. Qed.

Lemma head_bounds : 0 < e_qty e < 2 ^ 32 /\ 0 <= volume l /\ e_qty e + volume l < 2 ^ 63 /\
  NoDup (map idx (e :: l)) /\ idx e <> 0.
Proof.
  pose proof (rep_wf _ _ HR) as Ha.
  pose proof (a_qtys _ Ha _ _ _ head_in). pose proof (volume_bound _ sd p Ha) as Hv.
  rewrite E, volume_cons in Hv. pose proof (a_nodup _ Ha sd p) as Hn. rewrite E in Hn.
  pose proof (queue_idx_pos _ _ _ _ Ha head_in). repeat split; try lia; try done.
  apply sumZ_nonneg, Forall_forall. intros q (e' & -> & He')%list_elem_of_fmap.
  assert (Hin : e' ∈ a_queue a sd p) by (rewrite E; by right).
  pose proof (a_qtys _ Ha _ _ _ Hin). lia.
Qed.

(** The incoming order takes only a part of the head. *)
Lemma fillHead_part rem :
  0 < rem < e_qty e ->
  exists s', fillHead s sd p (lvl s p sd) rem = Ok (s', 0) /\
    Rep s' (set_queue a sd p (mkEntry (e_id e) (e_sys e) (e_qty e - rem) :: l)).
Proof.
  intros Hrem. destruct head_level as (Hlv & Hnd & Hseg).
  destruct head_bounds as (Hq & Hv & Hv2 & Hdup & H0).
  destruct (proj1 (Rep_parts _ _) HR) as (Ha & HL & Ho & Hf).
  unfold fillHead. rewrite Hlv. cbn [ls_head ls_volume ls_tail].
  rewrite get_node_ok, Hnd by apply idx_range. cbn [nd_qty set_qty].
  rewrite Z.min_l by lia. rewrite put_node_ok by apply idx_range. rewrite put_level_ok by done.
  rewrite (u32_small (rem - rem)), (u32_small (e_qty e - rem)), u64_small by lia.
  destruct (Z.eqb_spec (e_qty e - rem) 0); [lia|]. rewrite Z.sub_diag.
  eexists. split; [done|]. apply Rep_parts.
  set (e' := mkEntry (e_id e) (e_sys e) (e_qty e - rem)).
  assert (Ei : idx e' = idx e) by done. split; [|split; [|split]].
  - apply AOk_shrink; try done.
    + intros x [->|Hx]%elem_of_cons; [cbn; lia|]. apply (a_qtys _ Ha sd p). rewrite E. by right.
    + intros x [->|Hx]%elem_of_cons; [exists e; split; [apply head_in|done]|].
      exists x. rewrite E. split; [by right|done].
  - apply (Levels_local s); try done.
    + intros sd' p' Hne. by rewrite lvl_with_level_ne.
    + intros i Hi. rewrite E in Hi. cbn in Hi. apply not_elem_of_cons in Hi as [Hi _].
      by rewrite node_with_level, node_with_node_ne.
    + split; [etrans; [apply lvl_with_level_eq|]; rewrite volume_cons; unfold e'; cbn [e_qty]; f_equal; lia|].
      cbn [dseg]. rewrite Ei. split; [apply HugeArray.at_set_eq|].
      apply dseg_insert; [|done]. by apply NoDup_cons in Hdup as [? _].
  - eapply Occ_same_rest; [|eapply Occ_ext; [|apply Ho]]; [done|].
    intros sd' p'. rewrite occupied_set_queue. rewrite bool_decide_false by done.
    unfold upd2. destruct (decide _) as [[-> ->]|]; [|done]. unfold occupied. by rewrite E.
  - by eapply FreeRep_same_rest; [..|apply Hf].
Qed.

(** What the store of the used-up head's volume and the move of the level's
    head left: the orders behind it are linked, its successor's back link is
    not reset yet. *)
Section Unlink.
Context (s3 : State) (Hs3 : same_rest s s3).
Context (Hnode3 : forall i, idx e <> i -> node s3 i = node s i).
Context (Hlvl3 : forall sd' p', ~ (sd' = sd /\ p' = p) -> lvl s3 p' sd' = lvl s p' sd').
Context (Hseg3 : dseg (nodePool_ s3) sd p (idx e) l 0).
Context (Hlv3 : lvl s3 p sd = mkLevelSide (volume l) (hd_idx 0 l) (last_idx (idx e) l)).

Lemma unlink_head :
  exists s4, (if negb (hd_idx 0 l =? 0)
       then let! nn := get_node s3 (hd_idx 0 l) in put_node s3 (hd_idx 0 l) (set_prev nn 0)
       else let! s := put_level s3 p sd (mkLevelSide (volume l) (hd_idx 0 l) 0) in
            updateOccupancy s sd p false) = Ok s4 /\
     Levels s4 (set_queue a sd p l) /\ Occ s4 (occupied (set_queue a sd p l)) /\ FreeRep s4 a.
Proof.
  destruct head_bounds as (_ & _ & _ & Hdup & _).
  destruct (proj1 (Rep_parts _ _) HR) as (Ha & HL & Ho & Hf).
  pose proof (taken_split a sd p [] e l Ha Hp E) as Ht. cbn in Ht.
  assert (Hidx : forall i, i ∉ map idx (a_queue a sd p) -> idx e <> i)
    by (intros i Hi <-; apply Hi; rewrite E; left).
  destruct l as [|e2 l2] eqn:El.
  - cbn [hd_idx negb Z.eqb]. rewrite put_level_ok by done.
    destruct (occupancy_taken a sd p e [] Ht (with_level s3 p sd (mkLevelSide (volume []) 0 0)))
      as (s4 & E4 & Ho4 & Hc).
    { by eapply Occ_same_rest; [|apply Ho]. } { by rewrite lvl_with_level_eq. }
    exists s4. split; [done|]. destruct Hc as (C1 & C2 & C3 & C4 & C5). split; [|split; [done|]].
    + eapply Levels_core; [apply C1|apply C2|]. apply (Levels_local s); try done.
      * intros sd' p' Hne. rewrite lvl_with_level_ne by done. by apply Hlvl3.
      * intros i Hi. rewrite node_with_level. auto.
      * split; [apply lvl_with_level_eq|done].
    + eapply FreeRep_core; [..|apply Hf]; try done; rewrite ?C3, ?C4, ?C5; apply Hs3.
  - assert (Hr2 : idx e2 <> 0).
    { assert (Hin : e2 ∈ a_queue a sd p) by (rewrite E; right; left).
      pose proof (queue_idx_pos _ _ _ _ Ha Hin). lia. }
    cbn [hd_idx]. destruct (Z.eqb_spec (idx e2) 0); [done|]. cbn [negb].
    rewrite get_node_ok, put_node_ok by apply idx_range.
    destruct (occupancy_taken a sd p e (e2 :: l2) Ht
                (with_node s3 (idx e2) (set_prev (node s3 (idx e2)) 0))) as (s4 & E4 & Ho4 & Hc).
    { by eapply Occ_same_rest; [|apply Ho]. } { by rewrite lvl_with_node, Hlv3. }
    rewrite bool_decide_false in E4 by done. injection E4 as <-.
    eexists. split; [done|]. split; [|split; [done|by eapply FreeRep_same_rest; [..|apply Hf]]].
    apply (Levels_local s); try done.
    + intros i Hi. rewrite node_with_node_ne; [by auto|]. intros <-. apply Hi. rewrite E. right. left.
    + split; [etrans; [exact Hlv3|done]|]. eapply dseg_relink_first; [|apply Hseg3].
      by apply NoDup_cons in Hdup as [_ ?].
Qed.
End Unlink.

(** The head is used up: it leaves the queue and its identifier is recycled. *)
Lemma fillHead_used rem :
  e_qty e <= rem < 2 ^ 32 ->
  exists s', fillHead s sd p (lvl s p sd) rem = Ok (s', rem - e_qty e) /\
    Rep s' (push_free (set_queue a sd p l) (e_id e)).
Proof.
  intros Hrem. destruct head_level as (Hlv & Hnd & Hseg).
  destruct head_bounds as (Hq & Hv & Hv2 & Hdup & H0).
  destruct (proj1 (Rep_parts _ _) HR) as (Ha & HL & Ho & Hf).
  pose proof (taken_split a sd p [] e l Ha Hp E) as Ht. cbn in Ht.
  unfold fillHead. rewrite Hlv. cbn [ls_head ls_volume ls_tail].
  rewrite get_node_ok, Hnd by apply idx_range. cbn [nd_qty set_qty].
  rewrite Z.min_r by lia. rewrite put_node_ok by apply idx_range. rewrite put_level_ok by done.
  rewrite (u32_small (rem - e_qty e)), Z.sub_diag, u64_small by lia.
  change (u32 0) with 0. cbn [Z.eqb nd_qty set_qty nd_next nd_prev nd_price nd_localId nd_systemId nd_side].
  replace (e_qty e + volume l - e_qty e) with (volume l) by lia. rewrite put_level_ok by done.
  set (s3 := with_level (with_level _ _ _ _) _ _ _).
  assert (Hs3 : same_rest s s3) by done.
  assert (Hnode3 : forall i, idx e <> i -> node s3 i = node s i)
    by (intros; subst s3; by rewrite !node_with_level, node_with_node_ne).
  assert (Hlvl3 : forall sd' p', ~ (sd' = sd /\ p' = p) -> lvl s3 p' sd' = lvl s p' sd')
    by (intros; subst s3; by rewrite !lvl_with_level_ne, lvl_with_node).
  assert (Hseg3 : dseg (nodePool_ s3) sd p (idx e) l 0)
    by (apply dseg_insert; [by apply NoDup_cons in Hdup as [? _]|done]).
  assert (Hlv3 : lvl s3 p sd = mkLevelSide (volume l) (hd_idx 0 l) (last_idx (idx e) l))
    by (subst s3; apply lvl_with_level_eq). clearbody s3.
  destruct (unlink_head s3 Hs3 Hnode3 Hlvl3 Hseg3 Hlv3) as (s4 & -> & HL4 & Ho4 & Hf4).
  destruct (release_taken a sd p e l Ha Ht s4 HL4 Ho4 Hf4) as (s' & -> & HR'). eauto.
Qed.
End Fill.

End Refine.
End BookRefine.
