(* ===== verification/BookMatch.v ===== *)
(** * Matching refines the sweep of the opposite queues

    [drainLevel] fills against one level as [consume] does, and the outer
    loop of [match] visits the levels in the order of [eligible]. *)

From S2P Require Import Prelude SlotId HugeArray Types PriceLevelBook BookSpec BookMask BookInv.
From S2P Require Import BookRefine.
Import Book BookSpec BookMask BookInv BookRefine.

Module BookMatch.
Section Match.
Context `{B : Build} `{BO : !BuildOk B}.

(** ** Facts of the reference operations *)

Lemma consume_rem qty l used rest rem :
  0 <= qty -> Forall (fun e => 0 < e_qty e) l -> consume qty l = (used, rest, rem) ->
  0 <= rem <= qty /\ (rem = 0 \/ rest = []) /\ (0 < rem -> used = l) /\
  (0 < qty -> l <> [] -> rem < qty) /\ (rem <> 0 -> l <> [] -> used <> []).
Proof.
  intros Hq Hl. revert qty used rest rem Hq. induction Hl as [|e l He Hl IH]; intros qty used rest rem Hq.
  { intros [= <- <- <-]. repeat split; auto; try lia; done. }
  cbn [consume]. destruct (Z.eqb_spec qty 0) as [->|Hne].
  { intros [= <- <- <-]. repeat split; auto; try lia. }
  destruct (Z.leb_spec (e_qty e) qty).
  - destruct (consume (qty - e_qty e) l) as [[u r] m] eqn:Ec. intros [= <- <- <-].
    destruct (IH (qty - e_qty e) u r m ltac:(lia) Ec) as (H1 & H2 & H3 & H4 & H5).
    repeat split; auto; try lia; try done. intros Hm. by rewrite H3.
  - intros [= <- <- <-]. repeat split; auto; try lia.
Qed.

Lemma sweep_zero ps a sd : sweep ps a sd 0 = (a, 0).
Proof. by destruct ps. Qed.

(** Prices with no order are passed over. *)
Lemma sweep_skip ps1 ps2 a sd qty :
  Forall (fun p => a_queue a sd p = []) ps1 -> sweep (ps1 ++ ps2) a sd qty = sweep ps2 a sd qty.
Proof.
  induction 1 as [|p ps1 Hp _ IH]; [done|]. cbn [sweep app].
  destruct (Z.eqb_spec qty 0) as [->|]; [by rewrite sweep_zero|]. by rewrite Hp.
Qed.

Lemma sweep_none ps a sd qty :
  Forall (fun p => a_queue a sd p = []) ps -> sweep ps a sd qty = (a, qty).
Proof. intros H. rewrite <- (app_nil_r ps). by rewrite sweep_skip. Qed.

Definition recycle (a : ABook) (sd : Side) (p : Z) (used rest : list Entry) : ABook :=
  foldl push_free (set_queue a sd p rest) (map e_id used).

Lemma sweep_hit p ps a sd qty used rest rem :
  qty <> 0 -> a_queue a sd p <> [] -> consume qty (a_queue a sd p) = (used, rest, rem) ->
  sweep (p :: ps) a sd qty = sweep ps (recycle a sd p used rest) sd rem.
Proof.
  intros Hq Hne Ec. cbn [sweep]. destruct (Z.eqb_spec qty 0); [done|].
  destruct (a_queue a sd p) eqn:E; [done|]. by rewrite Ec.
Qed.

Lemma foldl_push_free_queue a ids sd p : a_queue (foldl push_free a ids) sd p = a_queue a sd p.
Proof. revert a. induction ids as [|id ids IH]; intros a; cbn; [done|]. by rewrite IH. Qed.

Lemma foldl_push_free_next a ids : a_next (foldl push_free a ids) = a_next a.
Proof. revert a. induction ids as [|id ids IH]; intros a; cbn; [done|]. by rewrite IH. Qed.

Lemma foldl_push_free_len a ids :
  length (a_free (foldl push_free a ids)) = (length ids + length (a_free a))%nat.
Proof. revert a. induction ids as [|id ids IH]; intros a; cbn; [done|]. rewrite IH. cbn. lia. Qed.

Lemma recycle_queue_eq a sd p used rest : a_queue (recycle a sd p used rest) sd p = rest.
Proof. unfold recycle. by rewrite foldl_push_free_queue, queue_set_eq. Qed.

Lemma recycle_queue_ne a sd p used rest sd' p' :
  ~ (sd' = sd /\ p' = p) -> a_queue (recycle a sd p used rest) sd' p' = a_queue a sd' p'.
Proof. intros. unfold recycle. by rewrite foldl_push_free_queue, queue_set_ne. Qed.

(** ** The inner loop *)

Lemma head_zero s a sd p :
  Rep s a -> 0 <= p < MAX_TICKS -> (ls_head (lvl s p sd) =? 0) = bool_decide (a_queue a sd p = []).
Proof.
  intros HR Hp. destruct (rep_level _ _ HR sd p Hp) as [H _]. unfold lvl. rewrite H.
  apply hd_idx_0, queue_idx_nonzero, (rep_wf _ _ HR).
Qed.

Lemma queue_qtys_pos a sd p : AOk a -> Forall (fun e => 0 < e_qty e) (a_queue a sd p).
Proof. intros H. apply Forall_forall. intros e He. by destruct (a_qtys _ H _ _ _ He). Qed.

Lemma drainLevel_zero fuel s sd p :
  0 <= p < MAX_TICKS -> (0 < fuel)%nat -> drainLevel fuel s sd p 0 = Ok (s, 0).
Proof. intros Hp Hf. destruct fuel; [lia|]. cbn. rewrite get_level_ok by done. by rewrite andb_false_r. Qed.

Lemma drainLevel_ok fuel s a sd p qty used rest rem :
  Rep s a -> 0 <= p < MAX_TICKS -> 0 <= qty < 2 ^ 32 ->
  (length (a_queue a sd p) < fuel)%nat ->
  consume qty (a_queue a sd p) = (used, rest, rem) ->
  exists s', drainLevel fuel s sd p qty = Ok (s', rem) /\ Rep s' (recycle a sd p used rest).
Proof.
  revert s a qty used rest rem.
  induction fuel as [|fuel IH]; intros s a qty used rest rem HR Hp Hq Hf; [lia|].
  cbn [drainLevel]. rewrite get_level_ok, (head_zero s a) by done.
  destruct (a_queue a sd p) as [|e l] eqn:E.
  { rewrite bool_decide_true by done. intros [= <- <- <-]. exists s. split; [done|].
    unfold recycle. cbn. rewrite <- E. by rewrite set_queue_self. }
  rewrite bool_decide_false by done. cbn [negb andb consume].
  destruct (Z.ltb_spec 0 qty), (Z.eqb_spec qty 0); try lia.
  2: { intros [= <- <- <-]. exists s. split; [done|]. unfold recycle. cbn. rewrite <- E. by rewrite set_queue_self. }
  destruct (Z.leb_spec (e_qty e) qty).
  - destruct (consume (qty - e_qty e) l) as [[u r] m] eqn:Ec. intros [= <- <- <-].
    destruct (fillHead_used s a sd p e l HR Hp E qty) as (s1 & -> & HR1); [lia|].
    pose proof (a_qtys _ (rep_wf _ _ HR) _ _ _ (head_in a sd p e l E)).
    edestruct (IH s1 _ (qty - e_qty e) u r m HR1 Hp) as (s' & -> & HR'); [lia| | |].
    + cbn [push_free a_queue]. rewrite queue_set_eq. cbn in Hf. lia.
    + cbn [push_free a_queue]. by rewrite queue_set_eq.
    + exists s'. split; [done|]. revert HR'. unfold recycle. cbn [map fmap list_fmap foldl].
      apply Rep_proper; [done|]. apply foldl_push_free_proper.
      by rewrite set_queue_push_free, set_queue_twice.
  - intros [= <- <- <-].
    destruct (fillHead_part s a sd p e l HR Hp E qty) as (s1 & -> & HR1); [lia|].
    rewrite drainLevel_zero by (done || (cbn in Hf; lia)). by exists s1.
Qed.

(** ** The outer loop *)

(** Slots in use: an upper bound of the iterations of the outer loop. *)
Definition in_use (a : ABook) : nat := (Z.to_nat (a_next a) - length (a_free a))%nat.

Lemma head_occupied s a sd p :
  Rep s a -> 0 <= p < MAX_TICKS ->
  occupied a sd p = negb (ls_head (level_side (HugeArray.at_ (levels_ s) p) sd) =? 0).
Proof.
  intros HR Hp. change (level_side (HugeArray.at_ (levels_ s) p) sd) with (lvl s p sd).
  rewrite (head_zero s a) by done. unfold occupied. by destruct (a_queue a sd p).
Qed.

Lemma occupied_false a sd p : occupied a sd p = false <-> a_queue a sd p = [].
Proof. unfold occupied. by destruct (a_queue a sd p). Qed.

(** The level the next iteration works on: none when no eligible price has
    orders, otherwise the first of the eligible prices that has some. *)
Definition next_level (s : State) (side : Side) (limit : Z) : res (option Z) :=
  if match side with SBuy => limit <? minAsk_ s | SSell => maxBid_ s <? limit end
  then Ok None
  else
    let! bp := match side with SBuy => getBestAsk s limit | SSell => getBestBid s limit end in
    Ok (if bp_exists bp then Some (bp_price bp) else None).

Lemma next_level_ok s a side limit :
  Rep s a -> 0 <= limit < MAX_TICKS ->
  (next_level s side limit = Ok None /\
     Forall (fun p => a_queue a (opposite side) p = []) (eligible (opposite side) limit)) \/
  (exists p ps1 ps2, next_level s side limit = Ok (Some p) /\ 0 <= p < MAX_TICKS /\
     eligible (opposite side) limit = ps1 ++ p :: ps2 /\
     Forall (fun p => a_queue a (opposite side) p = []) ps1 /\
     a_queue a (opposite side) p <> []).
Proof.
  intros HR Hl. destruct (proj1 (Rep_parts _ _) HR) as (Ha & _ & Ho & _). unfold next_level.
  pose proof (fun sd p Hp => head_occupied s a sd p HR Hp) as Hh.
  destruct side; cbn [opposite eligible].
  - destruct (occ_min _ _ Ho) as (Hr & Hlow & Hm). destruct (Z.ltb_spec limit (minAsk_ s)).
    { left. split; [done|]. apply Forall_forall. intros p Hp%elem_of_seqZ.
      apply occupied_false, Hlow. lia. }
    right. rewrite (getBestAsk_ok s (occupied a)) by done. cbn.
    destruct Hm as [Hm|Hm]; [|lia].
    exists (minAsk_ s), (seqZ 0 (minAsk_ s)), (seqZ (minAsk_ s + 1) (limit - minAsk_ s)).
    split; [done|]. split; [lia|]. split; [|split].
    + replace (limit + 1) with (minAsk_ s + (1 + (limit - minAsk_ s))) by lia.
      rewrite seqZ_app by lia. f_equal. rewrite seqZ_cons by lia. f_equal. f_equal; lia.
    + apply Forall_forall. intros p Hp%elem_of_seqZ. apply occupied_false, Hlow. lia.
    + intros E%occupied_false. congruence.
  - destruct (occ_max _ _ Ho) as (Hr & Hhigh & Hm). destruct (Z.ltb_spec (maxBid_ s) limit).
    { left. split; [done|]. apply Forall_forall. intros p Hp%elem_of_reverse%elem_of_seqZ.
      apply occupied_false, Hhigh. lia. }
    destruct (occupied a SBuy (maxBid_ s)) eqn:Eo.
    + right. rewrite (getBestBid_ok s (occupied a)) by done. cbn.
      exists (maxBid_ s), (reverse (seqZ (maxBid_ s + 1) (MAX_TICKS - maxBid_ s - 1))),
        (reverse (seqZ limit (maxBid_ s - limit))).
      split; [done|]. split; [lia|]. split; [|split].
      * replace (MAX_TICKS - limit)
          with ((maxBid_ s - limit) + (1 + (MAX_TICKS - maxBid_ s - 1))) by lia.
        rewrite seqZ_app by lia. rewrite reverse_app. rewrite seqZ_cons by lia.
        rewrite reverse_cons. rewrite <- (assoc_L app). f_equal; [f_equal; f_equal; lia|].
        cbn. f_equal. lia.
      * apply Forall_forall. intros p Hp%elem_of_reverse%elem_of_seqZ.
        apply occupied_false, Hhigh. lia.
      * intros E%occupied_false. congruence.
    + left. rewrite (getBestBid_none s (occupied a)) by done. split; [done|].
      destruct Hm as [|Hm]; [congruence|].
      apply Forall_forall. intros p Hp%elem_of_reverse%elem_of_seqZ. apply occupied_false.
      destruct (Z.eq_dec p (maxBid_ s)) as [->|]; [done|]. apply Hhigh. lia.
Qed.

Lemma match_loop_step fuel s o side qty :
  0 < qty ->
  match_loop (S fuel) s o side qty =
  let! lv := next_level s side (io_price o) in
  match lv with
  | None => Ok (s, qty)
  | Some p =>
      let! level := get_level s p (opposite side) in
      if ls_head level =? 0 then
        let! s := updateOccupancy s (opposite side) p false in
        match_loop fuel s o side qty
      else
        let! (s, rem) := drainLevel (fuel_of s) s (opposite side) p qty in
        match_loop fuel s o side rem
  end.
Proof.
  intros Hq. cbn [match_loop]. unfold next_level.
  destruct (Z.ltb_spec 0 qty); [|lia].
  destruct side; (destruct (_ <? _); [done|]).
  - destruct (getBestAsk s (io_price o)) as [[bp []]|]; done.
  - destruct (getBestBid s (io_price o)) as [[bp []]|]; done.
Qed.

Lemma match_loop_ok fuel s a o side qty :
  Rep s a -> 0 <= io_price o < MAX_TICKS -> 0 <= qty < 2 ^ 32 ->
  (in_use a + 1 < fuel)%nat \/ (qty = 0 /\ (0 < fuel)%nat) ->
  let r := spec_match a side (io_price o) qty in
  exists s', match_loop fuel s o side qty = Ok (s', r.2) /\ Rep s' r.1 /\ 0 <= r.2 <= qty.
Proof.
  unfold spec_match. set (ps := eligible (opposite side) (io_price o)).
  revert s a qty. induction fuel as [|fuel IH]; intros s a qty HR Hp Hq Hf; [lia|].
  destruct (Z.eq_dec qty 0) as [->|Hne].
  { rewrite sweep_zero. cbn. eauto with lia. }
  rewrite match_loop_step by lia.
  destruct (next_level_ok s a side (io_price o) HR Hp)
    as [[-> Hnone]|(p & ps1 & ps2 & -> & Hpr & Eps & Hpre & Hq0)].
  { rewrite sweep_none by done. cbn. eauto with lia. }
  rewrite get_level_ok, (head_zero s a), bool_decide_false by done.
  destruct (consume qty (a_queue a (opposite side) p)) as [[used rest] rem] eqn:Ec.
  pose proof (rep_wf _ _ HR) as Ha. pose proof (queue_length a (opposite side) p Ha).
  destruct (drainLevel_ok (fuel_of s) s a (opposite side) p qty used rest rem HR Hpr Hq)
    as (s1 & -> & HR1); [unfold fuel_of; rewrite (rep_next _ _ HR); lia|done|].
  destruct (consume_rem qty _ _ _ _ ltac:(lia) (queue_qtys_pos a (opposite side) p Ha) Ec)
    as (Hr & Hend & _ & _ & Hused).
  assert (Esw : sweep ps a (opposite side) qty =
                sweep ps (recycle a (opposite side) p used rest) (opposite side) rem).
  { unfold ps. rewrite Eps, sweep_skip by done. erewrite sweep_hit by done.
    destruct Hend as [->| ->]; [by rewrite !sweep_zero|].
    change (p :: ps2) with ([p] ++ ps2). rewrite (assoc_L app). rewrite sweep_skip; [done|].
    apply Forall_app; split; [|constructor; [apply recycle_queue_eq|constructor]].
    eapply Forall_impl; [exact Hpre|]. intros q Eq.
    destruct (decide (q = p)) as [->|]; [apply recycle_queue_eq|].
    rewrite recycle_queue_ne; [done|]. by intros [_ ?]. }
  rewrite Esw. destruct (IH s1 _ rem HR1 Hp ltac:(lia)) as (s' & -> & HR' & Hle).
  - destruct Hf as [Hf|]; [|lia]. destruct (Z.eq_dec rem 0) as [->|Hrem]; [right; lia|left].
    assert (used <> []) by auto. destruct used as [|u us]; [done|].
    pose proof (free_length _ (rep_wf _ _ HR1)) as Hfl. pose proof (a_next_range _ Ha).
    unfold recycle in Hfl. revert Hfl. unfold in_use, recycle in *.
    rewrite foldl_push_free_next, foldl_push_free_len, length_map. cbn [set_queue a_next a_free length]. lia.
  - exists s'. split; [done|]. split; [done|lia].
Qed.

Lemma match_ok s a o side :
  Rep s a -> 0 <= io_price o < MAX_TICKS -> 0 <= io_quantity o < 2 ^ 32 ->
  let r := spec_match a side (io_price o) (io_quantity o) in
  exists s', match_ s o side = Ok (s', r.2) /\ Rep s' r.1 /\ 0 <= r.2 <= io_quantity o.
Proof.
  intros HR Hp Hq. unfold match_. apply match_loop_ok; try done. left.
  unfold fuel_of, in_use. rewrite (rep_next _ _ HR). lia.
Qed.

End Match.
End BookMatch.
