(* ===== verification/BookOps.v ===== *)
(** * Resting and cancelling refine the queue operations

    [restOrder] appends to the queue of its price, [cancelOrder] takes the
    named order out of its queue; both keep the representation. *)

From S2P Require Import Prelude SlotId HugeArray Types PriceLevelBook BookSpec BookMask BookInv.
From S2P Require Import BookRefine BookMatch.
Import Book BookSpec BookMask BookInv BookRefine.

Module BookOps.
Section Ops.
Context `{B : Build} `{BO : !BuildOk B}.

(** ** Acquiring an identifier *)

Definition next_up (a : ABook) (fr : list BookOrderId) (n : Z) : ABook := mkABook (a_queue a) fr n.

Lemma AOk_pop a id fr : AOk a -> a_free a = id :: fr ->
  AOk (next_up a fr (a_next a)) /\ wf_id (next_up a fr (a_next a)) id /\
  unused (next_up a fr (a_next a)) (SlotId.index MAX_BOOK_ORDERS id).
Proof.
  intros [H1 H2 H3 H4 H5 H6 H7 H8 H9] E. rewrite E in *. cbn in H8.
  apply NoDup_cons in H8 as [Hni Hnd]. split; [|split].
  - split; cbn; try done.
    + intros id' Hid'. apply H7. by right.
    + intros sd p e id' He Hid'. eapply H9; [done|by right].
  - apply H7. left.
  - split.
    + intros sd p e He. eapply H9; [done|left].
    + intros id' Hid' Ei. apply Hni. apply list_elem_of_fmap. by exists id'.
Qed.

Lemma wf_id_mono a b id : a_next a <= a_next b -> wf_id a id -> wf_id b id.
Proof. intros Hle (H1 & H2 & H3). repeat split; try done; lia. Qed.

Lemma AOk_fresh a : AOk a -> a_free a = [] -> a_next a < MAX_BOOK_ORDERS ->
  let b := next_up a [] (a_next a + 1) in let id := SlotId.make MAX_BOOK_ORDERS (a_next a) 1 in
  AOk b /\ wf_id b id /\ unused b (SlotId.index MAX_BOOK_ORDERS id).
Proof.
  intros [H1 H2 H3 H4 H5 H6 H7 H8 H9] E Hlt. cbn zeta.
  pose proof (SlotId.pow_bits_bounds MAX_BOOK_ORDERS BOOK_ORDER_BITS) as [_ Hg].
  pose proof (@SlotId.cap_pow2 MAX_BOOK_ORDERS BOOK_ORDER_BITS _) as Hcap.
  assert (Ei : SlotId.index MAX_BOOK_ORDERS (SlotId.make MAX_BOOK_ORDERS (a_next a) 1) = a_next a)
    by (apply (SlotId.index_make _ BOOK_ORDER_BITS); lia).
  split; [|split].
  - split; cbn; try done; try lia.
    + intros. eapply wf_id_mono; [|by eapply H3]. cbn. lia.
    + by intros id ?%elem_of_nil.
    + constructor.
    + by intros sd p e id _ ?%elem_of_nil.
  - split; [apply (SlotId.make_u32 _ BOOK_ORDER_BITS); lia|]. rewrite Ei. split; [|cbn; lia].
    rewrite (SlotId.gen_make _ BOOK_ORDER_BITS); lia.
  - rewrite Ei. split; cbn; [|by intros id ?%elem_of_nil].
    intros sd p e He. destruct (H3 _ _ _ He) as (_ & _ & ?). unfold idx. lia.
Qed.

Lemma acquireId_ok s a : FreeRep s a -> AOk a ->
  match spec_acquire a with
  | None => acquireId s = Ok (s, SlotId.invalid)
  | Some (b, id) => exists s', acquireId s = Ok (s', id) /\ FreeRep s' b /\
      nodePool_ s' = nodePool_ s /\ levels_ s' = levels_ s /\ (forall f, Occ s f -> Occ s' f) /\
      a_queue b = a_queue a /\ AOk b /\ wf_id b id /\ unused b (SlotId.index MAX_BOOK_ORDERS id)
  end.
Proof.
  intros [H1 H2 H3] Ha. unfold spec_acquire, acquireId. rewrite H1, H2.
  pose proof (free_length _ Ha). pose proof (a_next_range _ Ha). pose proof max_book_orders_range.
  destruct (a_free a) as [|id fr] eqn:E; cbn [length].
  - cbn [Z.of_nat Z.ltb Z.compare]. destruct (Z.leb_spec MAX_BOOK_ORDERS (a_next a)); [done|].
    rewrite u32_small by lia. eexists. split; [done|]. split; [by split|].
    do 4 (split; [done || (intros f []; by split)|]). by apply AOk_fresh.
  - cbn [length] in *. destruct (Z.ltb_spec 0 (Z.of_nat (S (length fr)))); [|lia].
    rewrite HugeArray.get_ok by lia.
    replace (Z.of_nat (S (length fr)) - 1) with (Z.of_nat (length fr)) by lia.
    rewrite (H3 (length fr) id).
    2: { rewrite reverse_cons. rewrite lookup_app_r; rewrite length_reverse; [|done].
         by rewrite Nat.sub_diag. }
    eexists. split; [done|]. split.
    { split; try done. intros k id' Hk. apply H3. rewrite reverse_cons.
      by apply lookup_app_l_Some. }
    do 4 (split; [done || (intros f []; by split)|]). by apply AOk_pop.
Qed.

(** ** Resting *)

Section Rest.
Context (s : State) (a : ABook) (side : Side) (price : Z) (e : Entry).
Context (Ha : AOk a) (HL : Levels s a) (Hp : 0 <= price < MAX_TICKS).
Context (Hid : wf_id a (e_id e)) (Hun : unused a (idx e)) (Hq : 0 < e_qty e < 2 ^ 32).

Abbreviation q := (a_queue a side price).

Lemma rest_AOk : AOk (set_queue a side price (q ++ [e])).
Proof.
  apply AOk_set_queue; try done.
  - intros x [Hx|Hx%list_elem_of_singleton]%elem_of_app; [|by subst].
    split; [by apply (a_ids _ Ha side price)|by apply (a_qtys _ Ha side price)].
  - rewrite map_app. apply NoDup_app. split; [apply (a_nodup _ Ha)|]. split; [|apply NoDup_singleton].
    intros i (x & -> & Hx)%list_elem_of_fmap Hi%list_elem_of_singleton.
    by apply (proj1 Hun _ _ _ Hx).
  - intros x [Hx|Hx%list_elem_of_singleton]%elem_of_app; [left|right; by subst].
    apply list_elem_of_fmap. eauto.
Qed.

Lemma rest_fresh sd p x : x ∈ a_queue a sd p -> idx e <> idx x.
Proof. intros Hx E. by apply (proj1 Hun _ _ _ Hx). Qed.

(** The level and the nodes once the entry is linked in. *)
Lemma rest_Levels s' :
  (forall sd' p', ~ (sd' = side /\ p' = price) -> lvl s' p' sd' = lvl s p' sd') ->
  lvl s' price side = mkLevelSide (volume q + e_qty e) (hd_idx (idx e) q) (idx e) ->
  node s' (idx e) = mkNode 0 (last_idx 0 q) price (e_qty e) (e_id e) (e_sys e) side ->
  (forall i, idx e <> i -> last_idx 0 q <> i -> node s' i = node s i) ->
  (q <> [] -> node s' (last_idx 0 q) = set_next (node s (last_idx 0 q)) (idx e)) ->
  Levels s' (set_queue a side price (q ++ [e])).
Proof.
  intros Hlv Hl He Hother Hlast.
  assert (Hlin : q <> [] -> exists t, last_idx 0 q = idx t /\ t ∈ q).
  { destruct q as [|t l _] using rev_ind; [done|]. intros _. exists t.
    rewrite last_idx_snoc. split; [done|]. rewrite elem_of_app. right. left. }
  apply (Levels_upd s); try done.
  - intros sd' p' x Hne Hx. apply Hother; [by eapply rest_fresh|].
    intros E. destruct (decide (q = [])) as [Eq|Hq0].
    + rewrite Eq in E. pose proof (queue_idx_pos _ _ _ _ Ha Hx). cbn in E. lia.
    + destruct (Hlin Hq0) as (t & Et & Ht). rewrite Et in E.
      by apply (other_queue_idx a side price t sd' p' x).
  - split; [rewrite Hl || (etrans; [exact Hl|]); f_equal|].
    { rewrite volume_app. unfold volume at 3. cbn. lia. }
    { by rewrite hd_idx_app. } { by rewrite last_idx_snoc. }
    apply dseg_app. split; [|by split].
    destruct (HL side price Hp) as [_ Hseg]. cbn [hd_idx].
    pose proof (a_nodup _ Ha side price) as Hnd. pose proof rest_fresh as Hfr.
    specialize (Hfr side price). revert Hlast Hother Hseg Hnd Hfr. clear.
    destruct q as [|t l _] using rev_ind; [done|]. rewrite last_idx_snoc.
    intros Hlast Hother Hseg Hnd Hfr. specialize (Hlast ltac:(by destruct l)).
    eapply dseg_frame; [|apply (dseg_relink_last _ _ _ _ _ _ _ (idx e) Hnd Hseg)].
    intros x Hx. rewrite HugeArray.at_set. case_decide as Ex.
    + rewrite <- Ex. exact Hlast.
    + apply Hother; auto.
Qed.
End Rest.

(** Linking a node at the end of its queue: the branches of [restOrder] on
    [level.tail]. *)
Definition linkTail (s : State) (price : Z) (side : Side) (level : PriceLevelSide) (i : Z) : res State :=
  if negb (ls_tail level =? 0) then
    let! t := get_node s (ls_tail level) in put_node s (ls_tail level) (set_next t i)
  else
    let! s := put_level s price side (mkLevelSide (ls_volume level) i (ls_tail level)) in
    updateOccupancy s side price true.

Section Link.
Context (s : State) (a : ABook) (side : Side) (price : Z) (e : Entry).
Context (Ha : AOk a) (HL : Levels s a) (Ho : Occ s (occupied a)) (Hp : 0 <= price < MAX_TICKS).
Context (Hid : wf_id a (e_id e)) (Hun : unused a (idx e)) (Hq : 0 < e_qty e < 2 ^ 32).

Abbreviation q := (a_queue a side price).
Abbreviation new := (mkNode 0 (last_idx 0 q) price (e_qty e) (e_id e) (e_sys e) side).
Abbreviation s1 := (with_node s (idx e) new).

Lemma linkTail_empty :
  q = [] ->
  exists s2, linkTail s1 price side (mkLevelSide (volume q) (hd_idx 0 q) (last_idx 0 q)) (idx e) = Ok s2 /\
    nodePool_ s2 = nodePool_ s1 /\ lvl s2 price side = mkLevelSide (volume q) (idx e) 0 /\
    (forall sd' p', ~ (sd' = side /\ p' = price) -> lvl s2 p' sd' = lvl s p' sd') /\
    Occ s2 (upd2 (occupied a) side price true) /\
    freeStack_ s2 = freeStack_ s /\ freeTop_ s2 = freeTop_ s /\
    nextAvailableIdx_ s2 = nextAvailableIdx_ s.
Proof.
  intros E. unfold linkTail. rewrite E. cbn [last_idx hd_idx ls_tail ls_volume Z.eqb negb].
  rewrite put_level_ok by done.
  destruct (updateOccupancy_on (with_level (with_node s (idx e) (mkNode 0 0 price (e_qty e) (e_id e) (e_sys e) side))
              price side (mkLevelSide (volume []) (idx e) 0)) (occupied a)
              ltac:(by eapply Occ_same_rest; [|apply Ho]) side price Hp)
    as (s2 & -> & Ho2 & C1 & C2 & C3 & C4 & C5).
  exists s2. split; [done|]. split; [done|].
  assert (Hlv : forall p' sd', lvl s2 p' sd' = lvl (with_level s price side (mkLevelSide (volume []) (idx e) 0)) p' sd')
    by (intros; unfold lvl; by rewrite C2).
  split; [by rewrite Hlv, lvl_with_level_eq|]. split; [|done].
  intros. by rewrite Hlv, lvl_with_level_ne.
Qed.

Lemma linkTail_nonempty :
  q <> [] ->
  exists s2, linkTail s1 price side (mkLevelSide (volume q) (hd_idx 0 q) (last_idx 0 q)) (idx e) = Ok s2 /\
    s2 = with_node s1 (last_idx 0 q) (set_next (node s (last_idx 0 q)) (idx e)) /\
    last_idx 0 q <> idx e.
Proof.
  intros Hne. pose proof (queue_idx_nonzero _ side price Ha) as Hnz.
  pose proof (last_idx_0 _ Hnz) as E0.
  assert (exists t, t ∈ q /\ last_idx 0 q = idx t) as (t & Ht & Et).
  { destruct q as [|t l _] using rev_ind; [done|]. exists t. rewrite last_idx_snoc.
    split; [|done]. rewrite elem_of_app. right. left. }
  assert (Hti : last_idx 0 q <> idx e) by (rewrite Et; by apply (proj1 Hun _ _ _ Ht)).
  unfold linkTail. cbn [ls_tail]. rewrite E0, bool_decide_false by done. cbn [negb].
  assert (0 <= last_idx 0 q < MAX_BOOK_ORDERS) by (rewrite Et; apply idx_range).
  rewrite get_node_ok, put_node_ok by done.
  rewrite node_with_node_ne by done. by eexists.
Qed.

(** The whole update of the queue. *)
Lemma link_ok :
  exists s2, linkTail s1 price side (mkLevelSide (volume q) (hd_idx 0 q) (last_idx 0 q)) (idx e) = Ok s2 /\
    let s3 := with_level s2 price side
      (mkLevelSide (u64 (ls_volume (lvl s2 price side) + e_qty e)) (ls_head (lvl s2 price side)) (idx e)) in
    Levels s3 (set_queue a side price (q ++ [e])) /\
    Occ s3 (occupied (set_queue a side price (q ++ [e]))) /\
    freeStack_ s3 = freeStack_ s /\ freeTop_ s3 = freeTop_ s /\
    nextAvailableIdx_ s3 = nextAvailableIdx_ s.
Proof.
  assert (Hocc : forall sd p, occupied (set_queue a side price (q ++ [e])) sd p =
                              upd2 (occupied a) side price true sd p).
  { intros. rewrite occupied_set_queue. by rewrite bool_decide_false by (by destruct q). }
  pose proof (volume_bound _ side price Ha) as Hv.
  destruct (HL side price Hp) as [Hlv _]. fold (lvl s price side) in Hlv.
  destruct (decide (q = [])) as [E|Hne].
  - destruct (linkTail_empty E) as (s2 & -> & En & El & Eo & Ho2 & Hf). exists s2. split; [done|].
    cbn zeta. rewrite El. cbn [ls_volume ls_head]. rewrite u64_small by lia.
    assert (Hnode : forall i, node s2 i = node s1 i) by (intros; unfold node; by rewrite En).
    split; [|split; [eapply Occ_same_rest; [|eapply Occ_ext; [symmetry; apply Hocc|apply Ho2]]; done|done]].
    apply (rest_Levels s); try done.
    + intros. rewrite lvl_with_level_ne by done. auto.
    + rewrite lvl_with_level_eq. by rewrite E.
    + by rewrite node_with_level, Hnode, node_with_node_eq.
    + intros i Hi _. by rewrite node_with_level, Hnode, node_with_node_ne.
  - destruct (linkTail_nonempty Hne) as (s2 & -> & -> & Hti). eexists. split; [done|]. cbn zeta.
    rewrite !lvl_with_node, Hlv. cbn [ls_volume ls_head]. rewrite u64_small by lia.
    split; [|split; [|done]].
    + apply (rest_Levels s); try done.
      * intros. by rewrite lvl_with_level_ne.
      * rewrite lvl_with_level_eq. by destruct q.
      * by rewrite node_with_level, node_with_node_ne, node_with_node_eq.
      * intros i Hi Hl. by rewrite node_with_level, !node_with_node_ne.
      * intros _. by rewrite node_with_level, node_with_node_eq.
    + eapply Occ_same_rest; [|eapply Occ_ext; [|apply Ho]]; [done|]. intros sd p. rewrite Hocc.
      unfold upd2. destruct (decide _) as [[-> ->]|]; [|done]. unfold occupied. by destruct q.
Qed.
End Link.

Lemma restOrder_ok s a o side qty :
  Rep s a -> 0 <= io_price o < MAX_TICKS -> 0 <= io_quantity o < 2 ^ 32 ->
  0 < qty <= io_quantity o ->
  let r := spec_rest a side (io_id o) (io_price o) (io_quantity o) qty in
  exists s', restOrder s o side qty = Ok (s', r.2) /\ Rep s' r.1.
Proof.
  intros HR Hp Hio Hq. unfold spec_rest, restOrder.
  destruct (proj1 (Rep_parts _ _) HR) as (Ha & HL & Ho & Hf).
  pose proof (acquireId_ok s a Hf Ha) as Hacq.
  destruct (spec_acquire a) as [[b id]|] eqn:Es.
  2: { rewrite Hacq. exists s. split; [|done]. by rewrite SlotId.invalid_not_valid. }
  destruct Hacq as (s0 & -> & Hf0 & En & El & Hoc & Eq & Hb & Hwf & Hun).
  assert (HL0 : Levels s0 b) by (eapply (Levels_core s); [done..|]; intros sd p; rewrite Eq; apply HL).
  assert (Ho0 : Occ s0 (occupied b)).
  { eapply Occ_ext; [|apply Hoc, Ho]. intros. unfold occupied. by rewrite Eq. }
  rewrite (proj2 (SlotId.isValid_gen _ _)) by apply Hwf. cbn [negb].
  set (e := mkEntry id (io_id o) qty).
  change (SlotId.index MAX_BOOK_ORDERS id) with (idx e).
  rewrite get_level_ok by done.
  destruct (HL0 side (io_price o) Hp) as [Hlv _]. fold (lvl s0 (io_price o) side) in Hlv.
  rewrite Hlv. cbn [ls_tail]. rewrite put_node_ok by apply idx_range.
  destruct (link_ok s0 b side (io_price o) e Hb HL0 Ho0 Hp Hun ltac:(cbn; lia))
    as (s2 & E2 & HL3 & Ho3 & Hfree).
  unfold linkTail in E2. cbn [ls_tail ls_volume] in E2 |- *.
  change (e_qty e) with qty in *. change (e_id e) with id in *. change (e_sys e) with (io_id o) in *.
  rewrite E2, get_level_ok, put_level_ok by done. cbn beta iota.
  rewrite (u32_small (io_quantity o - qty)) by lia.
  eexists. split; [done|]. apply Rep_parts. cbn [fst].
  split; [apply rest_AOk; try done; cbn; lia|]. split; [done|]. split; [done|].
  destruct Hfree as (F1 & F2 & F3). by eapply FreeRep_core; [..|apply Hf0].
Qed.

(** ** Cancelling *)

(** Partly unlinked: [s1] is [s] where the segments [l1] and [l2] before and
    after an order point past it as far as [nxt] and [prv] say; other nodes
    and levels are untouched. *)
Record unlinked (s : State) (sd : Side) (p vol : Z) (l1 l2 : list Entry)
    (s1 : State) (prv nxt h t : Z) : Prop := {
  ul_rest : same_rest s s1;
  ul_level : lvl s1 p sd = mkLevelSide (vol) h t;
  ul_levels : forall sd' p', ~ (sd' = sd /\ p' = p) -> lvl s1 p' sd' = lvl s p' sd';
  ul_nodes : forall i, i ∉ map idx (l1 ++ l2) -> node s1 i = node s i;
  ul_l1 : dseg (nodePool_ s1) sd p 0 l1 nxt;
  ul_l2 : dseg (nodePool_ s1) sd p prv l2 0
}.

Section Cancel.
Context (s : State) (a : ABook) (sd : Side) (p : Z) (e : Entry) (l1 l2 : list Entry).
Context (HR : Rep s a) (Hp : 0 <= p < MAX_TICKS) (E : a_queue a sd p = l1 ++ e :: l2).

Abbreviation q := (l1 ++ e :: l2).

Abbreviation nd :=
  (mkNode (hd_idx 0 l2) (last_idx 0 l1) p (e_qty e) (e_id e) (e_sys e) sd).

Lemma cancel_facts :
  node s (idx e) = nd /\ NoDup (map idx (l1 ++ l2)) /\ (idx e ∉ map idx (l1 ++ l2)) /\
  Forall (fun x => idx x <> 0) (l1 ++ l2) /\
  (forall x y, x ∈ l1 -> y ∈ l2 -> idx x <> idx y).
Proof.
  pose proof (rep_wf _ _ HR) as Ha. destruct (rep_level _ _ HR sd p Hp) as [_ Hseg].
  rewrite E in Hseg. split; [by eapply dseg_lookup|].
  destruct (taken_split a sd p l1 e l2 Ha Hp E) as [_ Hin Hsub Hnd]. split; [done|]. split.
  { intros (x & Ex & Hx)%list_elem_of_fmap. by apply (Hsub x Hx). }
  split. { apply Forall_forall. intros x Hx. destruct (Hsub x Hx) as [Hx' _].
    pose proof (queue_idx_pos _ _ _ _ Ha Hx'). lia. }
  intros x y Hx Hy Exy. rewrite map_app in Hnd. apply NoDup_app in Hnd as (_ & Hd & _).
  apply (Hd (idx x)); apply list_elem_of_fmap; [by exists x|by exists y].
Qed.

Lemma unlinked_start : unlinked s sd p (volume q) l1 l2 s (idx e) (idx e) (hd_idx 0 q) (last_idx 0 q).
Proof.
  destruct (rep_level _ _ HR sd p Hp) as [Hlv Hseg]. rewrite E in Hlv, Hseg.
  apply dseg_app in Hseg as (H1 & _ & H2). by split.
Qed.

Lemma unlinkPrev_ok :
  exists s1, unlinkPrev s nd = Ok s1 /\
    unlinked s sd p (volume q) l1 l2 s1 (idx e) (hd_idx 0 l2) (hd_idx 0 (l1 ++ l2)) (last_idx 0 q).
Proof.
  destruct cancel_facts as (Hn & Hnd & He & Hnz & Hd).
  destruct unlinked_start as [U1 U2 U3 U4 U5 U6]. unfold unlinkPrev. cbn [nd_prev nd_next nd_price nd_side].
  apply Forall_app in Hnz as [Hnz _]. rewrite (last_idx_0 _ Hnz).
  destruct l1 as [|t l1' _] using rev_ind.
  - rewrite bool_decide_true by done. cbn [negb]. rewrite get_level_ok, U2, put_level_ok by done.
    eexists. split; [done|]. split; try done.
    + apply lvl_with_level_eq.
    + intros. by rewrite lvl_with_level_ne.
  - rewrite bool_decide_false by (by destruct l1'). cbn [negb]. rewrite last_idx_snoc.
    rewrite get_node_ok, put_node_ok by apply idx_range. eexists. split; [done|]. split; try done.
    + rewrite lvl_with_node, U2. f_equal. rewrite <- !(assoc_L app), !hd_idx_app. by destruct l1'.
    + intros i Hi. apply node_with_node_ne. intros <-. apply Hi. apply list_elem_of_fmap.
      exists t. split; [done|]. rewrite !elem_of_app. left. right. left.
    + eapply dseg_relink_last; [|exact U5]. rewrite map_app in Hnd. by apply NoDup_app in Hnd as (? & _).
    + apply dseg_insert; [|done]. intros (y & Ey & Hy)%list_elem_of_fmap.
      apply (Hd t y); [|done..]. rewrite elem_of_app. right. left.
Qed.

Lemma unlinkNext_ok s1 :
  unlinked s sd p (volume q) l1 l2 s1 (idx e) (hd_idx 0 l2) (hd_idx 0 (l1 ++ l2)) (last_idx 0 q) ->
  exists s2, unlinkNext s1 nd = Ok s2 /\
    unlinked s sd p (volume q) l1 l2 s2 (last_idx 0 l1) (hd_idx 0 l2) (hd_idx 0 (l1 ++ l2)) (last_idx 0 (l1 ++ l2)).
Proof.
  destruct cancel_facts as (Hn & Hnd & He & Hnz & Hd).
  intros [U1 U2 U3 U4 U5 U6]. unfold unlinkNext. cbn [nd_prev nd_next nd_price nd_side].
  apply Forall_app in Hnz as [_ Hnz]. rewrite (hd_idx_0 _ Hnz).
  destruct l2 as [|t l2'].
  - rewrite bool_decide_true by done. cbn [negb]. rewrite get_level_ok, U2, put_level_ok by done.
    eexists. split; [done|]. split; try done.
    + rewrite lvl_with_level_eq. f_equal. by rewrite app_nil_r.
    + intros. rewrite lvl_with_level_ne by done. auto.
  - rewrite bool_decide_false by done. cbn [negb hd_idx].
    rewrite get_node_ok, put_node_ok by apply idx_range. eexists. split; [done|]. split; try done.
    + rewrite lvl_with_node, U2. f_equal. by rewrite !last_idx_app.
    + intros i Hi. rewrite node_with_node_ne; [auto|]. intros <-. apply Hi. apply list_elem_of_fmap.
      exists t. split; [done|]. rewrite !elem_of_app. right. left.
    + apply dseg_insert; [|done]. intros (y & Ey & Hy)%list_elem_of_fmap.
      apply (Hd y t); [done| |done]. left.
    + eapply dseg_relink_first; [|exact U6]. rewrite map_app in Hnd. by apply NoDup_app in Hnd as (_ & _ & ?).
Qed.

Lemma cancelOrder_split o :
  io_bookOId o = e_id e ->
  exists s', cancelOrder s o =
      Ok (s', [PostStatus (mkInternalOrderStatus (io_id o) (e_id e) 0 0 Cancelled)]) /\
    Rep s' (push_free (set_queue a sd p (l1 ++ l2)) (e_id e)).
Proof.
  intros Eid. destruct (proj1 (Rep_parts _ _) HR) as (Ha & HL & Ho & Hf).
  pose proof (taken_split a sd p l1 e l2 Ha Hp E) as Ht.
  destruct cancel_facts as (Hn & Hnd & He & Hnz & Hd).
  unfold cancelOrder. rewrite Eid. change (SlotId.index MAX_BOOK_ORDERS (e_id e)) with (idx e).
  rewrite get_node_ok, Hn by apply idx_range. cbn [nd_localId]. rewrite Z.eqb_refl. cbn [negb].
  destruct unlinkPrev_ok as (s1 & -> & U1).
  rewrite get_node_ok, (ul_nodes _ _ _ _ _ _ _ _ _ _ _ U1), Hn by (done || apply idx_range).
  destruct (unlinkNext_ok s1 U1) as (s2 & -> & U2).
  rewrite get_node_ok, (ul_nodes _ _ _ _ _ _ _ _ _ _ _ U2), Hn by (done || apply idx_range).
  cbn [nd_localId nd_price nd_side nd_qty].
  rewrite get_level_ok, (ul_level _ _ _ _ _ _ _ _ _ _ _ U2), put_level_ok by done. cbn [ls_volume ls_head ls_tail].
  pose proof (volume_bound _ sd p Ha) as Hv. pose proof (a_qtys _ Ha _ _ _ (tk_in _ _ _ _ _ Ht)).
  pose proof (taken_AOk _ _ _ _ _ Ha Ht) as Ha'.
  pose proof (volume_bound _ sd p Ha') as Hv'. pose proof (volume_pos _ sd p Ha') as Hvz.
  rewrite E in Hv. rewrite queue_set_eq in Hv', Hvz.
  rewrite ?volume_app, ?volume_cons in *. rewrite u64_small by lia.
  replace (volume l1 + (e_qty e + volume l2) - e_qty e) with (volume l1 + volume l2) by lia.
  rewrite Hvz.
  set (s3 := with_level _ _ _ _). destruct U2 as [V1 V2 V3 V4 V5 V6].
  destruct (occupancy_taken a sd p e (l1 ++ l2) Ht s3) as (s4 & -> & Ho4 & C1 & C2 & C3 & C4 & C5).
  { eapply Occ_same_rest; [|apply Ho]. by etrans; [apply V1|]. }
  { unfold s3. by rewrite lvl_with_level_eq, volume_app. }
  destruct (release_taken a sd p e (l1 ++ l2) Ha Ht s4) as (s' & -> & HR'); [| done | |eauto].
  - eapply (Levels_core s3); [done..|]. apply (Levels_local s); try done.
    + intros. unfold s3. rewrite lvl_with_level_ne by done. auto.
    + intros i Hi. unfold s3. rewrite node_with_level. apply V4. intros Hin. apply Hi. rewrite E.
      revert Hin. rewrite !map_app, !elem_of_app. cbn. rewrite elem_of_cons. tauto.
    + split; [etrans; [apply lvl_with_level_eq|by rewrite volume_app]|].
      apply dseg_app. split; [exact V5|exact V6].
  - destruct V1 as (_ & _ & _ & _ & W1 & W2 & W3).
    eapply (FreeRep_core s); [..|apply Hf]; try done; by rewrite ?C3, ?C4, ?C5.
Qed.
End Cancel.

Lemma filter_taken a sd p l1 e l2 :
  AOk a -> 0 <= p < MAX_TICKS -> a_queue a sd p = l1 ++ e :: l2 ->
  filter (fun x => e_id x <> e_id e) (l1 ++ e :: l2) = l1 ++ l2.
Proof.
  intros Ha Hp E. destruct (taken_split a sd p l1 e l2 Ha Hp E) as [_ _ Hsub _].
  assert (Hne : forall x, x ∈ l1 ++ l2 -> e_id x <> e_id e).
  { intros x Hx Ex. apply (Hsub x Hx). unfold idx. by rewrite Ex. }
  rewrite filter_app, filter_cons_False by (by intros ?).
  rewrite <- filter_app. revert Hne. clear. induction (l1 ++ l2) as [|x l IH]; intros Hne; [done|].
  rewrite filter_cons_True by (apply Hne; left). f_equal. apply IH. intros y Hy. apply Hne. by right.
Qed.

(** A resting order is withdrawn, and nothing else changes. *)
Lemma cancelOrder_live s a sd p e o :
  Rep s a -> e ∈ a_queue a sd p -> io_bookOId o = e_id e ->
  exists s', cancelOrder s o =
      Ok (s', [PostStatus (mkInternalOrderStatus (io_id o) (e_id e) 0 0 Cancelled)]) /\
    Rep s' (spec_cancel a sd p (e_id e)).
Proof.
  intros HR He Eid. pose proof (rep_wf _ _ HR) as Ha.
  assert (Hp : 0 <= p < MAX_TICKS).
  { apply (a_prices _ Ha sd). intros E. rewrite E in He. by apply elem_of_nil in He. }
  destruct (list_elem_of_split _ _ He) as (l1 & l2 & E).
  destruct (cancelOrder_split s a sd p e l1 l2 HR Hp E o Eid) as (s' & -> & HR').
  exists s'. split; [done|]. unfold spec_cancel. by rewrite E, (filter_taken a sd p l1 e l2).
Qed.

(** The slot holds an order with another identifier: rejected, no change. *)
Lemma cancelOrder_other s a sd p e o :
  Rep s a -> e ∈ a_queue a sd p ->
  SlotId.index MAX_BOOK_ORDERS (io_bookOId o) = idx e -> io_bookOId o <> e_id e ->
  cancelOrder s o =
    Ok (s, [PostStatus (mkInternalOrderStatus (io_id o) (io_bookOId o) 0 0 Rejected)]).
Proof.
  intros HR He Ei Hne. pose proof (rep_wf _ _ HR) as Ha.
  assert (Hp : 0 <= p < MAX_TICKS).
  { apply (a_prices _ Ha sd). intros E. rewrite E in He. by apply elem_of_nil in He. }
  destruct (list_elem_of_split _ _ He) as (l1 & l2 & E).
  destruct (cancel_facts s a sd p e l1 l2 HR Hp E) as (Hn & _).
  unfold cancelOrder. rewrite Ei, get_node_ok, Hn by apply idx_range. cbn [nd_localId].
  destruct (Z.eqb_spec (e_id e) (io_bookOId o)); [congruence|done].
Qed.

(** A slot that was never handed out: any valid identifier of it is
    rejected. *)
Lemma cancelOrder_zero s o :
  nd_localId (node s (SlotId.index MAX_BOOK_ORDERS (io_bookOId o))) <> io_bookOId o ->
  cancelOrder s o =
    Ok (s, [PostStatus (mkInternalOrderStatus (io_id o) (io_bookOId o) 0 0 Rejected)]).
Proof.
  intros Hne. unfold cancelOrder.
  rewrite get_node_ok by apply (SlotId.index_range _ BOOK_ORDER_BITS).
  by rewrite (proj2 (Z.eqb_neq _ _) Hne).
Qed.

End Ops.
End BookOps.
