(* ===== verification/BookProps.v ===== *)
(** * Correctness of the order book

    The events of the book as steps of the abstract book, the simulation of
    every step by [add], and what follows for books built up from the empty
    one: no fault, no crossed prices, price priority, conservation of
    quantity, one reply per order.  The last section shows what happens to a
    cancel whose identifier is no longer live. *)

From S2P Require Import Prelude SlotId HugeArray Types PriceLevelBook BookSpec BookMask BookInv.
From S2P Require Import BookRefine BookMatch BookOps.
Import Book BookSpec BookMask BookInv BookRefine BookMatch BookOps.

Module BookProps.
Section Props.
Context `{B : Build} `{BO : !BuildOk B}.

(** ** Steps *)

Definition event_ok (ioe : InternalOrderEvent) : Prop :=
  0 <= io_price (ioe_order ioe) /\ 0 <= io_quantity (ioe_order ioe) < 2 ^ 32.

Inductive spec_step (a : ABook) (ioe : InternalOrderEvent) : ABook -> list Msg -> bool -> Prop :=
| step_new a' msgs :
    ioe_action ioe <> Cancel -> event_ok ioe -> io_price (ioe_order ioe) < MAX_TICKS ->
    spec_new a (getSide (ioe_action ioe)) (ioe_order ioe) = (a', msgs) ->
    spec_step a ioe a' msgs true
| step_off_grid :
    ioe_action ioe <> Cancel -> MAX_TICKS <= io_price (ioe_order ioe) ->
    spec_step a ioe a [] false
| step_cancel sd p e :
    ioe_action ioe = Cancel -> e ∈ a_queue a sd p -> io_bookOId (ioe_order ioe) = e_id e ->
    spec_step a ioe (spec_cancel a sd p (e_id e))
      [PostStatus (mkInternalOrderStatus (io_id (ioe_order ioe)) (e_id e) 0 0 Cancelled)] true
| step_superseded sd p e :
    ioe_action ioe = Cancel -> e ∈ a_queue a sd p ->
    SlotId.index MAX_BOOK_ORDERS (io_bookOId (ioe_order ioe)) = idx e ->
    io_bookOId (ioe_order ioe) <> e_id e ->
    spec_step a ioe a
      [PostStatus (mkInternalOrderStatus (io_id (ioe_order ioe)) (io_bookOId (ioe_order ioe))
                     0 0 Rejected)] true.

Inductive spec_run : ABook -> list InternalOrderEvent -> ABook -> list Msg -> Prop :=
| run_nil a : spec_run a [] a []
| run_cons a ioe a1 m1 b es a2 m2 :
    spec_step a ioe a1 m1 b -> spec_run a1 es a2 m2 -> spec_run a (ioe :: es) a2 (m1 ++ m2).

(** ** Simulation *)

Lemma add_not_cancel s ioe :
  ioe_action ioe <> Cancel ->
  add s ioe =
    let o := ioe_order ioe in let side := getSide (ioe_action ioe) in
    if MAX_TICKS <=? io_price o then Ok (s, [], false)
    else
      let! (s, remainingQty) := match_ s o side in
      if 0 <? remainingQty then
        let! (s, msgs) := restOrder s o side remainingQty in Ok (s, msgs, true)
      else
        Ok (s, [PostStatus (mkInternalOrderStatus (io_id o) SlotId.invalid
                              (io_quantity o) (io_price o) Full)], true).
Proof. intros Hne. unfold add. by destruct (ioe_action ioe). Qed.

Lemma add_new_ok s a ioe :
  Rep s a -> ioe_action ioe <> Cancel -> event_ok ioe -> io_price (ioe_order ioe) < MAX_TICKS ->
  let r := spec_new a (getSide (ioe_action ioe)) (ioe_order ioe) in
  exists s', add s ioe = Ok (s', r.2, true) /\ Rep s' r.1.
Proof.
  intros HR Hne [Hp Hq] Hlt. rewrite add_not_cancel by done. cbn zeta. unfold spec_new.
  rewrite (proj2 (Z.leb_gt _ _) Hlt).
  destruct (match_ok s a (ioe_order ioe) (getSide (ioe_action ioe)) HR) as (s1 & -> & HR1 & Hr);
    [lia|done|].
  destruct (spec_match a _ _ _) as [a1 rem]. cbn [fst snd] in *.
  destruct (Z.ltb_spec 0 rem); [|by exists s1].
  destruct (restOrder_ok s1 a1 (ioe_order ioe) (getSide (ioe_action ioe)) rem HR1)
    as (s' & -> & HR'); [lia|done|lia|]. by exists s'.
Qed.

Lemma add_simulates s a ioe a' msgs b :
  Rep s a -> spec_step a ioe a' msgs b -> exists s', add s ioe = Ok (s', msgs, b) /\ Rep s' a'.
Proof.
  intros HR Hstep. destruct Hstep as [a' msgs Hne Hok Hlt E|Hne Hge|sd p e Hc He Eid|sd p e Hc He Ei Hid].
  - destruct (add_new_ok s a ioe HR Hne Hok Hlt) as (s' & Hadd & HR'). rewrite E in *. eauto.
  - exists s. split; [|done]. rewrite add_not_cancel by done. cbn zeta.
    by rewrite (proj2 (Z.leb_le _ _) Hge).
  - destruct (cancelOrder_live s a sd p e (ioe_order ioe) HR He Eid) as (s' & E & HR').
    exists s'. split; [|done]. unfold add. by rewrite Hc, E.
  - exists s. split; [|done]. unfold add. rewrite Hc.
    by rewrite (cancelOrder_other s a sd p e (ioe_order ioe) HR He Ei Hid).
Qed.

Lemma add_all_simulates es s a a' msgs :
  Rep s a -> spec_run a es a' msgs -> exists s', add_all s es = Ok (s', msgs) /\ Rep s' a'.
Proof.
  intros HR Hrun. revert s HR. induction Hrun as [a|a ioe a1 m1 b es a2 m2 Hstep _ IH]; intros s HR.
  - by exists s.
  - destruct (add_simulates _ _ _ _ _ _ HR Hstep) as (s1 & E1 & HR1).
    destruct (IH s1 HR1) as (s2 & E2 & HR2). exists s2. split; [|done]. cbn. by rewrite E1, E2.
Qed.

Lemma Rep_fresh s :
  nodePool_ s = ∅ -> levels_ s = ∅ -> bidMask_ s = ∅ -> askMask_ s = ∅ ->
  freeTop_ s = 0 -> nextAvailableIdx_ s = 1 -> minAsk_ s = MAX_TICKS -> maxBid_ s = 0 ->
  Rep s a_init.
Proof.
  intros E1 E2 E3 E4 E5 E6 E7 E8. pose proof max_ticks_range. pose proof max_book_orders_range.
  assert (Hm : forall f, (forall p, f p = false) -> mask_rep ∅ f).
  { intros f Hf. split.
    - intros w _. unfold HugeArray.at_. rewrite lookup_empty. by vm_compute.
    - intros p _. rewrite Hf. unfold HugeArray.at_. rewrite lookup_empty. apply Z.bits_0. }
  split; cbn; try done.
  - split; cbn; try done; try lia; try constructor; intros; exfalso;
      match goal with H : _ ∈ [] |- _ => by apply elem_of_nil in H end.
  - intros sd p _. split; [|done]. rewrite E2. by destruct sd.
  - intros []; cbn; rewrite ?E3, ?E4; by apply Hm.
  - rewrite E7. split; [lia|]. split; [done|]. by right.
  - rewrite E8. split; [lia|]. split; [done|]. by right.
Qed.

Lemma Rep_init : Rep init a_init.
Proof. by apply Rep_fresh. Qed.

(** ** What a sweep does *)

Lemma consume_facts qty l used rest rem :
  consume qty l = (used, rest, rem) ->
  (rem = 0 \/ rest = []) /\ (l = [] -> rest = []) /\ volume l = volume rest + (qty - rem).
Proof.
  revert qty used rest rem. induction l as [|e l IH]; intros qty used rest rem.
  { intros [= <- <- <-]. repeat split; auto. lia. }
  cbn [consume]. destruct (Z.eqb_spec qty 0) as [->|Hne].
  { intros [= <- <- <-]. repeat split; auto. lia. }
  destruct (Z.leb_spec (e_qty e) qty).
  - destruct (consume (qty - e_qty e) l) as [[u r] m] eqn:Ec. intros [= <- <- <-].
    destruct (IH _ _ _ _ Ec) as (H1 & _ & H3). rewrite volume_cons. repeat split; [done|done|lia].
  - intros [= <- <- <-]. rewrite !volume_cons. cbn [e_qty]. repeat split; [auto|done|lia].
Qed.

(** Either the quantity or the queue is used up at each price visited. *)
Lemma sweep_cons p ps a sd qty :
  exists a1 rem, sweep (p :: ps) a sd qty = sweep ps a1 sd rem /\
    (rem = 0 \/ a_queue a1 sd p = []) /\
    (forall sd' p', ~ (sd' = sd /\ p' = p) -> a_queue a1 sd' p' = a_queue a sd' p') /\
    (a_queue a sd p = [] -> a_queue a1 sd p = []) /\
    volume (a_queue a sd p) = volume (a_queue a1 sd p) + (qty - rem).
Proof.
  cbn [sweep]. destruct (Z.eqb_spec qty 0) as [->|Hne].
  { exists a, 0. rewrite sweep_zero. repeat split; auto; lia. }
  destruct (a_queue a sd p) as [|e l] eqn:E.
  { exists a, qty. rewrite E. repeat split; auto; lia. }
  destruct (consume qty (e :: l)) as [[used rest] rem] eqn:Ec.
  destruct (consume_facts _ _ _ _ _ Ec) as (H1 & H2 & H3).
  exists (recycle a sd p used rest), rem. rewrite recycle_queue_eq. repeat split; try done.
  intros. by apply recycle_queue_ne.
Qed.

Lemma sweep_empty ps a sd qty sd' p' :
  a_queue a sd' p' = [] -> a_queue (sweep ps a sd qty).1 sd' p' = [].
Proof.
  revert a qty. induction ps as [|p ps IH]; intros a qty E; [done|].
  destruct (sweep_cons p ps a sd qty) as (a1 & rem & -> & _ & Hother & Hnil & _). apply IH.
  destruct (decide (sd' = sd /\ p' = p)) as [[-> ->]|Hne]; [auto|]. by rewrite Hother.
Qed.

Lemma sweep_other ps a sd qty sd' p' :
  ~ (sd' = sd /\ p' ∈ ps) -> a_queue (sweep ps a sd qty).1 sd' p' = a_queue a sd' p'.
Proof.
  revert a qty. induction ps as [|p ps IH]; intros a qty Hne; [done|].
  destruct (sweep_cons p ps a sd qty) as (a1 & rem & -> & _ & Hother & _).
  rewrite IH by (rewrite elem_of_cons in Hne; tauto).
  apply Hother. rewrite elem_of_cons in Hne. tauto.
Qed.

(** A quantity that is left over has emptied every price of the sweep. *)
Lemma sweep_clears ps a sd qty p :
  (sweep ps a sd qty).2 <> 0 -> p ∈ ps -> a_queue (sweep ps a sd qty).1 sd p = [].
Proof.
  revert a qty. induction ps as [|p0 ps IH]; intros a qty; [by intros _ ?%elem_of_nil|].
  destruct (sweep_cons p0 ps a sd qty) as (a1 & rem & -> & Hend & _).
  intros Hr [->|Hin]%elem_of_cons; [|auto].
  destruct Hend as [->|E]; [by rewrite sweep_zero in Hr|]. by apply sweep_empty.
Qed.

(** Prices are visited in order: one that was touched has emptied the
    earlier ones. *)
Lemma sweep_priority ps1 p ps2 a sd qty q :
  NoDup (ps1 ++ p :: ps2) -> q ∈ ps1 ->
  a_queue (sweep (ps1 ++ p :: ps2) a sd qty).1 sd p <> a_queue a sd p ->
  a_queue (sweep (ps1 ++ p :: ps2) a sd qty).1 sd q = [].
Proof.
  revert a qty. induction ps1 as [|p0 ps1 IH]; intros a qty Hnd Hq; [by apply elem_of_nil in Hq|].
  cbn [app]. destruct (sweep_cons p0 (ps1 ++ p :: ps2) a sd qty)
    as (a1 & rem & -> & Hend & Hother & _).
  cbn in Hnd. apply NoDup_cons in Hnd as [Hni Hnd].
  assert (Hp0 : p <> p0) by (intros ->; apply Hni; rewrite elem_of_app, elem_of_cons; auto).
  intros Hch. apply elem_of_cons in Hq as [->|Hq].
  - destruct Hend as [->|E]; [|by apply sweep_empty].
    rewrite sweep_zero in Hch. cbn in Hch. rewrite Hother in Hch; [done|]. by intros [_ ?].
  - apply IH; try done. rewrite Hother; [done|]. by intros [_ ?].
Qed.

(** The volume resting at the prices [ps]. *)
Definition total (a : ABook) (sd : Side) (ps : list Z) : Z :=
  sumZ (map (fun p => volume (a_queue a sd p)) ps).

Lemma total_ext a b sd ps :
  (forall p, p ∈ ps -> a_queue a sd p = a_queue b sd p) -> total a sd ps = total b sd ps.
Proof.
  unfold total. induction ps as [|p ps IH]; intros H; [done|]. cbn. rewrite H by left.
  f_equal. apply IH. intros. apply H. by right.
Qed.

Lemma sweep_conserves ps a sd qty :
  NoDup ps ->
  total a sd ps = total (sweep ps a sd qty).1 sd ps + (qty - (sweep ps a sd qty).2).
Proof.
  revert a qty. induction ps as [|p ps IH]; intros a qty Hnd; [cbn; lia|].
  apply NoDup_cons in Hnd as [Hni Hnd].
  destruct (sweep_cons p ps a sd qty) as (a1 & rem & -> & _ & Hother & _ & Hv).
  specialize (IH a1 rem Hnd).
  change (total ?x sd (p :: ps)) with (volume (a_queue x sd p) + total x sd ps) in *.
  rewrite (total_ext a a1 sd ps), (sweep_other ps a1) by
    (try (intros q Hq; symmetry; apply Hother; intros [_ ->]; done); tauto).
  change (total a sd (p :: ps)) with (volume (a_queue a sd p) + total a sd ps).
  lia.
Qed.

Lemma eligible_NoDup sd limit : NoDup (eligible sd limit).
Proof. destruct sd; cbn; [rewrite reverse_Permutation|]; apply NoDup_seqZ. Qed.

Lemma elem_of_eligible sd limit p :
  p ∈ eligible sd limit <->
  match sd with SSell => 0 <= p <= limit | SBuy => limit <= p < MAX_TICKS end.
Proof. destruct sd; cbn; rewrite ?elem_of_reverse, elem_of_seqZ; lia. Qed.

(** A better price comes earlier in the sweep. *)
Lemma eligible_order sd limit better worse :
  match sd with SSell => 0 <= better < worse | SBuy => worse < better < MAX_TICKS end ->
  worse ∈ eligible sd limit ->
  exists ps1 ps2, eligible sd limit = ps1 ++ worse :: ps2 /\ better ∈ ps1.
Proof.
  intros Hb Hw. apply elem_of_eligible in Hw. destruct sd; cbn [eligible].
  - exists (reverse (seqZ (worse + 1) (MAX_TICKS - worse - 1))), (reverse (seqZ limit (worse - limit))).
    split; [|apply elem_of_reverse, elem_of_seqZ; lia].
    replace (MAX_TICKS - limit) with ((worse - limit) + (1 + (MAX_TICKS - worse - 1))) by lia.
    rewrite seqZ_app, reverse_app, seqZ_cons, reverse_cons by lia.
    rewrite <- (assoc_L app). f_equal; [f_equal; f_equal; lia|]. cbn. f_equal. lia.
  - exists (seqZ 0 worse), (seqZ (worse + 1) (limit - worse)).
    split; [|apply elem_of_seqZ; lia].
    replace (limit + 1) with (worse + (1 + (limit - worse))) by lia.
    rewrite seqZ_app, (seqZ_cons (0 + worse)) by lia. f_equal. f_equal. f_equal; lia.
Qed.

(** ** Uncrossed books *)

Definition uncrossed (a : ABook) : Prop :=
  forall p q, a_queue a SBuy p <> [] -> a_queue a SSell q <> [] -> p < q.

Lemma spec_acquire_queue a b id : spec_acquire a = Some (b, id) -> a_queue b = a_queue a.
Proof.
  unfold spec_acquire. destruct (a_free a); [destruct (_ <=? _); [done|]|]; by intros [= <- _].
Qed.

(** Resting adds at most one entry, at the price of the order. *)
Lemma spec_rest_queue a side sys price total qty sd p :
  a_queue (spec_rest a side sys price total qty).1 sd p <> [] ->
  a_queue a sd p <> [] \/ (sd = side /\ p = price).
Proof.
  unfold spec_rest. destruct (spec_acquire a) as [[b id]|] eqn:E; [|auto].
  cbn. destruct (decide (sd = side /\ p = price)); [auto|].
  rewrite (spec_acquire_queue _ _ _ E). auto.
Qed.

Lemma uncrossed_new a side o :
  AOk a -> uncrossed a -> 0 <= io_price o < MAX_TICKS -> uncrossed (spec_new a side o).1.
Proof.
  intros Ha Hun Hp. unfold spec_new.
  destruct (spec_match a side (io_price o) (io_quantity o)) as [a1 rem] eqn:Em.
  unfold spec_match in Em. set (ps := eligible _ _) in Em.
  assert (Hsub : forall sd p, a_queue a1 sd p <> [] -> a_queue a sd p <> []).
  { intros sd p Hne E. apply Hne. pose proof (sweep_empty ps a (opposite side) (io_quantity o) sd p E) as H.
    by rewrite Em in H. }
  assert (Hclr : rem <> 0 -> forall p, p ∈ ps -> a_queue a1 (opposite side) p = []).
  { intros Hr p Hin. pose proof (sweep_clears ps a (opposite side) (io_quantity o) p) as H.
    rewrite Em in H. auto. }
  destruct (Z.ltb_spec 0 rem) as [Hr|Hr].
  2: { intros p q Hb Hs. apply Hun; apply Hsub; [exact Hb|exact Hs]. }
  intros p q [Hb|[Eb ->]]%spec_rest_queue [Hs|[Es ->]]%spec_rest_queue.
  - auto.
  - destruct side; [done|]. cbn [opposite] in *. pose proof (a_prices _ Ha _ _ (Hsub _ _ Hb)).
    destruct (Z.lt_ge_cases p (io_price o)); [done|]. exfalso. apply Hb, Hclr; [lia|].
    apply elem_of_eligible. cbn [opposite]. lia.
  - destruct side; [|done]. cbn [opposite] in *. pose proof (a_prices _ Ha _ _ (Hsub _ _ Hs)).
    destruct (Z.lt_ge_cases (io_price o) q); [done|]. exfalso. apply Hs, Hclr; [lia|].
    apply elem_of_eligible. cbn [opposite]. lia.
  - congruence.
Qed.

Lemma uncrossed_cancel a sd p id : uncrossed a -> uncrossed (spec_cancel a sd p id).
Proof.
  assert (Hsub : forall sd' p', a_queue (spec_cancel a sd p id) sd' p' <> [] -> a_queue a sd' p' <> []).
  { intros sd' p' Hne E. apply Hne. cbn. destruct (decide _) as [[-> ->]|]; [|done]. by rewrite E. }
  intros Hun p' q' Hb Hs. apply Hun; auto.
Qed.

Lemma uncrossed_run s a es a' m :
  Rep s a -> uncrossed a -> spec_run a es a' m -> uncrossed a'.
Proof.
  intros HR Hun Hrun. revert s HR Hun.
  induction Hrun as [|a ioe a1 m1 b es a2 m2 Hstep _ IH]; intros s HR Hun; [done|].
  destruct (add_simulates _ _ _ _ _ _ HR Hstep) as (s1 & _ & HR1). apply (IH s1 HR1).
  destruct Hstep as [a' msgs Hne Hok Hlt E| | |]; try done.
  - pose proof (uncrossed_new a (getSide (ioe_action ioe)) (ioe_order ioe) (rep_wf _ _ HR) Hun) as H.
    rewrite E in H. apply H. destruct Hok. lia.
  - by apply uncrossed_cancel.
Qed.

(** ** A full book turns away only orders that traded nothing *)

Lemma consume_used qty l used rest rem :
  consume qty l = (used, rest, rem) -> rem <> 0 -> l <> [] -> used <> [].
Proof.
  destruct l as [|e l]; [done|]. cbn [consume]. intros Ec Hr _.
  destruct (Z.eqb_spec qty 0); [injection Ec; congruence|].
  destruct (Z.leb_spec (e_qty e) qty); [|injection Ec; congruence].
  destruct (consume _ _) as [[u r] m]. by injection Ec as <- _ _.
Qed.

Lemma sweep_frees ps a sd qty :
  (sweep ps a sd qty).2 <> 0 ->
  a_free (sweep ps a sd qty).1 <> [] \/ (sweep ps a sd qty) = (a, qty).
Proof.
  assert (Hmono : forall ps a qty, a_free a <> [] -> a_free (sweep ps a sd qty).1 <> []).
  { clear. induction ps as [|p ps IH]; intros a qty Hf; [done|]. cbn [sweep].
    destruct (qty =? 0); [done|]. destruct (a_queue a sd p) as [|e l]; [auto|].
    destruct (consume qty (e :: l)) as [[u r] m]. apply IH.
    intros E%(f_equal length). rewrite foldl_push_free_len in E. cbn in E.
    destruct (a_free a); [done|]. cbn in E. lia. }
  revert a qty. induction ps as [|p ps IH]; intros a qty; [auto|]. cbn [sweep].
  destruct (Z.eqb_spec qty 0); [auto|]. destruct (a_queue a sd p) as [|e l] eqn:E; [auto|].
  destruct (consume qty (e :: l)) as [[u r] m] eqn:Ec. intros Hr. left. apply Hmono.
  destruct (Z.eq_dec m 0) as [->|Hm]; [by rewrite sweep_zero in Hr|].
  pose proof (consume_used _ _ _ _ _ Ec Hm ltac:(done)) as Hu. destruct u as [|x u]; [done|].
  intros E'%(f_equal length). rewrite foldl_push_free_len in E'. cbn in E'. lia.
Qed.

Lemma spec_new_full a side o err :
  (spec_new a side o).2 = [PostError err] -> (spec_new a side o).1 = a.
Proof.
  unfold spec_new, spec_match, spec_rest. set (ps := eligible _ _). intros H.
  pose proof (sweep_frees ps a (opposite side) (io_quantity o)) as Hf.
  destruct (sweep ps a (opposite side) (io_quantity o)) as [a1 rem]. cbn [fst snd] in *.
  destruct (Z.ltb_spec 0 rem); [|done].
  destruct (spec_acquire a1) as [[b id]|] eqn:E; [done|]. cbn.
  destruct (Hf ltac:(lia)) as [Hne|[= -> _]]; [|done].
  unfold spec_acquire in E. by destruct (a_free a1).
Qed.

(** The reply and the own side of a new order. *)
Lemma spec_new_cases a side o :
  0 <= (spec_match a side (io_price o) (io_quantity o)).2 <= io_quantity o ->
  let rem := (spec_match a side (io_price o) (io_quantity o)).2 in
  let traded := io_quantity o - rem in
  let r := spec_new a side o in
  (traded = io_quantity o /\
    r.2 = [PostStatus (mkInternalOrderStatus (io_id o) SlotId.invalid traded (io_price o) Full)]) \/
  (exists localId, traded < io_quantity o /\
    r.2 = [PostStatus (mkInternalOrderStatus (io_id o) localId traded (io_price o)
                         (if traded =? 0 then Accepted else Partial))] /\
    volume (a_queue r.1 side (io_price o)) =
      volume (a_queue a side (io_price o)) + (io_quantity o - traded)) \/
  (traded = 0 /\ r.2 = [PostError (mkInternalError SError "OrderBook is full")]).
Proof.
  intros Hrem. cbn zeta. revert Hrem.
  unfold spec_new. destruct (spec_match a side (io_price o) (io_quantity o)) as [a1 rem] eqn:Em.
  cbn [fst snd]. intros Hrem. destruct (Z.ltb_spec 0 rem).
  2: { left. split; [lia|]. cbn. do 3 f_equal. lia. }
  assert (Eq : a_queue a1 side (io_price o) = a_queue a side (io_price o)).
  { change a1 with ((a1, rem).1). rewrite <- Em. apply sweep_other. intros [E _]. by destruct side. }
  unfold spec_rest in *. destruct (spec_acquire a1) as [[b id]|] eqn:Ea.
  - right. left. exists id. cbn [fst snd]. split; [lia|]. split; [done|].
    rewrite queue_set_eq, (spec_acquire_queue _ _ _ Ea), volume_app, Eq. unfold volume at 2. cbn. lia.
  - right. right. split; [|done]. pose proof (sweep_frees (eligible (opposite side) (io_price o)) a
      (opposite side) (io_quantity o)) as Hf. unfold spec_match in Em. rewrite Em in Hf.
    destruct (Hf ltac:(cbn; lia)) as [Hne|[= _ ->]]; [|lia].
    unfold spec_acquire in Ea. cbn in Hne. by destruct (a_free a1).
Qed.

(** ** Reading a represented book *)

Lemma rep_volume s a sd p :
  Rep s a -> 0 <= p < MAX_TICKS -> ls_volume (lvl s p sd) = volume (a_queue a sd p).
Proof. intros HR Hp. destruct (rep_level _ _ HR sd p Hp) as [H _]. unfold lvl. by rewrite H. Qed.

Definition book_total (s : State) (sd : Side) (ps : list Z) : Z :=
  sumZ (map (fun p => ls_volume (lvl s p sd)) ps).

Lemma rep_total s a sd ps :
  Rep s a -> Forall (fun p => 0 <= p < MAX_TICKS) ps -> book_total s sd ps = total a sd ps.
Proof.
  intros HR Hps. unfold book_total, total. induction Hps as [|p ps Hp _ IH]; [done|].
  cbn. rewrite (rep_volume s a) by done. by f_equal.
Qed.

Lemma eligible_prices sd limit :
  0 <= limit < MAX_TICKS -> Forall (fun p => 0 <= p < MAX_TICKS) (eligible sd limit).
Proof.
  intros Hl. apply Forall_forall. intros p Hp%elem_of_eligible. destruct sd; lia.
Qed.

(** The opposite side of the book after a new order is the sweep's. *)
Lemma spec_new_opposite a side o p :
  a_queue (spec_new a side o).1 (opposite side) p =
  a_queue (spec_match a side (io_price o) (io_quantity o)).1 (opposite side) p.
Proof.
  unfold spec_new. destruct (spec_match a side _ _) as [a1 rem]. cbn [fst].
  destruct (0 <? rem); [|done]. unfold spec_rest.
  destruct (spec_acquire a1) as [[b id]|] eqn:E; [|done]. cbn.
  rewrite decide_False; [by rewrite (spec_acquire_queue _ _ _ E)|]. intros [Es _]. by destruct side.
Qed.
End Props.
End BookProps.
