(* ===== verification/BookResting.v ===== *)
(** * Which orders rest in a book

    The orders a book holds, by system and book identifier: what a new order
    and a cancel do to them, and that the book's state determines them. *)

From S2P Require Import Prelude SlotId HugeArray Types PriceLevelBook BookSpec BookMask BookInv BookRefine.
From S2P Require Import BookMatch BookOps BookProps.

Module Resting.
Section Resting.
Context `{B : Build} `{BO : !BuildOk B}.
Import Book BookSpec BookInv BookMatch BookOps BookProps.

(** ** Which orders rest in a book *)

(** The order [sys] rests under the book identifier [bid]. *)
Definition rests (a : ABook) (sys bid : Z) : Prop :=
  exists sd p e, e ∈ a_queue a sd p /\ e_sys e = sys /\ e_id e = bid.

Lemma consume_rests qty l used rest rem e :
  consume qty l = (used, rest, rem) -> e ∈ rest ->
  exists e0, e0 ∈ l /\ e_id e0 = e_id e /\ e_sys e0 = e_sys e.
Proof.
  revert qty used rest rem. induction l as [|x l IH]; intros qty used rest rem; cbn [consume].
  { intros [= _ <- _] H. by apply elem_of_nil in H. }
  destruct (qty =? 0); [intros [= _ <- _]; eauto|]. destruct (e_qty x <=? qty).
  - destruct (consume _ l) as [[u r] m] eqn:Ec. intros [= _ <- _] He.
    destruct (IH _ _ _ _ Ec He) as (e0 & Hin & ?). exists e0. split; [by right|done].
  - intros [= _ <- _] [->|He]%elem_of_cons; [exists x; by repeat split; try left|].
    exists e. by repeat split; try right.
Qed.

Lemma sweep_rests ps a sd qty sys bid :
  rests (sweep ps a sd qty).1 sys bid -> rests a sys bid.
Proof.
  revert a qty. induction ps as [|p ps IH]; intros a qty H; [done|]. cbn [sweep] in H.
  destruct (qty =? 0); [done|]. destruct (a_queue a sd p) as [|x l] eqn:Eq; [by eapply IH|].
  destruct (consume qty (x :: l)) as [[u r] m] eqn:Ec.
  apply IH in H as (sd' & p' & e & He & Hs & Hb). rewrite foldl_push_free_queue in He.
  destruct (decide (sd' = sd /\ p' = p)) as [[-> ->]|Hne].
  - rewrite queue_set_eq in He. destruct (consume_rests _ _ _ _ _ _ Ec He) as (e0 & Hin & E1 & E2).
    exists sd, p, e0. rewrite Eq. repeat split; congruence.
  - rewrite queue_set_ne in He by done. by exists sd', p', e.
Qed.

(** A status that says the order rests. *)
Definition opens (st : InternalOrderStatus) : bool :=
  match ios_state st with Accepted | Partial => true | _ => false end.

(** After a new order, what rests did before, or is that order, and then its
    status says so. *)
Lemma new_rests a side o sys bid :
  rests (spec_new a side o).1 sys bid ->
  rests a sys bid \/
  (sys = io_id o /\ exists st, (spec_new a side o).2 = [PostStatus st] /\ ios_id st = sys /\
     opens st = true /\ ios_bookOId st = bid).
Proof.
  unfold spec_new, spec_match. set (ps := eligible _ _). intros H.
  pose proof (sweep_rests ps a (opposite side) (io_quantity o) sys bid) as Hs.
  destruct (sweep ps a (opposite side) (io_quantity o)) as [a1 rem]. cbn [fst] in Hs.
  destruct (0 <? rem); [|auto]. revert H. unfold spec_rest.
  destruct (spec_acquire a1) as [[b id]|] eqn:Ea; [|auto]. cbn [fst snd].
  intros (sd & p & e & He & Esys & Ebid). pose proof (spec_acquire_queue _ _ _ Ea) as Eq.
  destruct (decide (sd = side /\ p = io_price o)) as [[-> ->]|Hne].
  - rewrite queue_set_eq, Eq in He. apply elem_of_app in He as [He|He]; [left; apply Hs; by exists side, (io_price o), e|].
    apply list_elem_of_singleton in He as ->. cbn in Esys, Ebid. right. split; [done|]. eexists. split; [done|].
    split; [done|]. split; [|done]. unfold opens. cbn. by destruct (_ =? 0).
  - rewrite queue_set_ne, Eq in He by done. left. apply Hs. by exists sd, p, e.
Qed.

(** A cancel takes out what rests under its identifier, and only that. *)
Lemma cancel_rests a sd p e sys bid :
  AOk a -> e ∈ a_queue a sd p -> rests (spec_cancel a sd p (e_id e)) sys bid ->
  rests a sys bid /\ bid <> e_id e.
Proof.
  intros Ha He (sd' & p' & x & Hx & Esys & Ebid). unfold spec_cancel in Hx.
  change (a_queue (push_free ?b _)) with (a_queue b) in Hx.
  destruct (decide (sd' = sd /\ p' = p)) as [[-> ->]|Hne].
  - rewrite queue_set_eq in Hx. apply list_elem_of_filter in Hx as [Hi Hx].
    split; [by exists sd, p, x|congruence].
  - rewrite queue_set_ne in Hx by done. split; [by exists sd', p', x|]. intros ->. apply Hne.
    assert (Ei : idx x = idx e) by (unfold idx; congruence).
    destruct (a_disjoint _ Ha _ _ _ _ _ _ Hx He Ei) as [-> ->]. done.
Qed.

(** ** The book determines what it represents *)

Lemma dseg_det np sd p prv l l' :
  Forall (fun e => idx e <> 0) l -> Forall (fun e => idx e <> 0) l' ->
  hd_idx 0 l = hd_idx 0 l' -> dseg np sd p prv l 0 -> dseg np sd p prv l' 0 -> l = l'.
Proof.
  revert prv l'. induction l as [|e l IH]; intros prv l' Hl Hl' Eh H H'.
  - destruct l' as [|e' l']; [done|]. apply Forall_cons in Hl' as [Hne _]. by cbn in Eh.
  - apply Forall_cons in Hl as [Hne Hl]. destruct l' as [|e' l']; [by cbn in Eh|].
    apply Forall_cons in Hl' as [_ Hl']. cbn in Eh, H, H'. destruct H as [Hn H], H' as [Hn' H'].
    rewrite <- Eh, Hn in Hn'. injection Hn' as En Eq Ei Es. rewrite <- Eh in H'.
    f_equal; [destruct e, e'; cbn in *; congruence|]. by apply (IH (idx e)).
Qed.

Lemma Rep_det s a b sd p : Rep s a -> Rep s b -> a_queue a sd p = a_queue b sd p.
Proof.
  intros Ha Hb. pose proof (rep_wf _ _ Ha) as Wa. pose proof (rep_wf _ _ Hb) as Wb.
  destruct (decide (0 <= p < MAX_TICKS)) as [Hp|Hp].
  - destruct (rep_level _ _ Ha sd p Hp) as [La Da], (rep_level _ _ Hb sd p Hp) as [Lb Db].
    rewrite La in Lb. injection Lb as _ Eh _.
    by apply (dseg_det (nodePool_ s) sd p 0); try apply queue_idx_nonzero.
  - transitivity ([] : list Entry).
    + destruct (a_queue a sd p) eqn:E; [done|]. exfalso. apply Hp, (a_prices _ Wa sd). by rewrite E.
    + destruct (a_queue b sd p) eqn:E; [done|]. exfalso. apply Hp, (a_prices _ Wb sd). by rewrite E.
Qed.

Lemma Rep_rests s a b sys bid : Rep s a -> Rep s b -> rests a sys bid -> rests b sys bid.
Proof. intros Ha Hb (sd & p & e & He & ?). exists sd, p, e. by rewrite <- (Rep_det s a b). Qed.
(** The order at the head of a level rests. *)
Lemma head_rests s a sd p :
  Rep s a -> 0 <= p < MAX_TICKS -> ls_head (lvl s p sd) <> 0 ->
  let n := node s (ls_head (lvl s p sd)) in rests a (nd_systemId n) (nd_localId n).
Proof.
  intros HR Hp Hne. destruct (rep_level _ _ HR sd p Hp) as [L D]. fold (lvl s p sd) in L. rewrite L in *.
  cbn [ls_head] in *. destruct (a_queue a sd p) as [|e l] eqn:E; [done|]. cbn [hd_idx] in *. destruct D as [D _].
  fold (node s (idx e)) in D. rewrite D. exists sd, p, e. rewrite E. by split; [left|].
Qed.
End Resting.
End Resting.
