(* ===== verification/BookTheorems.v ===== *)
(** * Theorems of the order book

    The properties of [PriceLevelOrderBook] in terms of the code's own state
    and calls, each with an application at a concrete book. *)

From S2P Require Import Prelude SlotId HugeArray Types PriceLevelBook BookSpec BookMask BookInv.
From S2P Require Import BookRefine BookMatch BookOps BookProps.
Import Book BookSpec BookMask BookInv BookMatch BookOps BookProps.

Module BookTheorems.

(** Orders of the examples. *)
Definition new_order (action : OrderAction) (id qty price : Z) : InternalOrderEvent :=
  mkInternalOrderEvent (mkInternalOrder id 0 qty price) [] action.

Definition cancel_order (id bookOId : Z) : InternalOrderEvent :=
  mkInternalOrderEvent (mkInternalOrder id bookOId 0 0) [] Cancel.

Section Theorems.
Context `{B : Build} `{BO : !BuildOk B}.

(** C1: one call of [add] refines one step of the price-time priority book.
    From any state that represents an abstract book, a new order (sweep of
    the opposite queues, then rest), an order off the price grid, a cancel of
    a resting order and a cancel whose slot was reused all complete without
    a fault and within the loop bounds, post exactly the reference messages,
    and end in a state that represents the reference result.  These are the
    events [spec_step] has a step for; it has none for a cancel whose slot
    is free (an order already cancelled or filled, or an identifier never
    handed out), where the code breaks the book
    ([stale_cancel_hands_out_slot_twice]). *)
Theorem add_refines_step s a ioe a' msgs b :
  Rep s a -> spec_step a ioe a' msgs b ->
  exists s', add s ioe = Ok (s', msgs, b) /\ Rep s' a'.
Proof. apply add_simulates. Qed.

(** C2: every sequence of book events that cancels only live (or already
    superseded) identifiers runs from the freshly constructed book to the
    end: no access outside the node pool, the levels, the masks or the free
    stack, every loop terminates, and the final state represents the
    abstract book reached by the reference steps. *)
Theorem book_run_refines es a msgs :
  spec_run a_init es a msgs -> exists s, add_all init es = Ok (s, msgs) /\ Rep s a.
Proof. apply add_all_simulates, Rep_init. Qed.

(** C8: the book is never crossed: after any such run, when the best bid
    level has orders, the best bid is below the best ask. *)
Theorem book_never_crossed es a msgs s :
  spec_run a_init es a msgs -> add_all init es = Ok (s, msgs) ->
  ls_head (lvl s (maxBid_ s) SBuy) <> 0 -> maxBid_ s < minAsk_ s.
Proof.
  intros Hrun E Hhead. destruct (add_all_simulates _ _ _ _ _ Rep_init Hrun) as (s' & E' & HR).
  rewrite E in E'. injection E' as <-.
  assert (Hun : uncrossed a) by (eapply uncrossed_run; [apply Rep_init| |done]; by intros p q ?).
  destruct (rep_max _ _ HR) as (Hr & _). destruct (rep_min _ _ HR) as (Hm & _ & [Hask|Hask]); [|lia].
  apply Hun.
  - intros Eq. pose proof (head_zero s a SBuy (maxBid_ s) HR Hr) as H.
    rewrite bool_decide_true in H by done. by apply Z.eqb_eq in H.
  - intros Eq. apply occupied_false in Eq. congruence.
Qed.

(** C11: the best prices and the occupancy masks are exact after every run of
    placements and of cancels of live or superseded identifiers ([spec_run]): [minAsk_] is the lowest price whose ask level has orders
    ([MAX_TICKS] if none), [maxBid_] the highest bid price (0 if none), and
    bit [p mod 64] of word [p / 64] of a mask is set exactly for the prices
    whose level has a head node. *)
Theorem book_best_prices_exact es a msgs s :
  spec_run a_init es a msgs -> add_all init es = Ok (s, msgs) ->
  (forall p, 0 <= p < minAsk_ s -> ls_head (lvl s p SSell) = 0) /\
  (minAsk_ s < MAX_TICKS -> ls_head (lvl s (minAsk_ s) SSell) <> 0) /\
  (forall p, maxBid_ s < p < MAX_TICKS -> ls_head (lvl s p SBuy) = 0) /\
  (0 < maxBid_ s -> ls_head (lvl s (maxBid_ s) SBuy) <> 0) /\
  (forall sd p, 0 <= p < MAX_TICKS ->
     Z.testbit (HugeArray.at_ (mask s sd) (p / 64)) (p mod 64) = negb (ls_head (lvl s p sd) =? 0)).
Proof.
  intros Hrun E. destruct (add_all_simulates _ _ _ _ _ Rep_init Hrun) as (s' & E' & HR).
  rewrite E in E'. injection E' as <-.
  pose proof (fun sd p Hp => head_occupied s a sd p HR Hp) as Hh.
  change (forall sd p, 0 <= p < MAX_TICKS -> occupied a sd p = negb (ls_head (lvl s p sd) =? 0)) in Hh.
  destruct (rep_max _ _ HR) as (Hr & Hhigh & Hmax). destruct (rep_min _ _ HR) as (Hm & Hlow & Hmin).
  split; [|split; [|split; [|split]]].
  - intros p Hp. specialize (Hh SSell p ltac:(lia)). rewrite Hlow in Hh by lia.
    by destruct (Z.eqb_spec (ls_head (lvl s p SSell)) 0).
  - intros Hlt E0. destruct Hmin as [Hmin|]; [|lia]. rewrite Hh, E0 in Hmin by lia. done.
  - intros p Hp. specialize (Hh SBuy p ltac:(lia)). rewrite Hhigh in Hh by lia.
    by destruct (Z.eqb_spec (ls_head (lvl s p SBuy)) 0).
  - intros Hlt E0. destruct Hmax as [Hmax|]; [|lia]. rewrite Hh, E0 in Hmax by lia. done.
  - intros sd p Hp. rewrite <- Hh by done. apply (mask_bit _ _ (rep_mask _ _ HR sd)).
    pose proof (ticks_below_mask p). lia.
Qed.

(** C10: price priority: if a new order changes the volume resting at an
    eligible price, then every better price of that side is empty
    afterwards. *)
Theorem match_price_priority s a ioe s' msgs better worse :
  let side := getSide (ioe_action ioe) in
  Rep s a -> ioe_action ioe <> Cancel -> event_ok ioe -> io_price (ioe_order ioe) < MAX_TICKS ->
  add s ioe = Ok (s', msgs, true) ->
  match opposite side with SSell => 0 <= better < worse | SBuy => worse < better < MAX_TICKS end ->
  worse ∈ eligible (opposite side) (io_price (ioe_order ioe)) ->
  ls_volume (lvl s' worse (opposite side)) <> ls_volume (lvl s worse (opposite side)) ->
  ls_head (lvl s' better (opposite side)) = 0.
Proof.
  intros side HR Hne Hok Hlt E Hbw Hw Hvol.
  destruct (add_new_ok s a ioe HR Hne Hok Hlt) as (s1 & E1 & HR').
  rewrite E in E1. injection E1 as <- Em. fold side in HR'.
  destruct Hok as [Hp _]. set (limit := io_price (ioe_order ioe)) in *.
  assert (Hlim : 0 <= limit < MAX_TICKS) by (unfold limit; lia).
  pose proof (eligible_prices (opposite side) limit Hlim) as Hps.
  assert (Hwp : 0 <= worse < MAX_TICKS) by (rewrite Forall_forall in Hps; auto).
  rewrite (rep_volume s _ _ _ HR), (rep_volume s' _ _ _ HR'), spec_new_opposite in Hvol by done.
  assert (Hb : 0 <= better < MAX_TICKS) by (destruct (opposite side); lia).
  pose proof (head_zero s' _ (opposite side) better HR' Hb) as Hz.
  rewrite spec_new_opposite in Hz. rewrite bool_decide_true in Hz; [by apply Z.eqb_eq in Hz|].
  destruct (eligible_order (opposite side) limit better worse Hbw Hw) as (ps1 & ps2 & Eps & Hin).
  unfold spec_match in *. fold limit in Hvol |- *. pose proof (eligible_NoDup (opposite side) limit) as Hnd.
  rewrite Eps in *. apply sweep_priority; [done|done|]. congruence.
Qed.

(** C9: quantity is conserved and every order gets one reply.  A new order of
    the price grid trades a quantity [traded] of at most its own, the volume
    resting at the prices it may trade at drops by exactly [traded], and
    either all of it traded and [Full] is reported, or the rest of it joins
    the level of its price and [traded] is reported as [Accepted]/[Partial],
    or the book is full, in which case nothing has traded. *)
Theorem match_conserves_quantity s a ioe s' msgs :
  let o := ioe_order ioe in let side := getSide (ioe_action ioe) in
  let prices := eligible (opposite side) (io_price o) in
  Rep s a -> ioe_action ioe <> Cancel -> event_ok ioe -> io_price o < MAX_TICKS ->
  add s ioe = Ok (s', msgs, true) ->
  exists traded, 0 <= traded <= io_quantity o /\
    book_total s (opposite side) prices = book_total s' (opposite side) prices + traded /\
    ((traded = io_quantity o /\
      msgs = [PostStatus (mkInternalOrderStatus (io_id o) SlotId.invalid traded (io_price o) Full)]) \/
     (exists localId, traded < io_quantity o /\
      msgs = [PostStatus (mkInternalOrderStatus (io_id o) localId traded (io_price o)
                            (if traded =? 0 then Accepted else Partial))] /\
      ls_volume (lvl s' (io_price o) side) =
        ls_volume (lvl s (io_price o) side) + (io_quantity o - traded)) \/
     (traded = 0 /\ msgs = [PostError (mkInternalError SError "OrderBook is full")])).
Proof.
  intros o side prices HR Hne Hok Hlt E.
  destruct (add_new_ok s a ioe HR Hne Hok Hlt) as (s1 & E1 & HR').
  rewrite E in E1. injection E1 as <- Em. fold o side in HR', Em. destruct Hok as [Hp Hq].
  assert (Hlim : 0 <= io_price o < MAX_TICKS) by (split; [exact Hp|exact Hlt]).
  destruct (match_ok s a o side HR Hlim Hq) as (_ & _ & _ & Hrem).
  exists (io_quantity o - (spec_match a side (io_price o) (io_quantity o)).2).
  pose proof (eligible_prices (opposite side) (io_price o) Hlim) as Hps.
  split; [lia|]. split.
  - rewrite (rep_total s a), (rep_total s' _ _ _ HR') by done.
    rewrite (sweep_conserves _ _ _ (io_quantity o)) by apply eligible_NoDup. f_equal.
    apply total_ext. intros p _. by rewrite spec_new_opposite.
  - rewrite (rep_volume s a side _ HR Hlim), (rep_volume s' _ side _ HR' Hlim), Em.
    apply spec_new_cases. lia.
Qed.

(** C12: cancelling a resting order takes exactly it out: the reply is
    [Cancelled]; the nodes of its level are linked in both directions as the
    orders before it followed by the orders after it, each with its quantity
    and identifiers, and the level's volume is theirs, less by the open
    quantity; the head, the tail, the volume and the links of every other
    level are untouched; the masks and best prices are those of the book
    without it ([Rep]); and the slot is the next to be handed out, under its
    next generation. *)
Theorem cancel_takes_out_order s a sd p l1 e l2 o :
  Rep s a -> a_queue a sd p = l1 ++ e :: l2 -> io_bookOId o = e_id e ->
  exists s', cancelOrder s o =
      Ok (s', [PostStatus (mkInternalOrderStatus (io_id o) (e_id e) 0 0 Cancelled)]) /\
    Rep s' (push_free (set_queue a sd p (l1 ++ l2)) (e_id e)) /\
    level_rep s' sd p (l1 ++ l2) /\
    ls_volume (lvl s' p sd) = ls_volume (lvl s p sd) - e_qty e /\
    (forall sd' p', 0 <= p' < MAX_TICKS -> ~ (sd' = sd /\ p' = p) ->
       lvl s' p' sd' = lvl s p' sd' /\ level_rep s' sd' p' (a_queue a sd' p')) /\
    (exists s'', acquireId s' = Ok (s'', SlotId.nextGen MAX_BOOK_ORDERS (e_id e))).
Proof.
  intros HR Eq Eid. assert (He : e ∈ a_queue a sd p) by (rewrite Eq, elem_of_app; right; left).
  destruct (cancelOrder_live s a sd p e o HR He Eid) as (s' & E & HR').
  pose proof (rep_wf _ _ HR) as Ha. exists s'. split; [done|].
  assert (Hp : 0 <= p < MAX_TICKS) by (apply (a_prices _ Ha sd); by intros E0; rewrite E0 in He; apply elem_of_nil in He).
  assert (Es : spec_cancel a sd p (e_id e) = push_free (set_queue a sd p (l1 ++ l2)) (e_id e))
    by (unfold spec_cancel; by rewrite Eq, (filter_taken a sd p l1 e l2)).
  assert (HR2 := HR'). rewrite Es in HR2. split; [done|].
  split; [pose proof (rep_level _ _ HR2 sd p Hp) as H; cbn [push_free a_queue] in H; by rewrite queue_set_eq in H|].
  split; [|split].
  - rewrite (rep_volume s a sd p HR Hp), (rep_volume s' _ sd p HR2 Hp).
    cbn [push_free a_queue]. rewrite queue_set_eq, Eq, !volume_app, volume_cons. lia.
  - intros sd' p' Hp' Hne. split; [|pose proof (rep_level _ _ HR2 sd' p' Hp') as H; cbn [push_free a_queue] in H; by rewrite queue_set_ne in H].
    destruct (rep_level _ _ HR sd' p' Hp') as [H1 _].
    destruct (rep_level _ _ HR' sd' p' Hp') as [H2 _]. unfold lvl. rewrite H1, H2.
    cbn [spec_cancel push_free a_queue]. by rewrite queue_set_ne.
  - destruct (proj1 (BookRefine.Rep_parts _ _) HR') as (Ha' & _ & _ & Hf').
    destruct (acquireId_ok s' _ Hf' Ha') as (s'' & E'' & _). by exists s''.
Qed.

(** C40: generations protect a reused slot: while a slot holds a resting
    order, a cancel that names the slot under any other identifier is
    answered [Rejected] and leaves the book as it is. *)
Theorem cancel_superseded_rejected s a sd p e ioe :
  Rep s a -> e ∈ a_queue a sd p -> ioe_action ioe = Cancel ->
  SlotId.index MAX_BOOK_ORDERS (io_bookOId (ioe_order ioe)) = idx e ->
  io_bookOId (ioe_order ioe) <> e_id e ->
  add s ioe = Ok (s, [PostStatus (mkInternalOrderStatus (io_id (ioe_order ioe))
                       (io_bookOId (ioe_order ioe)) 0 0 Rejected)], true).
Proof.
  intros HR He Hc Ei Hne. unfold add. rewrite Hc.
  by rewrite (cancelOrder_other s a sd p e (ioe_order ioe) HR He Ei Hne).
Qed.

(** [clear] brings any book back to the empty one. *)
Theorem clear_resets s : Rep (clear s) a_init.
Proof. by apply Rep_fresh. Qed.

End Theorems.

(** ** Concrete books *)

Section Concrete.
#[local] Existing Instance build_cicd.

Definition sell_10_at_5 := new_order Sell 7 10 5.
Definition buy_4_at_9 := new_order Buy 8 4 9.

Lemma sell_step :
  spec_step a_init sell_10_at_5 (spec_new a_init SSell (ioe_order sell_10_at_5)).1
    [PostStatus (mkInternalOrderStatus 7 (SlotId.make MAX_BOOK_ORDERS 1 1) 0 5 Accepted)] true.
Proof.
  eapply step_new; [done|by split|by vm_compute|].
  rewrite (surjective_pairing (spec_new _ _ _)). by f_equal.
Qed.

Definition book_1 : ABook := (spec_new a_init SSell (ioe_order sell_10_at_5)).1.

Lemma buy_step :
  spec_step book_1 buy_4_at_9 (spec_new book_1 SBuy (ioe_order buy_4_at_9)).1
    [PostStatus (mkInternalOrderStatus 8 0 4 9 Full)] true.
Proof.
  eapply step_new; [done|by split|by vm_compute|].
  rewrite (surjective_pairing (spec_new _ _ _)). by f_equal.
Qed.

Definition book_2 : ABook := (spec_new book_1 SBuy (ioe_order buy_4_at_9)).1.

Lemma run_2 : spec_run a_init [sell_10_at_5; buy_4_at_9] book_2
  [PostStatus (mkInternalOrderStatus 7 (SlotId.make MAX_BOOK_ORDERS 1 1) 0 5 Accepted);
   PostStatus (mkInternalOrderStatus 8 0 4 9 Full)].
Proof.
  eapply (run_cons _ _ _ [_] _ _ _ [_]); [apply sell_step|].
  eapply (run_cons _ _ _ [_] _ _ _ []); [apply buy_step|constructor].
Qed.

Definition id_1 : Z := SlotId.make MAX_BOOK_ORDERS 1 1.

Definition book_1_state : State :=
  match add init sell_10_at_5 with Ok (s, _, _) => s | Err _ => init end.

Lemma book_1_rep : Rep book_1_state book_1.
Proof.
  destruct (add_simulates _ _ _ _ _ _ Rep_init sell_step) as (s & E & HR).
  unfold book_1_state. by rewrite E.
Qed.

Lemma book_1_queue : mkEntry id_1 7 10 ∈ a_queue book_1 SSell 5.
Proof.
  assert (E : a_queue book_1 SSell 5 = [mkEntry id_1 7 10]) by (vm_compute; reflexivity).
  rewrite E. left.
Qed.
Lemma add_refines_step_witness :
  exists s', @add build_cicd book_1_state buy_4_at_9 =
    Ok (s', [PostStatus (mkInternalOrderStatus 8 0 4 9 Full)], true) /\ Rep s' book_2.
Proof. exact (add_refines_step _ _ _ _ _ _ book_1_rep buy_step). Defined.

Lemma book_run_refines_witness :
  exists s, @add_all build_cicd init [sell_10_at_5; buy_4_at_9] =
    Ok (s, [PostStatus (mkInternalOrderStatus 7 id_1 0 5 Accepted);
            PostStatus (mkInternalOrderStatus 8 0 4 9 Full)]) /\ Rep s book_2.
Proof. exact (book_run_refines _ _ _ run_2). Defined.

Definition bid_book : ABook := (spec_new a_init SBuy (ioe_order (new_order Buy 9 3 4))).1.

Lemma spec_new_bid_step :
  spec_step a_init (new_order Buy 9 3 4) bid_book
    [PostStatus (mkInternalOrderStatus 9 id_1 0 4 Accepted)] true.
Proof.
  eapply step_new; [done|by split|by vm_compute|].
  rewrite (surjective_pairing (spec_new _ _ _)). by f_equal.
Qed.

Definition bid_state : State :=
  match @add build_cicd init (new_order Buy 9 3 4) with Ok (s, _, _) => s | Err _ => init end.

Lemma book_never_crossed_witness : maxBid_ bid_state < minAsk_ bid_state.
Proof.
  apply (book_never_crossed (B := build_cicd) [new_order Buy 9 3 4] bid_book
    [PostStatus (mkInternalOrderStatus 9 id_1 0 4 Accepted)]).
  - eapply (run_cons _ _ _ [_] _ _ _ []); [apply spec_new_bid_step|constructor].
  - vm_compute. reflexivity.
  - vm_compute. discriminate.
Defined.

Lemma book_best_prices_exact_witness :
  (forall p, 0 <= p < minAsk_ bid_state -> ls_head (lvl bid_state p SSell) = 0) /\
  ls_head (lvl bid_state (maxBid_ bid_state) SBuy) <> 0.
Proof.
  destruct (book_best_prices_exact (B := build_cicd) [new_order Buy 9 3 4] bid_book
    [PostStatus (mkInternalOrderStatus 9 id_1 0 4 Accepted)] bid_state) as (H & _ & _ & H4 & _).
  - eapply (run_cons _ _ _ [_] _ _ _ []); [apply spec_new_bid_step|constructor].
  - vm_compute. reflexivity.
  - split; [exact H|apply H4; vm_compute; reflexivity].
Defined.

Lemma clear_resets_witness : Rep (clear bid_state) a_init.
Proof. exact (clear_resets bid_state). Defined.

(** Sells of 10 at 5 and of 10 at 6, then a buy of 15 up to 9. *)
Definition two_levels : State :=
  match @add_all build_cicd init [sell_10_at_5; new_order Sell 9 10 6] with
  | Ok (s, _) => s | Err _ => init end.
Definition buy_15_at_9 := new_order Buy 8 15 9.
Definition two_levels_after : State :=
  match @add build_cicd two_levels buy_15_at_9 with Ok (s, _, _) => s | Err _ => init end.

Lemma two_levels_rep : exists a, @Rep build_cicd two_levels a.
Proof.
  destruct (@add_new_ok build_cicd _ book_1_state book_1 (new_order Sell 9 10 6) book_1_rep)
    as (s & E & HR); [done|by split|by vm_compute|].
  eexists. unfold two_levels. cbn [add_all]. pose proof E as E'. unfold book_1_state in E'.
  destruct (add_simulates _ _ _ _ _ _ Rep_init sell_step) as (s0 & E0 & _).
  rewrite E0 in *. rewrite E'. exact HR.
Qed.

Lemma match_price_priority_witness :
  ls_head (lvl two_levels_after 5 SSell) = 0.
Proof.
  destruct two_levels_rep as [a HR].
  apply (match_price_priority (B := build_cicd) two_levels a buy_15_at_9 two_levels_after
    [PostStatus (mkInternalOrderStatus 8 0 15 9 Full)] 5 6).
  - exact HR.
  - done.
  - by split.
  - by vm_compute.
  - vm_compute. reflexivity.
  - cbn. lia.
  - apply elem_of_eligible. cbn. lia.
  - vm_compute. discriminate.
Defined.

Lemma match_conserves_quantity_witness :
  exists traded, 0 <= traded <= 15 /\
    book_total two_levels SSell (seqZ 0 10) = book_total two_levels_after SSell (seqZ 0 10) + traded.
Proof.
  destruct two_levels_rep as [a HR].
  destruct (match_conserves_quantity (B := build_cicd) two_levels a buy_15_at_9 two_levels_after
    [PostStatus (mkInternalOrderStatus 8 0 15 9 Full)]) as (traded & H1 & H2 & _).
  - exact HR.
  - done.
  - by split.
  - by vm_compute.
  - vm_compute. reflexivity.
  - exists traded. split; [exact H1|exact H2].
Defined.

Lemma cancel_takes_out_order_witness :
  exists s', @cancelOrder build_cicd book_1_state (mkInternalOrder 7 id_1 0 0) =
    Ok (s', [PostStatus (mkInternalOrderStatus 7 id_1 0 0 Cancelled)]) /\ level_rep s' SSell 5 [].
Proof.
  destruct (cancel_takes_out_order (B := build_cicd) book_1_state book_1 SSell 5 []
    (mkEntry id_1 7 10) [] (mkInternalOrder 7 id_1 0 0)) as (s' & E & _ & H & _).
  - exact book_1_rep.
  - vm_compute. reflexivity.
  - reflexivity.
  - exists s'. split; [exact E|exact H].
Defined.

Lemma cancel_superseded_rejected_witness :
  @add build_cicd book_1_state (cancel_order 7 (SlotId.make (@MAX_BOOK_ORDERS build_cicd) 1 2)) =
  Ok (book_1_state, [PostStatus (mkInternalOrderStatus 7
        (SlotId.make (@MAX_BOOK_ORDERS build_cicd) 1 2) 0 0 Rejected)], true).
Proof.
  apply (cancel_superseded_rejected (B := build_cicd) book_1_state book_1 SSell 5 (mkEntry id_1 7 10)
    (cancel_order 7 (SlotId.make (@MAX_BOOK_ORDERS build_cicd) 1 2)) book_1_rep book_1_queue eq_refl).
  - by vm_compute.
  - vm_compute. discriminate.
Defined.

(** The identifier check of [cancelOrder] does not notice that an order
    has already left the book: [releaseId] advances the generation of its
    own copy of the identifier only, so the node still carries the released
    one.  Cancelling the same order twice is answered [Cancelled] twice, its
    slot is then free twice, and the next two orders rest under one
    identifier. *)
Theorem stale_cancel_hands_out_slot_twice :
  exists s, @add_all build_cicd init
    [sell_10_at_5; cancel_order 7 id_1; cancel_order 7 id_1;
     new_order Sell 11 1 20; new_order Sell 12 2 30] =
  Ok (s, let id_2 := SlotId.nextGen (@MAX_BOOK_ORDERS build_cicd) id_1 in
    [PostStatus (mkInternalOrderStatus 7 id_1 0 5 Accepted);
     PostStatus (mkInternalOrderStatus 7 id_1 0 0 Cancelled);
     PostStatus (mkInternalOrderStatus 7 id_1 0 0 Cancelled);
     PostStatus (mkInternalOrderStatus 11 id_2 0 20 Accepted);
     PostStatus (mkInternalOrderStatus 12 id_2 0 30 Accepted)]).
Proof. eexists. vm_compute. reflexivity. Qed.

(** A cancel that arrives after the order was filled is answered
    [Cancelled] instead of [Rejected], although the order traded in full. *)
Theorem cancel_after_fill_reports_cancelled :
  exists s, @add_all build_cicd init
    [sell_10_at_5; new_order Buy 8 10 5; cancel_order 7 id_1] =
  Ok (s, [PostStatus (mkInternalOrderStatus 7 id_1 0 5 Accepted);
          PostStatus (mkInternalOrderStatus 8 0 10 5 Full);
          PostStatus (mkInternalOrderStatus 7 id_1 0 0 Cancelled)]).
Proof. eexists. vm_compute. reflexivity. Qed.

End Concrete.
End BookTheorems.
