(* ===== verification/SlotIdPool.v ===== *)
(** * The pool of order identifiers

    Models [SlotIdPool] (common/src/id/slot_id_pool.hpp): the gateway's
    network thread acquires identifiers from a local stack, refilled from a
    ring of identifiers the gateway thread has released or from slots never
    used.  The theorems say that no slot is handed out twice and that the
    pool is exhausted only when every slot is out. *)

From S2P Require Import Prelude SlotId HugeArray.

Module Pool.
Section Pool.
Context (MaxCapacity : Z).

Definition MASK : Z := SlotId.maxIndex MaxCapacity.
Definition CAPACITY : Z := MASK + 1.
Definition LOCAL_CACHE_SIZE : Z := 65536.
Definition FRESH_CHUNK_SIZE : Z := 16384.

Record State := mkState {
  head_ : Z;
  tail_ : Z;
  sharedQueue_ : gmap Z Z;
  localStack_ : gmap Z Z;
  localTop_ : Z;
  nextFreshIdx_ : Z
}.

Definition init : State := mkState 0 0 HugeArray.alloc HugeArray.alloc 0 1.

Definition set_local (s : State) st top : State :=
  mkState (head_ s) (tail_ s) (sharedQueue_ s) st top (nextFreshIdx_ s).

(** [while (h != t && localTop_ < LOCAL_CACHE_SIZE)]; [n] is
    [LOCAL_CACHE_SIZE - localTop_]. *)
Fixpoint drain_shared (s : State) (n : nat) (h t : Z) : res (State * Z) :=
  match n with
  | O => Ok (s, h)
  | S n =>
      if h =? t then Ok (s, h)
      else
        let! id := HugeArray.get CAPACITY (sharedQueue_ s) h in
        let! st := HugeArray.set LOCAL_CACHE_SIZE (localStack_ s) (localTop_ s) id in
        drain_shared (set_local s st (u32 (localTop_ s + 1))) n (Z.land (u32 (h + 1)) MASK) t
  end.

(** [while (nextFreshIdx_ < limit && localTop_ < LOCAL_CACHE_SIZE)]. *)
Fixpoint make_fresh (s : State) (n : nat) (limit : Z) : res State :=
  match n with
  | O => Ok s
  | S n =>
      if nextFreshIdx_ s <? limit then
        let! st := HugeArray.set LOCAL_CACHE_SIZE (localStack_ s) (localTop_ s)
                     (SlotId.make MaxCapacity (nextFreshIdx_ s) 1) in
        make_fresh (mkState (head_ s) (tail_ s) (sharedQueue_ s) st (u32 (localTop_ s + 1))
                      (u32 (nextFreshIdx_ s + 1))) n limit
      else Ok s
  end.

(** [localStack_[--localTop_]]. *)
Definition pop_local (s : State) : res (State * Z) :=
  let top := u32 (localTop_ s - 1) in
  let! id := HugeArray.get LOCAL_CACHE_SIZE (localStack_ s) top in
  Ok (set_local s (localStack_ s) top, id).

Definition refill (s : State) : res (State * Z) :=
  let! (s, h) := drain_shared s (Z.to_nat (LOCAL_CACHE_SIZE - localTop_ s)) (head_ s) (tail_ s) in
  let s := mkState h (tail_ s) (sharedQueue_ s) (localStack_ s) (localTop_ s) (nextFreshIdx_ s) in
  let! s :=
    (if localTop_ s =? 0 then
       make_fresh s (Z.to_nat (LOCAL_CACHE_SIZE - localTop_ s))
         (Z.min (u32 (nextFreshIdx_ s + FRESH_CHUNK_SIZE)) CAPACITY)
     else Ok s) in
  if 0 <? localTop_ s then pop_local s else Ok (s, SlotId.invalid).

Definition acquire (s : State) : res (State * Z) :=
  if 0 <? localTop_ s then pop_local s else refill s.

Definition release (s : State) (id : Z) : res State :=
  let id := SlotId.nextGen MaxCapacity id in
  let t := tail_ s in
  let! q := HugeArray.set CAPACITY (sharedQueue_ s) t id in
  Ok (mkState (head_ s) (Z.land (u32 (t + 1)) MASK) q (localStack_ s) (localTop_ s) (nextFreshIdx_ s)).

End Pool.

(** ** Invariant *)

Section Inv.
Context (cap bits : Z) `{SC : !SlotId.SlotCapacity cap bits}.

Abbreviation index := (SlotId.index cap).
Abbreviation CAPACITY := (CAPACITY cap).

Definition wf_id (next id : Z) : Prop :=
  0 <= id < 2 ^ 32 /\ SlotId.gen cap id <> 0 /\ 1 <= index id < next.

(** [local] is the stack (bottom first), [shared] the ring (oldest first),
    [out] the identifiers handed out.  Together they are all the slots that
    were ever made, each once. *)
Record Inv (s : State) (local shared out : list Z) : Prop := {
  inv_top : localTop_ s = Z.of_nat (length local);
  inv_cache : localTop_ s <= LOCAL_CACHE_SIZE;
  inv_local : forall k id, local !! k = Some id ->
    HugeArray.at_ (localStack_ s) (Z.of_nat k) = id;
  inv_head : 0 <= head_ s < CAPACITY;
  inv_tail : tail_ s = (head_ s + Z.of_nat (length shared)) mod CAPACITY;
  inv_shared : forall k id, shared !! k = Some id ->
    HugeArray.at_ (sharedQueue_ s) ((head_ s + Z.of_nat k) mod CAPACITY) = id;
  inv_next : 1 <= nextFreshIdx_ s <= CAPACITY;
  inv_ids : Forall (wf_id (nextFreshIdx_ s)) (local ++ shared ++ out);
  inv_nodup : NoDup (map index (local ++ shared ++ out));
  inv_all : Z.of_nat (length (local ++ shared ++ out)) = nextFreshIdx_ s - 1
}.

Lemma capacity_eq : CAPACITY = 2 ^ bits.
Proof.
  unfold Pool.CAPACITY, MASK, SlotId.maxIndex. rewrite (SlotId.INDEX_MASK_eq cap bits), Z.ones_equiv. lia.
Qed.

Lemma capacity_range : 2 <= CAPACITY <= 2 ^ 31.
Proof. rewrite capacity_eq. apply (SlotId.pow_bits_bounds cap bits). Qed.

Lemma land_MASK x : Z.land x (MASK cap) = x mod CAPACITY.
Proof.
  unfold MASK, SlotId.maxIndex. rewrite (SlotId.INDEX_MASK_eq cap bits), capacity_eq.
  apply Z.land_ones. destruct SC. lia.
Qed.

Lemma next_mod h : 0 <= h < CAPACITY -> Z.land (u32 (h + 1)) (MASK cap) = (h + 1) mod CAPACITY.
Proof. intros Hh. pose proof capacity_range. rewrite u32_small by lia. apply land_MASK. Qed.

Lemma pool_Inv_init : Inv init [] [] [].
Proof.
  pose proof capacity_range. split; cbn; try done; try lia; try constructor.
Qed.

Lemma pool_wf_id_mono n m id : n <= m -> wf_id n id -> wf_id m id.
Proof. intros Hle (H1 & H2 & H3). split; [done|]. split; [done|lia]. Qed.

(** Popping the local stack. *)
Lemma pop_local_ok s local shared out id :
  Inv s (local ++ [id]) shared out ->
  exists s', pop_local s = Ok (s', id) /\ Inv s' local shared (id :: out).
Proof.
  intros [H1 H2 H3 H4 H5 H6 H7 H8 H9 H10]. unfold pop_local.
  rewrite length_app in H1. cbn in H1.
  assert (Etop : u32 (localTop_ s - 1) = Z.of_nat (length local))
    by (unfold LOCAL_CACHE_SIZE in *; rewrite u32_small; lia).
  rewrite Etop, HugeArray.get_ok by lia.
  rewrite (H3 (length local) id) by (by rewrite list_lookup_middle).
  eexists. split; [done|].
  assert (Hperm : (local ++ [id]) ++ shared ++ out ≡ₚ local ++ shared ++ id :: out)
    by (rewrite <- (assoc_L app); apply Permutation_app_head; cbn; apply Permutation_middle).
  split; cbn; try done.
  - lia.
  - intros k x Hk. apply H3. by apply lookup_app_l_Some.
  - by rewrite <- Hperm.
  - by rewrite <- Hperm.
  - by rewrite <- Hperm.
Qed.

(** A ring that is not full: the tail meets the head only when empty. *)
Lemma ring_tail_ne h n : 0 <= h < CAPACITY -> 0 < n < CAPACITY -> h <> (h + n) mod CAPACITY.
Proof.
  intros Hh Hn E. destruct (Z.lt_ge_cases (h + n) CAPACITY).
  - rewrite Z.mod_small in E; lia.
  - rewrite <- (Z.mod_add _ (-1)), Z.mod_small in E by lia. lia.
Qed.

(** The state seen by the loops of [refill], with the ring's head at [h]. *)
Definition at_head (s : State) (h : Z) : State :=
  mkState h (tail_ s) (sharedQueue_ s) (localStack_ s) (localTop_ s) (nextFreshIdx_ s).

(** One iteration: the oldest released identifier moves to the stack. *)
Lemma Inv_shift s h local shared out id :
  Inv (at_head s h) local (id :: shared) out -> localTop_ s < LOCAL_CACHE_SIZE ->
  Inv (at_head (set_local s (<[localTop_ s := id]> (localStack_ s)) (localTop_ s + 1))
         ((h + 1) mod CAPACITY)) (local ++ [id]) shared out.
Proof.
  intros [H1 H2 H3 H4 H5 H6 H7 H8 H9 H10] Hlt. cbn in *. pose proof capacity_range as Hc.
  assert (Hperm : (local ++ [id]) ++ shared ++ out = local ++ (id :: shared) ++ out)
    by (by rewrite <- (assoc_L app)).
  split; cbn; try done; rewrite ?Hperm; try done.
  - rewrite length_app. cbn. lia.
  - lia.
  - intros k x Hk. apply lookup_app_Some in Hk as [Hk|[Hge Hk]].
    + rewrite HugeArray.at_set_ne; [by apply H3|]. apply lookup_lt_Some in Hk. lia.
    + apply list_lookup_singleton_Some in Hk as [Hk <-].
      replace (Z.of_nat k) with (localTop_ s) by lia. apply HugeArray.at_set_eq.
  - apply Z.mod_pos_bound. lia.
  - rewrite H5, Zplus_mod_idemp_l. f_equal. lia.
  - intros k x Hk. rewrite Zplus_mod_idemp_l.
    replace (h + 1 + Z.of_nat k) with (h + Z.of_nat (S k)) by lia. by apply H6.
Qed.

(** Draining the ring into the local stack. *)
Lemma drain_shared_ok n s h local shared out :
  Inv (at_head s h) local shared out -> n = Z.to_nat (LOCAL_CACHE_SIZE - localTop_ s) ->
  exists s' h' l1 shared', drain_shared cap s n h (tail_ s) = Ok (s', h') /\
    shared = l1 ++ shared' /\ Inv (at_head s' h') (local ++ l1) shared' out /\
    (shared <> [] -> (0 < n)%nat -> l1 <> []).
Proof.
  pose proof capacity_range as Hc. revert s h local shared.
  induction n as [|n IH]; intros s h local shared HI Hn.
  { exists s, h, [], shared. rewrite app_nil_r. split; [done|]. split; [done|]. split; [done|lia]. }
  pose proof HI as [H1 H2 H3 H4 H5 H6 H7 H8 H9 H10]. cbn in H1, H2, H4, H5, H7.
  assert (Hlen : Z.of_nat (length shared) < CAPACITY).
  { cbn in H10. rewrite !length_app in H10. lia. }
  destruct shared as [|id shared]; cbn [drain_shared].
  - cbn in H5. rewrite Z.add_0_r, Z.mod_small in H5 by done.
    rewrite (proj2 (Z.eqb_eq _ _) (eq_sym H5)).
    exists s, h, [], []. rewrite (app_nil_r local). split; [done|]. split; [done|]. split; [exact HI|]. intros Hne; by destruct Hne.
  - assert (Hne : h <> tail_ s) by (rewrite H5; apply ring_tail_ne; cbn [length] in *; lia).
    rewrite (proj2 (Z.eqb_neq _ _) Hne).
    rewrite (HugeArray.get_ok CAPACITY), HugeArray.set_ok by lia. rewrite next_mod by done.
    assert (Eid : HugeArray.at_ (sharedQueue_ s) h = id).
    { specialize (H6 0%nat id eq_refl). cbn in H6. by rewrite Z.add_0_r, Z.mod_small in H6. }
    rewrite Eid, u32_small by (unfold LOCAL_CACHE_SIZE in *; lia).
    destruct (IH _ _ _ _ (Inv_shift s h local shared out id HI ltac:(lia))) as
      (s' & h' & l1 & shared' & E & Es & HI' & _); [cbn; lia|].
    exists s', h', (id :: l1), shared'. split; [exact E|]. split; [by rewrite Es|].
    split; [|done]. change (id :: l1) with ([id] ++ l1). by rewrite (assoc_L app).
Qed.

(** Making fresh slots, generation 1. *)
Lemma fresh_id_wf i : 1 <= i < CAPACITY ->
  wf_id (i + 1) (SlotId.make cap i 1) /\ index (SlotId.make cap i 1) = i.
Proof.
  rewrite capacity_eq. intros Hi. pose proof (SlotId.pow_bits_bounds cap bits) as [_ Hg].
  assert (Ei : index (SlotId.make cap i 1) = i) by (apply (SlotId.index_make _ bits); lia).
  split; [|done]. unfold wf_id. rewrite Ei. split; [apply (SlotId.make_u32 _ bits); lia|].
  rewrite (SlotId.gen_make _ bits) by lia. lia.
Qed.

Lemma Inv_fresh s local shared out :
  Inv s local shared out -> nextFreshIdx_ s < CAPACITY -> localTop_ s < LOCAL_CACHE_SIZE ->
  let id := SlotId.make cap (nextFreshIdx_ s) 1 in
  Inv (mkState (head_ s) (tail_ s) (sharedQueue_ s) (<[localTop_ s := id]> (localStack_ s))
         (localTop_ s + 1) (nextFreshIdx_ s + 1)) (local ++ [id]) shared out.
Proof.
  intros [H1 H2 H3 H4 H5 H6 H7 H8 H9 H10] Hlt Hroom id.
  destruct (fresh_id_wf (nextFreshIdx_ s)) as [Hwf Ei]; [lia|]. fold id in Hwf, Ei.
  assert (Hperm : (local ++ [id]) ++ shared ++ out ≡ₚ id :: (local ++ shared ++ out))
    by (rewrite <- (assoc_L app); symmetry; apply Permutation_middle).
  split; cbn; try done; try lia.
  - rewrite length_app. cbn. lia.
  - intros k x Hk. apply lookup_app_Some in Hk as [Hk|[Hge Hk]].
    + rewrite HugeArray.at_set_ne; [by apply H3|]. apply lookup_lt_Some in Hk. lia.
    + apply list_lookup_singleton_Some in Hk as [Hk <-].
      replace (Z.of_nat k) with (localTop_ s) by lia. apply HugeArray.at_set_eq.
  - rewrite Hperm. constructor; [done|]. eapply Forall_impl; [exact H8|].
    intros x. apply pool_wf_id_mono. lia.
  - rewrite Hperm. cbn. apply NoDup_cons. split; [|done].
    intros (x & Ex & Hx)%list_elem_of_fmap. rewrite Forall_forall in H8.
    destruct (H8 x Hx) as (_ & _ & ?). lia.
  - rewrite Hperm. cbn [length]. lia.
Qed.

Lemma make_fresh_ok n s local shared out limit :
  Inv s local shared out -> n = Z.to_nat (LOCAL_CACHE_SIZE - localTop_ s) -> limit <= CAPACITY ->
  exists s' l1, make_fresh cap s n limit = Ok s' /\ Inv s' (local ++ l1) shared out /\
    (nextFreshIdx_ s < limit -> (0 < n)%nat -> l1 <> []).
Proof.
  pose proof capacity_range as Hc. revert s local.
  induction n as [|n IH]; intros s local HI Hn Hl; cbn [make_fresh].
  { exists s, []. rewrite app_nil_r. split; [done|]. split; [done|lia]. }
  destruct (Z.ltb_spec (nextFreshIdx_ s) limit).
  2: { exists s, []. rewrite app_nil_r. split; [done|]. split; [done|lia]. }
  pose proof (inv_cache _ _ _ _ HI). pose proof (inv_top _ _ _ _ HI). pose proof (inv_next _ _ _ _ HI).
  rewrite HugeArray.set_ok by lia.
  rewrite !u32_small by (unfold LOCAL_CACHE_SIZE in *; lia).
  destruct (IH _ _ (Inv_fresh s local shared out HI ltac:(lia) ltac:(lia))) as (s' & l1 & E & HI' & _);
    [cbn; lia|done|].
  exists s', (SlotId.make cap (nextFreshIdx_ s) 1 :: l1). split; [exact E|].
  split; [|done]. change (?x :: l1) with ([x] ++ l1). by rewrite (assoc_L app).
Qed.

(** ** Operations *)

Definition acquired (s' : State) (id : Z) (out : list Z) : Prop :=
  exists local shared, Inv s' local shared (id :: out).

(** The pool is exhausted when every slot is out. *)
Definition exhausted (out : list Z) : Prop := Z.of_nat (length out) = CAPACITY - 1.

Lemma pop_nonempty s local shared out :
  Inv s local shared out -> local <> [] ->
  exists s' id, pop_local s = Ok (s', id) /\ acquired s' id out.
Proof.
  intros HI Hne. destruct local as [|id local _] using rev_ind; [done|].
  destruct (pop_local_ok _ _ _ _ _ HI) as (s' & E & HI'). exists s', id. split; [done|].
  by exists local, shared.
Qed.

Lemma refill_ok s shared out :
  Inv s [] shared out ->
  exists s' id, refill cap s = Ok (s', id) /\
    (acquired s' id out \/ (id = SlotId.invalid /\ exhausted out /\ Inv s' [] [] out)).
Proof.
  intros HI. pose proof (inv_top _ _ _ _ HI) as Ht. cbn in Ht. unfold refill.
  destruct (drain_shared_ok (Z.to_nat (LOCAL_CACHE_SIZE - localTop_ s)) s (head_ s) [] shared out)
    as (s1 & h1 & l1 & shared1 & -> & Es & HI1 & Hl1); [by destruct s|done|].
  fold (at_head s1 h1). cbn zeta.
  pose proof (inv_top _ _ _ _ HI1) as Ht1. destruct (Z.eqb_spec (localTop_ (at_head s1 h1)) 0) as [E0|E0].
  - destruct l1; [|cbn [app length] in Ht1; lia]. cbn [app] in HI1.
    assert (Esh : shared = []).
    { destruct shared; [done|]. exfalso. apply Hl1; [done| |done].
      rewrite Ht. unfold LOCAL_CACHE_SIZE. lia. }
    subst shared. destruct shared1; [|done].
    pose proof (inv_next _ _ _ _ HI1) as Hn. pose proof capacity_range.
    assert (Hlim : u32 (nextFreshIdx_ (at_head s1 h1) + FRESH_CHUNK_SIZE) =
      nextFreshIdx_ (at_head s1 h1) + FRESH_CHUNK_SIZE)
      by (unfold FRESH_CHUNK_SIZE; apply u32_small; lia).
    rewrite Hlim.
    destruct (make_fresh_ok (Z.to_nat (LOCAL_CACHE_SIZE - localTop_ (at_head s1 h1))) (at_head s1 h1)
      [] [] out (Z.min (nextFreshIdx_ (at_head s1 h1) + FRESH_CHUNK_SIZE) CAPACITY) HI1 eq_refl)
      as (s2 & l2 & -> & HI2 & Hl2); [lia|]. cbn [app] in HI2.
    pose proof (inv_top _ _ _ _ HI2) as Ht2. destruct (Z.ltb_spec 0 (localTop_ s2)).
    + destruct (pop_nonempty _ _ _ _ HI2) as (s' & id & -> & Hacq); [by intros ->; cbn [app length] in Ht2; lia|].
      eauto.
    + destruct l2; [|cbn [app length] in Ht2; lia]. exists s2, SlotId.invalid. split; [done|]. right.
      split; [done|]. split; [|done].
      assert (~ nextFreshIdx_ (at_head s1 h1) < CAPACITY).
      { intros Hlt. apply Hl2; [|rewrite E0; unfold LOCAL_CACHE_SIZE; lia|done].
        unfold FRESH_CHUNK_SIZE. lia. }
      pose proof (inv_all _ _ _ _ HI1) as Hall. cbn [app] in Hall. unfold exhausted. lia.
  - cbn [app] in HI1. destruct (Z.ltb_spec 0 (localTop_ (at_head s1 h1))); [|lia].
    destruct (pop_nonempty _ _ _ _ HI1) as (s' & id & -> & Hacq); [by intros ->; cbn [app length] in Ht1; lia|].
    eauto.
Qed.

Lemma acquire_ok s local shared out :
  Inv s local shared out ->
  exists s' id, acquire cap s = Ok (s', id) /\
    (acquired s' id out \/ (id = SlotId.invalid /\ exhausted out /\ Inv s' [] [] out)).
Proof.
  intros HI. unfold acquire. pose proof (inv_top _ _ _ _ HI) as Ht.
  destruct (Z.ltb_spec 0 (localTop_ s)).
  - destruct (pop_nonempty _ _ _ _ HI) as (s' & id & -> & Hacq); [by intros ->; cbn [app length] in Ht; lia|]. eauto.
  - destruct local; [|cbn [app length] in Ht; lia]. by apply (refill_ok s shared out).
Qed.

Lemma release_ok s local shared id out :
  Inv s local shared (id :: out) ->
  exists s', release cap s id = Ok s' /\
    Inv s' local (shared ++ [SlotId.nextGen cap id]) out.
Proof.
  intros [H1 H2 H3 H4 H5 H6 H7 H8 H9 H10]. pose proof capacity_range as Hc. unfold release.
  assert (Ht : 0 <= tail_ s < CAPACITY) by (rewrite H5; apply Z.mod_pos_bound; lia).
  rewrite HugeArray.set_ok by done. rewrite next_mod by done. eexists. split; [done|].
  assert (Hid : wf_id (nextFreshIdx_ s) id).
  { rewrite Forall_forall in H8. apply H8. rewrite !elem_of_app. right. right. left. }
  assert (Hperm : local ++ shared ++ id :: out ≡ₚ id :: (local ++ shared ++ out)).
  { rewrite <- Permutation_middle. by rewrite <- Permutation_middle. }
  assert (Hperm2 : local ++ (shared ++ [SlotId.nextGen cap id]) ++ out ≡ₚ
                   SlotId.nextGen cap id :: (local ++ shared ++ out)).
  { rewrite <- (assoc_L app). cbn. rewrite <- Permutation_middle. by rewrite <- Permutation_middle. }
  destruct Hid as (Hr & Hg & Hi).
  assert (Ei : index (SlotId.nextGen cap id) = index id) by (by apply (SlotId.index_nextGen _ bits)).
  assert (Hlen : Z.of_nat (length shared) + 1 < CAPACITY).
  { rewrite Hperm in H10. cbn in H10. rewrite !length_app in H10. lia. }
  split; cbn; try done.
  - rewrite H5, Zplus_mod_idemp_l, length_app. cbn. f_equal. lia.
  - intros k x Hk. apply lookup_app_Some in Hk as [Hk|[Hge Hk]].
    + rewrite HugeArray.at_set_ne; [by apply H6|]. apply lookup_lt_Some in Hk. rewrite H5.
      intros E. apply (ring_tail_ne ((head_ s + Z.of_nat k) mod CAPACITY)
        (Z.of_nat (length shared) - Z.of_nat k)); [apply Z.mod_pos_bound; lia|lia|].
      rewrite Zplus_mod_idemp_l. replace (head_ s + Z.of_nat k + _)
        with (head_ s + Z.of_nat (length shared)) by lia. done.
    + apply list_lookup_singleton_Some in Hk as [Hk <-].
      replace (Z.of_nat k) with (Z.of_nat (length shared)) by lia. rewrite <- H5.
      apply HugeArray.at_set_eq.
  - rewrite Hperm2. rewrite Hperm in H8. apply Forall_cons in H8 as [_ H8]. constructor; [|done].
    split; [by apply (SlotId.nextGen_u32 _ bits)|]. rewrite Ei. split; [|done].
    apply (SlotId.isValid_gen cap). by apply (SlotId.nextGen_valid _ bits).
  - rewrite Hperm2. rewrite Hperm in H9. cbn in *. by rewrite Ei.
  - rewrite Hperm2. rewrite Hperm in H10. done.
Qed.

Lemma Inv_out_perm s local shared out out' :
  out ≡ₚ out' -> Inv s local shared out -> Inv s local shared out'.
Proof. intros E [H1 H2 H3 H4 H5 H6 H7 H8 H9 H10]. split; try done; by rewrite <- E. Qed.

(** An acquired identifier is valid and its slot is not out. *)
Lemma acquired_fresh s id out :
  acquired s id out -> SlotId.isValid cap id = true /\ 0 <= id < 2 ^ 32 /\
    1 <= index id < CAPACITY /\ index id ∉ map index out.
Proof.
  intros (local & shared & [_ _ _ _ _ _ H7 H8 H9 _]). rewrite Forall_forall in H8.
  destruct (H8 id) as (Hr & Hg & Hi); [rewrite !elem_of_app; right; right; left|].
  split; [by apply SlotId.isValid_gen|]. split; [done|]. split; [lia|].
  rewrite !map_app in H9. apply NoDup_app in H9 as (_ & _ & H9).
  apply NoDup_app in H9 as (_ & _ & H9). cbn in H9. by apply NoDup_cons in H9 as [? _].
Qed.

(** ** Runs of the pool *)

(** [out] lists the identifiers handed out and not yet released. *)
Inductive Reach : State -> list Z -> Prop :=
| reach_init : Reach init []
| reach_acquire s out s' id :
    Reach s out -> acquire cap s = Ok (s', id) -> SlotId.isValid cap id = true -> Reach s' (id :: out)
| reach_exhausted s out s' id :
    Reach s out -> acquire cap s = Ok (s', id) -> SlotId.isValid cap id = false -> Reach s' out
| reach_release s out1 id out2 s' :
    Reach s (out1 ++ id :: out2) -> release cap s id = Ok s' -> Reach s' (out1 ++ out2).

Lemma invalid_not_acquired s id out : acquired s id out -> SlotId.isValid cap id = true.
Proof. intros H. by apply acquired_fresh in H as [? _]. Qed.

Lemma pool_Reach_Inv s out : Reach s out -> exists local shared, Inv s local shared out.
Proof.
  induction 1 as [|s out s' id _ (local & shared & HI) E Hv|s out s' id _ (local & shared & HI) E Hv
                  |s out1 id out2 s' _ (local & shared & HI) E].
  - exists [], []. apply pool_Inv_init.
  - destruct (acquire_ok _ _ _ _ HI) as (s1 & id1 & E1 & Ha); rewrite E in E1;
      injection E1 as <- <-. destruct Ha as [Ha|(-> & _)]; [exact Ha|].
    by rewrite SlotId.invalid_not_valid in Hv.
  - destruct (acquire_ok _ _ _ _ HI) as (s1 & id1 & E1 & Ha); rewrite E in E1;
      injection E1 as <- <-. destruct Ha as [Ha|(_ & _ & HI')]; [|eauto].
    apply invalid_not_acquired in Ha. congruence.
  - destruct (release_ok s local shared id (out1 ++ out2)) as (s1 & E1 & HI').
    { eapply Inv_out_perm; [|exact HI]. symmetry. apply Permutation_middle. }
    rewrite E in E1. injection E1 as <-. eauto.
Qed.

(** C16: in every run of the pool the identifiers that are out occupy
    distinct slots, [acquire] completes, what it returns is invalid exactly
    when all [CAPACITY - 1] slots are out and otherwise names a slot that is
    not out, and every identifier that is out can be released. *)
Theorem pool_never_reissues s out :
  Reach s out ->
  NoDup (map index out) /\
  (exists s' id, acquire cap s = Ok (s', id) /\
     (SlotId.isValid cap id = true -> 1 <= index id < CAPACITY /\ index id ∉ map index out) /\
     (SlotId.isValid cap id = false <-> Z.of_nat (length out) = CAPACITY - 1)) /\
  (forall id, id ∈ out -> exists s', release cap s id = Ok s').
Proof.
  intros HR. destruct (pool_Reach_Inv _ _ HR) as (local & shared & HI). split; [|split].
  - pose proof (inv_nodup _ _ _ _ HI) as Hnd. rewrite !map_app in Hnd.
    apply NoDup_app in Hnd as (_ & _ & Hnd). by apply NoDup_app in Hnd as (_ & _ & Hnd).
  - destruct (acquire_ok _ _ _ _ HI) as (s' & id & E & [Ha|(-> & Hex & HI')]); exists s'; eexists.
    + split; [exact E|]. pose proof Ha as Hf. apply acquired_fresh in Hf as (Hv & _ & Hr & Hni).
      split; [done|]. rewrite Hv. split; [done|]. intros Hlen.
      destruct Ha as (l & sh & HI'). pose proof (inv_all _ _ _ _ HI') as Hall.
      pose proof (inv_next _ _ _ _ HI'). rewrite !length_app in Hall. cbn [length] in Hall. lia.
    + split; [exact E|]. rewrite SlotId.invalid_not_valid. split; [done|]. split; [done|]. done.
  - intros id Hid. destruct (list_elem_of_split _ _ Hid) as (o1 & o2 & ->).
    destruct (release_ok s local shared id (o1 ++ o2)) as (s' & E & _); [|eauto].
    eapply Inv_out_perm; [|exact HI]. symmetry. apply Permutation_middle.
Qed.
End Inv.

Lemma pool_never_reissues_witness :
  exists s id, acquire (2 ^ 10) init = Ok (s, id) /\
    (SlotId.isValid (2 ^ 10) id = false <-> 0 = CAPACITY (2 ^ 10) - 1).
Proof.
  destruct (pool_never_reissues (2 ^ 10) 10 init [] (reach_init _))
    as (_ & (s & id & E & _ & Hex) & _). exists s, id. split; [exact E|exact Hex].
Defined.
End Pool.
