(* ===== verification/OrderGateway.v ===== *)
(** * The order gateway

    Models [OrderGateway] and [OrderRecord] (server/src/gateway/): the table
    of order records between the clients' orders and the order books.  The
    network thread calls [post] with a [ServerOrder], the gateway thread with
    an [InternalOrderStatus]; both are modelled as handlers on one state that
    return what they post to the bus. *)

From S2P Require Import Prelude SlotId HugeArray Types SlotIdPool.

Module Gateway.

Inductive RecordState := RNew | RAccepted | RClosed.

#[export] Instance RecordState_eq_dec : EqDecision RecordState.
Proof. solve_decision. Defined.

Record OrderRecord := mkRecord {
  r_externalOId : Z;
  r_systemOId : SystemOrderId;
  r_bookOId : BookOrderId;
  r_ticker : Ticker;
  r_clientId : Z;
  r_state : RecordState
}.

#[export] Instance OrderRecord_zeroed : Zeroed OrderRecord :=
  mkRecord 0 0 0 (replicate TICKER_SIZE Ascii.zero) 0 RNew.

Definition setState (r : OrderRecord) (st : RecordState) : OrderRecord :=
  mkRecord (r_externalOId r) (r_systemOId r) (r_bookOId r) (r_ticker r) (r_clientId r) st.

(** What the gateway posts to the server bus. *)
Inductive Out :=
| OutStatus (s : ServerOrderStatus)
| OutEvent (e : InternalOrderEvent).

Record State := mkState {
  idPool_ : Pool.State;
  recordMap_ : gmap Z OrderRecord;
  closed_ : bool
}.

Section Gateway.
Context `{B : Build}.

Abbreviation CAPACITY := (Pool.CAPACITY MAX_SYSTEM_ORDERS).
Abbreviation index := (SlotId.index MAX_SYSTEM_ORDERS).

Definition init : State := mkState Pool.init HugeArray.alloc false.

Definition stop (s : State) : State := mkState (idPool_ s) (recordMap_ s) true.

Definition put_record (s : State) (i : Z) (r : OrderRecord) : res State :=
  let! m := HugeArray.set CAPACITY (recordMap_ s) i r in Ok (mkState (idPool_ s) m (closed_ s)).

Definition closeRecord (s : State) (i : Z) (r : OrderRecord) : res State :=
  let! s := put_record s i (setState r RClosed) in
  let! p := Pool.release MAX_SYSTEM_ORDERS (idPool_ s) (r_systemOId r) in
  Ok (mkState p (recordMap_ s) (closed_ s)).

(** [post(CRef<InternalOrderStatus>)] *)
Definition postStatus (s : State) (st : InternalOrderStatus) : res (State * list Out) :=
  if closed_ s then Ok (s, [])
  else
    let i := index (ios_id st) in
    let! r := HugeArray.get CAPACITY (recordMap_ s) i in
    let out := [OutStatus (mkServerOrderStatus (r_clientId r)
                  (mkOrderStatus (r_externalOId r) (SlotId.raw (r_systemOId r))
                     (ios_fillQty st) (ios_fillPrice st) (ios_state st)))] in
    match ios_state st with
    | Cancelled | Rejected | Full =>
        let! s := closeRecord s i r in Ok (s, out)
    | _ =>
        let! s := put_record s i
          (mkRecord (r_externalOId r) (r_systemOId r) (ios_bookOId st) (r_ticker r)
             (r_clientId r) RAccepted) in
        Ok (s, out)
    end.

Definition isValid (so : ServerOrder) : bool := 0 <? o_price (so_order so).

Definition reject (so : ServerOrder) : Out :=
  let o := so_order so in
  OutStatus (mkServerOrderStatus (so_clientId so)
    (mkOrderStatus (o_id o) 0 (o_quantity o) (o_price o) Rejected)).

Definition cancelOrder (s : State) (so : ServerOrder) : res (State * list Out) :=
  let o := so_order so in
  let sysOId := o_id o in
  let! r := HugeArray.get CAPACITY (recordMap_ s) (index sysOId) in
  if negb (bool_decide (r_state r = RAccepted)) || negb (so_clientId so =? r_clientId r)
     || negb (o_id o =? SlotId.raw (r_systemOId r))
  then Ok (s, [])
  else Ok (s, [OutEvent (mkInternalOrderEvent
                 (mkInternalOrder sysOId (r_bookOId r) (o_quantity o) (o_price o))
                 (o_ticker o) (o_action o))]).

Definition newOrder (s : State) (so : ServerOrder) : res (State * list Out) :=
  let o := so_order so in
  let! (p, systemOId) := Pool.acquire MAX_SYSTEM_ORDERS (idPool_ s) in
  let s := mkState p (recordMap_ s) (closed_ s) in
  if negb (SlotId.isValid MAX_SYSTEM_ORDERS systemOId) then Ok (s, [reject so])
  else
    let! s := put_record s (index systemOId)
      (mkRecord (o_id o) systemOId SlotId.invalid (o_ticker o) (so_clientId so) RNew) in
    Ok (s, [OutEvent (mkInternalOrderEvent
              (mkInternalOrder systemOId SlotId.invalid (o_quantity o) (o_price o))
              (o_ticker o) (o_action o))]).

(** [post(CRef<ServerOrder>)] *)
Definition postOrder (s : State) (so : ServerOrder) : res (State * list Out) :=
  if closed_ s then Ok (s, [])
  else if negb (isValid so) then Ok (s, [reject so])
  else
    match o_action (so_order so) with
    | Dummy => Ok (s, [])
    | Cancel => cancelOrder s so
    | Modify => Ok (s, [])
    | _ => newOrder s so
    end.

End Gateway.

(** ** Invariant *)

Section Inv.
Context `{B : Build} `{BO : !BuildOk B}.

Abbreviation CAPACITY := (Pool.CAPACITY MAX_SYSTEM_ORDERS).
Abbreviation index := (SlotId.index MAX_SYSTEM_ORDERS).
Abbreviation PInv := (Pool.Inv MAX_SYSTEM_ORDERS).

Definition record (s : State) (i : Z) : OrderRecord := HugeArray.at_ (recordMap_ s) i.

(** [out] are the open orders: their records carry them, and exactly their
    identifiers are missing from the pool. *)
Record Inv (s : State) (out : list Z) : Prop := {
  gw_pool : exists local shared, PInv (idPool_ s) local shared out;
  gw_open : forall id, id ∈ out ->
    r_systemOId (record s (index id)) = id /\ r_state (record s (index id)) <> RClosed;
  gw_closed : forall i, 0 <= i < CAPACITY -> i ∉ map index out ->
    r_state (record s i) <> RAccepted
}.

Lemma index_cap id : 0 <= index id < CAPACITY.
Proof.
  rewrite (Pool.capacity_eq _ SYSTEM_ORDER_BITS), <- (@SlotId.cap_pow2 _ _ system_slot_capacity).
  apply (SlotId.index_range _ SYSTEM_ORDER_BITS).
Qed.

Lemma put_record_ok s i r : 0 <= i < CAPACITY ->
  put_record s i r = Ok (mkState (idPool_ s) (<[i := r]> (recordMap_ s)) (closed_ s)).
Proof. intros. unfold put_record. by rewrite HugeArray.set_ok. Qed.

Lemma get_record_ok s i : 0 <= i < CAPACITY -> HugeArray.get CAPACITY (recordMap_ s) i = Ok (record s i).
Proof. intros. by rewrite HugeArray.get_ok. Qed.

Lemma gateway_Inv_init : Inv init [].
Proof.
  split.
  - exists [], []. apply (Pool.pool_Inv_init _ SYSTEM_ORDER_BITS).
  - by intros id ?%elem_of_nil.
  - done.
Qed.

Lemma out_nodup s out : Inv s out -> NoDup (map index out).
Proof.
  intros [(local & shared & HP) _ _]. pose proof (Pool.inv_nodup _ _ _ _ _ HP) as Hnd.
  rewrite !map_app in Hnd. apply NoDup_app in Hnd as (_ & _ & Hnd).
  by apply NoDup_app in Hnd as (_ & _ & Hnd).
Qed.

(** Two open orders with the same slot are the same order. *)
Lemma out_index_inj s out id id' : Inv s out -> id ∈ out -> id' ∈ out -> index id = index id' -> id = id'.
Proof.
  intros HI H1 H2 E. destruct HI as [_ Ho _]. destruct (Ho _ H1) as [<- _], (Ho _ H2) as [<- _].
  by rewrite E.
Qed.

Lemma newOrder_ok s out so :
  Inv s out ->
  exists s' , (exists id, newOrder s so = Ok (s', [OutEvent (mkInternalOrderEvent
      (mkInternalOrder id SlotId.invalid (o_quantity (so_order so)) (o_price (so_order so)))
      (o_ticker (so_order so)) (o_action (so_order so)))]) /\
      Inv s' (id :: out) /\ (index id ∉ map index out) /\
      record s' (index id) = mkRecord (o_id (so_order so)) id SlotId.invalid
        (o_ticker (so_order so)) (so_clientId so) RNew /\
      (forall i, i <> index id -> record s' i = record s i)) \/
    (newOrder s so = Ok (s', [reject so]) /\ Inv s' out /\ Z.of_nat (length out) = CAPACITY - 1).
Proof.
  intros HI. pose proof HI as [(local & shared & HP) Ho Hc]. unfold newOrder.
  destruct (Pool.acquire_ok _ SYSTEM_ORDER_BITS _ _ _ _ HP) as (p & id & -> & [Hacq|(-> & Hex & HP')]).
  - pose proof (Pool.acquired_fresh _ _ _ _ Hacq) as (Hv & Hr & Hi & Hni).
    rewrite Hv. cbn [negb]. rewrite put_record_ok by apply index_cap. eexists. left. exists id.
    split; [done|]. split; [|split; [done|split; [apply HugeArray.at_set_eq|]]].
    + split; cbn.
      * exact Hacq.
      * unfold record. cbn. intros id' [->|Hid']%elem_of_cons; [by rewrite HugeArray.at_set_eq|].
        rewrite HugeArray.at_set_ne; [by apply Ho|]. intros E. apply Hni. rewrite E.
        apply list_elem_of_fmap. by exists id'.
      * unfold record. cbn. intros i Hi' [Hne Hnin]%not_elem_of_cons.
        rewrite HugeArray.at_set_ne by done. by apply Hc.
    + intros i Hne. unfold record. cbn. by rewrite HugeArray.at_set_ne.
  - rewrite SlotId.invalid_not_valid. eexists. right. split; [done|]. split; [|done].
    split; [by exists [], []|exact Ho|exact Hc].
Qed.

(** The handlers leave the [closed_] flag alone. *)
Lemma put_record_closed s i r s' : put_record s i r = Ok s' -> closed_ s' = closed_ s.
Proof. unfold put_record. intros H. by destruct_res. Qed.

Lemma newOrder_closed s so s' outs : newOrder s so = Ok (s', outs) -> closed_ s' = closed_ s.
Proof.
  unfold newOrder. destruct (Pool.acquire _ _) as [[p id]|]; [|done].
  destruct (negb _); intros H; destruct_res; [done|]. by apply put_record_closed in Hr.
Qed.

Lemma postStatus_closed s st s' outs : postStatus s st = Ok (s', outs) -> closed_ s' = closed_ s.
Proof.
  unfold postStatus, closeRecord. destruct (closed_ s) eqn:E; [intros H; destruct_res; congruence|].
  destruct (HugeArray.get _ _ _) as [r|]; [|done].
  destruct (ios_state st); intros H; destruct_res; rewrite <- E;
    repeat match goal with H : put_record _ _ _ = _ |- _ => apply put_record_closed in H end; done.
Qed.

(** A refused order leaves the records alone. *)
Lemma newOrder_reject_record s so s' :
  newOrder s so = Ok (s', [reject so]) -> forall i, record s' i = record s i.
Proof.
  unfold newOrder. destruct (Pool.acquire _ _) as [[p id]|]; [|done].
  destruct (negb _); intros H; by destruct_res.
Qed.

(** A status for an open order: final ones close exactly that record. *)
Definition is_final (st : OrderState) : bool :=
  match st with Cancelled | Rejected | Full => true | _ => false end.

Lemma postStatus_ok s out1 id out2 st :
  Inv s (out1 ++ id :: out2) -> closed_ s = false -> ios_id st = id ->
  exists s', postStatus s st = Ok (s', [OutStatus (mkServerOrderStatus
      (r_clientId (record s (index id))) (mkOrderStatus (r_externalOId (record s (index id))) id
        (ios_fillQty st) (ios_fillPrice st) (ios_state st)))]) /\
    Inv s' (if is_final (ios_state st) then out1 ++ out2 else out1 ++ id :: out2) /\
    (forall i, i <> index id -> record s' i = record s i) /\
    r_state (record s' (index id)) = (if is_final (ios_state st) then RClosed else RAccepted) /\
    (is_final (ios_state st) = false -> r_bookOId (record s' (index id)) = ios_bookOId st) /\
    r_clientId (record s' (index id)) = r_clientId (record s (index id)) /\
    r_externalOId (record s' (index id)) = r_externalOId (record s (index id)).
Proof.
  intros HI Hcl Eid. pose proof HI as [(local & shared & HP) Ho Hc].
  pose proof (out_nodup _ _ HI) as Hnd.
  assert (Hin : id ∈ out1 ++ id :: out2) by (rewrite elem_of_app; right; left).
  destruct (Ho id Hin) as [Esys Hst].
  unfold postStatus. rewrite Hcl, Eid, get_record_ok, Esys by apply index_cap. cbn [SlotId.raw].
  assert (Hother : forall r i, i <> index id ->
    HugeArray.at_ (<[index id := r]> (recordMap_ s)) i = record s i)
    by (intros; by rewrite HugeArray.at_set_ne).
  assert (Hopen : forall r id', id' ∈ out1 ++ out2 ->
     HugeArray.at_ (<[index id := r]> (recordMap_ s)) (index id') = record s (index id')).
  { intros r id' Hid'. apply Hother. intros E. rewrite map_app in Hnd. cbn in Hnd.
    rewrite <- Permutation_middle in Hnd. apply NoDup_cons in Hnd as [Hni _]. apply Hni.
    rewrite <- map_app, <- E. apply list_elem_of_fmap. by exists id'. }
  assert (Hsub : forall id', id' ∈ out1 ++ out2 -> id' ∈ out1 ++ id :: out2)
    by (intros id'; rewrite !elem_of_app, elem_of_cons; tauto).
  assert (Hfin : exists s', closeRecord s (index id) (record s (index id)) = Ok s' /\
    Inv s' (out1 ++ out2) /\ recordMap_ s' = <[index id := setState (record s (index id)) RClosed]> (recordMap_ s)).
  { unfold closeRecord. rewrite put_record_ok by apply index_cap. cbn [idPool_ recordMap_ closed_].
    destruct (Pool.release_ok _ SYSTEM_ORDER_BITS (idPool_ s) local shared id (out1 ++ out2))
      as (p & E & HP'). { eapply Pool.Inv_out_perm; [|exact HP]. symmetry. apply Permutation_middle. }
    rewrite Esys, E. eexists. split; [done|]. split; [|done]. split; [by eauto| |].
    - intros id' Hid'. unfold record at 1 3. cbn. rewrite Hopen by done. apply Ho. auto.
    - intros i Hi Hni. unfold record. cbn. destruct (decide (i = index id)) as [->|Hne].
      + by rewrite HugeArray.at_set_eq.
      + rewrite Hother by done. apply Hc; [done|]. rewrite map_app in *. cbn.
        rewrite elem_of_app, elem_of_cons. rewrite elem_of_app in Hni. tauto. }
  assert (Hacc : Inv (mkState (idPool_ s) (<[index id := mkRecord (r_externalOId (record s (index id)))
      id (ios_bookOId st) (r_ticker (record s (index id)))
      (r_clientId (record s (index id))) RAccepted]> (recordMap_ s)) (closed_ s)) (out1 ++ id :: out2)).
  { split; cbn; [by eauto| |].
    - intros id' Hid'. unfold record. cbn. destruct (decide (index id' = index id)) as [E|Hne].
      + rewrite E, HugeArray.at_set_eq. cbn. split; [|done]. by apply (out_index_inj s (out1 ++ id :: out2)).
      + rewrite Hother by done. by apply Ho.
    - intros i Hi Hni. unfold record. cbn. rewrite Hother; [by apply Hc|]. intros ->. apply Hni.
      apply list_elem_of_fmap. by exists id. }
  destruct (is_final (ios_state st)) eqn:Ef.
  - destruct Hfin as (s' & E & HI' & Em). exists s'.
    split; [destruct (ios_state st); try done; by rewrite E|]. split; [done|].
    unfold record. rewrite Em. split; [intros; by apply Hother|]. by rewrite HugeArray.at_set_eq.
  - eexists. split; [destruct (ios_state st); try done; by rewrite put_record_ok by apply index_cap|].
    split; [exact Hacc|]. unfold record. cbn. split; [intros; by apply Hother|].
    by rewrite HugeArray.at_set_eq.
Qed.

(** ** Runs of the gateway *)

(** An open order: its system id, the client and the client's order id. *)
Record Open := mkOpen { op_id : Z; op_client : Z; op_external : Z }.

(** The record of an open order names its client. *)
Definition owned (s : State) (op : Open) : Prop :=
  r_clientId (record s (index (op_id op))) = op_client op /\
  r_externalOId (record s (index (op_id op))) = op_external op.

Definition opened (so : ServerOrder) (outs : list Out) : list Open :=
  match o_action (so_order so), outs with
  | Cancel, _ => []
  | _, [OutEvent e] => [mkOpen (io_id (ioe_order e)) (so_clientId so) (o_id (so_order so))]
  | _, _ => []
  end.

(** Orders of clients and statuses for open orders, in any order. *)
Inductive Reach : State -> list Open -> Prop :=
| reach_init : Reach init []
| reach_order s opens so s' outs :
    Reach s opens -> postOrder s so = Ok (s', outs) -> Reach s' (opened so outs ++ opens)
| reach_status s o1 op o2 st s' outs :
    Reach s (o1 ++ op :: o2) -> ios_id st = op_id op -> postStatus s st = Ok (s', outs) ->
    Reach s' (if is_final (ios_state st) then o1 ++ o2 else o1 ++ op :: o2).

Lemma cancelOrder_same s so s' outs : cancelOrder s so = Ok (s', outs) -> s' = s.
Proof.
  unfold cancelOrder. destruct (HugeArray.get _ _ _) as [r|]; [|done].
  destruct (_ || _)%bool; intros H; by destruct_res.
Qed.

(** What a cancel request is forwarded as. *)
Lemma cancelOrder_outs s so s' outs :
  cancelOrder s so = Ok (s', outs) ->
  outs = [] \/ exists e, outs = [OutEvent e] /\ ioe_action e = o_action (so_order so) /\
    ioe_ticker e = o_ticker (so_order so) /\ io_id (ioe_order e) = o_id (so_order so).
Proof.
  unfold cancelOrder. destruct (HugeArray.get _ _ _) as [r|]; [|done].
  destruct (_ || _)%bool; intros H; destruct_res; [by left|right]. by eexists.
Qed.

Lemma postOrder_new s so :
  closed_ s = false -> isValid so = true ->
  (o_action (so_order so) = Buy \/ o_action (so_order so) = Sell) -> postOrder s so = newOrder s so.
Proof. intros Hc Hv Ha. unfold postOrder. rewrite Hc, Hv. by destruct Ha as [-> | ->]. Qed.

(** Everything but an accepted buy or sell leaves the gateway as it is. *)
Lemma postOrder_cases s so s' outs :
  postOrder s so = Ok (s', outs) ->
  (s' = s /\ opened so outs = []) \/
  (newOrder s so = Ok (s', outs) /\ (o_action (so_order so) = Buy \/ o_action (so_order so) = Sell)).
Proof.
  unfold postOrder. intros H. destruct (closed_ s).
  { left. destruct_res. split; [done|]. unfold opened. by destruct (o_action _). }
  destruct (isValid so); cbn [negb] in H.
  2: { left. destruct_res. split; [done|]. unfold opened. by destruct (o_action _). }
  unfold opened. destruct (o_action (so_order so)) eqn:Ea.
  - left. by destruct_res.
  - right. auto.
  - right. auto.
  - left. by destruct_res.
  - left. split; [by eapply cancelOrder_same|done].
Qed.

Lemma owned_other s s' op i :
  index (op_id op) <> i -> (forall j, j <> i -> record s' j = record s j) -> owned s op -> owned s' op.
Proof. intros Hne H Ho. unfold owned. by rewrite H. Qed.

Lemma gateway_Reach_Inv s opens :
  Reach s opens ->
  Inv s (map op_id opens) /\ closed_ s = false /\ (forall op, op ∈ opens -> owned s op).
Proof.
  induction 1 as [|s opens so s' outs _ (HI & Hcl & Hown) E|s o1 op o2 st s' outs _ (HI & Hcl & Hown) Eid E].
  - split; [apply gateway_Inv_init|]. split; [done|]. by intros op ?%elem_of_nil.
  - destruct (postOrder_cases _ _ _ _ E) as [[-> ->]|[En Ha]]; [done|].
    apply newOrder_closed in En as Hcl'. rewrite Hcl in Hcl'.
    destruct (newOrder_ok s _ so HI) as (s1 & [(id & E1 & HI' & Hni & Hrec & Hoth)|(E1 & HI' & _)]);
      rewrite En in E1; injection E1 as <- ->.
    + assert (Eop : forall e, opened so [OutEvent e] =
        [mkOpen (io_id (ioe_order e)) (so_clientId so) (o_id (so_order so))])
        by (intros e; unfold opened; by destruct Ha as [-> | ->]).
      rewrite Eop. cbn [app ioe_order io_id]. split; [exact HI'|]. split; [done|].
      intros op [->|Hop]%elem_of_cons; [unfold owned; cbn; by rewrite Hrec|].
      eapply owned_other; [|exact Hoth|auto]. intros Eq. apply Hni. rewrite <- Eq.
      apply list_elem_of_fmap. exists (op_id op). split; [done|]. apply list_elem_of_fmap. eauto.
    + assert (Eop : opened so [reject so] = []) by (unfold opened, reject; by destruct Ha as [-> | ->]).
      rewrite Eop. cbn [app]. split; [done|]. split; [done|]. intros op Hop.
      unfold newOrder in En. destruct (Pool.acquire _ _) as [[p id]|]; [|done].
      destruct (negb _); destruct_res. by apply Hown.
  - apply postStatus_closed in E as Hcl'. rewrite Hcl in Hcl'. rewrite map_app in HI. cbn in HI.
    destruct (postStatus_ok s _ _ _ st HI Hcl Eid) as (s1 & E1 & HI' & Hoth & _ & _ & Hc & Hx).
    rewrite E in E1. injection E1 as <- ->. pose proof (out_nodup _ _ HI) as Hnd.
    assert (Hown' : forall op', op' ∈ o1 ++ op :: o2 -> owned s' op').
    { intros op' Hop'. destruct (decide (index (op_id op') = index (op_id op))) as [Eq|Hne].
      - pose proof (Hown _ Hop') as [H1 H2]. unfold owned. rewrite Eq in *. by rewrite Hc, Hx.
      - eapply owned_other; eauto. }
    destruct (is_final (ios_state st)); rewrite map_app in *; (split; [exact HI'|]); (split; [done|]); [|done].
    intros op' Hop'. apply Hown'. rewrite elem_of_app, elem_of_cons. apply elem_of_app in Hop'. tauto.
Qed.

Lemma postOrder_total s opens so : Reach s opens -> exists s' outs, postOrder s so = Ok (s', outs).
Proof.
  intros HR. destruct (gateway_Reach_Inv _ _ HR) as (HI & Hcl & _).
  unfold postOrder. rewrite Hcl. destruct (isValid so); cbn [negb]; [|eauto].
  destruct (newOrder_ok s _ so HI) as (s1 & [(id & E1 & _)|(E1 & _)]);
    unfold cancelOrder; rewrite get_record_ok by apply index_cap;
    destruct (o_action (so_order so)); try (by eauto); destruct (_ || _)%bool; eauto.
Qed.

(** C13: replies find their client.  In every run of the gateway (client
    orders, and statuses for open orders) the handlers never fault, open
    orders occupy distinct slots, and a status for an open order is sent to
    the client that placed it, with that client's order id and the system
    id of the order; a final status closes the order, and its identifier
    alone goes back to the pool. *)
Theorem gateway_replies_to_owner s opens :
  Reach s opens ->
  NoDup (map (fun op => index (op_id op)) opens) /\
  (forall so, exists s' outs, postOrder s so = Ok (s', outs)) /\
  (forall o1 op o2 st, opens = o1 ++ op :: o2 -> ios_id st = op_id op ->
     exists s', postStatus s st = Ok (s', [OutStatus (mkServerOrderStatus (op_client op)
         (mkOrderStatus (op_external op) (op_id op) (ios_fillQty st) (ios_fillPrice st) (ios_state st)))]) /\
       Reach s' (if is_final (ios_state st) then o1 ++ o2 else opens) /\
       (is_final (ios_state st) = true -> r_state (record s' (index (op_id op))) = RClosed)).
Proof.
  intros HR. destruct (gateway_Reach_Inv _ _ HR) as (HI & Hcl & Hown). split; [|split].
  - pose proof (out_nodup _ _ HI) as Hnd. by rewrite map_map in Hnd.
  - intros so. by apply (postOrder_total s opens).
  - intros o1 op o2 st -> Eid. rewrite map_app in HI. cbn in HI.
    destruct (postStatus_ok s _ _ _ st HI Hcl Eid) as (s' & E & HI' & Hoth & Hst & _).
    exists s'. destruct (Hown op) as [H1 H2]; [rewrite elem_of_app; right; left|].
    split; [rewrite E; by rewrite H1, H2|]. split; [by eapply reach_status|].
    intros Hf. by rewrite Hf in Hst.
Qed.

(** C14: a cancel request reaches a book only for an open order of the
    requesting client: the gateway forwards it exactly when the record of
    the named slot is accepted, belongs to that client and carries that very
    identifier (slot and generation), and then with the book id of the
    record; it never changes the gateway's state. *)
Theorem gateway_cancel_needs_ownership s opens so s' outs :
  Reach s opens -> o_action (so_order so) = Cancel -> postOrder s so = Ok (s', outs) ->
  s' = s /\
  (forall e, outs = [OutEvent e] ->
     exists op, op ∈ opens /\ op_id op = o_id (so_order so) /\ op_client op = so_clientId so /\
       r_state (record s (index (op_id op))) = RAccepted /\
       ioe_order e = mkInternalOrder (op_id op) (r_bookOId (record s (index (op_id op))))
                       (o_quantity (so_order so)) (o_price (so_order so))).
Proof.
  intros HR Ha E. destruct (gateway_Reach_Inv _ _ HR) as (HI & Hcl & Hown).
  unfold postOrder in E. rewrite Hcl, Ha in E. destruct (isValid so); cbn [negb] in E.
  2: { destruct_res. split; [done|]. intros e He. discriminate He. }
  split; [by eapply cancelOrder_same|]. intros e ->. unfold cancelOrder in E.
  rewrite get_record_ok in E by apply index_cap. unfold SlotId.raw in E.
  case_bool_decide as Hst; [|by cbn in E]. cbn [negb orb] in E.
  destruct (Z.eqb_spec (so_clientId so) (r_clientId (record s (index (o_id (so_order so)))))) as [Hc|];
    [|by cbn in E]. cbn [negb orb] in E.
  destruct (Z.eqb_spec (o_id (so_order so)) (r_systemOId (record s (index (o_id (so_order so)))))) as [Hid|];
    [|by cbn in E]. injection E as <- <-.
  destruct (decide (index (o_id (so_order so)) ∈ map index (map op_id opens))) as [Hin|Hni].
  2: { exfalso. by apply (gw_closed _ _ HI _ (index_cap _) Hni). }
  rewrite map_map in Hin. apply list_elem_of_fmap in Hin as (op & Ei & Hop). exists op.
  assert (Eop : op_id op = o_id (so_order so)).
  { destruct (gw_open _ _ HI (op_id op)) as [Hsys _]; [apply list_elem_of_fmap; eauto|].
    rewrite Hid, Ei. done. }
  destruct (Hown op Hop) as [Hcl' _]. rewrite Eop in *. repeat split; try done. by rewrite <- Hcl', <- Hc.
Qed.

(** The generation of the system id is not checked on the way back: a
    status that names an older use of a slot is sent to the client whose
    order occupies the slot now, under that order's identifiers, and a final
    one closes that order. *)
Theorem stale_status_hits_current_order s opens op st :
  Reach s opens -> op ∈ opens -> index (ios_id st) = index (op_id op) ->
  is_final (ios_state st) = true ->
  exists s', postStatus s st = Ok (s', [OutStatus (mkServerOrderStatus (op_client op)
      (mkOrderStatus (op_external op) (op_id op) (ios_fillQty st) (ios_fillPrice st) (ios_state st)))]) /\
    r_state (record s' (index (op_id op))) = RClosed.
Proof.
  intros HR Hop Ei Hf. destruct (gateway_Reach_Inv _ _ HR) as (HI & Hcl & Hown).
  destruct (list_elem_of_split _ _ Hop) as (o1 & o2 & ->). rewrite map_app in HI. cbn in HI.
  set (st' := mkInternalOrderStatus (op_id op) (ios_bookOId st) (ios_fillQty st) (ios_fillPrice st) (ios_state st)).
  assert (Est : postStatus s st = postStatus s st') by (unfold postStatus; by rewrite Ei).
  destruct (postStatus_ok s _ _ _ st' HI Hcl eq_refl) as (s' & E & _ & _ & Hst & _).
  destruct (Hown op Hop) as [H1 H2]. exists s'. split; [rewrite Est, E; by rewrite H1, H2|].
  cbn in Hst. by rewrite Hf in Hst.
Qed.
End Inv.

Section Concrete.
#[local] Existing Instance build_cicd.

Definition sell_5 : ServerOrder := mkServerOrder 4 (mkOrder 88 (replicate 4 Ascii.zero) 10 5 Sell).

(** Some open order of client 4. *)
Lemma one_open : exists s id, Reach s [mkOpen id 4 88].
Proof.
  destruct (newOrder_ok init [] sell_5 gateway_Inv_init) as (s & [(id & E & _)|(_ & _ & Hlen)]).
  - exists s, id. exact (reach_order init [] sell_5 s _ reach_init E).
  - exfalso. vm_compute in Hlen. discriminate.
Qed.

Lemma gateway_replies_to_owner_witness :
  exists s id s', postStatus s (mkInternalOrderStatus id 1 0 5 Accepted) =
    Ok (s', [OutStatus (mkServerOrderStatus 4 (mkOrderStatus 88 id 0 5 Accepted))]).
Proof.
  destruct one_open as (s & id & HR). exists s, id.
  destruct (gateway_replies_to_owner s _ HR) as (_ & _ & H).
  destruct (H [] (mkOpen id 4 88) [] (mkInternalOrderStatus id 1 0 5 Accepted) eq_refl eq_refl)
    as (s' & E & _). exists s'. exact E.
Defined.

(** A cancel of client 9 for an order of client 4 goes nowhere. *)
Lemma gateway_cancel_needs_ownership_witness :
  exists s id s' outs,
    postOrder s (mkServerOrder 9 (mkOrder id (replicate 4 Ascii.zero) 10 5 Cancel)) = Ok (s', outs) /\ s' = s.
Proof.
  destruct one_open as (s & id & HR). exists s, id.
  destruct (postOrder_total s _ (mkServerOrder 9 (mkOrder id (replicate 4 Ascii.zero) 10 5 Cancel)) HR) as (s' & outs & E).
  exists s', outs. split; [exact E|].
  exact (proj1 (gateway_cancel_needs_ownership s _ (mkServerOrder 9 (mkOrder id (replicate 4 Ascii.zero) 10 5 Cancel)) s' outs HR eq_refl E)).
Defined.

Lemma stale_status_hits_current_order_witness :
  exists s id s', postStatus s (mkInternalOrderStatus id 1 0 0 Rejected) =
    Ok (s', [OutStatus (mkServerOrderStatus 4 (mkOrderStatus 88 id 0 0 Rejected))]).
Proof.
  destruct one_open as (s & id & HR). exists s, id.
  destruct (stale_status_hits_current_order s _ (mkOpen id 4 88)
    (mkInternalOrderStatus id 1 0 0 Rejected) HR ltac:(left) eq_refl eq_refl) as (s' & E & _).
  exists s'. exact E.
Defined.
End Concrete.
End Gateway.
