(* ===== verification/Coordinator.v ===== *)
(** * Market data, worker assignment and order routing

    Models [TickerData]/[MarketData] (server/src/execution/market_data.hpp),
    [Storage::loadMarketData] (server/src/storage/storage.hpp), which
    spreads the tickers over the matching workers, and [Coordinator]
    (server/src/execution/coordinator.hpp), which routes each order event to
    the worker of its ticker.  A worker's queue is a list of at most
    [LFQ_CAPACITY] events, oldest first (see [SequencedSPSC.v] for the queue
    itself and [LfqRunner.v] for the accesses of [post]); the boost hash map
    is a finite map from ticker to data. *)

From stdpp Require Import pretty.
From S2P Require Import Prelude SlotId HugeArray Types PriceLevelBook.

Module Market.
Section Market.
Context `{B : Build}.

Record TickerData := mkTickerData { workerId : Z; orderBook : Book.State }.

Abbreviation MarketData := (gmap Ticker TickerData).

(** [data.emplace(ticker, idx)]: an existing key is kept. *)
Definition emplace (data : MarketData) (t : Ticker) (idx : Z) : MarketData :=
  match data !! t with
  | Some _ => data
  | None => <[t := mkTickerData idx Book.init]> data
  end.

(** [for (i = 0; i < currWorkerTickers && iter != end; ++i, ++iter)] *)
Fixpoint load_worker (data : MarketData) (idx : Z) (n : nat) (iter : list TickerPrice)
    : MarketData * list TickerPrice :=
  match n, iter with
  | S n, tp :: iter => load_worker (emplace data (tp_ticker tp) idx) idx n iter
  | _, _ => (data, iter)
  end.

(** [for (idx = 0; idx < workerCount; ++idx)]: [k] workers are left. *)
Fixpoint load_workers (data : MarketData) (perWorker leftOver : Z) (k : nat) (idx : Z)
    (iter : list TickerPrice) : MarketData :=
  match k with
  | O => data
  | S k =>
      let currWorkerTickers := perWorker + (if idx <? leftOver then 1 else 0) in
      let '(data, iter) := load_worker data idx (Z.to_nat currWorkerTickers) iter in
      load_workers data perWorker leftOver k (u16 (idx + 1)) iter
  end.

Definition workerCount (coresApp : list Z) : Z :=
  if Z.of_nat (length coresApp) =? 0 then 1 else u16 (Z.of_nat (length coresApp)).

(** [result] is what [dbAdapter_.readTickers()] returned. *)
Definition loadMarketData (result : list TickerPrice + StatusCode) (coresApp : list Z)
    : res MarketData :=
  match result with
  | inr code => Err (Throw (toString_StatusCode code))
  | inl prices =>
      let wc := workerCount coresApp in
      let n := Z.of_nat (length prices) in
      Ok (load_workers ∅ (n / wc) (n mod wc) (Z.to_nat wc) 0 prices)
  end.

(** ** Posting to the queue of an [LfqRunner] *)

(** The default [Capacity]. *)
Definition LFQ_CAPACITY : Z := 65536.

Definition lfq_error (name : string) : InternalError :=
  mkInternalError SError ("Failed to post to LfqRunner " +:+ name).

(** [LfqRunner::post] of the thread that feeds the queue, as one step: a stop
    request drops the message; a queue that stays full while the waiter spins
    drops it with an error on the system bus. *)
Definition lfqPost {A} (stopped : bool) (name : string) (q : list A) (message : A) : list A * list InternalError :=
  if stopped then (q, [])
  else if Z.of_nat (length q) <? LFQ_CAPACITY then (q ++ [message], [])
  else (q, [lfq_error name]).

Lemma lfqPost_cases {A} name (q : list A) x :
  lfqPost false name q x = (q ++ [x], []) \/ lfqPost false name q x = (q, [lfq_error name]).
Proof. unfold lfqPost. destruct (_ <? _); auto. Qed.

Lemma lfqPost_room {A} name (q : list A) x :
  Z.of_nat (length q) < LFQ_CAPACITY -> lfqPost false name q x = (q ++ [x], []).
Proof. intros H. unfold lfqPost. by rewrite (proj2 (Z.ltb_lt _ _) H). Qed.

(** ** The coordinator *)

Record Coord := mkCoord {
  started_ : bool;
  stopped_ : bool;
  data_ : MarketData;
  workers_ : list (list InternalOrderEvent);
  names_ : list string;
  readyCount_ : Z
}.

Definition set_workers (c : Coord) w : Coord :=
  mkCoord (started_ c) (stopped_ c) (data_ c) w (names_ c) (readyCount_ c).

Definition coord_init (data : MarketData) : Coord := mkCoord false false data [] [] 0.

(** [startWorkers]: one worker without cores, else one per core. *)
Definition appCores (coresApp : list Z) : Z :=
  if bool_decide (coresApp = []) then 1 else Z.of_nat (length coresApp).

Definition workerNames (coresApp : list Z) : list string :=
  if bool_decide (coresApp = []) then ["worker zero"]
  else imap (fun i _ => "worker " +:+ pretty (N.of_nat i)) coresApp.

Definition startWorkers (c : Coord) (coresApp : list Z) : Coord :=
  if started_ c then c
  else mkCoord true (stopped_ c) (data_ c)
         (workers_ c ++ replicate (Z.to_nat (appCores coresApp)) [])
         (names_ c ++ workerNames coresApp) (readyCount_ c).

(** [readyClb], run by each worker thread when it starts: the flag says
    whether [ComponentReady{Coordinator}] is posted. *)
Definition readyClb (c : Coord) (coresApp : list Z) : Coord * bool :=
  (mkCoord (started_ c) (stopped_ c) (data_ c) (workers_ c) (names_ c) (u32 (readyCount_ c + 1)),
   u32 (readyCount_ c + 1) =? appCores coresApp).

(** [post], on the network thread: to the runner of the ticker's worker, and
    what that runner posts to the system bus. *)
Definition post (c : Coord) (ioe : InternalOrderEvent) : res (Coord * list InternalError) :=
  if stopped_ c then Ok (c, [])
  else
    match data_ c !! ioe_ticker ioe with
    | None => Ok (c, [])
    | Some td =>
        let w := Z.to_nat (workerId td) in
        match workers_ c !! w with
        | None => Err OutOfBounds
        | Some q =>
            let '(q, errs) := lfqPost (stopped_ c) (default "" (names_ c !! w)) q ioe in
            Ok (set_workers c (<[w := q]> (workers_ c)), errs)
        end
    end.

(** [Matcher::post], on the thread of worker [w]: take the oldest event and
    add it to the book it was routed to. *)
Definition matcher_step (c : Coord) (w : nat) : res (Coord * list Book.Msg) :=
  match workers_ c !! w with
  | Some (ioe :: q) =>
      match data_ c !! ioe_ticker ioe with
      | None => Err NullDeref
      | Some td =>
          let! (b, msgs, _) := Book.add (orderBook td) ioe in
          Ok (mkCoord (started_ c) (stopped_ c)
                (<[ioe_ticker ioe := mkTickerData (workerId td) b]> (data_ c))
                (<[w := q]> (workers_ c)) (names_ c) (readyCount_ c), msgs)
      end
  | _ => Ok (c, [])
  end.

(** ** Facts *)

(** The ticker-to-worker assignment the loops make, in order. *)
Fixpoint assign (perWorker leftOver : Z) (k : nat) (idx : Z) (iter : list TickerPrice)
    : list (TickerPrice * Z) :=
  match k with
  | O => []
  | S k =>
      let n := Z.to_nat (perWorker + (if idx <? leftOver then 1 else 0)) in
      map (fun tp => (tp, idx)) (take n iter) ++ assign perWorker leftOver k (idx + 1) (drop n iter)
  end.

Definition emplace_all (data : MarketData) (l : list (TickerPrice * Z)) : MarketData :=
  foldl (fun d x => emplace d (tp_ticker x.1) x.2) data l.

Lemma load_worker_eq data idx n iter :
  load_worker data idx n iter =
    (emplace_all data (map (fun tp => (tp, idx)) (take n iter)), drop n iter).
Proof.
  revert data iter. induction n as [|n IH]; intros data iter; [by destruct iter|].
  destruct iter as [|tp iter]; [done|]. cbn. by rewrite IH.
Qed.

Lemma emplace_all_app data l1 l2 : emplace_all data (l1 ++ l2) = emplace_all (emplace_all data l1) l2.
Proof. unfold emplace_all. apply foldl_app. Qed.

Lemma load_workers_eq data perWorker leftOver k idx iter :
  0 <= idx -> idx + Z.of_nat k < 2 ^ 16 ->
  load_workers data perWorker leftOver k idx iter =
    emplace_all data (assign perWorker leftOver k idx iter).
Proof.
  revert data idx iter. induction k as [|k IH]; intros data idx iter H0 Hk; [done|].
  cbn [load_workers assign]. rewrite load_worker_eq. unfold u16. rewrite Z.mod_small by lia.
  rewrite IH by lia. by rewrite emplace_all_app.
Qed.

(** Every ticker is assigned, in order. *)
Lemma assign_covers perWorker leftOver k idx iter :
  0 <= perWorker -> 0 <= idx ->
  Z.of_nat (length iter) <=
    perWorker * Z.of_nat k + Z.max 0 (Z.min (leftOver - idx) (Z.of_nat k)) ->
  map fst (assign perWorker leftOver k idx iter) = iter.
Proof.
  revert idx iter. induction k as [|k IH]; intros idx iter Hp Hi Hlen.
  { destruct iter; [done|]. cbn in Hlen. lia. }
  cbn [assign]. rewrite map_app, map_map. cbn [fst].
  rewrite IH; [by rewrite map_id, take_drop|done|lia|].
  rewrite length_drop. destruct (Z.ltb_spec idx leftOver); lia.
Qed.

Lemma assign_range perWorker leftOver k idx iter x :
  x ∈ assign perWorker leftOver k idx iter -> idx <= x.2 < idx + Z.of_nat k.
Proof.
  revert idx iter. induction k as [|k IH]; intros idx iter; cbn [assign]; [by intros ?%elem_of_nil|].
  intros [(tp & -> & _)%list_elem_of_fmap|H%IH]%elem_of_app; cbn; lia.
Qed.

Definition count_for (w : Z) (l : list (TickerPrice * Z)) : Z :=
  Z.of_nat (length (filter (fun x => x.2 = w) l)).

Lemma count_for_app w l1 l2 : count_for w (l1 ++ l2) = count_for w l1 + count_for w l2.
Proof. unfold count_for. rewrite filter_app, length_app. lia. Qed.

Lemma count_for_same w (l : list TickerPrice) :
  count_for w (map (fun tp => (tp, w)) l) = Z.of_nat (length l).
Proof.
  induction l as [|tp l IH]; [done|]. unfold count_for in *. cbn [map fmap list_fmap].
  rewrite filter_cons_True by done. cbn [length]. unfold fmap in IH. lia.
Qed.

Lemma count_for_none w (l : list (TickerPrice * Z)) : (forall x, x ∈ l -> x.2 <> w) -> count_for w l = 0.
Proof.
  intros H. unfold count_for. induction l as [|x l IH]; [done|].
  rewrite filter_cons_False by (apply H; left). apply IH. intros y Hy. apply H. by right.
Qed.

(** A worker gets its share as long as there are tickers for it. *)
Lemma assign_share perWorker leftOver k idx iter w :
  0 <= perWorker -> 0 <= idx <= w -> w < idx + Z.of_nat k ->
  perWorker * Z.of_nat k + Z.max 0 (Z.min (leftOver - idx) (Z.of_nat k)) = Z.of_nat (length iter) ->
  count_for w (assign perWorker leftOver k idx iter) = perWorker + (if w <? leftOver then 1 else 0).
Proof.
  revert idx iter. induction k as [|k IH]; intros idx iter Hp Hi Hw Hlen; [lia|].
  cbn [assign]. rewrite count_for_app. set (n := Z.to_nat _).
  assert (Hn : Z.of_nat n = perWorker + (if idx <? leftOver then 1 else 0)) by (destruct (idx <? leftOver); lia).
  assert (Hle : (n <= length iter)%nat) by (destruct (Z.ltb_spec idx leftOver); nia).
  destruct (Z.eq_dec w idx) as [->|Hne].
  - rewrite count_for_same, length_take, Nat.min_l by lia.
    rewrite count_for_none; [lia|]. intros x Hx%assign_range. lia.
  - rewrite count_for_none.
    2: { intros x (tp & -> & _)%list_elem_of_fmap. cbn. lia. }
    rewrite IH; try lia. rewrite length_drop. destruct (Z.ltb_spec idx leftOver); nia.
Qed.

Lemma emplace_all_lookup data l t td :
  emplace_all data l !! t = Some td ->
  data !! t = Some td \/ exists x, x ∈ l /\ tp_ticker x.1 = t /\ td = mkTickerData x.2 Book.init.
Proof.
  revert data. induction l as [|x l IH]; intros data; [by left|]. cbn. intros [H|H]%IH.
  - unfold emplace in H. destruct (data !! tp_ticker x.1) eqn:E; [by left|].
    destruct (decide (tp_ticker x.1 = t)) as [<-|Hne].
    + rewrite lookup_insert_eq in H. injection H as <-. right. exists x. split; [left|done].
    + rewrite lookup_insert_ne in H by done. by left.
  - right. destruct H as (y & Hy & ?). exists y. split; [by right|done].
Qed.

Lemma emplace_mono data t idx t' : is_Some (data !! t') -> is_Some (emplace data t idx !! t').
Proof.
  intros H. unfold emplace. destruct (data !! t) eqn:E; [done|].
  destruct (decide (t = t')) as [->|]; [by rewrite E in H; destruct H|]. by rewrite lookup_insert_ne.
Qed.

Lemma emplace_all_mono data l t : is_Some (data !! t) -> is_Some (emplace_all data l !! t).
Proof. revert data. induction l as [|x l IH]; intros data H; [done|]. cbn. by apply IH, emplace_mono. Qed.

Lemma emplace_all_in data l x : x ∈ l -> is_Some (emplace_all data l !! tp_ticker x.1).
Proof.
  revert data. induction l as [|y l IH]; intros data; [by intros ?%elem_of_nil|].
  intros [->|Hx]%elem_of_cons; [|by apply (IH (emplace data (tp_ticker y.1) y.2))].
  cbn. apply emplace_all_mono. unfold emplace.
  destruct (data !! tp_ticker y.1) eqn:E; [done|]. by rewrite lookup_insert_eq.
Qed.

Lemma workerCount_range coresApp :
  Z.of_nat (length coresApp) < 2 ^ 16 ->
  workerCount coresApp = appCores coresApp /\ 1 <= workerCount coresApp < 2 ^ 16.
Proof.
  intros Hlen. unfold workerCount, appCores. destruct coresApp as [|c cs];
    [by vm_compute|].
  rewrite bool_decide_false by done. destruct (Z.eqb_spec (Z.of_nat (length (c :: cs))) 0);
    [cbn [length] in *; lia|].
  unfold u16. rewrite Z.mod_small by lia. cbn [length] in *. lia.
Qed.

Lemma load_facts prices coresApp data :
  Z.of_nat (length coresApp) < 2 ^ 16 -> loadMarketData (inl prices) coresApp = Ok data ->
  exists l, data = emplace_all ∅ l /\ map fst l = prices /\
    (forall x, x ∈ l -> 0 <= x.2 < appCores coresApp) /\
    (forall w, 0 <= w < appCores coresApp ->
       let n := Z.of_nat (length prices) in
       count_for w l = n / appCores coresApp + (if w <? n mod appCores coresApp then 1 else 0)).
Proof.
  intros Hlen E. destruct (workerCount_range coresApp Hlen) as [Ewc Hwc].
  unfold loadMarketData in E. injection E as <-. rewrite Ewc in *.
  set (n := Z.of_nat (length prices)). set (wc := appCores coresApp) in *.
  pose proof (Z.div_mod n wc ltac:(lia)) as Hdm. pose proof (Z.mod_pos_bound n wc ltac:(lia)).
  assert (0 <= n / wc) by (apply Z.div_pos; lia).
  exists (assign (n / wc) (n mod wc) (Z.to_nat wc) 0 prices). split; [|split; [|split]].
  - apply load_workers_eq; lia.
  - apply assign_covers; lia.
  - intros x Hx%assign_range. lia.
  - intros w Hw. cbn zeta. apply assign_share; lia.
Qed.

(** C17: loading the market data gives every ticker a book and a worker that
    exists, and spreads the tickers evenly: each worker gets the quotient,
    the first ones one ticker more. *)
Theorem load_market_data_balanced prices coresApp data :
  Z.of_nat (length coresApp) < 2 ^ 16 -> loadMarketData (inl prices) coresApp = Ok data ->
  (forall tp, tp ∈ prices -> exists td, data !! tp_ticker tp = Some td /\
     0 <= workerId td < appCores coresApp /\ orderBook td = Book.init) /\
  (exists l, data = emplace_all ∅ l /\ map fst l = prices /\
     forall w, 0 <= w < appCores coresApp ->
       let n := Z.of_nat (length prices) in
       count_for w l = n / appCores coresApp + (if w <? n mod appCores coresApp then 1 else 0)).
Proof.
  intros Hlen E. destruct (load_facts prices coresApp data Hlen E) as (l & -> & Hl & Hr & Hc).
  split; [|eauto]. intros tp Htp. rewrite <- Hl in Htp.
  apply list_elem_of_fmap in Htp as (x & -> & Hx).
  destruct (emplace_all_in ∅ l x Hx) as [td Htd]. exists td. split; [done|].
  apply emplace_all_lookup in Htd as [Htd|(y & Hy & _ & ->)]; [by rewrite lookup_empty in Htd|].
  split; [by apply Hr|done].
Qed.

(** After start-up on the loaded data, routing an event never indexes
    outside the worker table; an event of a known ticker is appended to the
    queue of that ticker's worker and to no other, so the events of one
    ticker reach its book in the order they were posted. *)
Theorem post_routes_to_ticker_worker prices coresApp data c ioe :
  Z.of_nat (length coresApp) < 2 ^ 16 -> loadMarketData (inl prices) coresApp = Ok data ->
  data_ c = data -> workers_ c = [] -> started_ c = false -> stopped_ c = false ->
  ioe_ticker ioe ∈ map tp_ticker prices ->
  let c1 := startWorkers c coresApp in
  exists w c2, post c1 ioe = Ok (c2, []) /\
    (exists td, data !! ioe_ticker ioe = Some td /\ w = Z.to_nat (workerId td)) /\
    workers_ c2 !! w = Some [ioe] /\
    (forall v, v <> w -> workers_ c2 !! v = workers_ c1 !! v) /\
    (forall ioe', ioe_ticker ioe' = ioe_ticker ioe ->
       exists c3, post c2 ioe' = Ok (c3, []) /\ workers_ c3 !! w = Some [ioe; ioe']).
Proof.
  intros Hlen E Hd Hw Hst Hsp Ht. destruct (load_facts prices coresApp data Hlen E) as (l & Hdat & Hl & Hr & _).
  apply list_elem_of_fmap in Ht as (tp & Et & Htp). rewrite <- Hl in Htp.
  apply list_elem_of_fmap in Htp as (x & -> & Hx).
  destruct (emplace_all_in ∅ l x Hx) as [td Htd]. rewrite <- Hdat, <- Et in Htd.
  assert (Hrange : 0 <= workerId td < appCores coresApp).
  { pose proof Htd as Htd'. rewrite Hdat in Htd'.
    apply emplace_all_lookup in Htd' as [H|(y & Hy & _ & ->)]; [by rewrite lookup_empty in H|by apply Hr]. }
  cbn zeta. exists (Z.to_nat (workerId td)). unfold startWorkers, post. rewrite Hst. cbn. rewrite Hsp, Hd, Htd, Hw.
  cbn [app]. rewrite lookup_replicate_2 by lia. eexists. split; [done|]. split; [eauto|].
  assert (Hlt : (Z.to_nat (workerId td) < length (replicate (Z.to_nat (appCores coresApp)) ([] : list InternalOrderEvent)))%nat)
    by (rewrite length_replicate; lia).
  cbn. split; [by rewrite list_lookup_insert_eq|]. split; [intros v Hv; by rewrite list_lookup_insert_ne|].
  intros ioe' E'. rewrite ?Hsp, ?Hd, E', Htd, list_lookup_insert_eq by done. eexists. split; [done|].
  cbn. by rewrite list_lookup_insert_eq by (by rewrite length_insert).
Qed.
End Market.

Section Concrete.
#[local] Existing Instance build_cicd.

Definition AAA : Ticker := makeTicker (String.list_ascii_of_string "AAA").
Definition BBB : Ticker := makeTicker (String.list_ascii_of_string "BBB").
Definition CCC : Ticker := makeTicker (String.list_ascii_of_string "CCC").
Definition three_tickers : list TickerPrice :=
  [mkTickerPrice AAA 10; mkTickerPrice BBB 20; mkTickerPrice CCC 30].
Definition three_data : gmap Ticker TickerData :=
  match loadMarketData (inl three_tickers) [2; 3] with Ok d => d | Err _ => ∅ end.

Lemma load_market_data_balanced_witness :
  exists td, three_data !! CCC = Some td /\ 0 <= workerId td < 2 /\ orderBook td = Book.init.
Proof.
  destruct (load_market_data_balanced three_tickers [2; 3] three_data) as [H _].
  - cbn. lia.
  - reflexivity.
  - exact (H (mkTickerPrice CCC 30) ltac:(right; right; left)).
Defined.

Lemma post_routes_to_ticker_worker_witness :
  exists w c2, post (startWorkers (coord_init three_data) [2; 3])
    (mkInternalOrderEvent (mkInternalOrder 1 0 5 9) CCC Buy) = Ok (c2, []) /\
    workers_ c2 !! w = Some [mkInternalOrderEvent (mkInternalOrder 1 0 5 9) CCC Buy].
Proof.
  destruct (post_routes_to_ticker_worker three_tickers [2; 3] three_data (coord_init three_data)
    (mkInternalOrderEvent (mkInternalOrder 1 0 5 9) CCC Buy)) as (w & c2 & H1 & _ & H2 & _).
  - cbn. lia.
  - reflexivity.
  - reflexivity.
  - reflexivity.
  - reflexivity.
  - reflexivity.
  - right. right. left.
  - exists w, c2. split; [exact H1|exact H2].
Defined.
End Concrete.
End Market.
