(* ===== verification/Server.v ===== *)
(** * The order path of the server

    Composes the gateway, the coordinator and the order books the way the
    server bus connects them (server/src/traits.hpp, the [subscribe] calls of
    [OrderGateway], [Coordinator] and [LfqRunner]): a [ServerOrder] goes to
    the gateway, its [InternalOrderEvent] to the worker of the ticker, the
    worker's [InternalOrderStatus] to the gateway's own queue, and the
    [ServerOrderStatus] to the client.  The queues decouple the network
    thread, the worker and the gateway thread; a run is a sequence of the
    three steps below in any order.  Each queue is made for one producer: the
    network thread feeds the workers' queues, and the worker the gateway's.
    With several workers their threads race in the gateway's queue
    ([Spsc.two_producers_lose_a_message] shows the loss), so a status posted
    then is the fault [DataRace]; the theorems are about the configuration
    with one worker, which is the shipped one (config/server_config.ini) and
    the only one main.cpp accepts over shared memory. *)

From S2P Require Import Prelude SlotId HugeArray Types PriceLevelBook BookSpec BookInv BookRefine.
From S2P Require Import BookMatch BookProps SlotIdPool OrderGateway Coordinator.

Module Server.
Section Server.
Context `{B : Build}.

(** What leaves the order path: replies to clients, errors on the system bus. *)
Inductive Sent :=
| ToClient (s : ServerOrderStatus)
| ToSystemBus (e : InternalError).

Record State := mkState {
  gateway : Gateway.State;
  coord : Market.Coord;
  statusQueue : list InternalOrderStatus
}.

Definition init (data : gmap Ticker Market.TickerData) (coresApp : list Z) : State :=
  mkState Gateway.init (Market.startWorkers (Market.coord_init data) coresApp) [].

(** The bus delivers what the gateway posts, in order. *)
Fixpoint route (s : State) (outs : list Gateway.Out) : res (State * list Sent) :=
  match outs with
  | [] => Ok (s, [])
  | Gateway.OutStatus st :: outs =>
      let! (s, sent) := route s outs in Ok (s, ToClient st :: sent)
  | Gateway.OutEvent e :: outs =>
      let! (c, errs) := Market.post (coord s) e in
      let! (s, sent) := route (mkState (gateway s) c (statusQueue s)) outs in
      Ok (s, map ToSystemBus errs ++ sent)
  end.

(** Network thread: an order of a client arrives. *)
Definition submit (s : State) (so : ServerOrder) : res (State * list Sent) :=
  let! (g, outs) := Gateway.postOrder (gateway s) so in
  route (mkState g (coord s) (statusQueue s)) outs.

Definition statuses (msgs : list Book.Msg) : list InternalOrderStatus :=
  omap (fun m => match m with Book.PostStatus st => Some st | Book.PostError _ => None end) msgs.

(** What a book posts, in order: errors go to the system bus, statuses to
    the gateway's runner. *)
Fixpoint postMsgs (stopped : bool) (q : list InternalOrderStatus) (msgs : list Book.Msg)
    : list InternalOrderStatus * list Sent :=
  match msgs with
  | [] => (q, [])
  | Book.PostStatus st :: msgs =>
      let '(q, errs) := Market.lfqPost stopped "gateway" q st in
      let '(q, sent) := postMsgs stopped q msgs in (q, map ToSystemBus errs ++ sent)
  | Book.PostError e :: msgs =>
      let '(q, sent) := postMsgs stopped q msgs in (q, ToSystemBus e :: sent)
  end.

(** Thread of worker [w]: match its oldest event.  A second worker would be a
    second producer of the gateway's queue. *)
Definition work (s : State) (w : nat) : res (State * list Sent) :=
  let! (c, msgs) := Market.matcher_step (coord s) w in
  if bool_decide (1 < length (Market.workers_ c))%nat && negb (bool_decide (statuses msgs = [])) then Err DataRace
  else
    let '(q, sent) := postMsgs (Market.stopped_ c) (statusQueue s) msgs in
    Ok (mkState (gateway s) c q, sent).

(** Gateway thread: handle the oldest status. *)
Definition deliver (s : State) : res (State * list Sent) :=
  match statusQueue s with
  | [] => Ok (s, [])
  | st :: q =>
      let! (g, outs) := Gateway.postStatus (gateway s) st in
      route (mkState g (coord s) q) outs
  end.

(** One step of some thread. *)
Inductive Op :=
| Submit (so : ServerOrder)
| Work (w : nat)
| Deliver.

Definition run_op (s : State) (o : Op) : res (State * list Sent) :=
  match o with
  | Submit so => submit s so
  | Work w => work s w
  | Deliver => deliver s
  end.

Fixpoint run (s : State) (ops : list Op) : res (State * list Sent) :=
  match ops with
  | [] => Ok (s, [])
  | o :: ops =>
      let! (s, m1) := run_op s o in
      let! (s, m2) := run s ops in
      Ok (s, m1 ++ m2)
  end.

End Server.

(** Nothing of what a book posts goes to a client directly. *)
Definition to_bus (m : Sent) : Prop := match m with ToSystemBus _ => True | ToClient _ => False end.

Lemma bus_only (errs : list InternalError) : Forall to_bus (map ToSystemBus errs).
Proof. induction errs; by constructor. Qed.

Lemma postMsgs_bus stopped msgs : forall q, Forall to_bus (postMsgs stopped q msgs).2.
Proof.
  induction msgs as [|[st|e] msgs IH]; intros q; cbn; [constructor| |].
  - destruct (Market.lfqPost _ _ _ _) as [q1 errs]. specialize (IH q1). destruct (postMsgs _ _ _) as [q2 sent].
    apply Forall_app. by split; [apply bus_only|].
  - specialize (IH q). destruct (postMsgs _ _ _) as [q2 sent]. by constructor.
Qed.

Lemma postMsgs_queue stopped msgs : forall q x, x ∈ (postMsgs stopped q msgs).1 -> x ∈ q \/ x ∈ statuses msgs.
Proof.
  induction msgs as [|[st|e] msgs IH]; intros q x; cbn; [by left| |].
  - destruct (Market.lfqPost _ _ _ _) as [q1 errs] eqn:E. specialize (IH q1 x). destruct (postMsgs _ _ _) as [q2 sent].
    intros [H|H]%IH; [|by right; right]. unfold Market.lfqPost in E. destruct stopped; [injection E as <- _; by left|].
    destruct (_ <? _); injection E as <- _; [|by left]. apply elem_of_app in H as [|H]; [by left|right].
    apply list_elem_of_singleton in H as ->. left.
  - specialize (IH q x). destruct (postMsgs _ _ _) as [q2 sent]. intros H. by apply IH.
Qed.

Lemma work_result `{B : Build} s w s' sent : work s w = Ok (s', sent) ->
  exists c msgs, Market.matcher_step (coord s) w = Ok (c, msgs) /\ Forall to_bus sent /\
    gateway s' = gateway s /\ coord s' = c /\
    forall x, x ∈ statusQueue s' -> x ∈ statusQueue s \/ x ∈ statuses msgs.
Proof.
  unfold work. destruct (Market.matcher_step _ w) as [[c msgs]|]; [|done]. destruct (_ && _)%bool; [done|].
  pose proof (postMsgs_bus (Market.stopped_ c) msgs (statusQueue s)) as Hb.
  pose proof (postMsgs_queue (Market.stopped_ c) msgs (statusQueue s)) as Hq.
  destruct (postMsgs _ _ _) as [q m]. intros [= <- <-]. by exists c, msgs.
Qed.

(** With one worker, its statuses go to the gateway's queue. *)
Lemma work_single `{B : Build} s w c msgs :
  Market.matcher_step (coord s) w = Ok (c, msgs) -> (length (Market.workers_ c) <= 1)%nat -> Market.stopped_ c = false ->
  work s w = let '(q, sent) := postMsgs false (statusQueue s) msgs in Ok (mkState (gateway s) c q, sent).
Proof. intros E H1 Hs. unfold work. by rewrite E, bool_decide_false, Hs by lia. Qed.

Lemma matcher_step_workers `{B : Build} c w c' msgs :
  Market.matcher_step c w = Ok (c', msgs) ->
  length (Market.workers_ c') = length (Market.workers_ c) /\ Market.stopped_ c' = Market.stopped_ c.
Proof.
  unfold Market.matcher_step. destruct (Market.workers_ c !! w) as [[|e q]|]; [by intros [= <- _]| |by intros [= <- _]].
  destruct (Market.data_ c !! _) as [td|]; [|done]. destruct (Book.add _ _) as [[[b m] r]|]; [|done].
  intros [= <- _]. cbn. by rewrite length_insert.
Qed.

(** ** One order through the whole path *)

Section Path.
Context `{B : Build} `{BO : !BuildOk B}.

(** Quiet and consistent: no message under way, every book represents a
    price-time priority book, every ticker has a running worker. *)
Record Quiet (s : State) (out : list Z) : Prop := {
  q_gateway : Gateway.Inv (gateway s) out;
  q_open : Gateway.closed_ (gateway s) = false;
  q_running : Market.stopped_ (coord s) = false;
  q_single : (length (Market.workers_ (coord s)) <= 1)%nat;
  q_status : statusQueue s = [];
  q_workers : forall w q, Market.workers_ (coord s) !! w = Some q -> q = [];
  q_books : forall t td, Market.data_ (coord s) !! t = Some td ->
    (exists q, Market.workers_ (coord s) !! Z.to_nat (Market.workerId td) = Some q) /\
    exists a, BookSpec.Rep (Market.orderBook td) a
}.

(** A buy or sell order the books accept. *)
Definition new_order_ok (s : State) (so : ServerOrder) (td : Market.TickerData) : Prop :=
  (o_action (so_order so) = Buy \/ o_action (so_order so) = Sell) /\
  0 < o_price (so_order so) < MAX_TICKS /\ 0 <= o_quantity (so_order so) < 2 ^ 32 /\
  Market.data_ (coord s) !! o_ticker (so_order so) = Some td.

Lemma submit_new s out so td :
  Quiet s out -> new_order_ok s so td ->
  let w := Z.to_nat (Market.workerId td) in
  (exists s1 id, submit s so = Ok (s1, []) /\
     let ioe := mkInternalOrderEvent (mkInternalOrder id SlotId.invalid
        (o_quantity (so_order so)) (o_price (so_order so))) (o_ticker (so_order so)) (o_action (so_order so)) in
     Gateway.Inv (gateway s1) (id :: out) /\
     Gateway.closed_ (gateway s1) = false /\
     Gateway.record (gateway s1) (SlotId.index MAX_SYSTEM_ORDERS id) =
       Gateway.mkRecord (o_id (so_order so)) id SlotId.invalid (o_ticker (so_order so)) (so_clientId so) Gateway.RNew /\
     statusQueue s1 = [] /\
     coord s1 = Market.set_workers (coord s) (<[w := [ioe]]> (Market.workers_ (coord s)))) \/
  (exists s1, submit s so = Ok (s1, [ToClient (mkServerOrderStatus (so_clientId so)
      (mkOrderStatus (o_id (so_order so)) 0 (o_quantity (so_order so)) (o_price (so_order so)) Rejected))]) /\
    Quiet s1 out /\ Z.of_nat (length out) = Pool.CAPACITY MAX_SYSTEM_ORDERS - 1).
Proof.
  intros HQ (Hact & Hp & Hq & Htd) w. pose proof HQ as [Hg Ho Hr H1w Hs Hw Hb].
  assert (Hpost : Gateway.postOrder (gateway s) so = Gateway.newOrder (gateway s) so).
  { unfold Gateway.postOrder, Gateway.isValid. rewrite Ho.
    destruct (Z.ltb_spec 0 (o_price (so_order so))); [|lia]. by destruct Hact as [-> | ->]. }
  unfold submit. rewrite Hpost.
  destruct (Gateway.newOrder_ok (gateway s) out so Hg) as (g & [(id & E & HI & Hni & Hrec & _)|(E & HI & Hlen)]).
  - left. rewrite E. cbn [route].
    apply Gateway.newOrder_closed in E as Hcl. rewrite Ho in Hcl.
    destruct (Hb _ _ Htd) as [[q Hwq] _]. pose proof (Hw _ _ Hwq) as ->.
    unfold Market.post. cbn [coord]. rewrite Hr. cbn [ioe_ticker]. rewrite Htd, Hwq. cbn.
    eexists _, id. split; [done|]. cbn. done.
  - right. rewrite E. cbn [route]. eexists. split; [done|]. split; [|done].
    apply Gateway.newOrder_closed in E as Hcl. rewrite Ho in Hcl.
    split; cbn; try done.
Qed.

(** What the book answers to a new order: one status for it, or the error of
    a full book. *)
Lemma add_replies b a ioe :
  BookSpec.Rep b a -> ioe_action ioe <> Cancel -> BookProps.event_ok ioe ->
  io_price (ioe_order ioe) < MAX_TICKS ->
  exists b' msgs a', Book.add b ioe = Ok (b', msgs, true) /\ BookSpec.Rep b' a' /\
    ((exists st, msgs = [Book.PostStatus st] /\ ios_id st = io_id (ioe_order ioe)) \/
     msgs = [Book.PostError (mkInternalError SError "OrderBook is full")]).
Proof.
  intros HR Hne Hok Hlt. destruct (BookProps.add_new_ok b a ioe HR Hne Hok Hlt) as (b' & E & HR').
  eexists b', _, _. split; [exact E|]. split; [exact HR'|]. destruct Hok as [Hp Hq].
  destruct (BookMatch.match_ok b a (ioe_order ioe) (Book.getSide (ioe_action ioe)) HR)
    as (_ & _ & _ & Hrem); [lia|done|].
  destruct (BookProps.spec_new_cases a (Book.getSide (ioe_action ioe)) (ioe_order ioe) Hrem)
    as [[_ ->]|[(lid & _ & -> & _)|[_ ->]]]; eauto.
Qed.

Section Step.
Context (s : State) (out : list Z) (so : ServerOrder) (td : Market.TickerData).
Context (HQ : Quiet s out) (Hok : new_order_ok s so td).

Abbreviation w := (Z.to_nat (Market.workerId td)).

(** After the worker's step: the book moved on, the queue is empty again. *)
Definition worked (b : Book.State) : Market.Coord :=
  Market.mkCoord (Market.started_ (coord s)) (Market.stopped_ (coord s))
    (<[o_ticker (so_order so) := Market.mkTickerData (Market.workerId td) b]> (Market.data_ (coord s)))
    (Market.workers_ (coord s)) (Market.names_ (coord s)) (Market.readyCount_ (coord s)).

Lemma worked_quiet g b a out' :
  BookSpec.Rep b a -> Gateway.Inv g out' -> Gateway.closed_ g = false ->
  Quiet (mkState g (worked b) []) out'.
Proof.
  intros HR HI Hcl. destruct HQ as [_ _ Hr H1w _ Hw Hb]. destruct Hok as (_ & _ & _ & Htd).
  split; cbn; try done. intros t td' Ht. destruct (decide (o_ticker (so_order so) = t)) as [<-|Hne].
  - rewrite lookup_insert_eq in Ht. injection Ht as <-. cbn.
    split; [|by exists a]. by destruct (Hb _ _ Htd).
  - rewrite lookup_insert_ne in Ht by done. exact (Hb _ _ Ht).
Qed.

Lemma work_new ioe :
  ioe_ticker ioe = o_ticker (so_order so) -> ioe_action ioe = o_action (so_order so) ->
  io_quantity (ioe_order ioe) = o_quantity (so_order so) ->
  io_price (ioe_order ioe) = o_price (so_order so) ->
  let c := Market.set_workers (coord s) (<[w := [ioe]]> (Market.workers_ (coord s))) in
  exists b a msgs, Market.matcher_step c w = Ok (worked b, msgs) /\ BookSpec.Rep b a /\
    ((exists st, msgs = [Book.PostStatus st] /\ ios_id st = io_id (ioe_order ioe)) \/
     msgs = [Book.PostError (mkInternalError SError "OrderBook is full")]).
Proof.
  intros Et Ea Eq Ep c. destruct HQ as [_ _ Hr _ _ Hw Hb]. destruct Hok as (Hact & Hp & Hqty & Htd).
  destruct (Hb _ _ Htd) as [[q Hwq] [a HR]]. pose proof (Hw _ _ Hwq) as ->.
  destruct (add_replies (Market.orderBook td) a ioe HR) as (b & msgs & a' & E & HR' & Hm).
  - rewrite Ea. by destruct Hact as [-> | ->].
  - unfold BookProps.event_ok. rewrite Ep, Eq. lia.
  - rewrite Ep. lia.
  - exists b, a', msgs. split; [|done]. unfold Market.matcher_step, c. cbn.
    rewrite list_lookup_insert_eq by (by apply lookup_lt_Some in Hwq).
    rewrite Et, Htd, E. unfold worked. f_equal. f_equal. f_equal.
    rewrite list_insert_insert_eq. by apply list_insert_id.
Qed.

(** Submit, match, deliver: one reply to the client, or none and an error. *)
Lemma order_path :
  exists s' sent out', run s [Submit so; Work w; Deliver] = Ok (s', sent) /\ Quiet s' out' /\
    ((exists st, sent = [ToClient (mkServerOrderStatus (so_clientId so) st)] /\
        os_orderId st = o_id (so_order so)) \/
     sent = [ToSystemBus (mkInternalError SError "OrderBook is full")]).
Proof.
  destruct (submit_new s out so td HQ Hok)
    as [(s1 & id & E1 & HI & Hcl & Hrec & Hst & Hc)|(s1 & E1 & HQ1 & _)]; cbn [run run_op]; rewrite E1.
  - edestruct (work_new (mkInternalOrderEvent (mkInternalOrder id SlotId.invalid
        (o_quantity (so_order so)) (o_price (so_order so))) (o_ticker (so_order so))
        (o_action (so_order so)))) as (b & a & msgs & Em & HR & Hm); [done..|].
    rewrite <- Hc in Em. rewrite (work_single _ _ _ _ Em (q_single _ _ HQ) (q_running _ _ HQ)), Hst.
    cbn [ioe_order io_id] in Hm. destruct Hm as [(st & -> & Eid)| ->].
    + cbn [postMsgs]. rewrite Market.lfqPost_room by done. cbn. unfold deliver. cbn.
      destruct (Gateway.postStatus_ok (gateway s1) [] id out st HI Hcl Eid) as (g & Eg & HI' & _).
      rewrite Eg. apply Gateway.postStatus_closed in Eg. rewrite Hcl in Eg. cbn [route]. rewrite Hrec. cbn.
      eexists _, _, _. split; [done|]. split; [by apply (worked_quiet g b a)|]. left.
      eexists. split; [done|done].
    + cbn. eexists _, _, _. split; [done|]. split; [by apply (worked_quiet (gateway s1) b a)|by right].
  - destruct HQ1 as [G1 G2 G3 G3b G4 G5 G6].
    assert (Ew : Market.workers_ (coord s1) !! w = Some [] \/ Market.workers_ (coord s1) !! w = None).
    { destruct (_ !! w) eqn:Ew; [left|by right]. by rewrite (G5 _ _ Ew). }
    assert (Em : Market.matcher_step (coord s1) w = Ok (coord s1, []))
      by (unfold Market.matcher_step; by destruct Ew as [-> | ->]).
    rewrite (work_single _ _ _ _ Em G3b G3). cbn. unfold deliver. cbn. rewrite G4. cbn.
    eexists _, _, out. split; [done|]. split; [|left; eexists; by split].
    destruct s1. cbn in *. subst. by split.
Qed.
End Step.

Lemma Quiet_init prices coresApp data :
  (length coresApp <= 1)%nat -> Market.loadMarketData (inl prices) coresApp = Ok data ->
  Quiet (init data coresApp) [].
Proof.
  intros H1 E. assert (Hlen : Z.of_nat (length coresApp) < 2 ^ 16) by lia.
  destruct (Market.load_facts prices coresApp data Hlen E) as (l & -> & _ & Hr & _).
  split; cbn; try done.
  - apply Gateway.gateway_Inv_init.
  - rewrite length_replicate. unfold Market.appCores. case_bool_decide; lia.
  - intros w q Hq. by apply lookup_replicate in Hq as [-> _].
  - intros t td Htd. apply Market.emplace_all_lookup in Htd as [Htd|(y & Hy & _ & ->)];
      [by rewrite lookup_empty in Htd|]. specialize (Hr _ Hy).
    split; [exists []; apply lookup_replicate_2; cbn; lia|]. exists BookSpec.a_init. apply BookProps.Rep_init.
Qed.

(** C15: a new order of a client runs through gateway, coordinator, order
    book and gateway again without a fault, ends in a consistent server, and
    is answered by exactly one status, sent to the client that placed the
    order and carrying that client's order id, unless the order's book is
    full, which only an error on the system bus reports. *)
Theorem order_round_trip s out so td :
  Quiet s out -> new_order_ok s so td ->
  exists s' sent out',
    run s [Submit so; Work (Z.to_nat (Market.workerId td)); Deliver] = Ok (s', sent) /\
    Quiet s' out' /\
    ((exists st, sent = [ToClient (mkServerOrderStatus (so_clientId so) st)] /\
        os_orderId st = o_id (so_order so)) \/
     sent = [ToSystemBus (mkInternalError SError "OrderBook is full")]).
Proof. apply order_path. Qed.
End Path.

(** ** Concrete runs *)

Section Concrete.
#[local] Existing Instance build_cicd.

Definition one_worker_data : gmap Ticker Market.TickerData :=
  match Market.loadMarketData (inl Market.three_tickers) [] with Ok d => d | Err _ => ∅ end.

Definition server_0 : State := init one_worker_data [].

Definition order (client id qty price : Z) (t : Ticker) (action : OrderAction) : ServerOrder :=
  mkServerOrder client (mkOrder id t qty price action).

Lemma order_round_trip_witness :
  exists s' sent out', run server_0 [Submit (order 1 77 5 9 Market.AAA Buy); Work 0; Deliver] = Ok (s', sent) /\
    Quiet s' out'.
Proof.
  destruct (order_round_trip server_0 [] (order 1 77 5 9 Market.AAA Buy) (Market.mkTickerData 0 Book.init))
    as (s' & sent & out' & E & HQ & _).
  - apply (Quiet_init Market.three_tickers); [cbn; lia|reflexivity].
  - split; [left; reflexivity|]. split; [by vm_compute|]. split; [by vm_compute|]. vm_compute. reflexivity.
  - exists s', sent, out'. split; [exact E|exact HQ].
Defined.

(** The system identifiers of the first two orders: the pool hands out the
    highest slot of its first chunk first. *)
Definition sys_1 : Z := SlotId.make MAX_SYSTEM_ORDERS 16384 1.
Definition sys_2 : Z := SlotId.make MAX_SYSTEM_ORDERS 16383 1.

Definition reply (client id sys qty price : Z) (st : OrderState) : Sent :=
  ToClient (mkServerOrderStatus client (mkOrderStatus id sys qty price st)).

(** What a run sent, if it completed. *)
Definition sent_of (r : res (State * list Sent)) : option (list Sent) :=
  match r with Ok (_, sent) => Some sent | Err _ => None end.

Definition handle (so : ServerOrder) : list Op := [Submit so; Work 0; Deliver].

(** A cancel is routed by the ticker of the cancel request, not by the
    ticker of the order it names, so it reaches the wrong book under the
    right ownership check: client 1 sells AAA, client 2 sells BBB, client 1
    cancels its own order with ticker BBB, is told [Cancelled], and the
    order that disappears is client 2's, which the next buyer of BBB does
    not find. *)
Theorem cross_ticker_cancel_removes_foreign_order :
  sent_of (run server_0
    (handle (order 1 101 10 5 Market.AAA Sell) ++ handle (order 2 202 20 7 Market.BBB Sell) ++
     handle (order 1 sys_1 0 1 Market.BBB Cancel) ++ handle (order 3 303 20 7 Market.BBB Buy) ++
     handle (order 3 304 10 5 Market.AAA Buy))) =
  Some [reply 1 101 sys_1 0 5 Accepted; reply 2 202 sys_2 0 7 Accepted;
          reply 1 101 sys_1 0 0 Cancelled;
          reply 3 303 (SlotId.make MAX_SYSTEM_ORDERS 16382 1) 0 7 Accepted;
          reply 3 304 (SlotId.make MAX_SYSTEM_ORDERS 16381 1) 10 5 Full].
Proof. vm_compute. reflexivity. Qed.

(** The owner of a resting order is not told when it is filled, so its
    record stays [Accepted] and a later cancel is accepted: client 1's order
    of 10 trades in full with client 2's, client 1 then cancels it and is
    told [Cancelled], and the book slot, free twice now, is handed to two
    later sell orders of 1 each, of which a buyer of 2 then finds only one. *)
Theorem filled_order_can_still_be_cancelled :
  sent_of (run server_0
    (handle (order 1 101 10 5 Market.AAA Sell) ++ handle (order 2 202 10 5 Market.AAA Buy) ++
     handle (order 1 sys_1 0 1 Market.AAA Cancel) ++
     handle (order 3 303 1 6 Market.AAA Sell) ++ handle (order 4 404 1 8 Market.AAA Sell) ++
     handle (order 5 505 2 9 Market.AAA Buy))) =
  Some [reply 1 101 sys_1 0 5 Accepted; reply 2 202 sys_2 10 5 Full;
          reply 1 101 sys_1 0 0 Cancelled;
          reply 3 303 (SlotId.make MAX_SYSTEM_ORDERS 16382 1) 0 6 Accepted;
          reply 4 404 (SlotId.make MAX_SYSTEM_ORDERS 16381 1) 0 8 Accepted;
          reply 5 505 (SlotId.make MAX_SYSTEM_ORDERS 16380 1) 1 9 Partial].
Proof. vm_compute. reflexivity. Qed.

End Concrete.
End Server.
