(* ===== verification/ServerRun.v ===== *)
(** * Runs of the server: any clients, any interleaving

    The order path of [Server.v] under arbitrary sequences of its three
    thread steps, for any number of clients.  One invariant ties the
    gateway's records, the worker's queue, the queue of statuses and the
    books together; every step keeps it, never faults, and keeps the ledger
    of replies balanced: the orders that call for an answer are, up to
    order, those answered to their owner, those under way, and those lost to
    a full book or a full queue, which the system bus hears of.  What the
    code needs from outside: a single worker (see [Server.v]), and that a
    cancel reaches its book while the order still rests there; the
    refutations in [Server.v] show what happens otherwise. *)

From S2P Require Import Prelude SlotId HugeArray Types PriceLevelBook BookSpec BookMask BookInv BookRefine.
From S2P Require Import BookMatch BookOps BookProps BookResting SlotIdPool OrderGateway Coordinator Server.
Import Server.

Module ServerRun.
Import Resting.

(** ** The ledger *)

Section Ledger.
Context `{B : Build}.

(** The client and the client's order id. *)
Abbreviation Party := (Z * Z)%type.

Definition party_of (so : ServerOrder) : Party := (so_clientId so, o_id (so_order so)).

Definition is_new (so : ServerOrder) : bool :=
  match o_action (so_order so) with Buy | Sell => true | _ => false end.

(** The orders that call for an answer: new orders, and whatever is refused
    for its price. *)
Definition due (o : Op) : list Party :=
  match o with
  | Submit so => if negb (Gateway.isValid so) || is_new so then [party_of so] else []
  | _ => []
  end.

(** The answers among what was sent; a [Cancelled] is not one, it follows
    the answer to the order itself. *)
Definition answered (sent : list Sent) : list Party :=
  omap (fun m => match m with
    | ToClient st =>
        if bool_decide (os_state (sos_orderStatus st) = Cancelled) then None
        else Some (sos_clientId st, os_orderId (sos_orderStatus st))
    | ToSystemBus _ => None
    end) sent.

Definition bus_errors (sent : list Sent) : nat :=
  length (omap (fun m => match m with ToSystemBus e => Some e | ToClient _ => None end) sent).

(** Under way: the new orders in the workers' queues, and the statuses that
    answer one. *)
Definition new_id (e : InternalOrderEvent) : option Z :=
  if bool_decide (ioe_action e = Cancel) then None else Some (io_id (ioe_order e)).
Definition answer_id (st : InternalOrderStatus) : option Z :=
  if bool_decide (ios_state st = Cancelled) then None else Some (ios_id st).
Definition cancelled_id (st : InternalOrderStatus) : option Z :=
  if bool_decide (ios_state st = Cancelled) then Some (ios_id st) else None.
Definition opening_id (st : InternalOrderStatus) : option Z :=
  if opens st then Some (ios_id st) else None.

Definition events (s : State) : list InternalOrderEvent := concat (Market.workers_ (coord s)).
Definition under_way (s : State) : list Z := omap new_id (events s) ++ omap answer_id (statusQueue s).

Abbreviation rec s id := (Gateway.record (gateway s) (SlotId.index MAX_SYSTEM_ORDERS id)).

Definition who (s : State) (id : Z) : Party := (Gateway.r_clientId (rec s id), Gateway.r_externalOId (rec s id)).

(** ** The invariant *)

Definition book_of (s : State) (t : Ticker) (a : BookSpec.ABook) : Prop :=
  exists td, Market.data_ (coord s) !! t = Some td /\ BookSpec.Rep (Market.orderBook td) a.

(** The order [id] rests in the book of [t] under the identifier [b]. *)
Definition rests_in (s : State) (t : Ticker) (id b : Z) : Prop := exists a, book_of s t a /\ rests a id b.

(** An event in a queue: its ticker is traded; a new order is on the grid. *)
Definition queue_ok (s : State) (e : InternalOrderEvent) : Prop :=
  is_Some (Market.data_ (coord s) !! ioe_ticker e) /\
  (ioe_action e <> Cancel -> BookProps.event_ok e /\ io_price (ioe_order e) < MAX_TICKS).

Record Inv (s : State) (out lost : list Z) : Prop := {
  i_gateway : Gateway.Inv (gateway s) out;
  i_open : Gateway.closed_ (gateway s) = false;
  i_running : Market.stopped_ (coord s) = false;
  i_single : (length (Market.workers_ (coord s)) <= 1)%nat;
  i_books : forall t td, Market.data_ (coord s) !! t = Some td ->
    is_Some (Market.workers_ (coord s) !! Z.to_nat (Market.workerId td)) /\ exists a, BookSpec.Rep (Market.orderBook td) a;
  i_events : Forall (queue_ok s) (events s);
  i_nodup : NoDup (under_way s ++ lost);
  i_fresh : forall id, id ∈ under_way s ++ lost <-> id ∈ out /\ Gateway.r_state (rec s id) = Gateway.RNew;
  i_cnodup : NoDup (omap cancelled_id (statusQueue s));
  i_cancelled : forall id, id ∈ omap cancelled_id (statusQueue s) ->
    id ∈ out /\ Gateway.r_state (rec s id) = Gateway.RAccepted /\ forall t b, ~ rests_in s t id b;
  i_rests : forall t id b, rests_in s t id b ->
    id ∈ out /\ (Gateway.r_state (rec s id) = Gateway.RAccepted \/ id ∈ omap opening_id (statusQueue s) \/ id ∈ lost);
  i_once : forall t b t' b' id, rests_in s t id b -> rests_in s t' id b' -> t = t' /\ b = b'
}.

(** ** What the clients and the schedule have to respect *)

Definition on_market (data : gmap Ticker Market.TickerData) (so : ServerOrder) : Prop :=
  Gateway.isValid so = true -> is_new so = true ->
  o_price (so_order so) < MAX_TICKS /\ 0 <= o_quantity (so_order so) < 2 ^ 32 /\
  is_Some (data !! o_ticker (so_order so)).

Definition order_ok (s : State) (so : ServerOrder) : Prop := on_market (Market.data_ (coord s)) so.

(** The cancel names an order that was accepted and still rests in the book
    the cancel was routed to. *)
Definition cancel_live (s : State) (e : InternalOrderEvent) : Prop :=
  Gateway.r_state (rec s (io_id (ioe_order e))) = Gateway.RAccepted /\
  rests_in s (ioe_ticker e) (io_id (ioe_order e)) (io_bookOId (ioe_order e)).

Definition op_ok (s : State) (o : Op) : Prop :=
  match o with
  | Submit so => order_ok s so
  | Work w => forall e q, Market.workers_ (coord s) !! w = Some (e :: q) -> ioe_action e = Cancel -> cancel_live s e
  | Deliver => True
  end.

Fixpoint run_ok (s : State) (ops : list Op) : Prop :=
  match ops with
  | [] => True
  | o :: ops => op_ok s o /\ forall s' sent, run_op s o = Ok (s', sent) -> run_ok s' ops
  end.

(** Clients that only place orders. *)
Definition places_only (data : gmap Ticker Market.TickerData) (o : Op) : Prop :=
  match o with
  | Submit so => o_action (so_order so) <> Cancel /\ on_market data so
  | _ => True
  end.

(** Steps of the server's own threads. *)
Definition own_step (o : Op) : Prop := match o with Submit _ => False | _ => True end.

(** *** What a step does to accepted orders and to cancels *)

Definition accepted (s : State) (sys : Z) : Prop :=
  Gateway.r_systemOId (rec s sys) = sys /\ Gateway.r_state (rec s sys) = Gateway.RAccepted.

(** Cancels under way, by system id: requested, and done but not told. *)
Definition cancel_event_id (e : InternalOrderEvent) : option Z :=
  if bool_decide (ioe_action e = Cancel) then Some (io_id (ioe_order e)) else None.
Definition cancelling (s : State) : list Z :=
  omap cancel_event_id (events s) ++ omap cancelled_id (statusQueue s).

Definition asks_cancel (o : Op) : list Z :=
  match o with
  | Submit so => if bool_decide (o_action (so_order so) = Cancel) then [o_id (so_order so)] else []
  | _ => []
  end.

Definition told_cancelled (sent : list Sent) : list Z :=
  omap (fun m => match m with
    | ToClient st =>
        if bool_decide (os_state (sos_orderStatus st) = Cancelled) then Some (os_systemOrderId (sos_orderStatus st)) else None
    | ToSystemBus _ => None
    end) sent.

(** What a status says is so. *)
Definition truthful (s s' : State) (st : ServerOrderStatus) : Prop :=
  let sys := os_systemOrderId (sos_orderStatus st) in
  let party := (sos_clientId st, os_orderId (sos_orderStatus st)) in
  match os_state (sos_orderStatus st) with
  | Accepted | Partial => accepted s' sys /\ who s' sys = party
  | Cancelled => sys ∈ cancelling s /\ who s sys = party
  | _ => True
  end.

Record step_facts (s : State) (o : Op) (s' : State) (sent : list Sent) : Prop := {
  sf_kept : forall sys, accepted s sys ->
    (accepted s' sys /\ who s' sys = who s sys) \/ sys ∈ told_cancelled sent;
  sf_sent : forall st, ToClient st ∈ sent -> truthful s s' st;
  sf_cancels : told_cancelled sent ++ cancelling s' ⊆+ asks_cancel o ++ cancelling s
}.

(** One step from [s]: no fault, the invariant again, the ledger balanced,
    and an error on the system bus for each order lost. *)
Definition advances (s : State) (lost : list Z) (o : Op) : Prop :=
  exists s' sent out' lost', run_op s o = Ok (s', sent) /\ Inv s' out' lost' /\
    due o ++ map (who s) (under_way s ++ lost) ≡ₚ answered sent ++ map (who s') (under_way s' ++ lost') /\
    (length lost' <= length lost + bus_errors sent)%nat /\ step_facts s o s' sent.
End Ledger.

(** ** Queues as multisets *)

Lemma concat_insert {A} (ws : list (list A)) w q q' :
  ws !! w = Some q -> q ++ concat (<[w := q']> ws) ≡ₚ q' ++ concat ws.
Proof.
  intros H. pose proof (lookup_lt_Some _ _ _ H) as Hlt.
  rewrite <- (take_drop_middle ws w q H) at 2. rewrite insert_take_drop by done.
  rewrite !concat_app. cbn. solve_Permutation.
Qed.

Lemma concat_push {A} (ws : list (list A)) w q x :
  ws !! w = Some q -> concat (<[w := q ++ [x]]> ws) ≡ₚ x :: concat ws.
Proof.
  intros H. apply (Permutation_app_inv_l q). rewrite (concat_insert _ _ _ _ H). solve_Permutation.
Qed.

Lemma concat_pop {A} (ws : list (list A)) w q x :
  ws !! w = Some (x :: q) -> concat ws ≡ₚ x :: concat (<[w := q]> ws).
Proof.
  intros H. apply (Permutation_app_inv_l q). rewrite <- (concat_insert _ _ _ q H). solve_Permutation.
Qed.

Section Steps.
Context `{B : Build} `{BO : !BuildOk B}.

Abbreviation index := (SlotId.index MAX_SYSTEM_ORDERS).
Abbreviation rec s id := (Gateway.record (gateway s) (index id)).

(** ** Frames *)

(** The same books, and queues with the same content. *)
Lemma server_Inv_frame s s' out lost :
  Inv s out lost ->
  Gateway.Inv (gateway s') out -> Gateway.closed_ (gateway s') = false ->
  (forall i, Gateway.record (gateway s') i = Gateway.record (gateway s) i) ->
  Market.data_ (coord s') = Market.data_ (coord s) -> Market.stopped_ (coord s') = false ->
  (forall w, is_Some (Market.workers_ (coord s) !! w) -> is_Some (Market.workers_ (coord s') !! w)) ->
  (length (Market.workers_ (coord s')) <= 1)%nat ->
  Forall (queue_ok s) (events s') -> under_way s' ≡ₚ under_way s -> statusQueue s' = statusQueue s ->
  Inv s' out lost.
Proof.
  intros [H1 H2 H3 H1w H4 H5 H6 H7 H8 H9 H10 H11] Hg Hc Hr Hd Hs Hw Hl He Hu Hq.
  assert (Hrest : forall t id b, rests_in s' t id b <-> rests_in s t id b).
  { intros. unfold rests_in, book_of. by rewrite Hd. }
  split; try done.
  - intros t td Ht. rewrite Hd in Ht. destruct (H4 _ _ Ht). auto.
  - eapply Forall_impl; [exact He|]. unfold queue_ok. by rewrite Hd.
  - by rewrite Hu.
  - intros id. rewrite Hu, Hr. apply H7.
  - by rewrite Hq.
  - intros id. rewrite Hq, Hr. intros Hid. destruct (H9 _ Hid) as (? & ? & Hn). split; [done|]. split; [done|].
    intros t b. rewrite Hrest. apply Hn.
  - intros t id b. rewrite Hrest, Hq, Hr. apply H10.
  - intros t b t' b' id. rewrite !Hrest. apply H11.
Qed.

Lemma who_same s s' l :
  (forall id, id ∈ l -> rec s' id = rec s id) -> map (who s') l = map (who s) l.
Proof. intros H. apply map_ext_in. intros id Hid. unfold who. rewrite H; [done|]. by apply list_elem_of_In. Qed.

(** Steps that leave the records alone, and say nothing of accepted or
    cancelled orders. *)
Lemma facts_frame s o s' sent :
  (forall i, Gateway.record (gateway s') i = Gateway.record (gateway s) i) ->
  (forall st, ToClient st ∈ sent -> os_state (sos_orderStatus st) = Rejected) ->
  cancelling s' ⊆+ asks_cancel o ++ cancelling s -> step_facts s o s' sent.
Proof.
  intros Hr Hs Hc. split.
  - intros sys [H1 H2]. left. unfold accepted, who. by rewrite !Hr.
  - intros st Hst. unfold truthful. by rewrite (Hs _ Hst).
  - assert (Ht : told_cancelled sent = []); [|by rewrite Ht].
    unfold told_cancelled. induction sent as [|[st|e] sent IH]; [done| |].
    + cbn. rewrite bool_decide_false; [apply IH; intros; apply Hs; by right|]. rewrite (Hs st ltac:(left)). done.
    + cbn. apply IH. intros. apply Hs. by right.
Qed.

Lemma accepted_open s out sys : Gateway.Inv (gateway s) out -> accepted s sys -> sys ∈ out.
Proof.
  intros HG [Hs Ha]. destruct (decide (index sys ∈ map index out)) as [Hin|Hni].
  - apply list_elem_of_fmap in Hin as (sys' & Ei & Hin). destruct (Gateway.gw_open _ _ HG sys' Hin) as [Hs' _].
    rewrite <- Ei, Hs in Hs'. by rewrite Hs'.
  - by destruct (Gateway.gw_closed _ _ HG _ (Gateway.index_cap _) Hni).
Qed.

Section Step.
Context (s : State) (out lost : list Z) (HI : Inv s out lost).

(** A new order in a queue has not reached its book. *)
Lemma queued_not_resting e id t b : e ∈ events s -> new_id e = Some id -> ~ rests_in s t id b.
Proof.
  intros He Hn Hr. assert (Hq : id ∈ omap new_id (events s)) by (apply list_elem_of_omap; eauto).
  destruct (i_rests _ _ _ HI _ _ _ Hr) as [_ [Hst|Hop]].
  - destruct (proj1 (i_fresh _ _ _ HI id)) as [_ Hnew]; [|congruence].
    unfold under_way. rewrite !elem_of_app. auto.
  - pose proof (i_nodup _ _ _ HI) as Hnd. apply NoDup_app in Hnd as (Hnd & Hd & _). unfold under_way in Hnd, Hd.
    destruct Hop as [Hop|Hl]; [|by apply (Hd id); [rewrite elem_of_app; left|]]. clear Hd. apply NoDup_app in Hnd as (_ & Hd & _). apply (Hd id Hq).
    apply list_elem_of_omap in Hop as (st & Hst & E). apply list_elem_of_omap. exists st. split; [done|].
    unfold opening_id, opens, answer_id in *. by destruct (ios_state st).
Qed.

(** ** An order arrives *)

(** Refused at the gateway: the answer is the refusal. *)
Lemma refused_advances g so :
  run_op s (Submit so) = Ok (mkState g (coord s) (statusQueue s), [ToClient (mkServerOrderStatus (so_clientId so)
      (mkOrderStatus (o_id (so_order so)) 0 (o_quantity (so_order so)) (o_price (so_order so)) Rejected))]) ->
  due (Submit so) = [party_of so] ->
  Gateway.Inv g out -> Gateway.closed_ g = false ->
  (forall i, Gateway.record g i = Gateway.record (gateway s) i) ->
  advances s lost (Submit so).
Proof.
  intros E Hd Hg Hc Hr. eexists _, _, out, lost. split; [exact E|]. split; [|split; [|split; [cbn; lia|]]].
  - eapply server_Inv_frame; [exact HI|..]; try done; apply HI.
  - rewrite Hd. cbn. apply perm_skip. by rewrite (who_same s (mkState g (coord s) (statusQueue s))).
  - apply facts_frame; [done|by intros st [= ->]%list_elem_of_singleton|].
    change (cancelling (mkState g (coord s) (statusQueue s))) with (cancelling s). apply submseteq_inserts_l. done.
Qed.

Lemma told_bus_errors (errs : list InternalError) : told_cancelled (map ToSystemBus errs) = [] /\ answered (map ToSystemBus errs) = [].
Proof. induction errs; done. Qed.

Lemma bus_errors_map (errs : list InternalError) : bus_errors (map ToSystemBus errs) = length errs.
Proof. unfold bus_errors. induction errs as [|e errs IH]; [done|]. cbn. by rewrite IH. Qed.

Lemma not_told_bus_error (errs : list InternalError) (st : ServerOrderStatus) : ToClient st ∉ map ToSystemBus errs.
Proof. by intros (e & [=] & _)%list_elem_of_fmap. Qed.

Lemma silent_advances so c errs :
  run_op s (Submit so) = Ok (mkState (gateway s) c (statusQueue s), map ToSystemBus errs) -> due (Submit so) = [] ->
  Inv (mkState (gateway s) c (statusQueue s)) out lost ->
  under_way (mkState (gateway s) c (statusQueue s)) ≡ₚ under_way s ->
  cancelling (mkState (gateway s) c (statusQueue s)) ⊆+ asks_cancel (Submit so) ++ cancelling s ->
  advances s lost (Submit so).
Proof.
  intros E Hd HI' Hu Hc. eexists _, _, out, lost. split; [exact E|]. split; [done|].
  split; [|split; [lia|by apply facts_frame; [done|intros st ?%not_told_bus_error|]]].
  rewrite Hd, (proj2 (told_bus_errors errs)). cbn [app]. by rewrite Hu.
Qed.

(** An event of a traded ticker goes to the end of its worker's queue, or is
    dropped with an error when that is full. *)
Lemma post_event e :
  is_Some (Market.data_ (coord s) !! ioe_ticker e) ->
  exists ws errs, Market.post (coord s) e = Ok (Market.set_workers (coord s) ws, errs) /\
    length ws = length (Market.workers_ (coord s)) /\
    (errs = [] /\ concat ws ≡ₚ e :: events s \/ length errs = 1%nat /\ concat ws = events s).
Proof.
  intros [td Htd]. unfold Market.post. rewrite (i_running _ _ _ HI), Htd.
  destruct (i_books _ _ _ HI _ _ Htd) as [[q Hq] _]. rewrite Hq.
  destruct (Market.lfqPost_cases (default "" (Market.names_ (coord s) !! Z.to_nat (Market.workerId td))) q e) as [->| ->];
    eexists _, _; (split; [done|]); (split; [by rewrite length_insert|]).
  - left. split; [done|]. by apply concat_push.
  - right. split; [done|]. by rewrite list_insert_id.
Qed.

Lemma same_workers (ws : list (list InternalOrderEvent)) :
  length ws = length (Market.workers_ (coord s)) ->
  forall w, is_Some (Market.workers_ (coord s) !! w) -> is_Some (ws !! w).
Proof. intros El w. by rewrite !lookup_lt_is_Some, El. Qed.

(** The gateway took a new order under a fresh identifier, and the event is
    in the worker's queue, or the queue was full. *)
Section Accept.
Context (id : Z) (g : Gateway.State) (ws : list (list InternalOrderEvent)) (lost' : list Z).
Let s' : State := mkState g (Market.set_workers (coord s) ws) (statusQueue s).
Context (HG : Gateway.Inv g (id :: out)) (Hcl : Gateway.closed_ g = false) (Hni : index id ∉ map index out).
Context (Hrec : Gateway.r_state (Gateway.record g (index id)) = Gateway.RNew).
Context (Hoth : forall i, i <> index id -> Gateway.record g i = Gateway.record (gateway s) i).
Context (Hws : length ws = length (Market.workers_ (coord s))) (Hqok : Forall (queue_ok s) (concat ws)).
Context (Hu : under_way s' ++ lost' ≡ₚ id :: under_way s ++ lost) (Hsub : forall i, i ∈ lost -> i ∈ lost').

Lemma accept_rec id' : id' ∈ out -> rec s' id' = rec s id'.
Proof. intros Hid'. apply Hoth. intros Ei. apply Hni. rewrite <- Ei. apply list_elem_of_fmap. eauto. Qed.

Lemma accept_inv : Inv s' (id :: out) lost'.
Proof.
  pose proof accept_rec as Hne.
  assert (Hout : id ∉ out) by (intros Hid; apply Hni; apply list_elem_of_fmap; eauto).
  assert (Hnw : id ∉ under_way s ++ lost) by (intros Hid; by apply (i_fresh _ _ _ HI) in Hid as [? _]).
  assert (Hr : forall t i b, rests_in s' t i b <-> rests_in s t i b) by done.
  split; try done.
  - apply HI.
  - cbn. rewrite Hws. apply HI.
  - intros t td Ht. destruct (i_books _ _ _ HI t td Ht). split; [by apply same_workers|done].
  - rewrite Hu. by constructor; [|apply HI].
  - intros id'. rewrite Hu. rewrite !elem_of_cons, (i_fresh _ _ _ HI). split.
    + intros [->|[Hid' Hst]]; [split; [by left|done]|]. split; [by right|]. by rewrite Hne.
    + intros [[->|Hid'] Hst]; [by left|right]. by rewrite <- Hne.
  - apply HI.
  - intros id' Hid'. destruct (i_cancelled _ _ _ HI id' Hid') as (Ho & Hst & Hnr).
    split; [by right|]. by rewrite Hne.
  - intros t id' b Hrs. destruct (i_rests _ _ _ HI t id' b Hrs) as [Ho Hst].
    split; [by right|]. rewrite Hne by done. cbn [s' statusQueue]. naive_solver.
  - apply (i_once _ _ _ HI).
Qed.
End Accept.

Lemma submit_new_advances so :
  order_ok s so -> Gateway.isValid so = true -> is_new so = true -> advances s lost (Submit so).
Proof.
  intros Hok Hv Hn. destruct (Hok Hv Hn) as (Hlt & Hqty & Htd).
  assert (Hpost : Gateway.postOrder (gateway s) so = Gateway.newOrder (gateway s) so).
  { apply Gateway.postOrder_new; [apply HI|done|]. unfold is_new in Hn. destruct (o_action _); auto; done. }
  assert (Hdue : due (Submit so) = [party_of so]) by (unfold due; by rewrite Hn, orb_true_r).
  assert (Hcl : forall g outs, Gateway.newOrder (gateway s) so = Ok (g, outs) -> Gateway.closed_ g = false).
  { intros g outs E. apply Gateway.newOrder_closed in E. rewrite E. apply HI. }
  destruct (Gateway.newOrder_ok (gateway s) out so (i_gateway _ _ _ HI)) as (g & [(id & E & HG & Hni & Hrec & Hoth)|(E & HG & _)]).
  2: { apply (refused_advances g); try done; [cbn [run_op]; unfold submit; by rewrite Hpost, E|by eapply Hcl|].
       by eapply Gateway.newOrder_reject_record. }
  pose proof (Hcl _ _ E) as Hc. set (e := mkInternalOrderEvent _ _ _) in E.
  assert (Hae : ioe_action e <> Cancel) by (cbn; unfold is_new in Hn; by destruct (o_action (so_order so))).
  destruct (post_event e Htd) as (ws & errs & Ep & Hwl & Hcase).
  assert (Hst : Gateway.r_state (Gateway.record g (index id)) = Gateway.RNew) by (by rewrite Hrec).
  assert (Hqok : queue_ok s e).
  { split; [done|]. intros _. split; [|done]. unfold BookProps.event_ok. cbn.
    unfold Gateway.isValid in Hv. bool_to_prop. lia. }
  set (s' := mkState g (Market.set_workers (coord s) ws) (statusQueue s)).
  assert (Hl : exists lost', under_way s' ++ lost' ≡ₚ id :: under_way s ++ lost /\ (forall i, i ∈ lost -> i ∈ lost') /\
    (length lost' <= length lost + length errs)%nat /\ Forall (queue_ok s) (concat ws) /\ cancelling s' ≡ₚ cancelling s).
  { unfold under_way, cancelling. change (events s') with (concat ws). change (statusQueue s') with (statusQueue s).
    destruct Hcase as [[-> Hws]|[He Hws]].
    - exists lost. rewrite Hws. cbn [omap list_omap]. unfold new_id at 1, cancel_event_id at 1. rewrite !bool_decide_false by done.
      split; [done|]. split; [done|]. split; [lia|]. split; [|done]. constructor; [done|apply HI].
    - exists (id :: lost). rewrite Hws. split; [solve_Permutation|]. split; [by right|]. cbn. split; [lia|]. split; [apply HI|done]. }
  destruct Hl as (lost' & Hu & Hsub & Hlen & Hq & Hcan). pose proof (accept_rec id g ws Hni Hoth) as Hne.
  exists s', (map ToSystemBus errs), (id :: out), lost'.
  split; [cbn [run_op]; unfold submit; rewrite Hpost, E; cbn [route coord]; rewrite Ep; cbn; by rewrite app_nil_r|].
  split; [by apply (accept_inv id g ws)|]. split; [|split; [by rewrite bus_errors_map|]].
  - rewrite Hdue, (proj2 (told_bus_errors errs)), Hu. cbn. unfold who at 2. cbn [s' gateway]. rewrite Hrec. apply perm_skip.
    rewrite (who_same s s'); [reflexivity|].
    intros id1 Hid1. apply Hne. apply (i_fresh _ _ _ HI) in Hid1. tauto.
  - split; [|by intros st ?%not_told_bus_error|rewrite (proj1 (told_bus_errors errs)); apply submseteq_inserts_l; by rewrite Hcan].
    intros sys Ha. left. unfold accepted, who. rewrite !Hne by (by eapply accepted_open; [apply HI|]). done.
Qed.

Lemma submit_cancel_advances so :
  Gateway.isValid so = true -> o_action (so_order so) = Cancel -> advances s lost (Submit so).
Proof.
  intros Hv Ha.
  assert (Hdue : due (Submit so) = []) by (unfold due, is_new; by rewrite Hv, Ha).
  assert (Hsame : run_op s (Submit so) = Ok (mkState (gateway s) (coord s) (statusQueue s), []) -> advances s lost (Submit so)).
  { intros E. apply (silent_advances so (coord s) []); try done; [by destruct s|].
    change (cancelling (mkState _ _ _)) with (cancelling s). by apply submseteq_inserts_l. }
  destruct (Gateway.cancelOrder (gateway s) so) as [[g outs]|] eqn:E.
  2: { exfalso. unfold Gateway.cancelOrder in E. rewrite Gateway.get_record_ok in E by apply Gateway.index_cap.
       by destruct (_ || _)%bool. }
  pose proof (Gateway.cancelOrder_same _ _ _ _ E) as ->.
  assert (Eo : run_op s (Submit so) = route (mkState (gateway s) (coord s) (statusQueue s)) outs).
  { cbn [run_op]. unfold submit, Gateway.postOrder. by rewrite (i_open _ _ _ HI), Hv, Ha, E. }
  destruct (Gateway.cancelOrder_outs _ _ _ _ E) as [->|(e & -> & Eac & Etk & Eid)]; [by apply Hsame|]. rewrite Ha in Eac.
  destruct (Market.data_ (coord s) !! ioe_ticker e) as [td|] eqn:Htd.
  2: { apply Hsame. rewrite Eo. cbn [route]. unfold Market.post. cbn [coord]. by rewrite (i_running _ _ _ HI), Htd. }
  destruct (post_event e (ex_intro _ td Htd)) as (ws & errs & Ep & Hwl & Hcase).
  assert (Hu : under_way (mkState (gateway s) (Market.set_workers (coord s) ws) (statusQueue s)) ≡ₚ under_way s).
  { unfold under_way, events. cbn [coord Market.set_workers Market.workers_ statusQueue].
    destruct Hcase as [[_ ->]|[_ ->]]; [|done]. cbn [omap list_omap]. unfold new_id at 1. by rewrite bool_decide_true. }
  apply (silent_advances so (Market.set_workers (coord s) ws) errs); try done.
  - rewrite Eo. cbn [route coord]. rewrite Ep. cbn. by rewrite app_nil_r.
  - eapply server_Inv_frame; [exact HI|..]; try done; try apply HI.
    + by apply same_workers.
    + cbn. rewrite Hwl. apply HI.
    + unfold events. cbn [coord Market.set_workers Market.workers_]. destruct Hcase as [[_ ->]|[_ ->]]; [|apply HI].
      constructor; [|apply HI]. by split; [exists td|].
  - unfold cancelling, events. cbn [coord Market.set_workers Market.workers_ statusQueue].
    destruct Hcase as [[_ ->]|[_ ->]]; [|by apply submseteq_inserts_l].
    cbn [omap list_omap asks_cancel]. unfold cancel_event_id at 1. by rewrite !bool_decide_true, Eid.
Qed.

Lemma submit_advances so : order_ok s so -> advances s lost (Submit so).
Proof.
  intros Hok. destruct (Gateway.isValid so) eqn:Hv.
  2: { apply (refused_advances (gateway s)); try done; try apply HI; [|unfold due; by rewrite Hv].
       cbn [run_op]. unfold submit, Gateway.postOrder. by rewrite (i_open _ _ _ HI), Hv. }
  destruct (is_new so) eqn:Hn; [by apply submit_new_advances|].
  destruct (o_action (so_order so)) eqn:Ha; try (unfold is_new in Hn; by rewrite Ha in Hn);
    try by apply submit_cancel_advances.
  all: apply (silent_advances so (coord s) []); try done; try (by destruct s);
    [|by unfold due; rewrite Hv, Hn|by apply submseteq_inserts_l]; cbn [run_op]; unfold submit, Gateway.postOrder;
    by rewrite (i_open _ _ _ HI), Hv, Ha.
Qed.

(** ** A worker takes an event *)

Section Work.
Context (w : nat) (e : InternalOrderEvent) (q : list InternalOrderEvent) (td : Market.TickerData) (b : Book.State).
Context (Hq : Market.workers_ (coord s) !! w = Some (e :: q)) (Htd : Market.data_ (coord s) !! ioe_ticker e = Some td).
Context (a : BookSpec.ABook) (HR : BookSpec.Rep b a).

Definition worked (sq : list InternalOrderStatus) : State :=
  mkState (gateway s)
    (Market.mkCoord (Market.started_ (coord s)) (Market.stopped_ (coord s))
       (<[ioe_ticker e := Market.mkTickerData (Market.workerId td) b]> (Market.data_ (coord s)))
       (<[w := q]> (Market.workers_ (coord s))) (Market.names_ (coord s)) (Market.readyCount_ (coord s))) sq.

Lemma worked_step msgs r :
  Book.add (Market.orderBook td) e = Ok (b, msgs, r) ->
  run_op s (Work w) = let '(sq, sent) := postMsgs false (statusQueue s) msgs in Ok (worked sq, sent).
Proof.
  intros E. cbn [run_op]. erewrite work_single; [|unfold Market.matcher_step; by rewrite Hq, Htd, E|..].
  - done.
  - cbn. rewrite length_insert. apply HI.
  - apply HI.
Qed.

Lemma worked_single sq : (length (Market.workers_ (coord (worked sq))) <= 1)%nat.
Proof. cbn. rewrite length_insert. apply HI. Qed.

Lemma worked_events sq : events s ≡ₚ e :: events (worked sq).
Proof. unfold events. cbn. by apply concat_pop. Qed.

Lemma worked_rests sq t id bid :
  rests_in (worked sq) t id bid -> (t = ioe_ticker e /\ rests a id bid) \/ (t <> ioe_ticker e /\ rests_in s t id bid).
Proof.
  intros (a' & (td' & Ht & HR') & Hr). cbn in Ht. destruct (decide (t = ioe_ticker e)) as [->|Hne].
  - rewrite lookup_insert_eq in Ht. injection Ht as <-. left. split; [done|]. by apply (Rep_rests b a' a).
  - rewrite lookup_insert_ne in Ht by done. right. split; [done|]. exists a'. split; [by exists td'|done].
Qed.

Lemma rests_before id bid : (exists a0, BookSpec.Rep (Market.orderBook td) a0 /\ rests a0 id bid) ->
  rests_in s (ioe_ticker e) id bid.
Proof. intros (a0 & HR0 & Hr). exists a0. split; [by exists td|done]. Qed.

Lemma worked_books sq t td' :
  Market.data_ (coord (worked sq)) !! t = Some td' ->
  is_Some (Market.workers_ (coord (worked sq)) !! Z.to_nat (Market.workerId td')) /\
  exists a, BookSpec.Rep (Market.orderBook td') a.
Proof.
  cbn. intros Ht. rewrite lookup_lt_is_Some, length_insert, <- lookup_lt_is_Some.
  destruct (decide (t = ioe_ticker e)) as [->|Hne].
  - rewrite lookup_insert_eq in Ht. injection Ht as <-. cbn. split; [|eauto].
    by destruct (i_books _ _ _ HI _ _ Htd).
  - rewrite lookup_insert_ne in Ht by done. apply (i_books _ _ _ HI _ _ Ht).
Qed.

Lemma worked_queue_ok sq : Forall (queue_ok (worked sq)) (events (worked sq)).
Proof.
  pose proof (i_events _ _ _ HI) as He. rewrite (worked_events sq) in He. apply Forall_cons in He as [_ He].
  eapply Forall_impl; [exact He|]. intros e' [Hs Hnew]. split; [|done]. cbn.
  destruct (decide (ioe_ticker e' = ioe_ticker e)) as [->|Hne].
  - by rewrite lookup_insert_eq.
  - by rewrite lookup_insert_ne by done.
Qed.

(** A new order that was queued is under way, and open as new. *)
Lemma queued_fresh : ioe_action e <> Cancel ->
  io_id (ioe_order e) ∈ out /\ Gateway.r_state (rec s (io_id (ioe_order e))) = Gateway.RNew.
Proof.
  intros Hne. apply (i_fresh _ _ _ HI). unfold under_way. rewrite (worked_events []). cbn [omap list_omap].
  unfold new_id at 1. rewrite bool_decide_false by done. rewrite !elem_of_app. left. left. left.
Qed.

(** The worker matched a new order: if it came to rest, then under the one
    identifier [nb], which a queued status reports unless it was lost. *)
Lemma work_new_inv sts lost' nb :
  ioe_action e <> Cancel -> (forall i, i ∈ lost -> i ∈ lost') ->
  (forall st, st ∈ sts -> ios_id st = io_id (ioe_order e) /\ ios_state st <> Cancelled) ->
  (forall id bid, rests a id bid -> rests_in s (ioe_ticker e) id bid \/
     id = io_id (ioe_order e) /\ bid = nb /\ (id ∈ omap opening_id sts \/ id ∈ lost')) ->
  let s' := worked (statusQueue s ++ sts) in
  under_way s' ++ lost' ≡ₚ under_way s ++ lost -> Inv s' out lost'.
Proof.
  intros Hne Hsub Hst Hrest s' Hu. destruct (queued_fresh Hne) as [Hout Hnew].
  assert (Hc : omap cancelled_id sts = []).
  { clear -Hst. induction sts as [|st sts IH]; [done|]. cbn. unfold cancelled_id at 1.
    destruct (Hst st ltac:(left)) as [_ Hs]. rewrite bool_decide_false by done. apply IH. intros; apply Hst; by right. }
  assert (He : e ∈ events s) by (rewrite (worked_events []); left).
  assert (Hid : new_id e = Some (io_id (ioe_order e))) by (unfold new_id; by rewrite bool_decide_false by done).
  assert (Hr : forall t id bid, rests_in s' t id bid -> rests_in s t id bid \/
    (t = ioe_ticker e /\ id = io_id (ioe_order e) /\ bid = nb /\ (id ∈ omap opening_id sts \/ id ∈ lost'))).
  { intros t id bid [[-> Hr]|[_ Hr]]%worked_rests; [|auto]. destruct (Hrest _ _ Hr) as [|(-> & -> & ?)]; auto. }
  split; try apply HI.
  - apply worked_single.
  - apply worked_books.
  - apply worked_queue_ok.
  - rewrite Hu. apply HI.
  - intros id. rewrite Hu. apply HI.
  - cbn [s' worked statusQueue]. rewrite omap_app, Hc, app_nil_r. apply HI.
  - intros id. cbn [s' worked statusQueue]. rewrite omap_app, Hc, app_nil_r. intros Hid'.
    destruct (i_cancelled _ _ _ HI _ Hid') as (H1 & H2 & H3). split; [done|]. split; [done|].
    intros t bid [Hr'|(_ & -> & _)]%Hr; [by apply (H3 t bid)|]. congruence.
  - intros t id bid H. cbn [s' worked statusQueue]. rewrite omap_app, elem_of_app.
    apply Hr in H as [Hr'|(-> & -> & -> & Ho)]; [|split; [done|]; naive_solver].
    destruct (i_rests _ _ _ HI _ _ _ Hr') as [H1 H2]. split; [done|]. naive_solver.
  - intros t b1 t' b2 id [H1|(-> & -> & -> & _)]%Hr [H2|(-> & E2 & -> & _)]%Hr.
    + by apply (i_once _ _ _ HI _ _ _ _ _ H1 H2).
    + subst id. by apply (queued_not_resting e _ t b1) in H1.
    + by apply (queued_not_resting e _ t' b2) in H2.
    + done.
Qed.

Lemma worked_who sq l : map (who (worked sq)) l = map (who s) l.
Proof. by apply (who_same s (worked sq)). Qed.

Lemma worked_cancelling sq : ioe_action e <> Cancel ->
  cancelling s ≡ₚ omap cancel_event_id (events (worked sq)) ++ omap cancelled_id (statusQueue s).
Proof.
  intros Hne. unfold cancelling. rewrite (worked_events sq). cbn [omap list_omap]. unfold cancel_event_id at 1.
  by rewrite bool_decide_false.
Qed.

(** The new order's status did not reach the gateway: the system bus hears
    of it, the client does not. *)
Lemma lost_advances er nb :
  ioe_action e <> Cancel ->
  (forall id bid, rests a id bid -> rests_in s (ioe_ticker e) id bid \/ id = io_id (ioe_order e) /\ bid = nb) ->
  run_op s (Work w) = Ok (worked (statusQueue s), [ToSystemBus er]) -> advances s lost (Work w).
Proof.
  intros Hne Hrs Er.
  assert (Hperm : under_way (worked (statusQueue s ++ [])) ++ io_id (ioe_order e) :: lost ≡ₚ under_way s ++ lost).
  { rewrite app_nil_r. unfold under_way. cbn [worked statusQueue].
    assert (Hu : omap new_id (events s) ≡ₚ io_id (ioe_order e) :: omap new_id (events (worked (statusQueue s)))).
    { rewrite (worked_events (statusQueue s)). cbn [omap list_omap]. unfold new_id at 1. by rewrite bool_decide_false. }
    rewrite Hu. cbn [worked]. solve_Permutation. }
  assert (HI' : Inv (worked (statusQueue s ++ [])) out (io_id (ioe_order e) :: lost)).
  { apply (work_new_inv [] (io_id (ioe_order e) :: lost) nb); try done; [by right|by intros st ?%elem_of_nil|].
    intros id bid H. destruct (Hrs id bid H) as [|[-> ->]]; [by left|]. right. split; [done|]. split; [done|]. right. left. }
  rewrite app_nil_r in Hperm, HI'.
  eexists _, _, out, (io_id (ioe_order e) :: lost). split; [exact Er|]. split; [done|]. split; [|split; [cbn; lia|]].
  - rewrite worked_who. cbn [app due answered omap list_omap]. by rewrite Hperm.
  - apply facts_frame; [done|by intros st' ?%list_elem_of_singleton|]. cbn [asks_cancel app].
    by rewrite (worked_cancelling (statusQueue s) Hne).
Qed.
End Work.

Lemma work_new_advances w e q :
  Market.workers_ (coord s) !! w = Some (e :: q) -> ioe_action e <> Cancel -> advances s lost (Work w).
Proof.
  intros Hq Hne. pose proof (i_events _ _ _ HI) as He. rewrite Forall_forall in He.
  destruct (He e) as [[td Htd] Hok]; [unfold events; rewrite (concat_pop _ _ _ _ Hq); left|].
  destruct (Hok Hne) as [Hev Hlt]. destruct (i_books _ _ _ HI _ _ Htd) as [_ [a HR]].
  destruct (BookProps.add_new_ok _ a e HR Hne Hev Hlt) as (b & E & HR').
  destruct (BookMatch.match_ok _ a (ioe_order e) (Book.getSide (ioe_action e)) HR)
    as (_ & _ & _ & Hrem); [destruct Hev; lia|by destruct Hev|].
  pose proof (BookProps.spec_new_cases a (Book.getSide (ioe_action e)) (ioe_order e) Hrem) as Hcase.
  cbn zeta in Hcase. pose proof (new_rests a (Book.getSide (ioe_action e)) (ioe_order e)) as Hnr.
  destruct (BookSpec.spec_new a _ _) as [a' msgs]. cbn [fst snd] in *.
  pose proof (worked_step w e q td b Hq Htd msgs true E) as Estep.
  assert (Hu : forall sq, omap new_id (events s) ≡ₚ io_id (ioe_order e) :: omap new_id (events (worked w e q td b sq))).
  { intros sq. rewrite (worked_events w e q td b Hq sq). cbn [omap list_omap]. unfold new_id at 1.
    by rewrite bool_decide_false. }
  assert (Hm : (exists st, msgs = [Book.PostStatus st] /\ ios_id st = io_id (ioe_order e) /\ ios_state st <> Cancelled) \/
    msgs = [Book.PostError (mkInternalError SError "OrderBook is full")]).
  { destruct Hcase as [[_ ->]|[(lid & _ & -> & _)|[_ ->]]]; [left; eexists; by split|left; eexists; split; [done|]|by right].
    cbn. split; [done|]. by destruct (_ =? 0). }
  assert (Hlost : forall er, (forall id bid, rests a' id bid -> rests_in s (ioe_ticker e) id bid \/
      exists st, msgs = [Book.PostStatus st] /\ ios_id st = id /\ id = io_id (ioe_order e) /\ bid = ios_bookOId st) ->
    run_op s (Work w) = Ok (worked w e q td b (statusQueue s), [ToSystemBus er]) -> advances s lost (Work w)).
  { intros er Hrs Er. apply (lost_advances w e q td b Hq Htd a' HR' er (match msgs with [Book.PostStatus st] => ios_bookOId st | _ => 0 end)); try done.
    intros id bid H. destruct (Hrs id bid H) as [|(st & -> & <- & ? & ->)]; auto. }
  destruct Hm as [(st & -> & Eid & Hst)| ->]; cbn [postMsgs] in Estep.
  - assert (Hrs : forall id bid, rests a' id bid -> rests_in s (ioe_ticker e) id bid \/
      id = io_id (ioe_order e) /\ bid = ios_bookOId st /\ id ∈ omap opening_id [st]).
    { intros id bid [Hr|(-> & st' & [= <-] & <- & Ho & <-)]%Hnr; [left; apply (rests_before e td Htd); eauto|right].
      split; [done|]. split; [done|]. cbn. unfold opening_id. rewrite Ho, Eid. left. }
    destruct (Market.lfqPost_cases "gateway" (statusQueue s) st) as [Ep|Ep]; rewrite Ep in Estep; cbn [map app] in Estep.
    2: { apply (Hlost _ ltac:(intros id bid H; destruct (Hrs id bid H) as [|(-> & -> & _)]; [auto|right; eauto]) Estep). }
    assert (Hperm : under_way (worked w e q td b (statusQueue s ++ [st])) ++ lost ≡ₚ under_way s ++ lost).
    { apply Permutation_app_tail. unfold under_way. rewrite (Hu (statusQueue s ++ [st])). cbn [worked statusQueue].
      rewrite omap_app. cbn [omap list_omap]. unfold answer_id at 2. rewrite bool_decide_false, Eid by done.
      solve_Permutation. }
    eexists _, _, out, lost. split; [exact Estep|]. split; [|split; [|split; [lia|]]].
    + apply (work_new_inv w e q td b Hq Htd a' HR' [st] lost (ios_bookOId st)); try done.
      * intros st' ->%list_elem_of_singleton. done.
      * intros id bid H. destruct (Hrs id bid H) as [|(? & ? & ?)]; auto.
    + rewrite (worked_who w e q td b). cbn [app due answered omap list_omap]. by rewrite Hperm.
    + apply facts_frame; [done|by intros st' ?%elem_of_nil|]. cbn [asks_cancel app].
      rewrite (worked_cancelling w e q td b Hq (statusQueue s ++ [st]) Hne). unfold cancelling. cbn [worked statusQueue]. rewrite omap_app.
      cbn [omap list_omap]. unfold cancelled_id at 2. by rewrite bool_decide_false, app_nil_r.
  - apply (Hlost _ ltac:(intros id bid [Hr|(_ & st & [=] & _)]%Hnr; left; apply (rests_before e td Htd); eauto) Estep).
Qed.

(** The worker took the cancel of a resting order: it no longer rests, and
    [k] is the status of it that reached the gateway's queue, if any did. *)
Lemma work_cancel_inv w e q td b a p sd x (k : list Z) sq' :
  Market.workers_ (coord s) !! w = Some (e :: q) -> Market.data_ (coord s) !! ioe_ticker e = Some td ->
  ioe_action e = Cancel -> Gateway.r_state (rec s (io_id (ioe_order e))) = Gateway.RAccepted ->
  BookSpec.Rep (Market.orderBook td) a -> x ∈ BookSpec.a_queue a sd p ->
  BookSpec.e_sys x = io_id (ioe_order e) -> BookSpec.e_id x = io_bookOId (ioe_order e) ->
  BookSpec.Rep b (BookSpec.spec_cancel a sd p (BookSpec.e_id x)) ->
  omap cancelled_id sq' = omap cancelled_id (statusQueue s) ++ k -> (k = [] \/ k = [io_id (ioe_order e)]) ->
  omap opening_id sq' = omap opening_id (statusQueue s) -> omap answer_id sq' = omap answer_id (statusQueue s) ->
  under_way (worked w e q td b sq') ≡ₚ under_way s /\ Inv (worked w e q td b sq') out lost.
Proof.
  intros Hq Htd Ha Hacc HR Hx Esys Ebid HR' Hcan Hk Hope Hans.
  set (id := io_id (ioe_order e)) in *. set (bid := io_bookOId (ioe_order e)) in *. set (s' := worked w e q td b sq') in *.
  assert (Hrs : rests_in s (ioe_ticker e) id bid) by (exists a; split; [by exists td|by exists sd, p, x]).
  assert (Hu : under_way s' ≡ₚ under_way s).
  { unfold under_way. rewrite (worked_events w e q td b Hq sq'). fold s'. cbn [omap list_omap].
    unfold new_id at 2. rewrite bool_decide_true by done. cbn [s' worked statusQueue]. by rewrite Hans. }
  assert (Hr : forall t i b', rests_in s' t i b' -> rests_in s t i b' /\ i <> id).
  { intros t i b' H. assert (Hr0 : rests_in s t i b' /\ ~ (t = ioe_ticker e /\ b' = bid)).
    { apply (worked_rests w e q td b _ HR') in H as [[-> H]|[Hne H]]; [|tauto].
      apply (cancel_rests a sd p x) in H as [H Hne]; [|by apply (BookSpec.rep_wf _ _ HR)|done].
      split; [|intros [_ ->]; congruence]. exists a. split; [by exists td|done]. }
    destruct Hr0 as [Hr0 Hn]. split; [done|]. intros ->. apply Hn. by apply (i_once _ _ _ HI _ _ _ _ id). }
  split; [done|]. split; try apply HI.
  - apply (worked_single w e q td b).
  - by apply (worked_books w e q td b Htd (BookSpec.spec_cancel a sd p (BookSpec.e_id x))).
  - by apply (worked_queue_ok w e q td b Hq).
  - rewrite Hu. apply HI.
  - intros i. rewrite Hu. apply HI.
  - cbn [s' worked statusQueue]. rewrite Hcan. apply NoDup_app. split; [apply HI|].
    destruct Hk as [-> | ->]; [split; [by intros i _ ?%elem_of_nil|constructor]|split; [|apply NoDup_singleton]].
    intros i Hi ->%list_elem_of_singleton. destruct (i_cancelled _ _ _ HI _ Hi) as (_ & _ & Hn). by apply (Hn _ _ Hrs).
  - intros i. cbn [s' worked statusQueue]. rewrite Hcan, elem_of_app. intros [Hi|Hi].
    + destruct (i_cancelled _ _ _ HI _ Hi) as (H1 & H2 & H3). split; [done|]. split; [done|].
      intros t b' [H _]%Hr. by apply (H3 t b').
    + destruct Hk as [-> | ->]; [by apply elem_of_nil in Hi|]. apply list_elem_of_singleton in Hi as ->.
      split; [by apply (i_rests _ _ _ HI _ _ _ Hrs)|]. split; [done|]. by intros t b' [_ ?]%Hr.
  - intros t i b' [H _]%Hr. cbn [s' worked statusQueue]. rewrite Hope. by apply (i_rests _ _ _ HI t i b').
  - intros t b1 t' b2 i [H1 _]%Hr [H2 _]%Hr. by apply (i_once _ _ _ HI _ _ _ _ i).
Qed.

Lemma work_cancel_advances w e q :
  Market.workers_ (coord s) !! w = Some (e :: q) -> ioe_action e = Cancel -> cancel_live s e ->
  advances s lost (Work w).
Proof.
  intros Hq Ha (Hacc & a & (td & Htd & HR) & (sd & p & x & Hx & Esys & Ebid)).
  destruct (BookOps.cancelOrder_live _ a sd p x (ioe_order e) HR Hx ltac:(done)) as (b & E & HR').
  set (st := mkInternalOrderStatus (io_id (ioe_order e)) (io_bookOId (ioe_order e)) 0 0 Cancelled).
  assert (Eadd : Book.add (Market.orderBook td) e = Ok (b, [Book.PostStatus st], true)).
  { unfold Book.add. rewrite Ha, E. by rewrite Ebid. }
  pose proof (worked_step w e q td b Hq Htd _ true Eadd) as Estep. cbn [postMsgs] in Estep.
  assert (Hcs : forall sq', omap cancel_event_id (events s) ≡ₚ io_id (ioe_order e) :: omap cancel_event_id (events (worked w e q td b sq'))).
  { intros sq'. rewrite (worked_events w e q td b Hq sq') at 1. cbn [omap list_omap]. unfold cancel_event_id at 1.
    by rewrite bool_decide_true. }
  destruct (Market.lfqPost_cases "gateway" (statusQueue s) st) as [Ep|Ep]; rewrite Ep in Estep; cbn [map app] in Estep.
  - assert (Hcan : omap cancelled_id (statusQueue s ++ [st]) = omap cancelled_id (statusQueue s) ++ [io_id (ioe_order e)])
      by (by rewrite omap_app).
    destruct (work_cancel_inv w e q td b a p sd x [io_id (ioe_order e)] (statusQueue s ++ [st])) as [Hu HI'];
      try done; try (by right); try (by rewrite omap_app; cbn; rewrite app_nil_r).
    eexists _, _, out, lost. split; [exact Estep|]. split; [done|]. split; [|split; [lia|]].
    + rewrite (worked_who w e q td b). cbn [app due answered omap list_omap]. by rewrite Hu.
    + apply facts_frame; [done|by intros st' ?%elem_of_nil|]. cbn [asks_cancel app]. unfold cancelling.
      rewrite (Hcs (statusQueue s ++ [st])). cbn [worked statusQueue]. rewrite Hcan. apply Permutation_submseteq. solve_Permutation.
  - destruct (work_cancel_inv w e q td b a p sd x [] (statusQueue s)) as [Hu HI']; try done; try (by rewrite app_nil_r); try (by left).
    eexists _, _, out, lost. split; [exact Estep|]. split; [done|]. split; [|split; [cbn; lia|]].
    + rewrite (worked_who w e q td b). cbn [app due answered omap list_omap]. by rewrite Hu.
    + apply facts_frame; [done|by intros st' ?%list_elem_of_singleton|]. cbn [asks_cancel app]. unfold cancelling.
      rewrite (Hcs (statusQueue s)). cbn [worked statusQueue app]. by apply submseteq_cons.
Qed.

Lemma work_advances w : op_ok s (Work w) -> advances s lost (Work w).
Proof.
  intros Hok. destruct (Market.workers_ (coord s) !! w) as [[|e q]|] eqn:Hq.
  2: { destruct (decide (ioe_action e = Cancel)) as [Ha|Hne]; [|by apply (work_new_advances w e q)].
       apply (work_cancel_advances w e q); try done. by apply (Hok e q). }
  all: exists (mkState (gateway s) (coord s) (statusQueue s)), [], out, lost;
    (split; [cbn [run_op]; erewrite work_single; [|unfold Market.matcher_step; by rewrite Hq|apply HI..]; done|]);
    (split; [eapply server_Inv_frame; [exact HI|..]; try done; apply HI|]); (split; [done|]); (split; [cbn; lia|]);
    by apply facts_frame; [done|intros st ?%elem_of_nil|].
Qed.

(** ** The gateway delivers a status *)

Section Deliver.
Context (st : InternalOrderStatus) (q : list InternalOrderStatus) (Hsq : statusQueue s = st :: q).
Context (o1 o2 : list Z) (g : Gateway.State).

Abbreviation final := (Gateway.is_final (ios_state st)).

Definition delivered : State := mkState g (coord s) q.
Definition out' : list Z := if final then o1 ++ o2 else out.

Context (Hout : out = o1 ++ ios_id st :: o2) (HG : Gateway.Inv g out') (Hcl : Gateway.closed_ g = false).
Context (Hoth : forall i, i <> index (ios_id st) -> Gateway.record g i = Gateway.record (gateway s) i).
Context (Hrec : Gateway.r_state (Gateway.record g (index (ios_id st))) =
  if final then Gateway.RClosed else Gateway.RAccepted).

Lemma delivered_rests t id b : rests_in delivered t id b <-> rests_in s t id b.
Proof. done. Qed.

Lemma delivered_other id : id ∈ out -> id <> ios_id st -> rec delivered id = rec s id.
Proof.
  intros Hid Hne. apply Hoth. intros Ei. apply Hne.
  apply (Gateway.out_index_inj (gateway s) out); try done; [apply HI|]. rewrite Hout, elem_of_app. right. left.
Qed.

Lemma out'_spec id : id ∈ out' <-> id ∈ out /\ (final = true -> id <> ios_id st).
Proof.
  unfold out'. destruct final; [|naive_solver].
  pose proof (Gateway.out_nodup _ _ (i_gateway _ _ _ HI)) as Hnd. apply NoDup_fmap_1 in Hnd.
  rewrite Hout in Hnd |- *. rewrite <- Permutation_middle in Hnd |- *. apply NoDup_cons in Hnd as [Hni Hnd].
  rewrite elem_of_cons. split; [intros H|intros [[->|H] Hne]; [by destruct (Hne eq_refl)|done]].
  split; [by right|]. intros _ ->. done.
Qed.

(** The status answers a new order: it is no longer under way. *)
Lemma deliver_answer_inv :
  ios_state st <> Cancelled ->
  under_way s ++ lost ≡ₚ ios_id st :: (under_way delivered ++ lost) /\ Inv delivered out' lost.
Proof.
  intros Hne.
  assert (Hu : under_way s ++ lost ≡ₚ ios_id st :: (under_way delivered ++ lost)).
  { unfold under_way. rewrite Hsq. cbn [omap list_omap]. unfold answer_id at 1.
    rewrite bool_decide_false by done. change (events delivered) with (events s). cbn [delivered statusQueue].
    solve_Permutation. }
  split; [done|]. pose proof (i_nodup _ _ _ HI) as Hnd. rewrite Hu in Hnd. apply NoDup_cons in Hnd as [Hni Hnd].
  destruct (proj1 (i_fresh _ _ _ HI (ios_id st))) as [Hin Hnew]; [rewrite Hu; left|].
  assert (Hc : omap cancelled_id (statusQueue s) = omap cancelled_id q).
  { rewrite Hsq. cbn. unfold cancelled_id at 1. by rewrite bool_decide_false. }
  assert (Hq : forall id, id ∈ omap opening_id q -> id <> ios_id st).
  { intros id Hid ->. apply Hni. unfold under_way. rewrite !elem_of_app. left. right.
    cbn [delivered statusQueue]. apply list_elem_of_omap in Hid as (st' & Hst' & E). apply list_elem_of_omap.
    exists st'. split; [done|]. unfold opening_id, opens, answer_id in *. by destruct (ios_state st'). }
  split; try done; try apply HI.
  - intros id. rewrite out'_spec. split.
    + intros Hid. assert (Hn : id <> ios_id st) by (intros ->; done).
      destruct (proj1 (i_fresh _ _ _ HI id)) as [Ho Hs]; [rewrite Hu; by right|].
      split; [done|]. by rewrite delivered_other.
    + intros [[Ho Hf] Hs]. destruct (decide (id = ios_id st)) as [->|Hn].
      { change (rec delivered (ios_id st)) with (Gateway.record g (index (ios_id st))) in Hs.
        rewrite Hrec in Hs. by destruct final. }
      rewrite delivered_other in Hs by done. pose proof (proj2 (i_fresh _ _ _ HI id) (conj Ho Hs)) as H.
      rewrite Hu in H. by apply elem_of_cons in H as [|].
  - cbn [delivered statusQueue]. rewrite <- Hc. apply HI.
  - intros id. cbn [delivered statusQueue]. rewrite <- Hc. intros Hid.
    destruct (i_cancelled _ _ _ HI _ Hid) as (Ho & Hs & Hn).
    assert (Hid' : id <> ios_id st) by congruence. rewrite out'_spec. split; [done|].
    split; [|done]. by rewrite delivered_other.
  - intros t id b Hr. destruct (i_rests _ _ _ HI _ _ _ Hr) as [Ho Hs]. rewrite out'_spec.
    destruct (decide (id = ios_id st)) as [->|Hn].
    + assert (Hf : final = false).
      { destruct Hs as [Hs|[Hs|Hs]]; [congruence| |by destruct Hni; rewrite elem_of_app; right]. rewrite Hsq in Hs. cbn in Hs. unfold opening_id at 1, opens in Hs.
        destruct (ios_state st); try done; apply Hq in Hs; done. }
      rewrite Hf. split; [done|]. left. cbn [delivered gateway]. by rewrite Hrec, Hf.
    + split; [done|]. rewrite delivered_other by done. destruct Hs as [Hs|[Hs|Hs]]; [by left|right; left|by right; right].
      rewrite Hsq in Hs. cbn in Hs. unfold opening_id at 1 in Hs. destruct (opens st); [|done].
      by apply elem_of_cons in Hs as [|].
Qed.

(** The status closes an order that was cancelled. *)
Lemma deliver_cancelled_inv : ios_state st = Cancelled -> under_way delivered = under_way s /\ Inv delivered out' lost.
Proof.
  intros Hst. assert (Hf : final = true) by (by rewrite Hst).
  assert (Hu : under_way delivered = under_way s).
  { unfold under_way. rewrite Hsq. cbn [omap list_omap]. unfold answer_id at 2. by rewrite bool_decide_true. }
  assert (Hc : omap cancelled_id (statusQueue s) = ios_id st :: omap cancelled_id q).
  { rewrite Hsq. cbn. unfold cancelled_id at 1. by rewrite bool_decide_true. }
  assert (Hop : omap opening_id (statusQueue s) = omap opening_id q).
  { rewrite Hsq. cbn. unfold opening_id at 1, opens. by rewrite Hst. }
  destruct (i_cancelled _ _ _ HI (ios_id st)) as (Hin & Hacc & Hnr); [rewrite Hc; left|].
  pose proof (i_cnodup _ _ _ HI) as Hcn. rewrite Hc in Hcn. apply NoDup_cons in Hcn as [Hcni Hcn].
  split; [done|]. split; try done; try apply HI.
  - rewrite Hu. apply HI.
  - intros id. rewrite Hu, out'_spec, Hf, (i_fresh _ _ _ HI). split.
    + intros [Ho Hs]. assert (Hn : id <> ios_id st) by congruence. split; [done|]. by rewrite delivered_other.
    + intros [[Ho Hn] Hs]. split; [done|]. rewrite delivered_other in Hs; auto.
  - intros id Hid. destruct (i_cancelled _ _ _ HI id) as (Ho & Hs & Hn); [rewrite Hc; by right|].
    assert (Hne : id <> ios_id st) by (intros ->; done). rewrite out'_spec. split; [done|].
    split; [|done]. by rewrite delivered_other.
  - intros t id b Hr. destruct (i_rests _ _ _ HI _ _ _ Hr) as [Ho Hs].
    assert (Hne : id <> ios_id st) by (intros ->; by apply (Hnr t b)). rewrite out'_spec. split; [done|].
    rewrite delivered_other by done. cbn [delivered statusQueue]. by rewrite <- Hop.
Qed.

Lemma deliver_facts :
  Gateway.r_clientId (Gateway.record g (index (ios_id st))) = Gateway.r_clientId (rec s (ios_id st)) ->
  Gateway.r_externalOId (Gateway.record g (index (ios_id st))) = Gateway.r_externalOId (rec s (ios_id st)) ->
  (ios_state st <> Cancelled -> Gateway.r_state (rec s (ios_id st)) = Gateway.RNew) -> ios_id st ∈ out ->
  step_facts s Deliver delivered [ToClient (mkServerOrderStatus (Gateway.r_clientId (rec s (ios_id st)))
    (mkOrderStatus (Gateway.r_externalOId (rec s (ios_id st))) (ios_id st) (ios_fillQty st) (ios_fillPrice st) (ios_state st)))].
Proof.
  intros Hc He Hnew Hin. split.
  - intros sys Ha. pose proof (accepted_open _ _ _ (i_gateway _ _ _ HI) Ha) as Hsys.
    destruct (decide (sys = ios_id st)) as [->|Hne].
    + destruct (decide (ios_state st = Cancelled)) as [Hs|Hs].
      * right. unfold told_cancelled. cbn. rewrite bool_decide_true by done. left.
      * destruct Ha as [_ Ha]. rewrite (Hnew Hs) in Ha. discriminate.
    + left. unfold accepted, who. by rewrite !delivered_other.
  - intros st' [= ->]%list_elem_of_singleton. unfold truthful. cbn.
    assert (Hopen : final = false -> accepted delivered (ios_id st) /\ who delivered (ios_id st) = who s (ios_id st)).
    { intros Hf. unfold accepted, who. cbn [delivered gateway]. rewrite Hc, He, Hrec, Hf. split; [|done]. split; [|done].
      apply (Gateway.gw_open _ _ HG). unfold out'. by rewrite Hf. }
    destruct (ios_state st) eqn:Es; try done; try (by apply Hopen).
    split; [|done]. unfold cancelling. rewrite Hsq, elem_of_app. right. cbn. unfold cancelled_id at 1.
    rewrite Es, bool_decide_true by done. left.
  - unfold told_cancelled, cancelling. rewrite Hsq. change (events delivered) with (events s). cbn.
    unfold cancelled_id at 2. case_bool_decide; [|done]. apply Permutation_submseteq. solve_Permutation.
Qed.
End Deliver.

Lemma deliver_advances : advances s lost Deliver.
Proof.
  destruct (statusQueue s) as [|st q] eqn:Hsq.
  { exists s, [], out, lost. split; [cbn [run_op]; unfold deliver; by rewrite Hsq|]. split; [done|]. split; [done|]. split; [cbn; lia|].
    by apply facts_frame; [done|intros st ?%elem_of_nil|]. }
  assert (Hin : ios_id st ∈ out).
  { destruct (decide (ios_state st = Cancelled)) as [Hs|Hs].
    - apply (i_cancelled _ _ _ HI). rewrite Hsq. cbn. unfold cancelled_id at 1. rewrite bool_decide_true by done. left.
    - apply (i_fresh _ _ _ HI). unfold under_way. rewrite Hsq, !elem_of_app. left. right. cbn. unfold answer_id at 1.
      rewrite bool_decide_false by done. left. }
  destruct (list_elem_of_split _ _ Hin) as (o1 & o2 & Hout).
  pose proof (i_gateway _ _ _ HI) as HG0. rewrite Hout in HG0.
  destruct (Gateway.postStatus_ok (gateway s) o1 _ o2 st HG0 (i_open _ _ _ HI) eq_refl)
    as (g & E & HG & Hoth & Hrec & _ & Hcl' & Hex). rewrite <- Hout in HG.
  pose proof (Gateway.postStatus_closed _ _ _ _ E) as Hcl. rewrite (i_open _ _ _ HI) in Hcl.
  assert (Estep : forall outs, Gateway.postStatus (gateway s) st = Ok (g, [Gateway.OutStatus outs]) ->
    run_op s Deliver = Ok (delivered q g, [ToClient outs])).
  { intros outs Eo. cbn [run_op]. unfold deliver. by rewrite Hsq, Eo. }
  apply Estep in E as E'. eexists _, _, (out' st o1 o2), lost. split; [exact E'|].
  destruct (decide (ios_state st = Cancelled)) as [Hs|Hs].
  - destruct (deliver_cancelled_inv st q Hsq o1 o2 g Hout HG Hcl Hoth Hrec Hs) as [Hu HI'].
    split; [done|]. split; [|split; [cbn; lia|by apply (deliver_facts st q Hsq o1 o2 g)]].
    cbn [due app answered omap list_omap sos_orderStatus os_state]. rewrite bool_decide_true by done. cbn [app]. rewrite Hu, (who_same s (delivered q g)); [done|].
    intros id Hid. apply (i_fresh _ _ _ HI) in Hid as [Ho Hn]. apply Hoth. intros Ei.
    assert (id = ios_id st) as -> by (by apply (Gateway.out_index_inj (gateway s) out); [apply HI|..]).
    destruct (i_cancelled _ _ _ HI (ios_id st)) as (_ & Ha & _); [|congruence].
    rewrite Hsq. cbn. unfold cancelled_id at 1. rewrite bool_decide_true by done. left.
  - destruct (deliver_answer_inv st q Hsq o1 o2 g Hout HG Hcl Hoth Hrec Hs) as [Hu HI'].
    assert (Hnew : Gateway.r_state (rec s (ios_id st)) = Gateway.RNew) by (apply (i_fresh _ _ _ HI); rewrite Hu; left).
    split; [done|]. split; [|split; [cbn; lia|by apply (deliver_facts st q Hsq o1 o2 g)]].
    cbn [due app answered omap list_omap sos_orderStatus os_state sos_clientId os_orderId]. rewrite bool_decide_false by done. rewrite Hu. cbn. apply perm_skip.
    rewrite (who_same s (delivered q g)); [reflexivity|]. intros id Hid.
    pose proof (i_nodup _ _ _ HI) as Hnd. rewrite Hu in Hnd. apply NoDup_cons in Hnd as [Hni _].
    apply (delivered_other st q o1 o2 g Hout Hoth); [|by intros ->].
    apply (i_fresh _ _ _ HI). rewrite Hu. by right.
Qed.

Lemma op_advances o : op_ok s o -> advances s lost o.
Proof.
  destruct o; intros Hok; [by apply submit_advances|by apply work_advances|apply deliver_advances].
Qed.

End Step.

(** ** Runs *)

Lemma answered_app l1 l2 : answered (l1 ++ l2) = answered l1 ++ answered l2.
Proof. apply omap_app. Qed.

Lemma bus_errors_app l1 l2 : bus_errors (l1 ++ l2) = (bus_errors l1 + bus_errors l2)%nat.
Proof. unfold bus_errors. by rewrite omap_app, length_app. Qed.

Lemma run_advances ops s out lost :
  Inv s out lost -> run_ok s ops ->
  exists s' sent out' lost', run s ops = Ok (s', sent) /\ Inv s' out' lost' /\
    concat (map due ops) ++ map (who s) (under_way s ++ lost) ≡ₚ
      answered sent ++ map (who s') (under_way s' ++ lost') /\
    (length lost' <= length lost + bus_errors sent)%nat.
Proof.
  revert s out lost. induction ops as [|o ops IH]; intros s out lost HI Hok.
  { exists s, [], out, lost. split; [done|]. split; [done|]. split; [done|cbn; lia]. }
  destruct Hok as [Ho Hok]. destruct (op_advances s out lost HI o Ho) as (s1 & m1 & out1 & lost1 & E1 & HI1 & HP1 & HL1 & _).
  destruct (IH s1 out1 lost1 HI1 (Hok _ _ E1)) as (s2 & m2 & out2 & lost2 & E2 & HI2 & HP2 & HL2).
  exists s2, (m1 ++ m2), out2, lost2. cbn [run]. rewrite E1, E2. split; [done|]. split; [done|].
  rewrite answered_app, bus_errors_app. split; [|lia]. cbn [map concat].
  rewrite <- (assoc_L app), (Permutation_app_swap_app (due o)), HP1, (Permutation_app_swap_app _ (answered m1)), HP2.
  by rewrite (assoc_L app).
Qed.

Lemma server_Inv_init prices coresApp data :
  (length coresApp <= 1)%nat -> Market.loadMarketData (inl prices) coresApp = Ok data ->
  Inv (init data coresApp) [] [] /\ (forall t, t ∈ map tp_ticker prices -> is_Some (data !! t)).
Proof.
  intros H1 E. pose proof (Quiet_init prices coresApp data H1 E) as [G1 G2 G3 G3b G4 G5 G6].
  assert (Hlen : Z.of_nat (length coresApp) < 2 ^ 16) by lia.
  assert (He : events (init data coresApp) = []).
  { unfold events, init. cbn. induction (Z.to_nat _); [done|]. by cbn. }
  assert (Hr : forall t id b, ~ rests_in (init data coresApp) t id b).
  { intros t id b (a & (td & Ht & HR) & Hrs). cbn in Ht.
    destruct (Market.load_facts prices coresApp data Hlen E) as (l & -> & _).
    apply Market.emplace_all_lookup in Ht as [Ht|(y & _ & _ & ->)]; [by rewrite lookup_empty in Ht|].
    destruct (Rep_rests _ _ BookSpec.a_init _ _ HR BookProps.Rep_init Hrs) as (sd & p & e & H & _).
    by apply elem_of_nil in H. }
  split.
  - split; try done.
    + by rewrite He.
    + unfold under_way. rewrite He. constructor.
    + intros id. unfold under_way. rewrite He. cbn. split; [by intros ?%elem_of_nil|]. by intros [?%elem_of_nil _].
    + constructor.
    + by intros id ?%elem_of_nil.
    + by intros t id b ?%Hr.
    + by intros t b t' b' id ?%Hr.
  - intros t Ht. destruct (Market.load_facts prices coresApp data Hlen E) as (l & -> & Hl & _).
    apply list_elem_of_fmap in Ht as (tp & -> & Htp). rewrite <- Hl in Htp.
    apply list_elem_of_fmap in Htp as (x & -> & Hx). by apply Market.emplace_all_in.
Qed.

(** ** Runs without cancels *)

Definition no_cancels (s : State) : Prop := Forall (fun e => ioe_action e <> Cancel) (events s).

Lemma postOrder_event s so s' outs e :
  Gateway.postOrder s so = Ok (s', outs) -> Gateway.OutEvent e ∈ outs -> ioe_action e = o_action (so_order so).
Proof.
  assert (Hnil : Gateway.OutEvent e ∈ [] -> ioe_action e = o_action (so_order so)) by (by intros ?%elem_of_nil).
  assert (Hrej : Gateway.OutEvent e ∈ [Gateway.reject so] -> ioe_action e = o_action (so_order so))
    by (by intros ?%list_elem_of_singleton).
  unfold Gateway.postOrder. destruct (Gateway.closed_ s); [intros [= _ <-]; auto|].
  destruct (Gateway.isValid so); cbn [negb]; [|intros [= _ <-]; auto].
  assert (Hnew : Gateway.newOrder s so = Ok (s', outs) -> Gateway.OutEvent e ∈ outs -> ioe_action e = o_action (so_order so)).
  { unfold Gateway.newOrder. destruct (Pool.acquire _ _) as [[p id]|]; [|done]. intros H.
    intros He. destruct (negb _); destruct_res; [auto|]. by apply list_elem_of_singleton in He as [= ->]. }
  destruct (o_action (so_order so)) eqn:Ea; auto; try (intros [= _ <-]; auto; fail).
  intros H He. destruct (Gateway.cancelOrder_outs _ _ _ _ H) as [->|(e' & -> & Ee & _)]; [auto|].
  apply list_elem_of_singleton in He as [= ->]. congruence.
Qed.

Lemma post_frame c e c' errs :
  Market.post c e = Ok (c', errs) -> Market.data_ c' = Market.data_ c /\
  forall x, x ∈ concat (Market.workers_ c') -> x = e \/ x ∈ concat (Market.workers_ c).
Proof.
  unfold Market.post. destruct (Market.stopped_ c); [intros [= <- _]; auto|].
  destruct (Market.data_ c !! ioe_ticker e) as [td|]; [|intros [= <- _]; auto].
  destruct (Market.workers_ c !! _) as [q|] eqn:Eq; [|done]. cbn zeta.
  destruct (Market.lfqPost_cases (default "" (Market.names_ c !! Z.to_nat (Market.workerId td))) q e) as [->| ->];
    intros [= <- _]; (split; [done|]); cbn.
  - intros x. rewrite (concat_push _ _ _ _ Eq). by intros ?%elem_of_cons.
  - rewrite list_insert_id by done. auto.
Qed.

Lemma route_frame outs s s' sent :
  route s outs = Ok (s', sent) ->
  Market.data_ (coord s') = Market.data_ (coord s) /\ statusQueue s' = statusQueue s /\
  (forall e, e ∈ events s' -> e ∈ events s \/ Gateway.OutEvent e ∈ outs).
Proof.
  revert s s' sent. induction outs as [|[st|e] outs IH]; intros s s' sent; cbn [route].
  - intros [= <- _]. auto.
  - destruct (route s outs) as [[s1 m]|] eqn:E; [|done]. intros [= <- _].
    destruct (IH _ _ _ E) as (H1 & H2 & H3). split; [done|]. split; [done|].
    intros e [He|He]%H3; [by left|right]. by right.
  - destruct (Market.post (coord s) e) as [[c errs]|] eqn:Ep; [|done].
    destruct (route _ outs) as [[s1 m]|] eqn:E; [|done]. intros [= <- _].
    destruct (IH _ _ _ E) as (H1 & H2 & H3). destruct (post_frame _ _ _ _ Ep) as [D1 D2].
    split; [by rewrite H1|]. split; [done|]. intros x [Hx|Hx]%H3; [|right; by right].
    destruct (D2 x Hx) as [->|]; [right; left|by left].
Qed.

(** The steps keep the traded tickers; a worker's step takes one event. *)
Lemma work_frame s w s' sent :
  run_op s (Work w) = Ok (s', sent) ->
  (forall t, is_Some (Market.data_ (coord s) !! t) -> is_Some (Market.data_ (coord s') !! t)) /\
  match Market.workers_ (coord s) !! w with
  | Some (e :: _) => events s ≡ₚ e :: events s'
  | _ => events s' = events s
  end.
Proof.
  cbn [run_op]. unfold work, Market.matcher_step.
  destruct (Market.workers_ (coord s) !! w) as [[|e q]|] eqn:Eq.
  1, 3: cbn; rewrite andb_false_r; by intros [= <- _].
  destruct (Market.data_ (coord s) !! ioe_ticker e) as [td|] eqn:Et; [|done].
  destruct (Book.add _ _) as [[[b msgs] r]|]; [|done]. destruct (_ && _)%bool; [done|].
  destruct (postMsgs _ _ _) as [sq m]. intros [= <- _]. split.
  - cbn. intros t Ht. destruct (decide (ioe_ticker e = t)) as [<-|Hne];
      [by rewrite lookup_insert_eq|by rewrite lookup_insert_ne by done].
  - unfold events. cbn. by apply concat_pop.
Qed.

Lemma deliver_frame s s' sent :
  run_op s Deliver = Ok (s', sent) ->
  Market.data_ (coord s') = Market.data_ (coord s) /\ statusQueue s' = tail (statusQueue s) /\
  (forall e, e ∈ events s' -> e ∈ events s).
Proof.
  cbn [run_op]. unfold deliver. destruct (statusQueue s) as [|st q] eqn:Eq; [intros [= <- _]; by rewrite Eq|].
  destruct (Gateway.postStatus (gateway s) st) as [[g outs]|] eqn:E; [|done]. intros Hr.
  destruct (route_frame _ _ _ _ Hr) as (H1 & H2 & H3). split; [done|]. split; [done|].
  intros e [He|He]%H3; [done|]. exfalso. revert E He. unfold Gateway.postStatus.
  destruct (Gateway.closed_ _); [by intros [= _ <-] ?%elem_of_nil|].
  destruct (HugeArray.get _ _ _) as [r|]; [|done].
  intros E He. destruct (ios_state st); destruct_res; by apply list_elem_of_singleton in He.
Qed.

Lemma places_frame s o s' sent data :
  run_op s o = Ok (s', sent) -> places_only data o ->
  (forall t, is_Some (data !! t) -> is_Some (Market.data_ (coord s) !! t)) -> no_cancels s ->
  (forall t, is_Some (data !! t) -> is_Some (Market.data_ (coord s') !! t)) /\ no_cancels s'.
Proof.
  unfold no_cancels. rewrite !Forall_forall. intros E Ho Hd Hn. destruct o as [so|w|].
  - destruct Ho as [Ha _]. cbn [run_op] in E. unfold submit in E.
    destruct (Gateway.postOrder (gateway s) so) as [[g outs]|] eqn:Ep; [|done].
    destruct (route_frame _ _ _ _ E) as (H1 & _ & H3). rewrite H1. split; [done|].
    intros e [He|He]%H3; [by apply Hn|]. by rewrite (postOrder_event _ _ _ _ _ Ep He).
  - destruct (work_frame _ _ _ _ E) as [H1 H2]. split; [auto|]. intros e He. apply Hn.
    destruct (Market.workers_ (coord s) !! w) as [[|x q]|]; [by rewrite <- H2| |by rewrite <- H2].
    rewrite H2. by right.
  - destruct (deliver_frame _ _ _ E) as (H1 & _ & H3). rewrite H1. split; [done|]. auto.
Qed.

Lemma places_op_ok s o data :
  places_only data o -> (forall t, is_Some (data !! t) -> is_Some (Market.data_ (coord s) !! t)) ->
  no_cancels s -> op_ok s o.
Proof.
  intros Ho Hd Hn. destruct o as [so|w|]; [|intros e q Hq Ha; exfalso|done].
  - destruct Ho as [_ Ho]. intros Hv Hnew. destruct (Ho Hv Hnew) as (? & ? & ?). auto.
  - unfold no_cancels in Hn. rewrite Forall_forall in Hn. apply (Hn e); [|done].
    unfold events. rewrite (concat_pop _ _ _ _ Hq). left.
Qed.

Lemma places_run_ok ops : forall s data,
  Forall (places_only data) ops -> (forall t, is_Some (data !! t) -> is_Some (Market.data_ (coord s) !! t)) ->
  no_cancels s -> run_ok s ops.
Proof.
  induction ops as [|o ops IH]; intros s data H Hd Hn; [done|]. apply Forall_cons in H as [Ho H].
  split; [by eapply places_op_ok|]. intros s' sent E. destruct (places_frame _ _ _ _ _ E Ho Hd Hn). by apply (IH s' data).
Qed.

Lemma places_run ops : forall s data s' sent,
  run s ops = Ok (s', sent) -> Forall (places_only data) ops ->
  (forall t, is_Some (data !! t) -> is_Some (Market.data_ (coord s) !! t)) -> no_cancels s ->
  (forall t, is_Some (data !! t) -> is_Some (Market.data_ (coord s') !! t)) /\ no_cancels s'.
Proof.
  induction ops as [|o ops IH]; intros s data s' sent E H Hd Hn; [by injection E as <- _|].
  apply Forall_cons in H as [Ho H]. cbn [run] in E.
  destruct (run_op s o) as [[s1 m1]|] eqn:E1; [|done]. destruct (run s1 ops) as [[s2 m2]|] eqn:E2; [|done].
  injection E as <- _. destruct (places_frame _ _ _ _ _ E1 Ho Hd Hn). by apply (IH s1 data s2 m2).
Qed.

(** ** The server catches up *)

Lemma run_app s ops1 ops2 :
  run s (ops1 ++ ops2) = let! (s1, m1) := run s ops1 in let! (s2, m2) := run s1 ops2 in Ok (s2, m1 ++ m2).
Proof.
  revert s. induction ops1 as [|o ops1 IH]; intros s; cbn [run app].
  { by destruct (run s ops2) as [[s2 m2]|]. }
  destruct (run_op s o) as [[s1 m1]|]; [|done]. rewrite IH. destruct (run s1 ops1) as [[s2 m2]|]; [|done].
  destruct (run s2 ops2) as [[s3 m3]|]; [|done]. by rewrite (assoc_L app).
Qed.

Lemma busy_worker s e l : events s ≡ₚ e :: l -> exists w x q, Market.workers_ (coord s) !! w = Some (x :: q).
Proof.
  unfold events. induction (Market.workers_ (coord s)) as [|[|x q] ws IH]; intros H.
  - by apply Permutation_nil_cons in H.
  - destruct (IH H) as (w & x & q & Hw). by exists (S w), x, q.
  - by exists 0%nat, x, q.
Qed.

Lemma own_places data o : own_step o -> places_only data o.
Proof. by destruct o. Qed.

(** Enough steps of the workers empty their queues. *)
Lemma work_drains n : forall (s : State) (out lost : list Z) (data : gmap Ticker Market.TickerData), Inv s out lost -> no_cancels s ->
  (forall t, is_Some (data !! t) -> is_Some (Market.data_ (coord s) !! t)) -> length (events s) = n ->
  exists fin s' sent, Forall own_step fin /\ run s fin = Ok (s', sent) /\ events s' = [].
Proof.
  induction n as [|n IH]; intros s out lost data HI Hn Hd Hlen.
  { exists [], s, []. split; [constructor|]. split; [done|]. by apply nil_length_inv. }
  destruct (events s) as [|e l] eqn:Ee; [done|]. destruct (busy_worker s e l) as (w & x & q & Hw); [by rewrite Ee|].
  destruct (op_advances s out lost HI (Work w)) as (s1 & m1 & out1 & lost1 & E1 & HI1 & _);
    [by apply (places_op_ok s (Work w) data)|].
  destruct (work_frame _ _ _ _ E1) as [_ Hp]. rewrite Hw in Hp.
  destruct (places_frame _ _ _ _ data E1 I Hd Hn) as [Hd1 Hn1].
  destruct (IH s1 out1 lost1 data HI1 Hn1 Hd1) as (fin & s2 & m2 & Hf & E2 & He2).
  { rewrite Ee in Hp. apply Permutation_length in Hp. cbn in Hp, Hlen. lia. }
  exists (Work w :: fin), s2, (m1 ++ m2). split; [by constructor|]. split; [|done]. cbn [run]. by rewrite E1, E2.
Qed.

(** Enough steps of the gateway thread empty the queue of statuses. *)
Lemma deliver_drains n : forall s out lost, Inv s out lost -> events s = [] -> length (statusQueue s) = n ->
  exists s' sent, run s (replicate n Deliver) = Ok (s', sent) /\ events s' = [] /\ statusQueue s' = [].
Proof.
  induction n as [|n IH]; intros s out lost HI He Hlen.
  { exists s, []. split; [done|]. split; [done|]. by apply nil_length_inv. }
  destruct (op_advances s out lost HI Deliver I) as (s1 & m1 & out1 & lost1 & E1 & HI1 & _).
  destruct (deliver_frame _ _ _ E1) as (_ & Hq & Hev). rewrite He in Hev.
  assert (He1 : events s1 = []).
  { destruct (events s1) as [|e l]; [done|]. exfalso. by apply (elem_of_nil e), Hev; left. }
  destruct (IH s1 out1 lost1 HI1 He1) as (s2 & m2 & E2 & H2).
  { rewrite Hq. destruct (statusQueue s); [done|]. cbn in Hlen |- *. lia. }
  exists s2, (m1 ++ m2). split; [|done]. cbn [run replicate]. by rewrite E1, E2.
Qed.

Lemma server_drains (s : State) (out lost : list Z) (data : gmap Ticker Market.TickerData) : Inv s out lost -> no_cancels s ->
  (forall t, is_Some (data !! t) -> is_Some (Market.data_ (coord s) !! t)) ->
  exists fin s' sent, Forall own_step fin /\ run s fin = Ok (s', sent) /\ events s' = [] /\ statusQueue s' = [].
Proof.
  intros HI Hn Hd. destruct (work_drains _ s out lost data HI Hn Hd eq_refl) as (f1 & s1 & m1 & Hf & E1 & He).
  destruct (run_advances f1 s out lost HI) as (s1' & ? & out1 & lost1 & E1' & HI1 & _).
  { apply (places_run_ok f1 s data); try done. eapply Forall_impl; [exact Hf|]. intros o. apply own_places. }
  rewrite E1 in E1'. injection E1' as <- <-.
  destruct (deliver_drains _ s1 out1 lost1 HI1 He eq_refl) as (s2 & m2 & E2 & He2 & Hq2).
  exists (f1 ++ replicate (length (statusQueue s1)) Deliver), s2, (m1 ++ m2).
  split; [apply Forall_app; split; [done|by apply Forall_replicate]|]. split; [|done]. by rewrite run_app, E1, E2.
Qed.

Lemma init_events data coresApp : events (init data coresApp) = [].
Proof. unfold events, init. cbn. induction (Z.to_nat _); [done|]. by cbn. Qed.

(** C4: with one worker, any number of clients submit any orders while the
    worker and the gateway thread take their steps in any order.  Provided new
    orders are for traded tickers and on the price grid, and every cancel the
    worker takes still names an order that rests in that book ([run_ok]), no
    step faults, the components stay consistent ([Inv]), and the ledger
    balances: the orders that call for an answer are, each once, those
    answered to the client that sent them under its own order id, those still
    in a queue, and those lost to a full book or to a full queue, for each of
    which there is an error on the system bus. *)
Theorem server_runs_balanced prices coresApp data ops :
  (length coresApp <= 1)%nat -> Market.loadMarketData (inl prices) coresApp = Ok data ->
  run_ok (init data coresApp) ops ->
  exists s sent out lost, run (init data coresApp) ops = Ok (s, sent) /\ Inv s out lost /\
    concat (map due ops) ≡ₚ answered sent ++ map (who s) (under_way s) ++ map (who s) lost /\
    (length lost <= bus_errors sent)%nat.
Proof.
  intros Hlen E Hok. destruct (server_Inv_init _ _ _ Hlen E) as [HI _].
  destruct (run_advances ops _ _ _ HI Hok) as (s & sent & out & lost & Er & HI' & HP & HL).
  exists s, sent, out, lost. split; [done|]. split; [done|]. split; [|done].
  rewrite <- map_app, <- HP. unfold under_way. rewrite init_events. cbn. by rewrite app_nil_r.
Qed.

(** C5: with one worker and clients that place orders on traded tickers and
    cancel none ([places_only]): however the threads were scheduled so far,
    the server's own threads can catch up.  Some further steps of theirs empty
    every queue without a fault, and then each order that calls for an answer
    has been answered exactly once, to the client that placed it under the id
    that client gave it, or was lost to a full book or a full queue, and there
    is an error on the system bus for each of those. *)
Theorem server_answers_every_order prices coresApp data ops :
  (length coresApp <= 1)%nat -> Market.loadMarketData (inl prices) coresApp = Ok data ->
  Forall (places_only data) ops ->
  exists fin s sent turned_away, Forall own_step fin /\ run (init data coresApp) (ops ++ fin) = Ok (s, sent) /\
    events s = [] /\ statusQueue s = [] /\
    concat (map due ops) ≡ₚ answered sent ++ turned_away /\ (length turned_away <= bus_errors sent)%nat.
Proof.
  intros Hlen E Hops. destruct (server_Inv_init _ _ _ Hlen E) as [HI _].
  assert (Hd : forall t, is_Some (data !! t) -> is_Some (Market.data_ (coord (init data coresApp)) !! t)) by done.
  assert (Hn : no_cancels (init data coresApp)) by (unfold no_cancels; by rewrite init_events).
  destruct (run_advances ops _ _ _ HI (places_run_ok ops _ _ Hops Hd Hn)) as (s1 & m1 & out1 & lost1 & E1 & HI1 & _).
  destruct (places_run ops _ _ _ _ E1 Hops Hd Hn) as [Hd1 Hn1].
  destruct (server_drains s1 out1 lost1 data HI1 Hn1 Hd1) as (fin & s2 & m2 & Hf & E2 & He & Hq).
  assert (Hall : Forall (places_only data) (ops ++ fin)).
  { apply Forall_app. split; [done|]. eapply Forall_impl; [exact Hf|]. intros o. apply own_places. }
  destruct (run_advances (ops ++ fin) _ _ _ HI (places_run_ok _ _ _ Hall Hd Hn)) as (s & sent & out & lost & Er & _ & HP & HL).
  pose proof Er as Er'. rewrite run_app, E1, E2 in Er'. injection Er' as -> <-.
  exists fin, s, (m1 ++ m2), (map (who s) lost). split; [done|]. split; [done|]. split; [done|]. split; [done|].
  split; [|rewrite length_map; exact HL].
  assert (Hnone : concat (map due fin) = []).
  { clear -Hf. induction Hf as [|o fin Ho _ IH]; [done|]. cbn. rewrite IH. by destruct o. }
  rewrite map_app, concat_app, Hnone, app_nil_r in HP. unfold under_way in HP. rewrite init_events, He, Hq in HP.
  cbn in HP. by rewrite app_nil_r in HP.
Qed.
End Steps.

(** ** Concrete runs *)

Section Concrete.
#[local] Existing Instance build_cicd.

(** Three clients, two of them trade with each other while the third one's
    order is refused, the workers lagging behind. *)
Definition busy_ops : list Op :=
  [Submit (order 1 77 5 9 Market.AAA Sell); Submit (order 2 78 3 9 Market.AAA Buy); Submit (order 3 79 3 0 Market.BBB Buy);
   Work 0; Submit (order 1 80 2 4 Market.CCC Sell); Deliver; Work 0].

Definition places_onlyb (data : gmap Ticker Market.TickerData) (o : Op) : bool :=
  match o with
  | Submit so =>
      negb (bool_decide (o_action (so_order so) = Cancel)) &&
      (negb (Gateway.isValid so) || negb (is_new so) ||
       (o_price (so_order so) <? MAX_TICKS) && (0 <=? o_quantity (so_order so)) && (o_quantity (so_order so) <? 2 ^ 32) &&
       bool_decide (is_Some (data !! o_ticker (so_order so))))
  | _ => true
  end.

Lemma places_onlyb_ok data ops : forallb (places_onlyb data) ops = true -> Forall (places_only data) ops.
Proof.
  induction ops as [|o ops IH]; [constructor|]. intros [H1 H2]%andb_prop. constructor; [|auto].
  destruct o as [so| |]; [|done..]. apply andb_prop in H1 as [Ha Hb]. apply negb_true_iff, bool_decide_eq_false in Ha.
  split; [done|]. intros Hv Hn. rewrite Hv, Hn in Hb. cbn [negb orb] in Hb.
  apply andb_prop in Hb as [Hb Ht]. apply bool_decide_eq_true in Ht. split; [|split; [|done]]; bool_to_prop; lia.
Qed.

Lemma server_answers_every_order_witness :
  exists fin s sent turned_away, Forall own_step fin /\ run server_0 (busy_ops ++ fin) = Ok (s, sent) /\
    statusQueue s = [] /\ [(1, 77); (2, 78); (3, 79); (1, 80)] ≡ₚ answered sent ++ turned_away.
Proof.
  destruct (server_answers_every_order Market.three_tickers [] one_worker_data busy_ops)
    as (fin & s & sent & ta & H1 & H2 & _ & H4 & H5 & _).
  - cbn. lia.
  - reflexivity.
  - apply places_onlyb_ok. vm_compute. reflexivity.
  - exists fin, s, sent, ta. split; [exact H1|]. split; [exact H2|]. split; [exact H4|exact H5].
Defined.

#[local] Existing Instance Gateway.RecordState_eq_dec.

(** Enough for a cancel to be live: its order is at the head of a level. *)
Definition cancel_liveb (s : State) (e : InternalOrderEvent) : bool :=
  match Market.data_ (coord s) !! ioe_ticker e with
  | None => false
  | Some td =>
      let b := Market.orderBook td in
      let i := SlotId.index MAX_BOOK_ORDERS (io_bookOId (ioe_order e)) in
      let n := BookInv.node b i in
      bool_decide (Gateway.r_state (Gateway.record (gateway s) (SlotId.index MAX_SYSTEM_ORDERS (io_id (ioe_order e)))) = Gateway.RAccepted) &&
      (Book.ls_head (BookInv.lvl b (Book.nd_price n) (Book.nd_side n)) =? i) && negb (i =? 0) &&
      (0 <=? Book.nd_price n) && (Book.nd_price n <? MAX_TICKS) &&
      (Book.nd_localId n =? io_bookOId (ioe_order e)) && (Book.nd_systemId n =? io_id (ioe_order e))
  end.

Lemma cancel_liveb_ok s out lost e : Inv s out lost -> cancel_liveb s e = true -> cancel_live s e.
Proof.
  intros HI. unfold cancel_liveb. destruct (_ !! _) as [td|] eqn:Ht; [|done].
  destruct (i_books _ _ _ HI _ _ Ht) as [_ [a HR]]. cbn zeta. set (i := SlotId.index _ _). rewrite !andb_true_iff.
  intros ((((((H1 & H2) & H3) & H4) & H5) & H6) & H7). apply bool_decide_eq_true in H1. bool_to_prop.
  split; [done|]. exists a. split; [by exists td|]. rewrite <- H6, <- H7, <- H2. apply head_rests; [done|lia|lia].
Qed.

Definition op_okb (s : State) (o : Op) : bool :=
  match o with
  | Submit so => bool_decide (o_action (so_order so) = Cancel) || places_onlyb (Market.data_ (coord s)) o
  | Work w => match Market.workers_ (coord s) !! w with
      | Some (e :: _) => negb (bool_decide (ioe_action e = Cancel)) || cancel_liveb s e
      | _ => true
      end
  | Deliver => true
  end.

Fixpoint run_okb (s : State) (ops : list Op) : bool :=
  match ops with
  | [] => true
  | o :: ops => op_okb s o && match run_op s o with Ok (s', _) => run_okb s' ops | Err _ => true end
  end.

Lemma op_okb_ok s out lost o : Inv s out lost -> op_okb s o = true -> op_ok s o.
Proof.
  intros HI Ho. destruct o as [so|w|]; [| |done].
  - apply orb_prop in Ho as [Hc%bool_decide_eq_true|Hp]; [by intros _ Hn; unfold is_new in Hn; rewrite Hc in Hn|].
    pose proof (places_onlyb_ok (Market.data_ (coord s)) [Submit so]) as H0. cbn [forallb] in H0.
    rewrite Hp in H0. specialize (H0 eq_refl). apply Forall_cons in H0 as [[_ H0] _]. exact H0.
  - intros e q Hq Ha. cbn [op_okb] in Ho. rewrite Hq, bool_decide_true in Ho by done. by eapply cancel_liveb_ok.
Qed.

Lemma run_okb_ok ops : forall s out lost, Inv s out lost -> run_okb s ops = true -> run_ok s ops.
Proof.
  induction ops as [|o ops IH]; intros s out lost HI H; [done|]. apply andb_prop in H as [Ho H].
  pose proof (op_okb_ok s out lost o HI Ho) as Hop. split; [done|]. intros s' sent E. rewrite E in H.
  destruct (op_advances s out lost HI o Hop) as (s1 & m1 & out1 & lost1 & E1 & HI1 & _).
  rewrite E in E1. injection E1 as <- <-. by apply (IH s' out1 lost1).
Qed.

(** With a cancel taken while its order rests, and work left over. *)
Definition cancel_ops : list Op :=
  [Submit (order 1 77 5 9 Market.AAA Sell); Work 0; Deliver; Submit (order 1 sys_1 0 1 Market.AAA Cancel);
   Submit (order 2 78 3 4 Market.BBB Buy); Work 0; Work 0; Deliver].

Lemma server_runs_balanced_witness :
  exists s sent out lost, run server_0 cancel_ops = Ok (s, sent) /\ Inv s out lost /\
    [(1, 77); (2, 78)] ≡ₚ answered sent ++ map (who s) (under_way s) ++ map (who s) lost.
Proof.
  destruct (server_runs_balanced Market.three_tickers [] one_worker_data cancel_ops) as (s & sent & out & lost & H1 & H2 & H3 & _).
  - cbn. lia.
  - reflexivity.
  - destruct (server_Inv_init Market.three_tickers [] one_worker_data) as [HI _]; [cbn; lia|reflexivity|].
    apply (run_okb_ok _ _ _ _ HI). vm_compute. reflexivity.
  - exists s, sent, out, lost. split; [exact H1|]. split; [exact H2|exact H3].
Defined.
End Concrete.
End ServerRun.
