(* ===== verification/ServerTypes.v ===== *)
(** * The server's messages stay within their field types

    Quantities, prices, client ids and order ids are unsigned 32- and 64-bit
    fields in the code and [Z] in the model.  In every safe run of the order
    path on well-typed orders the values the model computes stay within the
    fields they stand for: nothing wraps on the way from a client's order to
    the status it is sent. *)

From S2P Require Import Prelude SlotId HugeArray Types PriceLevelBook BookSpec BookMatch BookOps BookProps.
From S2P Require Import SlotIdPool OrderGateway Coordinator Server ServerRun.
Import Server.

Module ServerTypes.
Section ServerTypes.
Context `{B : Build} `{BO : !BuildOk B}.

Definition is_u32 (x : Z) : Prop := 0 <= x < 2 ^ 32.
Definition is_u64 (x : Z) : Prop := 0 <= x < 2 ^ 64.

Definition order_typed (so : ServerOrder) : Prop :=
  is_u64 (so_clientId so) /\ is_u32 (o_id (so_order so)) /\ is_u32 (o_quantity (so_order so)) /\ is_u32 (o_price (so_order so)).

Definition status_typed (st : ServerOrderStatus) : Prop :=
  is_u64 (sos_clientId st) /\ is_u32 (os_orderId (sos_orderStatus st)) /\ is_u32 (os_systemOrderId (sos_orderStatus st)) /\
  is_u32 (os_quantity (sos_orderStatus st)) /\ is_u32 (os_fillPrice (sos_orderStatus st)).

Definition record_typed (r : Gateway.OrderRecord) : Prop :=
  is_u64 (Gateway.r_clientId r) /\ is_u32 (Gateway.r_externalOId r) /\ is_u32 (Gateway.r_systemOId r).
Definition event_typed (e : InternalOrderEvent) : Prop :=
  is_u32 (io_id (ioe_order e)) /\ is_u32 (io_quantity (ioe_order e)) /\ is_u32 (io_price (ioe_order e)).
Definition internal_typed (st : InternalOrderStatus) : Prop :=
  is_u32 (ios_id st) /\ is_u32 (ios_fillQty st) /\ is_u32 (ios_fillPrice st).

Record Typed (s : State) : Prop := {
  t_records : forall i, record_typed (Gateway.record (gateway s) i);
  t_events : Forall event_typed (ServerRun.events s);
  t_statuses : Forall internal_typed (statusQueue s)
}.

Definition op_typed (o : Op) : Prop := match o with Submit so => order_typed so | _ => True end.
Definition sent_typed (m : Sent) : Prop := match m with ToClient st => status_typed st | ToSystemBus _ => True end.
Definition out_typed (m : Gateway.Out) : Prop :=
  match m with Gateway.OutStatus st => status_typed st | Gateway.OutEvent e => event_typed e end.

Lemma zero_u32 : is_u32 0.
Proof. unfold is_u32. lia. Qed.

(** ** The gateway *)

Lemma newOrder_typed g so g' outs out :
  Gateway.Inv g out -> order_typed so -> (forall i, record_typed (Gateway.record g i)) ->
  Gateway.newOrder g so = Ok (g', outs) ->
  (forall i, record_typed (Gateway.record g' i)) /\ Forall out_typed outs.
Proof.
  intros HG (Hc & Hi & Hq & Hp) Hr E. pose proof zero_u32.
  destruct (Gateway.newOrder_ok g out so HG) as (g1 & [(id & E1 & HG' & _ & Hrec & Hoth)|(E1 & _ & _)]);
    rewrite E in E1; injection E1 as <- ->.
  - assert (Hid : is_u32 id).
    { destruct (Gateway.gw_pool _ _ HG') as (l & sh & HP).
      apply (Pool.acquired_fresh MAX_SYSTEM_ORDERS (Gateway.idPool_ g') id out). by exists l, sh. }
    split; [|apply Forall_singleton; by split].
    intros i. destruct (decide (i = SlotId.index MAX_SYSTEM_ORDERS id)) as [->|Hne]; [by rewrite Hrec|]. by rewrite Hoth.
  - split; [|apply Forall_singleton; by split_and!].
    intros i. rewrite (Gateway.newOrder_reject_record _ _ _ E). apply Hr.
Qed.

Lemma cancelOrder_typed g so g' outs :
  order_typed so -> Gateway.cancelOrder g so = Ok (g', outs) -> g' = g /\ Forall out_typed outs.
Proof.
  intros (Hc & Hi & Hq & Hp) E. split; [by eapply Gateway.cancelOrder_same|]. unfold Gateway.cancelOrder in E.
  destruct (HugeArray.get _ _ _) as [r|]; [|done]. destruct (_ || _)%bool; injection E as _ <-; [constructor|].
  apply Forall_singleton. by split.
Qed.

Lemma postOrder_typed g so g' outs out :
  Gateway.Inv g out -> order_typed so -> (forall i, record_typed (Gateway.record g i)) ->
  Gateway.postOrder g so = Ok (g', outs) ->
  (forall i, record_typed (Gateway.record g' i)) /\ Forall out_typed outs.
Proof.
  intros HG Ho Hr. unfold Gateway.postOrder. destruct (Gateway.closed_ g); [by intros [= <- <-]|].
  destruct (Gateway.isValid so); cbn [negb].
  2: { intros [= <- <-]. split; [done|]. apply Forall_singleton. destruct Ho as (? & ? & ? & ?). by split_and!; try apply zero_u32. }
  destruct (o_action (so_order so)); try (by intros [= <- <-]); [by apply (newOrder_typed _ _ _ _ out)..|].
  intros E. by destruct (cancelOrder_typed _ _ _ _ Ho E) as [-> ?].
Qed.

Lemma postStatus_typed g st g' outs :
  internal_typed st -> (forall i, record_typed (Gateway.record g i)) -> Gateway.postStatus g st = Ok (g', outs) ->
  (forall i, record_typed (Gateway.record g' i)) /\ Forall out_typed outs.
Proof.
  intros (Hi & Hq & Hp) Hr. unfold Gateway.postStatus. destruct (Gateway.closed_ g); [by intros [= <- <-]|].
  destruct (HugeArray.get _ _ _) as [r|] eqn:Eg; [|done].
  assert (Hrt : record_typed r).
  { rewrite Gateway.get_record_ok in Eg by apply Gateway.index_cap. injection Eg as <-. apply Hr. }
  destruct Hrt as (R1 & R2 & R3). intros E.
  assert (Hout : out_typed (Gateway.OutStatus (mkServerOrderStatus (Gateway.r_clientId r)
      (mkOrderStatus (Gateway.r_externalOId r) (SlotId.raw (Gateway.r_systemOId r)) (ios_fillQty st) (ios_fillPrice st) (ios_state st)))))
    by (by split_and!).
  assert (Hput : forall g1 i r1, record_typed r1 -> Gateway.put_record g i r1 = Ok g1 ->
    forall j, record_typed (Gateway.record g1 j)).
  { intros g1 i r1 H1. unfold Gateway.put_record, HugeArray.set. destruct (_ && _)%bool; [|done]. intros [= <-] j.
    unfold Gateway.record. cbn. rewrite HugeArray.at_set. case_decide; [done|apply Hr]. }
  assert (Hcl : forall g1 i, Gateway.closeRecord g i r = Ok g1 -> forall j, record_typed (Gateway.record g1 j)).
  { intros g1 i. unfold Gateway.closeRecord. destruct (Gateway.put_record g i _) as [g2|] eqn:E2; [|done].
    destruct (Pool.release _ _ _); [|done]. intros [= <-]. by apply (Hput g2 i (Gateway.setState r Gateway.RClosed)). }
  destruct (ios_state st);
    first [destruct (Gateway.put_record g _ _) as [g1|] eqn:E1; [|done]; injection E as <- <-;
             split; [by eapply Hput, E1|by apply Forall_singleton]
          |destruct (Gateway.closeRecord g _ r) as [g1|] eqn:E1; [|done]; injection E as <- <-;
             split; [by eapply Hcl|by apply Forall_singleton]].
Qed.

(** ** The book *)

Lemma add_typed b a e b' msgs r :
  BookSpec.Rep b a -> event_typed e -> (ioe_action e <> Cancel -> BookProps.event_ok e /\ io_price (ioe_order e) < MAX_TICKS) ->
  Book.add b e = Ok (b', msgs, r) -> Forall internal_typed (statuses msgs).
Proof.
  intros HR (Hi & Hq & Hp) Hnew E. pose proof zero_u32. destruct (decide (ioe_action e = Cancel)) as [Ha|Ha].
  - unfold Book.add in E. rewrite Ha in E. destruct (Book.cancelOrder b (ioe_order e)) as [[b1 m]|] eqn:Ec; [|done].
    injection E as _ <- _. unfold Book.cancelOrder in Ec. destruct_res.
    destruct (negb _); destruct_res; by apply Forall_singleton.
  - destruct (Hnew Ha) as [Hok Hlt]. destruct (BookProps.add_new_ok b a e HR Ha Hok Hlt) as (b1 & E1 & _).
    rewrite E in E1. injection E1 as -> -> ->.
    destruct (BookMatch.match_ok b a (ioe_order e) (Book.getSide (ioe_action e)) HR)
      as (_ & _ & _ & Hrem); [destruct Hok; lia|by destruct Hok|].
    pose proof (BookProps.spec_new_cases a (Book.getSide (ioe_action e)) (ioe_order e) Hrem) as Hcase. cbn zeta in Hcase.
    unfold is_u32 in *. destruct Hcase as [[_ ->]|[(lid & _ & -> & _)|[_ ->]]]; cbn; [..|constructor];
      apply Forall_singleton; unfold internal_typed, is_u32; cbn; lia.
Qed.

(** ** Steps and runs *)

Lemma route_typed outs : forall s s' sent,
  route s outs = Ok (s', sent) -> Forall out_typed outs -> Typed s ->
  Typed s' /\ Forall sent_typed sent.
Proof.
  intros s s' sent E Ho [H1 H2 H3]. destruct (ServerRun.route_frame _ _ _ _ E) as (_ & Hq & He).
  assert (Hg : gateway s' = gateway s /\ Forall sent_typed sent).
  { clear -E Ho. revert s s' sent E. induction Ho as [|[st|e] outs Hm Ho IH]; intros s s' sent; cbn [route].
    - intros [= <- <-]. by split.
    - destruct (route s outs) as [[s1 m]|] eqn:E; [|done]. intros [= <- <-]. destruct (IH _ _ _ E). split; [done|].
      by constructor.
    - destruct (Market.post _ _) as [[c errs]|]; [|done]. destruct (route _ outs) as [[s1 m]|] eqn:E; [|done].
      intros [= <- <-]. destruct (IH _ _ _ E) as [Hg Hs]. split; [exact Hg|]. apply Forall_app. split; [|done].
      apply (Forall_impl to_bus); [apply bus_only|by intros []]. }
  destruct Hg as [Hg Hs]. split; [|done]. split; [by rewrite Hg| |by rewrite Hq].
  rewrite Forall_forall in H2 |- *. intros e [Hin|Hin]%He; [auto|]. rewrite Forall_forall in Ho. by apply (Ho (Gateway.OutEvent e)).
Qed.

Lemma op_keeps_types s out lost o s' sent :
  ServerRun.Inv s out lost -> op_typed o -> Typed s -> run_op s o = Ok (s', sent) ->
  Typed s' /\ Forall sent_typed sent.
Proof.
  intros HI Ho HT E. destruct o as [so|w|]; cbn [run_op] in E.
  - unfold submit in E. destruct (Gateway.postOrder (gateway s) so) as [[g outs]|] eqn:Ep; [|done].
    destruct (postOrder_typed _ _ _ _ out (ServerRun.i_gateway _ _ _ HI) Ho (t_records _ HT) Ep) as [Hr Hout].
    apply (route_typed outs _ _ _ E Hout). split; [done|apply HT|apply HT].
  - destruct (work_result _ _ _ _ E) as (c & msgs & Em & Hb & Hg & Hc & Hsq).
    assert (Hsent : Forall sent_typed sent) by (apply (Forall_impl to_bus); [done|by intros []]).
    split; [|done]. assert (Hst : Forall event_typed (concat (Market.workers_ c)) /\ Forall internal_typed (statuses msgs)).
    2: { destruct Hst as [He Hst]. rewrite Forall_forall in Hst. pose proof (t_statuses _ HT) as Hs. rewrite Forall_forall in Hs.
         split; [rewrite Hg; apply HT|unfold ServerRun.events; by rewrite Hc|].
         apply Forall_forall. intros x [Hx|Hx]%Hsq; auto. }
    clear Hsent. unfold Market.matcher_step in Em. destruct (Market.workers_ (coord s) !! w) as [[|e q]|] eqn:Eq.
    1, 3: injection Em as <- <-; split; [apply HT|constructor].
    destruct (Market.data_ (coord s) !! ioe_ticker e) as [td|] eqn:Et; [|done].
    destruct (Book.add _ e) as [[[b msgs'] r]|] eqn:Ea; [|done]. injection Em as <- <-.
    pose proof (ServerRun.concat_pop _ _ _ _ Eq) as Hperm. fold (ServerRun.events s) in Hperm.
    pose proof (t_events _ HT) as He. rewrite Hperm in He. apply Forall_cons in He as [Het He].
    pose proof (ServerRun.i_events _ _ _ HI) as Hok. rewrite Hperm in Hok. apply Forall_cons in Hok as [[_ Hok] _].
    destruct (ServerRun.i_books _ _ _ HI _ _ Et) as [_ [a HR]].
    split; [done|]. exact (add_typed _ _ _ _ _ _ HR Het Hok Ea).
  - unfold deliver in E. destruct (statusQueue s) as [|st q] eqn:Eq; [injection E as <- <-; by split|].
    destruct (Gateway.postStatus (gateway s) st) as [[g outs]|] eqn:Ep; [|done].
    pose proof (t_statuses _ HT) as Hs. rewrite Eq in Hs. apply Forall_cons in Hs as [Hst Hs].
    destruct (postStatus_typed _ _ _ _ Hst (t_records _ HT) Ep) as [Hr Hout].
    apply (route_typed outs _ _ _ E Hout). split; [done|apply HT|done].
Qed.

Lemma run_keeps_types ops : forall s out lost s' sent,
  ServerRun.Inv s out lost -> ServerRun.run_ok s ops -> Forall op_typed ops -> Typed s -> run s ops = Ok (s', sent) ->
  Typed s' /\ Forall sent_typed sent.
Proof.
  induction ops as [|o ops IH]; intros s out lost s' sent HI Hok Ho HT E; [injection E as <- <-; by split|].
  apply Forall_cons in Ho as [Ho Hos]. destruct Hok as [Hop Hok]. cbn [run] in E.
  destruct (run_op s o) as [[s1 m1]|] eqn:E1; [|done]. destruct (run s1 ops) as [[s2 m2]|] eqn:E2; [|done].
  injection E as <- <-. destruct (op_keeps_types s out lost o s1 m1 HI Ho HT E1) as [HT1 Hm1].
  destruct (ServerRun.op_advances s out lost HI o Hop) as (s1' & m1' & out1 & lost1 & E1' & HI1 & _).
  rewrite E1 in E1'. injection E1' as <- <-.
  destruct (IH s1 out1 lost1 s2 m2 HI1 (Hok _ _ eq_refl) Hos HT1 E2) as [HT2 Hm2]. split; [done|]. by apply Forall_app.
Qed.

Lemma init_typed data coresApp : Typed (init data coresApp).
Proof.
  split; [|rewrite ServerRun.init_events; constructor|constructor]. intros i. unfold Gateway.record, init. cbn.
  rewrite HugeArray.at_alloc. repeat split; cbn; lia.
Qed.

(** In every safe run of the server on orders whose fields are within their
    types, every status a client is sent has its client id within 64 bits
    and its order ids, quantity and price within 32, and so do the records of
    the gateway, the events in the queues and the statuses on their way. *)
Theorem server_values_in_range prices coresApp data ops s sent :
  (length coresApp <= 1)%nat -> Market.loadMarketData (inl prices) coresApp = Ok data ->
  ServerRun.run_ok (init data coresApp) ops -> Forall op_typed ops ->
  run (init data coresApp) ops = Ok (s, sent) -> Typed s /\ Forall sent_typed sent.
Proof.
  intros Hlen E Hok Ho Er. destruct (ServerRun.server_Inv_init _ _ _ Hlen E) as [HI _].
  by apply (run_keeps_types ops _ _ _ _ _ HI Hok Ho (init_typed data coresApp) Er).
Qed.
End ServerTypes.

Section Concrete.
#[local] Existing Instance build_cicd.

Lemma server_values_in_range_witness :
  exists s sent, run server_0 ServerRun.cancel_ops = Ok (s, sent) /\ Forall sent_typed sent.
Proof.
  destruct (ServerRun.server_Inv_init Market.three_tickers [] one_worker_data) as [HI _]; [cbn; lia|reflexivity|].
  assert (Hok : ServerRun.run_ok (init one_worker_data []) ServerRun.cancel_ops).
  { apply (ServerRun.run_okb_ok _ _ _ _ HI). vm_compute. reflexivity. }
  destruct (ServerRun.run_advances _ _ _ _ HI Hok) as (s & sent & out & lost & E & _).
  exists s, sent. split; [exact E|].
  apply (server_values_in_range Market.three_tickers [] one_worker_data ServerRun.cancel_ops s sent).
  - cbn. lia.
  - reflexivity.
  - exact Hok.
  - assert (Hs : is_u32 sys_1) by (vm_compute; split; congruence). unfold ServerRun.cancel_ops.
    rewrite !Forall_cons. unfold op_typed, order_typed, is_u32, is_u64 in *. cbn -[sys_1]. split_and!; try lia. constructor.
  - exact E.
Defined.
End Concrete.
End ServerTypes.
