(* ===== verification/SequencedSPSC.v ===== *)
(** * The sequenced single-producer single-consumer queue

    Models [SequencedSPSC] (common/src/containers/sequenced_spsc.hpp), the
    queue under every [LfqRunner] and [ShmQueue].  [write] and [read] are
    given as whole calls and as the sequences of shared-memory accesses they
    consist of ([pstep], [cstep]: one load or store of an index, a sequence
    number, a size or a byte per step).  A run interleaves the steps of one
    producer and one consumer in any order; the theorems say that the
    consumer receives exactly what the producer published, in order, without
    loss, duplication or torn messages.  The counters are 64-bit and wrap. *)

From S2P Require Import Prelude HugeArray.

Module Spsc.

Definition MAX_DATA_SIZE : nat := 52.

(** Bytes are integers. *)
Abbreviation bytes := (list Z).

Record Sloth := mkSloth { seq : Z; size : Z; data : bytes }.

#[export] Instance Sloth_zeroed : Zeroed Sloth := mkSloth 0 0 (replicate MAX_DATA_SIZE 0).

Section Spsc.
Context (SlotCount : Z).

Definition MASK : Z := SlotCount - 1.

Record Queue := mkQueue {
  slots_ : gmap Z Sloth;
  writeIdx_ : Z;
  readIdx_ : Z
}.

(** The constructor stores [i] into the sequence number of slot [i]. *)
Fixpoint init_slots (n : nat) : gmap Z Sloth :=
  match n with
  | O => ∅
  | S n => <[Z.of_nat n := mkSloth (Z.of_nat n) 0 (replicate MAX_DATA_SIZE 0)]> (init_slots n)
  end.

Definition init : Queue := mkQueue (init_slots (Z.to_nat SlotCount)) 0 0.

Definition slot_of (x : Z) : Z := Z.land x MASK.

Definition slot (q : Queue) (x : Z) : Sloth := HugeArray.at_ (slots_ q) (slot_of x).

Definition put_slot (q : Queue) (x : Z) (s : Sloth) : Queue :=
  mkQueue (<[slot_of x := s]> (slots_ q)) (writeIdx_ q) (readIdx_ q).

(** [memcpy(sloth.data, src, size)] *)
Definition memcpy (dst src : bytes) : bytes := src ++ drop (length src) dst.

(** [write(src, size)]: the queue and the returned flag. *)
Definition write (q : Queue) (src : bytes) : Queue * bool :=
  if (MAX_DATA_SIZE <? length src)%nat then (q, false)
  else
    let sloth := slot q (writeIdx_ q) in
    if negb (seq sloth =? writeIdx_ q) then (q, false)
    else
      let sloth := mkSloth (u64 (writeIdx_ q + 1)) (Z.of_nat (length src)) (memcpy (data sloth) src) in
      let q' := put_slot q (writeIdx_ q) sloth in
      (mkQueue (slots_ q') (u64 (writeIdx_ q + 1)) (readIdx_ q), true).

(** [read(dst, maxSize)]: the queue and the bytes copied, [None] for the
    return value 0. *)
Definition read (q : Queue) (maxSize : Z) : Queue * option bytes :=
  let sloth := slot q (readIdx_ q) in
  if negb (seq sloth =? u64 (readIdx_ q + 1)) then (q, None)
  else if maxSize <? size sloth then (q, None)
  else
    let q' := put_slot q (readIdx_ q) (mkSloth (u64 (readIdx_ q + SlotCount)) (size sloth) (data sloth)) in
    (mkQueue (slots_ q') (writeIdx_ q) (u64 (readIdx_ q + 1)), Some (take (Z.to_nat (size sloth)) (data sloth))).

(** ** The same calls, one memory access at a time *)

(** Where the producer is in [write]; [w] is the slot it chose. *)
Inductive PPC :=
| PStart (src : bytes)
| PCopy (w : Z) (src : bytes) (j : nat)
| PSize (w : Z) (src : bytes)
| PSeq (w : Z) (src : bytes)
| PAdv
| PDone (ok : bool).

Definition pstep (q : Queue) (pc : PPC) : Queue * PPC :=
  match pc with
  | PStart src =>
      if (MAX_DATA_SIZE <? length src)%nat then (q, PDone false)
      else if negb (seq (slot q (writeIdx_ q)) =? writeIdx_ q) then (q, PDone false)
      else (q, PCopy (writeIdx_ q) src 0)
  | PCopy w src j =>
      match src !! j with
      | None => (q, PSize w src)
      | Some b =>
          let s := slot q w in
          (put_slot q w (mkSloth (seq s) (size s) (<[j := b]> (data s))), PCopy w src (S j))
      end
  | PSize w src =>
      let s := slot q w in
      (put_slot q w (mkSloth (seq s) (Z.of_nat (length src)) (data s)), PSeq w src)
  | PSeq w src =>
      let s := slot q w in
      (put_slot q w (mkSloth (u64 (writeIdx_ q + 1)) (size s) (data s)), PAdv)
  | PAdv => (mkQueue (slots_ q) (u64 (writeIdx_ q + 1)) (readIdx_ q), PDone true)
  | PDone ok => (q, PDone ok)
  end.

(** Where the consumer is in [read]; [acc] are the bytes copied so far. *)
Inductive CPC :=
| CStart (maxSize : Z)
| CSize (maxSize : Z)
| CCopy (n : nat) (acc : bytes)
| CSeq (acc : bytes)
| CAdv (acc : bytes)
| CDone (r : option bytes).

Definition cstep (q : Queue) (pc : CPC) : Queue * CPC :=
  match pc with
  | CStart maxSize =>
      if negb (seq (slot q (readIdx_ q)) =? u64 (readIdx_ q + 1)) then (q, CDone None)
      else (q, CSize maxSize)
  | CSize maxSize =>
      if maxSize <? size (slot q (readIdx_ q)) then (q, CDone None)
      else (q, CCopy (Z.to_nat (size (slot q (readIdx_ q)))) [])
  | CCopy n acc =>
      if (length acc <? n)%nat
      then (q, CCopy n (acc ++ [nth (length acc) (data (slot q (readIdx_ q))) 0]))
      else (q, CSeq acc)
  | CSeq acc =>
      let s := slot q (readIdx_ q) in
      (put_slot q (readIdx_ q) (mkSloth (u64 (readIdx_ q + SlotCount)) (size s) (data s)), CAdv acc)
  | CAdv acc => (mkQueue (slots_ q) (writeIdx_ q) (u64 (readIdx_ q + 1)), CDone (Some acc))
  | CDone r => (q, CDone r)
  end.

(** ** Interleavings *)

(** [published] and [received] record, for the statements, the messages
    whose sequence number was stored and those whose slot was given back. *)
Record Sys := mkSys {
  queue : Queue;
  ppc : PPC;
  cpc : CPC;
  published : list bytes;
  received : list bytes
}.

Definition publish (s : Sys) : list bytes :=
  match ppc s with PSeq _ src => published s ++ [src] | _ => published s end.

Definition receive (s : Sys) : list bytes :=
  match cpc s with CSeq acc => received s ++ [acc] | _ => received s end.

Inductive step (s : Sys) : Sys -> Prop :=
| call_write ok src :
    ppc s = PDone ok ->
    step s (mkSys (queue s) (PStart src) (cpc s) (published s) (received s))
| producer q pc :
    pstep (queue s) (ppc s) = (q, pc) ->
    step s (mkSys q pc (cpc s) (publish s) (received s))
| call_read r maxSize :
    cpc s = CDone r ->
    step s (mkSys (queue s) (ppc s) (CStart maxSize) (published s) (received s))
| consumer q pc :
    cstep (queue s) (cpc s) = (q, pc) ->
    step s (mkSys q (ppc s) pc (published s) (receive s)).

Inductive Reach : Sys -> Prop :=
| reach_init : Reach (mkSys init (PDone true) (CDone None) [] [])
| reach_step s s' : Reach s -> step s s' -> Reach s'.

End Spsc.

(** ** Invariant *)

Section Inv.
Context (SlotCount bits : Z) (Hpow : SlotCount = 2 ^ bits) (Hbits : 1 <= bits <= 32).

Abbreviation N := SlotCount.
Abbreviation slot_of := (slot_of SlotCount).
Abbreviation slot := (slot SlotCount).

Lemma N_range : 2 <= N <= 2 ^ 32.
Proof.
  rewrite Hpow. split; [change 2 with (2 ^ 1) at 1|]; apply Z.pow_le_mono_r; lia.
Qed.

Lemma slot_of_u64 k : slot_of (u64 k) = k mod N.
Proof.
  unfold Spsc.slot_of, MASK, u64. rewrite Hpow, Z.sub_1_r, <- Z.ones_equiv, Z.land_ones by lia.
  apply Z.mod_mod_divide. exists (2 ^ (64 - bits)). rewrite <- Z.pow_add_r by lia. f_equal. lia.
Qed.

(** Positions of a window no longer than the ring have distinct slots. *)
Lemma slot_distinct a b : Z.abs (a - b) < N -> a <> b -> a mod N <> b mod N.
Proof.
  intros Hd Hne E. pose proof N_range.
  assert (Hdiv : (N | a - b)) by (apply Z.mod_divide; [lia|]; rewrite Zminus_mod, E, Z.sub_diag; apply Z.mod_0_l; lia).
  destruct Hdiv as [c Hc]. assert (c = 0 \/ 1 <= Z.abs c) by lia. nia.
Qed.

Lemma u64_distinct a b : 0 < Z.abs (a - b) < 2 ^ 64 -> u64 a <> u64 b.
Proof.
  intros Hd E. unfold u64 in E.
  assert (Hdiv : (2 ^ 64 | a - b)) by (apply Z.mod_divide; [lia|]; rewrite Zminus_mod, E, Z.sub_diag; done).
  destruct Hdiv as [c Hc]. assert (c = 0 \/ 1 <= Z.abs c) by lia. nia.
Qed.

Lemma u64_succ k : u64 (u64 k + 1) = u64 (k + 1).
Proof. unfold u64. by rewrite Zplus_mod_idemp_l. Qed.

Lemma u64_addN k : u64 (u64 k + N) = u64 (k + N).
Proof. unfold u64. by rewrite Zplus_mod_idemp_l. Qed.

(** The slot of position [k], by the unbounded position. *)
Definition at_pos (q : Queue) (k : Z) : Sloth := HugeArray.at_ (slots_ q) (k mod N).

Lemma slot_at q k : slot q (u64 k) = at_pos q k.
Proof. unfold Spsc.slot, at_pos. by rewrite slot_of_u64. Qed.

Definition holds (s : Sloth) (k : Z) (m : bytes) : Prop :=
  seq s = u64 (k + 1) /\ size s = Z.of_nat (length m) /\ (length m <= MAX_DATA_SIZE)%nat /\
  length (data s) = MAX_DATA_SIZE /\ take (length m) (data s) = m.

(** What the producer has done so far to the free slot of position [W]. *)
Definition producer_ok (q : Queue) (pc : PPC) (W R : Z) : Prop :=
  match pc with
  | PStart _ | PDone _ => writeIdx_ q = u64 W
  | PCopy w src j => writeIdx_ q = u64 W /\ w = u64 W /\ W < R + N /\
      (length src <= MAX_DATA_SIZE)%nat /\ (j <= length src)%nat /\
      take j (data (at_pos q W)) = take j src
  | PSize w src => writeIdx_ q = u64 W /\ w = u64 W /\ W < R + N /\
      (length src <= MAX_DATA_SIZE)%nat /\ take (length src) (data (at_pos q W)) = src
  | PSeq w src => writeIdx_ q = u64 W /\ w = u64 W /\ W < R + N /\
      (length src <= MAX_DATA_SIZE)%nat /\ take (length src) (data (at_pos q W)) = src /\
      size (at_pos q W) = Z.of_nat (length src)
  | PAdv => writeIdx_ q = u64 (W - 1)
  end.

(** What the consumer has read so far of the message of position [R]. *)
Definition consumer_ok (q : Queue) (pc : CPC) (msgs : list bytes) (W R : Z) : Prop :=
  match pc with
  | CStart _ | CDone _ => readIdx_ q = u64 R
  | CSize _ => readIdx_ q = u64 R /\ R < W
  | CCopy n acc => readIdx_ q = u64 R /\ R < W /\
      exists m, msgs !! Z.to_nat R = Some m /\ n = length m /\ (length acc <= n)%nat /\ acc = take (length acc) m
  | CSeq acc => readIdx_ q = u64 R /\ R < W /\ msgs !! Z.to_nat R = Some acc
  | CAdv _ => readIdx_ q = u64 (R - 1)
  end.

Record Inv (s : Sys) : Prop := {
  i_window : let W := Z.of_nat (length (published s)) in let R := Z.of_nat (length (received s)) in
    R <= W <= R + N;
  i_prefix : received s = take (length (received s)) (published s);
  i_full : forall k m, published s !! k = Some m -> (length (received s) <= k)%nat ->
    holds (at_pos (queue s) (Z.of_nat k)) (Z.of_nat k) m;
  i_free : forall k, Z.of_nat (length (published s)) <= k < Z.of_nat (length (received s)) + N ->
    seq (at_pos (queue s) k) = u64 k /\ length (data (at_pos (queue s) k)) = MAX_DATA_SIZE;
  i_prod : producer_ok (queue s) (ppc s) (Z.of_nat (length (published s))) (Z.of_nat (length (received s)));
  i_cons : consumer_ok (queue s) (cpc s) (published s) (Z.of_nat (length (published s)))
             (Z.of_nat (length (received s)))
}.

Lemma at_pos_put q k s j :
  at_pos (put_slot N q (u64 k) s) j = if decide (k mod N = j mod N) then s else at_pos q j.
Proof. unfold at_pos, put_slot. cbn. by rewrite slot_of_u64, HugeArray.at_set. Qed.

Lemma at_pos_put_eq q k s : at_pos (put_slot N q (u64 k) s) k = s.
Proof. rewrite at_pos_put. by rewrite decide_True. Qed.

Lemma at_pos_put_ne q k s j : Z.abs (k - j) < N -> k <> j -> at_pos (put_slot N q (u64 k) s) j = at_pos q j.
Proof. intros Hd Hne. rewrite at_pos_put. rewrite decide_False; [done|]. by apply slot_distinct. Qed.

Lemma init_slots_at n k : 0 <= k < Z.of_nat n ->
  HugeArray.at_ (init_slots n) k = mkSloth k 0 (replicate MAX_DATA_SIZE 0).
Proof.
  induction n as [|n IH]; intros Hk; [lia|]. cbn [init_slots]. rewrite HugeArray.at_set.
  case_decide as E; [by subst|]. apply IH. lia.
Qed.

Lemma Inv_start : Inv (mkSys (init N) (PDone true) (CDone None) [] []).
Proof.
  pose proof N_range. split; cbn [published received queue ppc cpc length]; try done; try lia.
  intros k Hk. unfold at_pos. cbn. rewrite Z.mod_small by lia.
  rewrite init_slots_at by lia. rewrite u64_small by lia. split; [done|apply length_replicate].
Qed.

Section Step.
Context (s : Sys) (HI : Inv s).

Abbreviation W := (Z.of_nat (length (published s))).
Abbreviation R := (Z.of_nat (length (received s))).
Abbreviation q := (queue s).

(** The slot of [W] is free exactly when its sequence number is [W]. *)
Lemma free_test : seq (at_pos q W) = u64 W <-> W < R + N.
Proof.
  pose proof N_range. destruct (i_window _ HI) as [H1 H2]. split; [|intros; apply (i_free _ HI); lia].
  intros E. destruct (Z.eq_dec W (R + N)) as [Eq|]; [exfalso|lia].
  destruct (lookup_lt_is_Some_2 (published s) (length (received s))) as [m Hm]; [lia|].
  destruct (i_full _ HI _ _ Hm) as (Hs & _); [done|].
  assert (Ep : at_pos q W = at_pos q R).
  { unfold at_pos. f_equal. rewrite Eq. rewrite <- (Z.mod_add R 1 N) by lia. f_equal. lia. }
  rewrite Ep, Hs in E. revert E. apply u64_distinct. lia.
Qed.

(** The slot of [R] is full exactly when its sequence number is [R + 1]. *)
Lemma full_test : seq (at_pos q R) = u64 (R + 1) <-> R < W.
Proof.
  pose proof N_range. destruct (i_window _ HI) as [H1 H2]. split.
  - intros E. destruct (Z.eq_dec W R) as [Eq|]; [exfalso|lia].
    destruct (i_free _ HI R) as [Hf _]; [lia|]. rewrite Hf in E. revert E. apply u64_distinct. lia.
  - intros Hlt. destruct (lookup_lt_is_Some_2 (published s) (length (received s))) as [m Hm]; [lia|].
    by destruct (i_full _ HI _ _ Hm) as (Hs & _).
Qed.

(** Rewriting the free slot of [W], its sequence number kept. *)
Lemma Inv_write_free pc sz d :
  W < R + N -> length d = MAX_DATA_SIZE ->
  let q' := put_slot N q (u64 W) (mkSloth (seq (at_pos q W)) sz d) in
  producer_ok q' pc W R -> Inv (mkSys q' pc (cpc s) (published s) (received s)).
Proof.
  intros Hlt Hd q' Hp. destruct HI as [H1 H2 H3 H4 _ H6]. cbn zeta in H1.
  split; cbn [published received queue ppc cpc]; try done.
  - intros k m Hk Hle. unfold q'. rewrite at_pos_put_ne; [by apply H3| |];
      pose proof (lookup_lt_Some _ _ _ Hk); lia.
  - intros k Hk. unfold q'. rewrite at_pos_put. case_decide as E; [|by apply H4].
    cbn. destruct (Z.eq_dec k W) as [->|Hne]; [by split; [apply H4|]|].
    exfalso. revert E. apply slot_distinct; lia.
Qed.

(** A producer step that touches no slot. *)
Lemma Inv_producer_local pc :
  producer_ok q pc W R -> Inv (mkSys q pc (cpc s) (published s) (received s)).
Proof. destruct HI as [H1 H2 H3 H4 _ H6]. by split. Qed.

Lemma Inv_consumer_local pc :
  consumer_ok q pc (published s) W R -> Inv (mkSys q (ppc s) pc (published s) (received s)).
Proof. destruct HI as [H1 H2 H3 H4 H5 _]. by split. Qed.

(** Storing the sequence number publishes the message. *)
Lemma Inv_publish src :
  W < R + N -> (length src <= MAX_DATA_SIZE)%nat -> take (length src) (data (at_pos q W)) = src ->
  size (at_pos q W) = Z.of_nat (length src) -> writeIdx_ q = u64 W ->
  Inv (mkSys (put_slot N q (u64 W) (mkSloth (u64 (W + 1)) (size (at_pos q W)) (data (at_pos q W))))
         PAdv (cpc s) (published s ++ [src]) (received s)).
Proof.
  intros Hlt Hlen Htk Hsz Hw. destruct HI as [H1 H2 H3 H4 _ H6]. cbn zeta in H1.
  destruct (H4 W) as [_ Hdl]; [lia|].
  split; cbn [published received queue ppc cpc]; rewrite ?length_app; cbn [length].
  - lia.
  - rewrite take_app_le by lia. done.
  - intros k m Hk Hle. apply lookup_app_Some in Hk as [Hk|[Hge Hk]].
    + rewrite at_pos_put_ne; [by apply H3| |]; pose proof (lookup_lt_Some _ _ _ Hk); lia.
    + apply list_lookup_singleton_Some in Hk as [Hk <-]. replace k with (length (published s)) by lia.
      rewrite at_pos_put_eq. by unfold holds.
  - intros k Hk. rewrite at_pos_put_ne by lia. apply H4. lia.
  - cbn. rewrite Hw. f_equal. lia.
  - destruct (cpc s); cbn in *; try done.
    + destruct H6 as [? ?]. split; [done|lia].
    + destruct H6 as (? & ? & m & Hm & ?). split; [done|]. split; [lia|]. exists m. split; [|done].
      by apply lookup_app_l_Some.
    + destruct H6 as (? & ? & Hm). split; [done|]. split; [lia|]. by apply lookup_app_l_Some.
Qed.

(** Storing the sequence number gives the slot back. *)
Lemma Inv_receive acc :
  R < W -> published s !! length (received s) = Some acc -> readIdx_ q = u64 R ->
  Inv (mkSys (put_slot N q (u64 R) (mkSloth (u64 (R + N)) (size (at_pos q R)) (data (at_pos q R))))
         (ppc s) (CAdv acc) (published s) (received s ++ [acc])).
Proof.
  intros Hlt Hm Hr. pose proof N_range. destruct HI as [H1 H2 H3 H4 H5 _]. cbn zeta in H1.
  destruct (H3 _ _ Hm) as (_ & _ & _ & Hdl & _); [done|].
  assert (Hne : forall k, R < k < R + N -> at_pos (put_slot N q (u64 R)
     (mkSloth (u64 (R + N)) (size (at_pos q R)) (data (at_pos q R)))) k = at_pos q k)
    by (intros; apply at_pos_put_ne; lia).
  split; cbn [published received queue ppc cpc]; rewrite ?length_app; cbn [length].
  - lia.
  - rewrite Nat.add_1_r. erewrite take_S_r by exact Hm. by rewrite <- H2.
  - intros k m Hk Hle. pose proof (lookup_lt_Some _ _ _ Hk).
    destruct (Z.eq_dec (Z.of_nat k) (R + N)); [lia|]. rewrite Hne by lia. apply H3; [done|lia].
  - intros k Hk. destruct (Z.eq_dec k (R + N)) as [->|Hkn].
    + rewrite at_pos_put, decide_True; [by split|].
      rewrite <- (Z.mod_add R 1 N) by lia. f_equal. lia.
    + rewrite Hne by lia. apply H4. lia.
  - destruct (ppc s); cbn in *; try done;
      (destruct (Z.eq_dec W (R + N)); [lia|]); rewrite Hne by lia; intuition lia.
  - cbn. rewrite Hr. f_equal. lia.
Qed.

Lemma Inv_pstep q' pc' :
  pstep N q (ppc s) = (q', pc') -> Inv (mkSys q' pc' (cpc s) (publish s) (received s)).
Proof.
  pose proof (i_prod _ HI) as Hp. pose proof free_test as Hft. unfold publish.
  destruct (ppc s) as [src|w src j|w src|w src| |ok]; cbn [pstep producer_ok] in *.
  - destruct (Nat.ltb_spec MAX_DATA_SIZE (length src)); [intros [= <- <-]; by apply Inv_producer_local|].
    rewrite Hp, slot_at. destruct (Z.eqb_spec (seq (at_pos q W)) (u64 W)) as [E|E]; cbn [negb];
      intros [= <- <-]; apply Inv_producer_local; cbn; [|done].
    apply Hft in E. repeat split; try done; lia.
  - destruct Hp as (Hw & -> & Hlt & Hlen & Hj & Htk). destruct (i_free _ HI W) as [_ Hd]; [lia|].
    destruct (src !! j) as [b|] eqn:Eb; intros [= <- <-].
    + rewrite slot_at. pose proof (lookup_lt_Some _ _ _ Eb).
      apply Inv_write_free; [done|by rewrite length_insert|]. cbn. rewrite at_pos_put_eq. cbn [data].
      split; [done|]. split; [done|]. split; [done|]. split; [done|]. split; [lia|].
      rewrite (take_S_r _ _ b), (take_S_r src _ b Eb); [|by rewrite list_lookup_insert_eq by lia].
      by rewrite take_insert_ge, Htk.
    + apply Inv_producer_local. cbn. apply lookup_ge_None in Eb. assert (j = length src) as -> by lia.
      rewrite firstn_all in Htk. done.
  - destruct Hp as (Hw & -> & Hlt & Hlen & Htk). destruct (i_free _ HI W) as [_ Hd]; [lia|].
    intros [= <- <-]. rewrite slot_at. apply Inv_write_free; [done|done|]. cbn.
    rewrite at_pos_put_eq. cbn. done.
  - destruct Hp as (Hw & -> & Hlt & Hlen & Htk & Hsz). intros [= <- <-].
    rewrite slot_at, Hw, u64_succ. by apply Inv_publish.
  - intros [= <- <-]. destruct HI as [H1 H2 H3 H4 _ H6]. split; try done. cbn.
    rewrite Hp, u64_succ. f_equal. lia.
  - intros [= <- <-]. by apply Inv_producer_local.
Qed.

Lemma Inv_cstep q' pc' :
  cstep N q (cpc s) = (q', pc') -> Inv (mkSys q' (ppc s) pc' (published s) (receive s)).
Proof.
  pose proof (i_cons _ HI) as Hc. pose proof full_test as Hft. unfold receive.
  destruct (cpc s) as [mx|mx|n acc|acc|acc|r]; cbn [cstep consumer_ok] in *.
  - rewrite Hc, u64_succ, slot_at. destruct (Z.eqb_spec (seq (at_pos q R)) (u64 (R + 1))) as [E|E];
      cbn [negb]; intros [= <- <-]; apply Inv_consumer_local; cbn; [|done].
    split; [done|]. by apply Hft.
  - destruct Hc as [Hr Hlt]. rewrite Hr, slot_at.
    destruct (lookup_lt_is_Some_2 (published s) (length (received s))) as [m Hm]; [lia|].
    destruct (i_full _ HI _ _ Hm) as (_ & Hsz & _); [done|]. rewrite Hsz.
    destruct (mx <? Z.of_nat (length m)); intros [= <- <-]; apply Inv_consumer_local; cbn; [done|].
    split; [done|]. split; [done|]. exists m. rewrite !Nat2Z.id. repeat split; [done|lia].
  - destruct Hc as (Hr & Hlt & m & Hm & -> & Hlen & Hacc). rewrite Nat2Z.id in Hm.
    destruct (i_full _ HI _ _ Hm) as (_ & _ & Hmx & Hdl & Htk); [done|].
    destruct (Nat.ltb_spec (length acc) (length m)); intros [= <- <-]; apply Inv_consumer_local; cbn;
      (split; [done|]); (split; [done|]); rewrite Nat2Z.id.
    + exists m. rewrite length_app. cbn [length]. repeat split; [done|lia|].
      rewrite Nat.add_1_r. rewrite Hr, slot_at.
      destruct (lookup_lt_is_Some_2 m (length acc)) as [b Hb]; [done|].
      rewrite (take_S_r m _ b Hb), <- Hacc. f_equal. f_equal.
      assert (Hb' : data (at_pos q R) !! length acc = Some b).
      { rewrite <- Htk in Hb. by apply lookup_take_Some in Hb as [? _]. }
      by apply nth_lookup_Some with (d := 0) in Hb'.
    + rewrite Hacc, firstn_all2 by lia. done.
  - destruct Hc as (Hr & Hlt & Hm). rewrite Nat2Z.id in Hm. intros [= <- <-].
    rewrite Hr, slot_at, u64_addN. by apply Inv_receive.
  - intros [= <- <-]. destruct HI as [H1 H2 H3 H4 H5 _]. split; try done. cbn.
    rewrite Hc, u64_succ. f_equal. lia.
  - intros [= <- <-]. by apply Inv_consumer_local.
Qed.
End Step.

Lemma Inv_step s s' : Inv s -> step N s s' -> Inv s'.
Proof.
  intros HI [ok src E|q pc E|r mx E|q pc E].
  - apply Inv_producer_local; [done|]. pose proof (i_prod _ HI) as H. by rewrite E in H.
  - by apply Inv_pstep.
  - apply Inv_consumer_local; [done|]. pose proof (i_cons _ HI) as H. by rewrite E in H.
  - by apply Inv_cstep.
Qed.

Lemma Reach_inv s : Reach N s -> Inv s.
Proof. induction 1 as [|s s' _ IH Hs]; [apply Inv_start|by apply (Inv_step s)]. Qed.

(** C18: however the producer's and the consumer's memory accesses
    interleave, and across wrap-around of the 64-bit counters, the messages
    the consumer has taken out are a prefix of the messages the producer has
    published, byte for byte and in order, and at most [SlotCount] messages
    are under way. *)
Theorem spsc_fifo_no_tearing s :
  Reach N s ->
  (exists rest, published s = received s ++ rest /\ Z.of_nat (length rest) <= N) /\
  (forall acc, cpc s = CSeq acc -> published s !! length (received s) = Some acc).
Proof.
  intros HR. apply Reach_inv in HR as HI. pose proof (i_window _ HI) as Hw. cbn zeta in Hw. split.
  - exists (drop (length (received s)) (published s)). split.
    + rewrite (i_prefix _ HI) at 1. by rewrite take_drop.
    + rewrite length_drop. lia.
  - intros acc E. pose proof (i_cons _ HI) as Hc. rewrite E in Hc. destruct Hc as (_ & _ & Hm).
    by rewrite Nat2Z.id in Hm.
Qed.

End Inv.

(** ** Whole calls *)

Section Calls.
Context (SlotCount : Z).

Abbreviation N := SlotCount.
Abbreviation slot := (slot SlotCount).

Definition psteps : relation (Queue * PPC) := rtc (fun x y => pstep N x.1 x.2 = y).
Definition csteps : relation (Queue * CPC) := rtc (fun x y => cstep N x.1 x.2 = y).

Lemma slot_put q w s : slot (put_slot N q w s) w = s.
Proof. apply HugeArray.at_set_eq. Qed.

Lemma put_put q w s s' : put_slot N (put_slot N q w s) w s' = put_slot N q w s'.
Proof. unfold put_slot. cbn. by rewrite insert_insert_eq. Qed.

(** The byte loop of [write] copies the rest of the message. *)
Lemma copy_steps w src j q :
  (j <= length src)%nat -> (length src <= length (data (slot q w)))%nat ->
  exists q', psteps (q, PCopy w src j) (q', PSize w src) /\
    slot q' w = mkSloth (seq (slot q w)) (size (slot q w))
      (take j (data (slot q w)) ++ drop j src ++ drop (length src) (data (slot q w))) /\
    (forall s, put_slot N q' w s = put_slot N q w s) /\
    writeIdx_ q' = writeIdx_ q /\ readIdx_ q' = readIdx_ q.
Proof.
  intros Hj Hlen. remember (length src - j)%nat as k eqn:Hk. revert j q Hj Hlen Hk.
  induction k as [|k IH]; intros j q Hj Hlen Hk.
  - exists q. assert (j = length src) as -> by lia. split.
    + apply rtc_once. cbn. by rewrite (lookup_ge_None_2 src) by lia.
    + rewrite drop_all. cbn [app]. rewrite take_drop. by destruct (slot q w).
  - destruct (lookup_lt_is_Some_2 src j) as [b Hb]; [lia|].
    set (q1 := put_slot N q w (mkSloth (seq (slot q w)) (size (slot q w)) (<[j := b]> (data (slot q w))))).
    destruct (IH (S j) q1) as (q' & Hst & Hs & Hp & Hi); [lia| |lia|].
    { unfold q1. rewrite slot_put. cbn. by rewrite length_insert. }
    exists q'. split; [|split; [|split]].
    + eapply rtc_l; [|exact Hst]. cbn. by rewrite Hb.
    + rewrite Hs. unfold q1. rewrite slot_put. cbn [seq size data]. f_equal.
      rewrite (drop_S src b j Hb), (take_S_r _ _ b) by (rewrite list_lookup_insert_eq; [done|lia]).
      rewrite take_insert_ge, <- (assoc_L app) by lia. cbn. by rewrite drop_insert_lt by lia.
    + intros s. rewrite Hp. apply put_put.
    + done.
Qed.

(** A call of [write] is its memory accesses: without the consumer in
    between, the producer's steps end in the state and with the result of
    [write]. *)
Theorem write_is_its_steps q src :
  length (data (Spsc.slot N q (writeIdx_ q))) = MAX_DATA_SIZE ->
  psteps (q, PStart src) ((write N q src).1, PDone (write N q src).2).
Proof.
  intros Hd. unfold write. destruct (MAX_DATA_SIZE <? length src)%nat eqn:El.
  { apply rtc_once. cbn [pstep cstep fst snd]. by rewrite El. }
  destruct (negb (seq (slot q (writeIdx_ q)) =? writeIdx_ q)) eqn:Es.
  { apply rtc_once. cbn [pstep cstep fst snd]. by rewrite El, Es. }
  apply Nat.ltb_ge in El as Hle.
  destruct (copy_steps (writeIdx_ q) src 0 q) as (q' & Hst & Hs & Hp & Hw & Hr); [lia|lia|].
  eapply rtc_l; [cbn [pstep cstep fst snd]; rewrite El, Es; reflexivity|]. etrans; [exact Hst|].
  eapply rtc_l; [reflexivity|]. cbn [pstep fst snd]. eapply rtc_l; [reflexivity|]. cbn [pstep fst snd].
  eapply rtc_l; [reflexivity|]. cbn [pstep fst snd]. rewrite slot_put, put_put, Hp, Hs. cbn [seq size data].
  unfold put_slot. cbn. rewrite Hw. unfold memcpy. rewrite drop_0. apply rtc_refl.
Qed.

Lemma read_loop q (n : nat) acc :
  (length acc <= n)%nat -> (n <= length (data (slot q (readIdx_ q))))%nat ->
  acc = take (length acc) (data (slot q (readIdx_ q))) ->
  csteps (q, CCopy n acc) (q, CSeq (take n (data (slot q (readIdx_ q))))).
Proof.
  intros Ha Hn. remember (n - length acc)%nat as k eqn:Hk. revert acc Ha Hk.
  induction k as [|k IH]; intros acc Ha Hk E; (eapply rtc_l; [reflexivity|]); cbn [cstep fst snd].
  - destruct (Nat.ltb_spec (length acc) n); [lia|]. rewrite E at 1.
    replace (length acc) with n by lia. apply rtc_refl.
  - destruct (Nat.ltb_spec (length acc) n); [|lia]. apply IH; rewrite length_app; cbn [length]; [lia|lia|].
    destruct (lookup_lt_is_Some_2 (data (slot q (readIdx_ q))) (length acc)) as [b Hb]; [lia|].
    rewrite Nat.add_1_r, (take_S_r _ _ b Hb), <- E. f_equal. f_equal.
    by apply nth_lookup_Some with (d := 0) in Hb.
Qed.

(** A call of [read] is its memory accesses, for a slot whose size field
    is at most the size of its data. *)
Theorem read_is_its_steps q maxSize :
  length (data (Spsc.slot N q (readIdx_ q))) = MAX_DATA_SIZE ->
  0 <= size (Spsc.slot N q (readIdx_ q)) <= Z.of_nat MAX_DATA_SIZE ->
  csteps (q, CStart maxSize) ((read N q maxSize).1, CDone (read N q maxSize).2).
Proof.
  intros Hd Hs. unfold read.
  destruct (negb (seq (slot q (readIdx_ q)) =? u64 (readIdx_ q + 1))) eqn:Eq.
  { apply rtc_once. cbn [pstep cstep fst snd]. by rewrite Eq. }
  destruct (maxSize <? size (slot q (readIdx_ q))) eqn:Em.
  { eapply rtc_l; [cbn [pstep cstep fst snd]; rewrite Eq; reflexivity|]. apply rtc_once. cbn [pstep cstep fst snd]. by rewrite Em. }
  eapply rtc_l; [cbn [pstep cstep fst snd]; rewrite Eq; reflexivity|]. eapply rtc_l; [cbn; rewrite Em; reflexivity|].
  etrans; [apply read_loop; cbn [length]; [lia|lia|done]|].
  eapply rtc_l; [reflexivity|]. cbn [cstep fst snd]. apply rtc_once. reflexivity.
Qed.
End Calls.

(** ** Two producers

    The queue has one producer only.  With two of them (the gateway's queue
    when the server runs several matching workers), both can choose the same
    slot. *)

Section TwoProducers.

Definition two_run : Queue * list bool :=
  let msg1 := [1; 1] in let msg2 := [2; 2] in
  let go := fix go n (x : Queue * PPC) := match n with O => x | S n => go n (pstep 4 x.1 x.2) end in
  let '(q, p1) := go 1%nat (init 4, PStart msg1) in
  let '(q, p2) := go 1%nat (q, PStart msg2) in
  let '(q, p1) := go 6%nat (q, p1) in
  let '(q, p2) := go 6%nat (q, p2) in
  (q, match p1, p2 with PDone a, PDone b => [a; b] | _, _ => [] end).

(** With a second producer messages are lost although both calls of
    [write] return true: both write the same slot, its sequence number ends
    up one too high, and the consumer finds nothing to read. *)
Theorem two_producers_lose_a_message :
  two_run.2 = [true; true] /\
  (read 4 two_run.1 52).2 = None.
Proof. vm_compute. done. Qed.
End TwoProducers.

(** ** Examples *)

Lemma spsc_reach_pub : exists s, Reach 4 s /\ published s = [[7; 8]].
Proof.
  set (s0 := mkSys (init 4) (PDone true) (CDone None) [] []).
  assert (H : forall n s, Reach 4 s -> Reach 4 (Nat.iter n (fun s => mkSys (pstep 4 (queue s) (ppc s)).1
    (pstep 4 (queue s) (ppc s)).2 (cpc s) (publish s) (received s)) s)).
  { induction n as [|n IH]; intros s Hs; [done|]. cbn. eapply reach_step; [by apply IH|].
    apply producer. apply surjective_pairing. }
  exists (Nat.iter 6 (fun s => mkSys (pstep 4 (queue s) (ppc s)).1 (pstep 4 (queue s) (ppc s)).2 (cpc s)
    (publish s) (received s)) (mkSys (init 4) (PStart [7; 8]) (CDone None) [] [])).
  split; [|reflexivity]. apply H. eapply reach_step; [apply reach_init|].
  by apply (call_write 4 s0 true).
Qed.

Lemma spsc_fifo_no_tearing_witness :
  exists s, published s = [[7; 8]] /\ exists rest, published s = received s ++ rest.
Proof.
  destruct spsc_reach_pub as (s & HR & E). exists s. split; [exact E|].
  destruct (spsc_fifo_no_tearing 4 2 eq_refl ltac:(lia) s HR) as [(rest & Er & _) _].
  exists rest. exact Er.
Defined.

Lemma write_is_its_steps_witness :
  psteps 4 (init 4, PStart [7; 8]) ((write 4 (init 4) [7; 8]).1, PDone true).
Proof. exact (write_is_its_steps 4 (init 4) [7; 8] eq_refl). Defined.

Lemma read_is_its_steps_witness :
  let q := (write 4 (init 4) [7; 8]).1 in
  csteps 4 (q, CStart 52) ((read 4 q 52).1, CDone (Some [7; 8])).
Proof.
  exact (read_is_its_steps 4 (write 4 (init 4) [7; 8]).1 52 eq_refl
    ltac:(split; vm_compute; discriminate)).
Defined.
End Spsc.
