(* ===== verification/LfqRunner.v ===== *)
(** * Worker threads fed by a lock-free queue

    Models [SpinWait] (common/src/utils/spin_wait.hpp) and [LfqRunner]
    (common/src/runner/lfq_runner.hpp) with the futex calls of
    common/src/utils/sync_utils.hpp: the posting thread, the consumer thread
    and the thread that stops the runner, one shared access per step, in any
    interleaving.  The queue is a list (the refinement is in
    [SequencedSPSC.v]).  [step] interleaves the accesses sequentially
    consistently; [tso_step] adds the store buffer of the posting thread.  The
    theorems say when no wake-up is lost, that messages are consumed in order,
    and that stopping terminates the consumer. *)

From S2P Require Import Prelude.

Module SpinWait.

Definition SPIN_RETRIES_HOT : Z := 1000.
Definition SPIN_RETRIES_WARM : Z := SPIN_RETRIES_HOT * 100.
Definition SPIN_RETRIES_YIELD : Z := SPIN_RETRIES_WARM * 10.
Definition SPIN_RETRIES_BLOCK : Z := SPIN_RETRIES_YIELD * 2.

Record SpinWait := mkSpinWait { cap_ : Z; cycles_ : Z }.

Definition make (cap : Z) : SpinWait := mkSpinWait cap 0.
Definition make_default : SpinWait := make SPIN_RETRIES_YIELD.

(** [operator++]: the pause and yield instructions have no effect here. *)
Definition incr (w : SpinWait) : SpinWait * bool :=
  if cap_ w <=? cycles_ w then (w, false)
  else
    let w := mkSpinWait (cap_ w) (cycles_ w + 1) in
    if cycles_ w <? SPIN_RETRIES_HOT then (w, true)
    else if cycles_ w <? SPIN_RETRIES_WARM then (w, true)
    else if cycles_ w <? SPIN_RETRIES_YIELD then (w, true)
    else (w, false).

Definition reset (w : SpinWait) : SpinWait := mkSpinWait (cap_ w) 0.

Definition cycles (w : SpinWait) : Z := cycles_ w.

(** [n] calls of [++]: how many returned true before the first false. *)
Fixpoint spins (n : nat) (w : SpinWait) : nat :=
  match n with
  | O => O
  | S n => let '(w, more) := incr w in if more then S (spins n w) else O
  end.

Lemma incr_true w w' : incr w = (w', true) ->
  cap_ w' = cap_ w /\ cycles_ w' = cycles_ w + 1 /\ cycles_ w < cap_ w /\ cycles_ w + 1 < SPIN_RETRIES_YIELD.
Proof.
  unfold incr. destruct (Z.leb_spec (cap_ w) (cycles_ w)); [done|]. cbn.
  destruct (Z.ltb_spec (cycles_ w + 1) SPIN_RETRIES_HOT); [intros [= <-]; cbn; unfold SPIN_RETRIES_HOT, SPIN_RETRIES_YIELD, SPIN_RETRIES_WARM, SPIN_RETRIES_HOT in *; lia|].
  destruct (Z.ltb_spec (cycles_ w + 1) SPIN_RETRIES_WARM); [intros [= <-]; cbn; unfold SPIN_RETRIES_YIELD, SPIN_RETRIES_WARM in *; lia|].
  destruct (Z.ltb_spec (cycles_ w + 1) SPIN_RETRIES_YIELD); [intros [= <-]; cbn; lia|done].
Qed.

(** A waiter gives up: after a reset, [++] returns true at most
    [min(cap, SPIN_RETRIES_YIELD - 1)] times in a row, so every spinning loop
    of the code is bounded. *)
Theorem spin_wait_bounded cap n :
  0 <= cap -> Z.of_nat (spins n (make cap)) <= Z.min cap (SPIN_RETRIES_YIELD - 1).
Proof.
  intros Hc. assert (Hg : forall w, 0 <= cycles_ w ->
    Z.of_nat (spins n w) <= Z.max 0 (Z.min (cap_ w) (SPIN_RETRIES_YIELD - 1) - cycles_ w)).
  { induction n as [|m IH]; intros w Hw; cbn [spins]; [lia|].
    destruct (incr w) as [w' []] eqn:E; [|lia].
    apply incr_true in E as (E1 & E2 & E3 & E4). specialize (IH w' ltac:(lia)). lia. }
  specialize (Hg (make cap)). cbn in Hg. assert (0 < SPIN_RETRIES_YIELD) by done. lia.
Qed.

Lemma spin_wait_bounded_witness : Z.of_nat (spins 50 (make 7)) <= 7.
Proof. pose proof (spin_wait_bounded 7 50 ltac:(lia)) as H. lia. Defined.

End SpinWait.

Module Runner.
Section Runner.
Context {Msg : Type} (Capacity : nat).

(** The posting thread, in [post]. *)
Inductive PPC :=
| PIdle
| PWrite (m : Msg) (waiter : SpinWait.SpinWait)
| PCheck
| PAdd
| PWake.

(** The consumer thread, in [lfqLoop]. *)
Inductive CPC :=
| CTest
| CRead
| CDeliver (m : Msg)
| CMore
| CStopM (m : Msg)
| CSpin
| CLoad
| CSleep (v : Z)
| CRecheck (v : Z)
| CUnsleep (m : Msg)
| CDeliver1 (m : Msg)
| CStopChk (v : Z)
| CWait (v : Z)
| CBlocked (v : Z)
| CAwake
| CExit.

(** The thread in [stop]. *)
Inductive XPC := XIdle | XStart | XAdd | XWake | XJoin | XDone.

(** [accepted], [consumed], [dropped] and [stopFirst] are for the
    statements: the messages [write] took, those handed to the consumer,
    the one read but not handed over because of the stop, and whether the
    stop had been requested when [stop] was called.  [ftx_] counts without
    wrapping; the futex compares its low 32 bits. *)
Record State := mkState {
  queue_ : list Msg;
  sleeping_ : bool;
  ftx_ : Z;
  stopRequested : bool;
  started_ : bool;
  prod : PPC;
  cons : CPC;
  stopper : XPC;
  waiter : SpinWait.SpinWait;
  busErrors : nat;
  accepted : list Msg;
  consumed : list Msg;
  dropped : list Msg;
  stopFirst : bool
}.

(** [run] has started the thread. *)
Definition init : State :=
  mkState [] false 0 false true PIdle CTest XIdle SpinWait.make_default 0 [] [] [] false.

Definition upd_cons (s : State) (c : CPC) : State :=
  mkState (queue_ s) (sleeping_ s) (ftx_ s) (stopRequested s) (started_ s) (prod s) c (stopper s)
    (waiter s) (busErrors s) (accepted s) (consumed s) (dropped s) (stopFirst s).
Definition upd_prod (s : State) (p : PPC) : State :=
  mkState (queue_ s) (sleeping_ s) (ftx_ s) (stopRequested s) (started_ s) p (cons s) (stopper s)
    (waiter s) (busErrors s) (accepted s) (consumed s) (dropped s) (stopFirst s).
Definition upd_stopper (s : State) (x : XPC) : State :=
  mkState (queue_ s) (sleeping_ s) (ftx_ s) (stopRequested s) (started_ s) (prod s) (cons s) x
    (waiter s) (busErrors s) (accepted s) (consumed s) (dropped s) (stopFirst s).
Definition upd_queue (s : State) (q : list Msg) : State :=
  mkState q (sleeping_ s) (ftx_ s) (stopRequested s) (started_ s) (prod s) (cons s) (stopper s)
    (waiter s) (busErrors s) (accepted s) (consumed s) (dropped s) (stopFirst s).
Definition upd_sleeping (s : State) (b : bool) : State :=
  mkState (queue_ s) b (ftx_ s) (stopRequested s) (started_ s) (prod s) (cons s) (stopper s)
    (waiter s) (busErrors s) (accepted s) (consumed s) (dropped s) (stopFirst s).
Definition upd_waiter (s : State) (w : SpinWait.SpinWait) : State :=
  mkState (queue_ s) (sleeping_ s) (ftx_ s) (stopRequested s) (started_ s) (prod s) (cons s) (stopper s)
    w (busErrors s) (accepted s) (consumed s) (dropped s) (stopFirst s).
Definition add_ftx (s : State) : State :=
  mkState (queue_ s) (sleeping_ s) (ftx_ s + 1) (stopRequested s) (started_ s) (prod s) (cons s) (stopper s)
    (waiter s) (busErrors s) (accepted s) (consumed s) (dropped s) (stopFirst s).
Definition accept (s : State) (m : Msg) : State :=
  mkState (queue_ s ++ [m]) (sleeping_ s) (ftx_ s) (stopRequested s) (started_ s) (prod s) (cons s) (stopper s)
    (waiter s) (busErrors s) (accepted s ++ [m]) (consumed s) (dropped s) (stopFirst s).
Definition consume (s : State) (m : Msg) : State :=
  mkState (queue_ s) (sleeping_ s) (ftx_ s) (stopRequested s) (started_ s) (prod s) (cons s) (stopper s)
    (waiter s) (busErrors s) (accepted s) (consumed s ++ [m]) (dropped s) (stopFirst s).
Definition drop_msg (s : State) (m : Msg) : State :=
  mkState (queue_ s) (sleeping_ s) (ftx_ s) (stopRequested s) (started_ s) (prod s) (cons s) (stopper s)
    (waiter s) (busErrors s) (accepted s) (consumed s) (dropped s ++ [m]) (stopFirst s).
Definition bus_error (s : State) : State :=
  mkState (queue_ s) (sleeping_ s) (ftx_ s) (stopRequested s) (started_ s) (prod s) (cons s) (stopper s)
    (waiter s) (S (busErrors s)) (accepted s) (consumed s) (dropped s) (stopFirst s).

(** [futexWake]: a consumer blocked in [futexWait] returns. *)
Definition futexWake (s : State) : State :=
  match cons s with CBlocked _ => upd_cons s CAwake | _ => s end.

(** [post(message)], entered. *)
Definition post_begin (s : State) (m : Msg) : State :=
  if stopRequested s then upd_prod s PIdle
  else upd_prod s (PWrite m SpinWait.make_default).

Definition pstep (s : State) : State :=
  match prod s with
  | PIdle => s
  | PWrite m w =>
      if (length (queue_ s) <? Capacity)%nat then upd_prod (accept s m) PCheck
      else
        let '(w, more) := SpinWait.incr w in
        if more then upd_prod s (PWrite m w) else upd_prod (bus_error s) PCheck
  | PCheck => if sleeping_ s then upd_prod s PAdd else upd_prod s PIdle
  | PAdd => upd_prod (add_ftx s) PWake
  | PWake => upd_prod (futexWake s) PIdle
  end.

Definition reset_waiter (s : State) : State := upd_waiter s (SpinWait.reset (waiter s)).

Definition cstep (s : State) : State :=
  match cons s with
  | CTest => if stopRequested s then upd_cons s CExit else upd_cons s CRead
  | CRead =>
      match queue_ s with
      | m :: q => upd_cons (reset_waiter (upd_queue s q)) (CDeliver m)
      | [] => upd_cons s CSpin
      end
  | CDeliver m => upd_cons (consume s m) CMore
  | CMore =>
      match queue_ s with
      | m :: q => upd_cons (upd_queue s q) (CStopM m)
      | [] => upd_cons s CTest
      end
  | CStopM m => if stopRequested s then upd_cons (drop_msg s m) CTest else upd_cons s (CDeliver m)
  | CSpin =>
      let '(w, more) := SpinWait.incr (waiter s) in
      if more || stopRequested s then upd_cons (upd_waiter s w) CTest else upd_cons (upd_waiter s w) CLoad
  | CLoad => upd_cons s (CSleep (ftx_ s))
  | CSleep v => upd_cons (upd_sleeping s true) (CRecheck v)
  | CRecheck v =>
      match queue_ s with
      | m :: q => upd_cons (upd_queue s q) (CUnsleep m)
      | [] => upd_cons s (CStopChk v)
      end
  | CUnsleep m => upd_cons (upd_sleeping s false) (CDeliver1 m)
  | CDeliver1 m => upd_cons (reset_waiter (consume s m)) CTest
  | CStopChk v => if stopRequested s then upd_cons s CExit else upd_cons s (CWait v)
  | CWait v => if u32 (ftx_ s) =? u32 v then upd_cons s (CBlocked v) else upd_cons s CAwake
  | CBlocked v => s
  | CAwake => upd_cons (reset_waiter (upd_sleeping s false)) CTest
  | CExit => s
  end.

Definition xstep (s : State) : State :=
  match stopper s with
  | XIdle => s
  | XStart =>
      if started_ s then
        upd_stopper (mkState (queue_ s) (sleeping_ s) (ftx_ s) (stopRequested s) false (prod s) (cons s)
          (stopper s) (waiter s) (busErrors s) (accepted s) (consumed s) (dropped s) (stopFirst s)) XAdd
      else upd_stopper s XDone
  | XAdd => upd_stopper (add_ftx s) XWake
  | XWake => upd_stopper (futexWake s) XJoin
  | XJoin => match cons s with CExit => upd_stopper s XDone | _ => s end
  | XDone => s
  end.

(** The thread calls [stop]. *)
Definition stop_begin (s : State) : State :=
  mkState (queue_ s) (sleeping_ s) (ftx_ s) (stopRequested s) (started_ s) (prod s) (cons s) XStart
    (waiter s) (busErrors s) (accepted s) (consumed s) (dropped s) (stopRequested s).

Definition request_stop (s : State) : State :=
  mkState (queue_ s) (sleeping_ s) (ftx_ s) true (started_ s) (prod s) (cons s) (stopper s)
    (waiter s) (busErrors s) (accepted s) (consumed s) (dropped s) (stopFirst s).

Inductive step (s : State) : State -> Prop :=
| step_post m : prod s = PIdle -> step s (post_begin s m)
| step_prod : step s (pstep s)
| step_cons : step s (cstep s)
| step_spurious v : cons s = CBlocked v -> step s (upd_cons s CAwake)
| step_request : step s (request_stop s)
| step_stop : stopper s = XIdle -> step s (stop_begin s)
| step_stopper : step s (xstep s).

Inductive Reach : State -> Prop :=
| reach_init : Reach init
| reach_step s s' : Reach s -> step s s' -> Reach s'.

(** ** Invariants *)

(** The posting thread has yet to look at [sleeping_], or is about to wake. *)
Definition will_check (s : State) : Prop := prod s = PCheck \/ prod s = PAdd.

Definition sleep_inv (s : State) : Prop :=
  match cons s with
  | CSleep v => v <= ftx_ s
  | CRecheck v => sleeping_ s = true /\ v <= ftx_ s
  | CStopChk v | CWait v => sleeping_ s = true /\ v <= ftx_ s /\
      (queue_ s = [] \/ will_check s \/ v < ftx_ s)
  | CBlocked v => sleeping_ s = true /\ (queue_ s = [] \/ will_check s \/ prod s = PWake)
  | _ => True
  end.

(** Once [stop] has signalled a requested stop, the consumer cannot block. *)
Definition stop_inv (s : State) : Prop :=
  (stopFirst s = true -> stopRequested s = true) /\
  (stopFirst s = true -> stopper s = XWake \/ stopper s = XJoin \/ stopper s = XDone ->
    match cons s with
    | CWait v => v < ftx_ s
    | CBlocked _ => stopper s = XWake
    | _ => True
    end) /\
  (stopRequested s = false -> cons s <> CExit /\ dropped s = []) /\
  (stopper s = XIdle \/ stopper s = XStart -> started_ s = true).

Definition in_flight (s : State) : list Msg :=
  match cons s with
  | CDeliver m | CStopM m | CUnsleep m | CDeliver1 m => [m]
  | _ => []
  end.

(** A message was dropped only on the way out. *)
Definition order_inv (s : State) : Prop :=
  accepted s = consumed s ++ dropped s ++ in_flight s ++ queue_ s /\
  (dropped s <> [] -> stopRequested s = true /\ (cons s = CTest \/ cons s = CExit)) /\
  (length (dropped s) <= 1)%nat /\ (length (queue_ s) <= Capacity)%nat.

(** Case analysis of one step on an explicit state. *)
Ltac runner_cases :=
  repeat (case_match || (progress simplify_eq/=)); cbn in *.

Lemma ftx_mono s s' : step s s' -> ftx_ s <= ftx_ s'.
Proof.
  intros []; unfold post_begin, pstep, cstep, xstep, futexWake; runner_cases; lia.
Qed.

(** What the other threads can do to the consumer: wake it. *)
Definition same_or_woken (s s' : State) : Prop :=
  cons s' = cons s \/ (cons s' = CAwake /\ exists v, cons s = CBlocked v).

(** The steps of the posting thread. *)
Lemma pstep_frame s :
  stopRequested (pstep s) = stopRequested s /\ stopFirst (pstep s) = stopFirst s /\
  stopper (pstep s) = stopper s /\ sleeping_ (pstep s) = sleeping_ s /\
  dropped (pstep s) = dropped s /\ consumed (pstep s) = consumed s /\ ftx_ s <= ftx_ (pstep s) /\
  same_or_woken s (pstep s) /\
  (prod s = PWake -> forall v, cons (pstep s) <> CBlocked v) /\
  (prod s = PAdd -> ftx_ s < ftx_ (pstep s) /\ prod (pstep s) = PWake /\ queue_ (pstep s) = queue_ s) /\
  (prod s = PCheck -> sleeping_ s = true -> prod (pstep s) = PAdd /\ queue_ (pstep s) = queue_ s) /\
  (queue_ (pstep s) = queue_ s \/ prod (pstep s) = PCheck).
Proof.
  unfold pstep, futexWake, same_or_woken. destruct (prod s) eqn:Ep; runner_cases;
    repeat match goal with |- _ /\ _ => split end; intros; try done; try lia; try (by left); try (by right);
    try (right; split; [done|by eexists]); try congruence.
  split; [lia|done].
Qed.

Lemma sleep_inv_prod s : sleep_inv s -> sleep_inv (pstep s).
Proof.
  destruct (pstep_frame s) as (_ & _ & _ & Esl & _ & _ & Hf & Hc & Hw & Ha & Hk & Hq).
  unfold sleep_inv, will_check. destruct Hc as [Ec|[Ec _]]; rewrite Ec; [|done].
  destruct (cons s) as [| | | | | | |v|v| | |v|v|v| |] eqn:E; rewrite ?Esl; try done; try lia.
  - intros [? ?]. split; [done|lia].
  - intros (Hs & Hv & H). split; [done|]. split; [lia|]. destruct H as [H|[[Hp|Hp]|H]].
    + destruct Hq as [->|Hq]; auto.
    + destruct (Hk Hp Hs). auto.
    + destruct (Ha Hp) as (? & ? & ?). right. right. lia.
    + right. right. lia.
  - intros (Hs & Hv & H). split; [done|]. split; [lia|]. destruct H as [H|[[Hp|Hp]|H]].
    + destruct Hq as [->|Hq]; auto.
    + destruct (Hk Hp Hs). auto.
    + destruct (Ha Hp) as (? & ? & ?). right. right. lia.
    + right. right. lia.
  - intros (Hs & H). split; [done|]. destruct H as [H|[[Hp|Hp]|Hp]].
    + destruct Hq as [->|Hq]; auto.
    + destruct (Hk Hp Hs). auto.
    + destruct (Ha Hp) as (? & ? & ?). auto.
    + exfalso. apply (Hw Hp v). by rewrite Ec.
Qed.

Lemma sleep_inv_cons s : 0 <= ftx_ s < 2 ^ 32 ->
  (match cons s with CWait v => 0 <= v | _ => True end) -> sleep_inv s -> sleep_inv (cstep s).
Proof.
  unfold sleep_inv, will_check, cstep. intros Hf H0.
  destruct (cons s) eqn:E; runner_cases; intros HH; try done; try lia; try (intuition (done || lia)).
  match goal with H : (u32 _ =? u32 _) = true |- _ =>
    apply Z.eqb_eq in H; rewrite !u32_small in H by lia end.
  destruct HH as (? & ? & [?|[?|?]]); [auto|auto|lia].
Qed.

(** The steps of the thread that stops the runner. *)
Lemma xstep_frame s :
  stopRequested (xstep s) = stopRequested s /\ stopFirst (xstep s) = stopFirst s /\
  sleeping_ (xstep s) = sleeping_ s /\ dropped (xstep s) = dropped s /\ consumed (xstep s) = consumed s /\
  queue_ (xstep s) = queue_ s /\ prod (xstep s) = prod s /\ accepted (xstep s) = accepted s /\
  ftx_ s <= ftx_ (xstep s) /\ same_or_woken s (xstep s) /\
  (stopper (xstep s) = XWake -> ftx_ s < ftx_ (xstep s) \/ stopper s = XWake) /\
  (stopper (xstep s) = XJoin \/ stopper (xstep s) = XDone ->
     (stopper s = XWake /\ forall v, cons (xstep s) <> CBlocked v) \/
     stopper s = XJoin \/ stopper s = XDone \/ (stopper s = XStart /\ started_ s = false)) /\
  (stopper s = XWake -> stopper (xstep s) = XJoin).
Proof.
  unfold xstep, futexWake, same_or_woken. destruct (stopper s) eqn:Ex; runner_cases;
    repeat match goal with |- _ /\ _ => split end; intros; try done; try lia; try (by left); try (by right);
    try (right; split; [done|by eexists]); try (intuition congruence).
  all: try (left; split; [done|]; intros; congruence).
  all: try (right; right; right; by split).
  all: match goal with H : _ = _ \/ _ = _ |- _ => by destruct H end.
Qed.

Lemma sleep_inv_stopper s : sleep_inv s -> sleep_inv (xstep s).
Proof.
  destruct (xstep_frame s) as (_ & _ & Esl & _ & _ & Eq & Ep & _ & Hf & Hc & _).
  unfold sleep_inv, will_check. destruct Hc as [Ec|[Ec _]]; rewrite Ec, ?Esl, ?Eq, ?Ep; [|done].
  destruct (cons s); try done; try lia; intuition lia.
Qed.

Definition range_inv (s : State) : Prop :=
  0 <= ftx_ s /\
  match cons s with
  | CSleep v | CRecheck v | CStopChk v | CWait v | CBlocked v => 0 <= v
  | _ => True
  end.

Lemma range_inv_step s s' : range_inv s -> step s s' -> range_inv s'.
Proof.
  intros [H0 Hv] Hs. pose proof (ftx_mono _ _ Hs) as Hm. split; [lia|].
  destruct Hs as [m Hp| | |v E| |Hx|].
  - unfold post_begin. by destruct (stopRequested s).
  - destruct (pstep_frame s) as (_ & _ & _ & _ & _ & _ & _ & [-> |[-> _]] & _); done.
  - revert Hv. unfold cstep. destruct (cons s) eqn:Ec; runner_cases; rewrite ?Ec; (done || lia).
  - done.
  - done.
  - done.
  - destruct (xstep_frame s) as (_ & _ & _ & _ & _ & _ & _ & _ & _ & [-> |[-> _]] & _); done.
Qed.

Lemma sleep_inv_step s s' :
  range_inv s -> ftx_ s' < 2 ^ 32 -> sleep_inv s -> step s s' -> sleep_inv s'.
Proof.
  intros [H0 Hv] Hlt Hi Hs. pose proof (ftx_mono _ _ Hs) as Hm.
  destruct Hs as [m Hp| | |v E| |Hx|].
  - revert Hi. unfold post_begin, sleep_inv, will_check. rewrite Hp.
    destruct (stopRequested s); cbn; destruct (cons s); try done; intros H; intuition (done || congruence).
  - by apply sleep_inv_prod.
  - apply sleep_inv_cons; [lia| |done]. by destruct (cons s).
  - done.
  - done.
  - done.
  - by apply sleep_inv_stopper.
Qed.

(** ** Stopping *)

Lemma stop_inv_cons s : range_inv s -> ftx_ s < 2 ^ 32 -> stop_inv s -> stop_inv (cstep s).
Proof.
  intros [H0 Hv] Hlt. unfold stop_inv. intros (H1 & H2 & H3 & H4).
  assert (E : stopRequested (cstep s) = stopRequested s /\ stopFirst (cstep s) = stopFirst s /\
              stopper (cstep s) = stopper s /\ ftx_ (cstep s) = ftx_ s /\ started_ (cstep s) = started_ s)
    by (unfold cstep; destruct (cons s); runner_cases; done).
  destruct E as (E1 & E2 & E3 & E4 & E5). rewrite E1, E2, E3, E5. split; [done|]. split; [|split; [|done]].
  - intros Hf Hx. specialize (H1 Hf). specialize (H2 Hf Hx). unfold cstep.
    destruct (cons s) eqn:Ec; runner_cases; rewrite ?Ec; try done; try congruence.
    match goal with H : (u32 _ =? u32 _) = true |- _ =>
      apply Z.eqb_eq in H; rewrite !u32_small in H by lia end. lia.
  - intros Hr. destruct (H3 Hr) as [Hc Hd]. unfold cstep.
    destruct (cons s) eqn:Ec; runner_cases; rewrite ?Ec; try (by split); congruence.
Qed.

Lemma xstep_early s : stopper (xstep s) = XIdle \/ stopper (xstep s) = XStart ->
  stopper s = XIdle /\ started_ (xstep s) = started_ s.
Proof.
  unfold xstep, futexWake. destruct (stopper s) eqn:Ex; intros [H|H]; revert H;
    repeat case_match; cbn; try done; congruence.
Qed.

Lemma stop_inv_step s s' :
  range_inv s -> ftx_ s' < 2 ^ 32 -> sleep_inv s -> stop_inv s -> step s s' -> stop_inv s'.
Proof.
  intros Hr Hlt Hsl Hi Hs. pose proof (ftx_mono _ _ Hs) as Hm. destruct Hs as [m Hp| | |v E| |Hx|].
  - unfold post_begin. by destruct (stopRequested s).
  - destruct (pstep_frame s) as (E1 & E2 & E3 & _ & E5 & _ & Hf & Hc & Hw & _).
    assert (E6 : started_ (pstep s) = started_ s)
      by (unfold pstep, futexWake; destruct (prod s); runner_cases; done).
    destruct Hi as (H1 & H2 & H3 & H4). unfold stop_inv. rewrite E1, E2, E3, E5, E6. split; [done|].
    destruct Hc as [->|[-> (v & Ev)]]; [|split; [done|split; [intros Hq; by destruct (H3 Hq)|done]]].
    split; [|done]. intros Hf' Hx. specialize (H2 Hf' Hx). destruct (cons s); try done; lia.
  - apply stop_inv_cons; [done|lia|done].
  - destruct Hi as (H1 & H2 & H3 & H4). split; [done|]. split; [done|]. split; [|done].
    cbn. intros Hq. by destruct (H3 Hq).
  - destruct Hi as (H1 & H2 & H3 & H4). split; [done|]. split; [done|]. split; [done|]. done.
  - destruct Hi as (H1 & H2 & H3 & H4). split; [done|]. split; [|split; [done|]]; cbn.
    + intros _ [?|[?|?]]; done.
    + intros _. apply H4. by left.
  - destruct (xstep_frame s) as (E1 & E2 & _ & E4 & _ & _ & _ & _ & Hf & Hc & Hw & Hj & Hwj).
    destruct Hi as (H1 & H2 & H3 & H4). unfold stop_inv. rewrite E1, E2, E4. split; [done|]. split; [|split].
    + intros Hf' Hx. specialize (H1 Hf'). unfold sleep_inv in Hsl.
      destruct Hc as [Ec|[-> _]]; [|done]. rewrite Ec in *.
      destruct (cons s) as [| | | | | | | | | | | |v|v| |] eqn:E; try done.
      * destruct Hsl as (_ & Hv & _).
        assert (stopper s = XWake \/ stopper s = XJoin \/ stopper s = XDone \/ ftx_ s < ftx_ (xstep s)) as Hcase.
        { destruct Hx as [Hx|Hx]; [destruct (Hw Hx); auto|].
          destruct (Hj Hx) as [[? _]|[?|[?|[? Hst]]]]; auto. rewrite H4 in Hst; [done|auto]. }
        destruct Hcase as [Hs|[Hs|[Hs|?]]]; [| | |lia]; rewrite Hs in H2; specialize (H2 Hf' ltac:(auto)); lia.
      * destruct Hx as [Hx|Hx]; [done|]. exfalso.
        destruct (Hj Hx) as [[_ Hn]|[Hx'|[Hx'|[Hx' Hst]]]].
        -- by apply (Hn v).
        -- specialize (H2 Hf' ltac:(auto)). congruence.
        -- specialize (H2 Hf' ltac:(auto)). congruence.
        -- rewrite H4 in Hst; [done|auto].
    + intros Hq. destruct (H3 Hq) as [Hc' Hd]. split; [|done]. destruct Hc as [->|[-> _]]; done.
    + intros Hx. destruct (xstep_early s Hx) as [Hx' ->]. apply H4. by left.
Qed.

(** ** Order *)

Lemma order_inv_cons s : order_inv s -> order_inv (cstep s).
Proof.
  intros (H1 & H2 & H3 & H4).
  assert (Hd : cons s <> CTest -> cons s <> CExit -> dropped s = []).
  { intros ? ?. destruct (dropped s); [done|]. destruct H2 as [_ [?|?]]; done. }
  unfold order_inv, in_flight, cstep in *. destruct (cons s) eqn:Ec.
  1: { destruct (stopRequested s) eqn:Es; cbn; split; [done|split; [|done]|done|split; [|done]]; intros He;
       destruct (H2 He) as [? _]; by auto || congruence. }
  15: { by rewrite Ec. }
  all: specialize (Hd ltac:(done) ltac:(done)); rewrite Hd in H1, H3; clear H2; cbn in H1, H3; destruct (queue_ s) as [|m0 q0] eqn:Eq;
    destruct (stopRequested s) eqn:Es; destruct (SpinWait.incr (waiter s)) as [w []];
    try destruct (u32 _ =? u32 _); cbn; rewrite ?Ec, ?Hd, ?Eq, ?app_nil_r in *; cbn in *;
    (split; [rewrite H1, <- ?(assoc_L app); done|split; [|lia]]); try done; intros _; by auto.
Qed.

Lemma order_inv_step s s' : order_inv s -> stop_inv s -> step s s' -> order_inv s'.
Proof.
  intros Hi Hst Hs. pose proof Hi as (H1 & H2 & H3 & H4). destruct Hs as [m Hp| | |v E| |Hx|].
  - unfold post_begin. by destruct (stopRequested s).
  - destruct (pstep_frame s) as (E1 & _ & _ & _ & E5 & E6 & _ & Hc & _).
    assert (Hq : (queue_ (pstep s) = queue_ s /\ accepted (pstep s) = accepted s) \/
      exists m, queue_ (pstep s) = queue_ s ++ [m] /\ accepted (pstep s) = accepted s ++ [m] /\
        (length (queue_ s) < Capacity)%nat).
    { unfold pstep, futexWake. destruct (prod s); runner_cases; try (by left).
      right. exists m. split; [done|]. split; [done|]. by apply Nat.ltb_lt. }
    assert (Hf : in_flight (pstep s) = in_flight s).
    { unfold in_flight. destruct Hc as [->|[-> (v & ->)]]; done. }
    unfold order_inv. rewrite E1, E5, E6, Hf. split; [|split; [|split; [done|]]].
    + destruct Hq as [[-> ->]|(m & -> & -> & _)]; [done|]. rewrite H1, <- !(assoc_L app). done.
    + intros Hd. destruct (H2 Hd) as [Hr Hcc]. split; [done|].
      destruct Hc as [->|[_ (v & Ev)]]; [done|]. destruct Hcc; congruence.
    + destruct Hq as [[-> _]|(m & -> & _ & ?)]; [done|]. rewrite length_app. cbn. lia.
  - by apply order_inv_cons.
  - unfold order_inv, in_flight in *. rewrite E in *. split; [done|]. split; [|done].
    intros Hd. by destruct (H2 Hd) as [? [?|?]].
  - split; [done|]. split; [|done]. intros Hd. by destruct (H2 Hd) as [? ?].
  - done.
  - destruct (xstep_frame s) as (E1 & _ & _ & E4 & E5 & E6 & _ & E7 & _ & Hc & _).
    assert (Hf : in_flight (xstep s) = in_flight s).
    { unfold in_flight. destruct Hc as [->|[-> (v & ->)]]; done. }
    unfold order_inv. rewrite E1, E4, E5, E6, E7, Hf. split; [done|]. split; [|done].
    intros Hd. destruct (H2 Hd) as [Hr Hcc]. split; [done|].
    destruct Hc as [->|[_ (v & Ev)]]; [done|]. destruct Hcc; congruence.
Qed.

Lemma reach_invs s : Reach s -> ftx_ s < 2 ^ 32 ->
  range_inv s /\ sleep_inv s /\ stop_inv s /\ order_inv s.
Proof.
  induction 1 as [|s s' Hr IH Hs]; intros Hlt.
  - split; [done|]. split; [done|]. split; [|split; [done|split; [done|cbn; split; lia]]].
    split; [done|]. split; [done|]. split; [|done]. by split.
  - pose proof (ftx_mono _ _ Hs). destruct IH as (H1 & H2 & H3 & H4); [lia|].
    split_and!; eauto using range_inv_step, sleep_inv_step, stop_inv_step, order_inv_step.
Qed.

Lemma reach_step' (f : State -> State) s : (forall s, step s (f s)) -> Reach s -> Reach (f s).
Proof. intros Hf Hr. exact (reach_step _ _ Hr (Hf s)). Qed.

(** The consumer's way into the futex, from a runner that is idle. *)
Definition idle (k : Z) : State :=
  mkState [] false 0 false true PIdle CTest XIdle (SpinWait.mkSpinWait SpinWait.SPIN_RETRIES_YIELD k) 0 [] [] [] false.

Lemma reach_idle_next k : 0 <= k < SpinWait.SPIN_RETRIES_YIELD - 1 -> Reach (idle k) -> Reach (idle (k + 1)).
Proof.
  intros Hk Hr.
  assert (E : cstep (cstep (cstep (idle k))) = idle (k + 1)).
  { unfold cstep at 3. cbn [cons stopRequested idle]. unfold cstep at 2. cbn. unfold cstep. cbn.
    unfold SpinWait.incr. cbn [SpinWait.cap_ SpinWait.cycles_].
    destruct (Z.leb_spec SpinWait.SPIN_RETRIES_YIELD k); [lia|].
    destruct (k + 1 <? SpinWait.SPIN_RETRIES_HOT); [done|].
    destruct (k + 1 <? SpinWait.SPIN_RETRIES_WARM); [done|].
    destruct (Z.ltb_spec (k + 1) SpinWait.SPIN_RETRIES_YIELD); [done|lia]. }
  rewrite <- E. do 3 (apply reach_step'; [apply step_cons|]). done.
Qed.

Lemma reach_idle k : 0 <= k -> k <= SpinWait.SPIN_RETRIES_YIELD - 1 -> Reach (idle k).
Proof.
  revert k. apply (natlike_ind (fun k => k <= SpinWait.SPIN_RETRIES_YIELD - 1 -> Reach (idle k))).
  - intros _. exact reach_init.
  - intros k Hk IH Hle. rewrite <- Z.add_1_r. apply reach_idle_next; [lia|]. apply IH. lia.
Qed.

(** The state in which the consumer is about to go to sleep. *)
Definition dozing (c : CPC) (sl : bool) (p : PPC) (q acc : list Msg) : State :=
  mkState q sl 0 false true p c XIdle
    (SpinWait.mkSpinWait SpinWait.SPIN_RETRIES_YIELD SpinWait.SPIN_RETRIES_YIELD) 0 acc [] [] false.

Lemma reach_csleep : Reach (dozing (CSleep 0) false PIdle [] []).
Proof.
  assert (E : cstep (cstep (cstep (cstep (idle (SpinWait.SPIN_RETRIES_YIELD - 1))))) =
    dozing (CSleep 0) false PIdle [] []) by (vm_compute; reflexivity).
  rewrite <- E. do 4 (apply reach_step'; [apply step_cons|]). by apply reach_idle.
Qed.

Lemma reach_blocked : Reach (dozing (CBlocked 0) true PIdle [] []).
Proof.
  assert (E : cstep (cstep (cstep (cstep (dozing (CSleep 0) false PIdle [] [])))) =
    dozing (CBlocked 0) true PIdle [] []) by (vm_compute; reflexivity).
  rewrite <- E. do 4 (apply reach_step'; [apply step_cons|]). exact reach_csleep.
Qed.

Lemma reach_blocked_posted m : (1 <= Capacity)%nat ->
  Reach (dozing (CBlocked 0) true PCheck [m] [m]).
Proof.
  intros Hc.
  assert (E : pstep (post_begin (dozing (CBlocked 0) true PIdle [] []) m) =
    dozing (CBlocked 0) true PCheck [m] [m]).
  { unfold pstep, post_begin. cbn -[Nat.ltb]. by rewrite (proj2 (Nat.ltb_lt 0 Capacity) Hc). }
  rewrite <- E. apply reach_step'; [apply step_prod|].
  apply (reach_step _ _ reach_blocked). by apply step_post.
Qed.

(** Under sequentially consistent memory a consumer that is blocked in the
    futex with a message in the queue is about to be woken: the posting thread
    is still in [post]. *)
Lemma sc_no_lost_wakeup s v : Reach s -> ftx_ s < 2 ^ 32 ->
  cons s = CBlocked v -> queue_ s <> [] -> prod s = PCheck \/ prod s = PAdd \/ prod s = PWake.
Proof.
  intros Hr Hlt Hc Hq. destruct (reach_invs s Hr Hlt) as (_ & Hs & _). unfold sleep_inv, will_check in Hs.
  rewrite Hc in Hs. tauto.
Qed.

(** C20: in any interleaving the consumer gets the accepted messages in the
    order in which they were written, each once: what was accepted is what
    was handed over, then at most one message read and thrown away on the way
    out of the loop after a stop was requested, then the one in the
    consumer's hand, then the queue, which never exceeds the capacity. *)
Theorem consumed_in_order s : Reach s -> ftx_ s < 2 ^ 32 ->
  accepted s = consumed s ++ dropped s ++ in_flight s ++ queue_ s /\
  (length (dropped s) <= 1)%nat /\ (stopRequested s = false -> dropped s = []) /\
  (length (queue_ s) <= Capacity)%nat.
Proof.
  intros Hr Hlt. destruct (reach_invs s Hr Hlt) as (_ & _ & (_ & _ & H & _) & (H1 & _ & H3 & H4)).
  split; [done|]. split; [done|]. split; [|done]. intros Hs. by destruct (H Hs).
Qed.

(** C21: [stop] after a stop request terminates: once [stop] has reached the
    join, the consumer, run alone, leaves the loop within six steps and the
    join returns. *)
Theorem requested_stop_joins s : Reach s -> ftx_ s < 2 ^ 32 ->
  stopFirst s = true -> stopper s = XJoin ->
  exists n, (n <= 6)%nat /\ stopper (xstep (Nat.iter n cstep s)) = XDone.
Proof.
  intros Hr Hlt Hf Hx. destruct (reach_invs s Hr Hlt) as (Hv & _ & (H1 & H2 & _) & _).
  specialize (H1 Hf). specialize (H2 Hf ltac:(auto)). destruct Hv as [Hp Hv].
  destruct s as [q sl ft rq st pr co xx w be ac cs dr sf]; cbn in *; subst.
  destruct co; cbn in *; try done;
    try (exists 0%nat; split; [lia|done]); try (exists 1%nat; split; [lia|done]);
    try (exists 2%nat; split; [lia|done]); try (exists 3%nat; split; [lia|done]).
  - destruct q as [|m0 q]; [exists 3%nat|destruct q; [exists 4%nat|exists 5%nat]]; (split; [lia|]); unfold cstep;
      cbn -[SpinWait.incr]; try (destruct (SpinWait.incr w) as [? []]); done.
  - destruct q; [exists 3%nat|exists 4%nat]; (split; [lia|done]).
  - destruct q; [exists 2%nat|exists 3%nat]; (split; [lia|done]).
  - exists 2%nat. split; [lia|]. unfold cstep. cbn -[SpinWait.incr]. by destruct (SpinWait.incr w) as [? []].
  - destruct q; [exists 4%nat|exists 6%nat]; (split; [lia|done]).
  - destruct q; [exists 3%nat|exists 5%nat]; (split; [lia|done]).
  - destruct q; [exists 2%nat|exists 4%nat]; (split; [lia|done]).
  - exists 3%nat. split; [lia|]. unfold cstep. cbn. rewrite !u32_small by lia.
    destruct (Z.eqb_spec ft v); [lia|done].
Qed.

(** The stop token is the only way out of the loop: as long as no stop
    was requested the consumer has not left it, so a [stop] that found the
    runner started never gets past the join. *)
Theorem no_exit_without_request s : Reach s -> ftx_ s < 2 ^ 32 -> stopRequested s = false ->
  cons s <> CExit /\ (stopper s = XJoin -> xstep s = s).
Proof.
  intros Hr Hlt Hs. destruct (reach_invs s Hr Hlt) as (_ & _ & (_ & _ & H & _) & _).
  destruct (H Hs) as [Hc _]. split; [done|]. intros Hx. unfold xstep. rewrite Hx. by destruct (cons s).
Qed.

(** ** The store buffer

    [queue_.write] publishes with a release store and [post] then reads
    [sleeping_]: on a machine with store buffers (x86) the read can be
    performed while the store is still buffered.  [buf] is that store, and
    [early] records that [sleeping_] was read past it.  (The consumer's store
    of true is sequentially consistent and drains at once; its stores of
    false, when late, only cost a needless wake-up.) *)
Record TState := mkTState { core : State; buf : option Msg; early : bool }.

Definition tinit : TState := mkTState init None false.

(** The posting thread's step when its release store goes to the buffer; the
    [fetch_add] drains it. *)
Definition tso_pstep (t : TState) : option TState :=
  match prod (core t), buf t with
  | PWrite m w, None =>
      if (length (queue_ (core t)) <? Capacity)%nat
      then Some (mkTState (upd_prod (core t) PCheck) (Some m) (early t))
      else Some (mkTState (pstep (core t)) None (early t))
  | PWrite _ _, Some _ | PAdd, Some _ => None
  | PCheck, Some m => Some (mkTState (pstep (core t)) (Some m) true)
  | _, b => Some (mkTState (pstep (core t)) b (early t))
  end.

Definition tso_flush (t : TState) : TState :=
  match buf t with Some m => mkTState (accept (core t) m) None (early t) | None => t end.

(** A step of a thread that does not touch the posting thread's buffer. *)
Definition on_core (t : TState) (s : State) : TState := mkTState s (buf t) (early t).

Inductive tso_step (t : TState) : TState -> Prop :=
| tso_prod t' : tso_pstep t = Some t' -> tso_step t t'
| tso_drain : tso_step t (tso_flush t)
| tso_post m : prod (core t) = PIdle -> tso_step t (on_core t (post_begin (core t) m))
| tso_cons : tso_step t (on_core t (cstep (core t)))
| tso_spurious v : cons (core t) = CBlocked v -> tso_step t (on_core t (upd_cons (core t) CAwake))
| tso_request : tso_step t (on_core t (request_stop (core t)))
| tso_stop : stopper (core t) = XIdle -> tso_step t (on_core t (stop_begin (core t)))
| tso_stopper : tso_step t (on_core t (xstep (core t))).

Inductive TReach : TState -> Prop :=
| treach_init : TReach tinit
| treach_step t t' : TReach t -> tso_step t t' -> TReach t'.

(** Every sequentially consistent run is one of the machine: the buffer is
    drained at once. *)
Lemma sc_reach_tso s : Reach s -> TReach (mkTState s None false).
Proof.
  induction 1 as [|s s' Hr IH Hs]; [exact treach_init|]. destruct Hs as [m Hp| | |v E| |Hx|].
  - by apply (treach_step _ _ IH), (tso_post (mkTState s None false)).
  - destruct (prod s) as [|m w| | |] eqn:Ep.
    2: { destruct (length (queue_ s) <? Capacity)%nat eqn:El.
         - apply (treach_step (mkTState (upd_prod s PCheck) (Some m) false)).
           + apply (treach_step _ _ IH), tso_prod. unfold tso_pstep. cbn [core buf early]. by rewrite Ep, El.
           + assert (E : pstep s = upd_prod (accept s m) PCheck) by (unfold pstep; by rewrite Ep, El).
             rewrite E. exact (tso_drain (mkTState (upd_prod s PCheck) (Some m) false)).
         - apply (treach_step _ _ IH), tso_prod. unfold tso_pstep. cbn [core buf early]. by rewrite Ep, El. }
    all: apply (treach_step _ _ IH), tso_prod; unfold tso_pstep; cbn; by rewrite Ep.
  - by apply (treach_step _ _ IH), (tso_cons (mkTState s None false)).
  - by apply (treach_step _ _ IH), (tso_spurious (mkTState s None false) v).
  - by apply (treach_step _ _ IH), (tso_request (mkTState s None false)).
  - by apply (treach_step _ _ IH), (tso_stop (mkTState s None false)).
  - by apply (treach_step _ _ IH), (tso_stopper (mkTState s None false)).
Qed.

(** What a buffered store amounts to as long as [sleeping_] was not read past
    it: the posting thread has not written yet. *)
Definition unbuffered (t : TState) (s : State) : Prop :=
  match buf t with
  | None => s = core t
  | Some m => prod (core t) = PCheck /\ (length (queue_ (core t)) < Capacity)%nat /\
      exists w, s = upd_prod (core t) (PWrite m w)
  end.

(** The other threads do not look at where the posting thread is. *)
Definition blind (f : State -> State) : Prop :=
  forall s, prod (f s) = prod s /\ (length (queue_ (f s)) <= length (queue_ s))%nat /\
    forall p, f (upd_prod s p) = upd_prod (f s) p.

Lemma cstep_blind : blind cstep.
Proof.
  intros []. unfold cstep. cbn.
  repeat (case_match; cbn); (split; [done|]); (split; [lia|done]).
Qed.

Lemma xstep_blind : blind xstep.
Proof. intros []. unfold xstep, futexWake. cbn. repeat (case_match; cbn); (split; [done|]); (split; [lia|done]). Qed.

Lemma unbuffered_blind f t s : blind f -> unbuffered t s -> unbuffered (on_core t (f (core t))) (f s).
Proof.
  intros Hf. destruct (Hf (core t)) as (Hp & Hl & Hc). unfold unbuffered. cbn. destruct (buf t) as [m|]; [|by intros ->].
  intros (H1 & H2 & w & ->). rewrite Hp. split; [done|]. split; [lia|]. exists w. apply Hc.
Qed.

Lemma tso_early t t' : tso_step t t' -> early t' = false -> early t = false.
Proof.
  intros [t1 H| | | | | | |]; try done; [|unfold tso_flush; by destruct (buf t)].
  unfold tso_pstep in H. destruct (prod (core t)), (buf t); simplify_eq/=; try done. case_match; by simplify_eq/=.
Qed.

Lemma unbuffered_prod t t' s :
  tso_pstep t = Some t' -> early t' = false -> unbuffered t s -> Reach s -> exists s', Reach s' /\ unbuffered t' s'.
Proof.
  unfold tso_pstep, unbuffered. intros H He Hu Hr. destruct (buf t) as [m|] eqn:Eb.
  { destruct Hu as (Hp & _). rewrite Hp in H. by injection H as <-. }
  subst s. pose proof (reach_step _ _ Hr (step_prod _)) as Hr'.
  destruct (prod (core t)) as [|m w| | |] eqn:Ep; try (injection H as <-; by exists (pstep (core t))).
  destruct (Nat.ltb_spec (length (queue_ (core t))) Capacity) as [Hl|Hl]; injection H as <-.
  - exists (core t). split; [done|]. cbn. split; [done|]. split; [done|]. exists w. destruct (core t); cbn in *. by subst.
  - by exists (pstep (core t)).
Qed.

Lemma unbuffered_flush t s : unbuffered t s -> Reach s -> exists s', Reach s' /\ unbuffered (tso_flush t) s'.
Proof.
  unfold unbuffered, tso_flush. destruct (buf t) as [m|] eqn:Eb; [|rewrite Eb; eauto].
  intros (Hp & Hl & w & ->) Hr. exists (pstep (upd_prod (core t) (PWrite m w))).
  split; [by apply (reach_step _ _ Hr), step_prod|]. cbn [buf]. unfold pstep. cbn [prod upd_prod queue_].
  rewrite (proj2 (Nat.ltb_lt _ _) Hl). cbn [core]. destruct (core t); cbn in *. by subst.
Qed.

Lemma tso_is_sc t : TReach t -> early t = false -> exists s, Reach s /\ unbuffered t s.
Proof.
  induction 1 as [|t t' Hr IH Hs]; intros He; [exists init; split; [exact reach_init|done]|].
  destruct (IH (tso_early _ _ Hs He)) as (s & HR & Hu).
  assert (Hb : forall f, blind f -> step s (f s) -> exists s', Reach s' /\ unbuffered (on_core t (f (core t))) s').
  { intros f Hf Hst. exists (f s). split; [by apply (reach_step _ _ HR)|by apply unbuffered_blind]. }
  assert (Hc : cons s = cons (core t) /\ stopper s = stopper (core t)).
  { unfold unbuffered in Hu. destruct (buf t); [destruct Hu as (_ & _ & w & ->)|subst s]; done. }
  destruct Hc as [Hc Hx]. destruct Hs as [t' H| |m Hp| |v E| |E|].
  - by apply (unbuffered_prod t t' s).
  - by apply (unbuffered_flush t s).
  - unfold unbuffered in Hu |- *. cbn. destruct (buf t); [destruct Hu; congruence|]. subst s.
    exists (post_begin (core t) m). split; [|done]. by apply (reach_step _ _ HR), step_post.
  - apply (Hb cstep cstep_blind), step_cons.
  - apply (Hb (fun s => upd_cons s CAwake)); [by intros []|]. apply (step_spurious s v). congruence.
  - apply (Hb request_stop); [by intros []|apply step_request].
  - apply (Hb stop_begin); [by intros []|]. apply step_stop. congruence.
  - apply (Hb xstep xstep_blind), step_stopper.
Qed.

Definition tso_post_next (t : TState) : TState := default t (tso_pstep t).

(** C19: on a machine with store buffers, in whatever order the accesses of
    the posting thread, the consumer and the stopping thread interleave and
    the stores drain: as long as the posting thread has not read [sleeping_]
    past its own buffered publication ([early]; [store_buffer_loses_wakeup]
    is what happens otherwise) and the futex has not been bumped 2^32 times,
    a consumer that is blocked in the futex with a message in the queue is
    woken by the next steps of the posting thread, which is still in [post]:
    at most three. *)
Theorem no_lost_wakeup t v : TReach t -> early t = false -> ftx_ (core t) < 2 ^ 32 ->
  cons (core t) = CBlocked v -> queue_ (core t) <> [] ->
  exists n, (n <= 3)%nat /\ cons (core (Nat.iter n tso_post_next t)) = CAwake.
Proof.
  intros Hr He Hlt Hc Hq. destruct (tso_is_sc t Hr He) as (s & HR & Hu). unfold unbuffered in Hu.
  destruct t as [s0 [m|] e]; cbn in *.
  - destruct Hu as (_ & _ & w & ->). destruct (sc_no_lost_wakeup _ v HR) as [[=]|[[=]|[=]]]; done.
  - subst s. destruct (reach_invs s0 HR Hlt) as (_ & Hs & _). unfold sleep_inv in Hs. rewrite Hc in Hs.
    destruct Hs as [Hsl _]. destruct (sc_no_lost_wakeup _ v HR Hlt Hc Hq) as [Hp|[Hp|Hp]];
      [exists 3%nat|exists 2%nat|exists 1%nat]; (split; [lia|]); destruct s0; cbn in *; by subst.
Qed.

(** With a store buffer the wake-up can be lost: the consumer is about to
    announce that it sleeps, [post] writes, reads [sleeping_] false past its
    own store and returns, and the consumer, which does not see the write
    either, blocks; the write then becomes visible, and the message stays in
    the queue of a blocked consumer with no thread left to wake it.  A
    release store followed by a sequentially consistent load of another
    location does not order the two. *)
Theorem store_buffer_loses_wakeup m : (1 <= Capacity)%nat ->
  exists t, TReach t /\ early t = true /\ ftx_ (core t) = 0 /\ buf t = None /\
    cons (core t) = CBlocked 0 /\ queue_ (core t) = [m] /\ prod (core t) = PIdle /\
    stopRequested (core t) = false.
Proof.
  intros Hc. exists (mkTState (dozing (CBlocked 0) true PIdle [m] [m]) None true). split; [|done].
  apply (treach_step (mkTState (dozing (CBlocked 0) true PIdle [] []) (Some m) true)); [|exact (tso_drain _)].
  apply (treach_step (mkTState (dozing (CWait 0) true PIdle [] []) (Some m) true)); [|exact (tso_cons _)].
  apply (treach_step (mkTState (dozing (CStopChk 0) true PIdle [] []) (Some m) true)); [|exact (tso_cons _)].
  apply (treach_step (mkTState (dozing (CRecheck 0) true PIdle [] []) (Some m) true)); [|exact (tso_cons _)].
  apply (treach_step (mkTState (dozing (CSleep 0) false PIdle [] []) (Some m) true)); [|exact (tso_cons _)].
  apply (treach_step (mkTState (dozing (CSleep 0) false PCheck [] []) (Some m) false)); [|by apply tso_prod].
  apply (treach_step (mkTState (post_begin (dozing (CSleep 0) false PIdle [] []) m) None false)).
  - apply (treach_step (mkTState (dozing (CSleep 0) false PIdle [] []) None false)); [|by apply (tso_post (mkTState (dozing (CSleep 0) false PIdle [] []) None false))].
    apply sc_reach_tso, reach_csleep.
  - apply tso_prod. unfold tso_pstep, post_begin. cbn -[Nat.ltb]. by rewrite (proj2 (Nat.ltb_lt 0 Capacity) Hc).
Qed.
End Runner.

(** Witnesses, for messages that are numbers and a queue of four. *)

Lemma no_lost_wakeup_witness : exists n, (n <= 3)%nat /\
  cons (core (Nat.iter n (tso_post_next 4) (mkTState (dozing (CBlocked 0) true PCheck [7%nat] [7%nat]) None false))) = CAwake.
Proof. apply (no_lost_wakeup 4 _ 0); [apply sc_reach_tso, reach_blocked_posted; lia|done|done|done|done]. Defined.

Lemma consumed_in_order_witness : accepted (dozing (CBlocked 0) true PCheck [7%nat] [7%nat]) = [] ++ [] ++ [] ++ [7%nat].
Proof.
  exact (proj1 (consumed_in_order 4 _ (reach_blocked_posted 4 7%nat ltac:(lia)) ltac:(done))).
Defined.

(** The stop is requested while the consumer sleeps, then [stop] runs. *)
Definition stopping : State :=
  xstep (xstep (xstep (stop_begin (request_stop (dozing (CBlocked 0) true PCheck [7%nat] [7%nat]))))).

Lemma reach_stopping : Reach 4 stopping.
Proof.
  unfold stopping. do 3 (eapply reach_step; [|apply step_stopper]).
  eapply reach_step; [|by apply step_stop]. eapply reach_step; [|by apply step_request].
  apply reach_blocked_posted. lia.
Qed.

Lemma requested_stop_joins_witness :
  exists n, (n <= 6)%nat /\ stopper (xstep (Nat.iter n cstep stopping)) = XDone.
Proof. apply (requested_stop_joins 4); [apply reach_stopping|done|done|done]. Defined.

Lemma no_exit_without_request_witness :
  cons (dozing (CBlocked 0) true PCheck [7%nat] [7%nat]) <> CExit.
Proof. exact (proj1 (no_exit_without_request 4 _ (reach_blocked_posted 4 7%nat ltac:(lia)) ltac:(done) eq_refl)). Defined.

Lemma store_buffer_loses_wakeup_witness : exists t, TReach 4 t /\ early t = true /\ ftx_ (core t) = 0 /\
  buf t = None /\ cons (core t) = CBlocked 0 /\ queue_ (core t) = [7%nat] /\ prod (core t) = PIdle /\
  stopRequested (core t) = false.
Proof. apply (store_buffer_loses_wakeup 4 7%nat). lia. Defined.

End Runner.
