(* ===== verification/ShmQueue.v ===== *)
(** * The shared-memory queue

    Models [ShmQueue] (common/src/transport/shm/shm_queue.hpp), the counted
    mapping [ShmUPtr] (shm_ptr.hpp, with [mapFileHuge] of
    common/src/utils/memory_utils.hpp) and the two threads that meet on the
    queue: a writer ([ShmWriter::syncTx]) and the reactor
    (shm_reactor.cpp), one shared access per step. *)

From S2P Require Import Prelude HugeArray SequencedSPSC LfqRunner.

Module ShmQueue.

(** The element type of the messages is bytes; [SlotCount] is 131072. *)
Abbreviation bytes := (list Z).

Record ShmQueue := mkShmQueue {
  queue : Spsc.Queue;
  futex : Z;
  futexCounter : Z;
  waitFlag : bool;
  refCount : Z
}.

Section ShmQueue.
Context (SlotCount : Z).

(** The constructor: what [new (ptr) T()] leaves in the mapping. *)
Definition init : ShmQueue := mkShmQueue (Spsc.init SlotCount) 0 0 false 0.

Definition set_queue (q : ShmQueue) (x : Spsc.Queue) : ShmQueue :=
  mkShmQueue x (futex q) (futexCounter q) (waitFlag q) (refCount q).
Definition set_waitFlag (q : ShmQueue) (b : bool) : ShmQueue :=
  mkShmQueue (queue q) (futex q) (futexCounter q) b (refCount q).
Definition set_refCount (q : ShmQueue) (n : Z) : ShmQueue :=
  mkShmQueue (queue q) (futex q) (futexCounter q) (waitFlag q) n.

(** [futex.store(++futexCounter)]. *)
Definition bump (q : ShmQueue) : ShmQueue :=
  let c := u32 (futexCounter q + 1) in
  mkShmQueue (queue q) c c (waitFlag q) (refCount q).

(** [notify]: the queue, and whether [futexWake] was called. *)
Definition notify (q : ShmQueue) : ShmQueue * bool :=
  if waitFlag q then (bump q, true) else (q, false).

Definition increment (q : ShmQueue) : ShmQueue := set_refCount q (u32 (refCount q + 1)).

(** [decrement], with its compare-and-exchange undisturbed: the queue and
    whether this was the last reference. *)
Definition decrement (q : ShmQueue) : ShmQueue * bool :=
  let old := refCount q in
  if 0 <? old then (set_refCount q (old - 1), old =? 1) else (q, false).

Definition count (q : ShmQueue) : Z := refCount q.

(** ** Counted mappings *)

(** The file system's names, the memory behind them, and the next file.  A
    file that was never given its length has no memory. *)
Record Shm := mkShm {
  files : gmap string nat;
  segs : gmap nat ShmQueue;
  fresh_seg : nat
}.

(** What the system calls of one constructor answer. *)
Record Calls := mkCalls { open_ok : bool; truncate_ok : bool; mmap_ok : bool; mlock_ok : bool }.

Definition all_ok : Calls := mkCalls true true true true.

(** A new file reads as zeros. *)
Definition blank : ShmQueue := mkShmQueue (Spsc.mkQueue ∅ 0 0) 0 0 false 0.

(** A live [ShmUPtr]: its name and the mapping it points to. *)
Record Ptr := mkPtr { p_name : string; p_seg : nat }.

(** [mapFileHuge]: the mapping and whether it was created ([own]), or [None]
    if it throws.  [open] makes the file, [ftruncate] gives it its length. *)
Definition mapFileHuge (m : Shm) (path : string) (c : Calls) : Shm * option (nat * bool) :=
  let existed := files m !! path in
  if negb (open_ok c) then (m, None)
  else
    match existed with
    | Some seg => (m, if mmap_ok c then Some (seg, false) else None)
    | None =>
        let seg := fresh_seg m in
        let m := mkShm (<[path := seg]> (files m)) (segs m) (S seg) in
        if negb (truncate_ok c) then (m, None)
        else
          (mkShm (files m) (<[seg := blank]> (segs m)) (fresh_seg m), if mmap_ok c then Some (seg, true) else None)
    end.

(** [ShmUPtr(name)]: [None] if it throws; warming up a file without memory
    is an access behind its end, which ends the process. *)
Definition attach (m : Shm) (name : string) (c : Calls) : res (Shm * option Ptr) :=
  match mapFileHuge m name c with
  | (m, None) => Ok (m, None)
  | (m, Some (seg, own)) =>
      match segs m !! seg with
      | None => Err OutOfBounds
      | Some q =>
          if negb (mlock_ok c) then Ok (m, None)
          else
            let q := increment (if own then init else q) in
            Ok (mkShm (files m) (<[seg := q]> (segs m)) (fresh_seg m), Some (mkPtr name seg))
      end
  end.

(** [~ShmUPtr]: [unlink] removes the name, not the memory. *)
Definition detach (m : Shm) (p : Ptr) : res Shm :=
  match segs m !! p_seg p with
  | None => Err NullDeref
  | Some q =>
      let '(q, last) := decrement q in
      let files := if last then delete (p_name p) (files m) else files m in
      Ok (mkShm files (<[p_seg p := q]> (segs m)) (fresh_seg m))
  end.

(** Constructors and destructors run one after the other (those that overlap
    are in [Memory.v]), and any system call of a constructor may fail; between
    them, the contents of a queue change but not its reference count.  [bad]
    records the names whose creation threw and left the file behind. *)
Definition left_behind (m m' : Shm) (name : string) (r : option Ptr) (bad : list string) : list string :=
  match r, files m !! name, files m' !! name with
  | None, None, Some _ => name :: bad
  | _, _, _ => bad
  end.

Inductive shm_step : Shm * list Ptr * list string -> Shm * list Ptr * list string -> Prop :=
| shm_attach m l bad name c m' r :
    Z.of_nat (length l) < 2 ^ 32 - 1 -> attach m name c = Ok (m', r) ->
    shm_step (m, l, bad) (m', option_list r ++ l, left_behind m m' name r bad)
| shm_detach m l1 l2 bad p m' :
    detach m p = Ok m' -> shm_step (m, l1 ++ p :: l2, bad) (m', l1 ++ l2, bad)
| shm_use m l bad seg q q' :
    segs m !! seg = Some q -> refCount q' = refCount q ->
    shm_step (m, l, bad) (mkShm (files m) (<[seg := q']> (segs m)) (fresh_seg m), l, bad).

Inductive ShmReach : Shm * list Ptr * list string -> Prop :=
| shm_start : ShmReach (mkShm ∅ ∅ 0, [], [])
| shm_next x y : ShmReach x -> shm_step x y -> ShmReach y.

(** The live pointers of a mapping. *)
Definition users (l : list Ptr) (seg : nat) : list Ptr := filter (fun p => p_seg p = seg) l.

Record ShmInv (m : Shm) (l : list Ptr) (bad : list string) : Prop := {
  si_small : Z.of_nat (length l) < 2 ^ 32;
  si_count : forall seg q, segs m !! seg = Some q -> refCount q = Z.of_nat (length (users l seg));
  si_live : forall p, p ∈ l -> files m !! p_name p = Some (p_seg p) /\ is_Some (segs m !! p_seg p);
  si_file : forall name seg, files m !! name = Some seg -> (users l seg <> [] /\ is_Some (segs m !! seg)) \/ name ∈ bad;
  si_fresh : forall seg, is_Some (segs m !! seg) -> (seg < fresh_seg m)%nat;
  si_names : forall name seg, files m !! name = Some seg -> (seg < fresh_seg m)%nat;
  si_inj : forall n1 n2 seg, files m !! n1 = Some seg -> files m !! n2 = Some seg -> n1 = n2
}.

Lemma users_length l seg : (length (users l seg) <= length l)%nat.
Proof. apply length_filter. Qed.

Lemma users_cons p l seg :
  users (p :: l) seg = if decide (p_seg p = seg) then p :: users l seg else users l seg.
Proof. unfold users. by rewrite filter_cons. Qed.

Lemma users_nil l seg : users l seg = [] -> forall p, p ∈ l -> p_seg p <> seg.
Proof.
  intros E p Hp Hs. assert (p ∈ users l seg) as H by (apply list_elem_of_filter; by split).
  rewrite E in H. by apply not_elem_of_nil in H.
Qed.

Lemma users_mid l1 p l2 seg :
  length (users (l1 ++ p :: l2) seg) =
  (length (users (l1 ++ l2) seg) + if decide (p_seg p = seg) then 1 else 0)%nat.
Proof.
  unfold users. rewrite !filter_app, filter_cons, !length_app. destruct (decide _); cbn; lia.
Qed.

(** Another process has mapped the file already: its count grows. *)
Lemma ShmInv_attach_again m l bad name seg q :
  ShmInv m l bad -> Z.of_nat (length l) < 2 ^ 32 - 1 -> files m !! name = Some seg -> segs m !! seg = Some q ->
  ShmInv (mkShm (files m) (<[seg := increment q]> (segs m)) (fresh_seg m)) (mkPtr name seg :: l) bad.
Proof.
  intros [Hs Hc Hl Hf Hfr Hna Hi] Hlen Ef Eq.
  pose proof (users_length l seg) as Hul. pose proof (Hc _ _ Eq) as Hq.
  split; cbn [files segs fresh_seg p_name p_seg].
  + cbn [length]. lia.
  + intros seg' q' H. rewrite users_cons. cbn [p_seg]. apply lookup_insert_Some in H as [[<- <-]|[Hn H]].
    * rewrite decide_True by done. cbn. rewrite Hq, u32_small by lia. lia.
    * rewrite decide_False by done. by apply Hc.
  + intros p Hp. apply elem_of_cons in Hp as [->|Hp]; cbn.
    * split; [done|]. rewrite lookup_insert_eq. by eexists.
    * destruct (Hl p Hp). split; [done|]. by apply lookup_insert_is_Some'; right.
  + intros n sg H. destruct (Hf _ _ H) as [[? ?]|]; [left|by right]. rewrite users_cons. split; [by destruct (decide _)|].
    apply lookup_insert_is_Some'. by right.
  + intros sg H. apply lookup_insert_is_Some' in H as [<-|H]; [|by apply Hfr]. apply Hfr. by eexists.
  + done.
  + done.
Qed.

(** A new file, empty or with blank memory, that nobody has attached yet. *)
Lemma ShmInv_new_file m l bad name sg' :
  ShmInv m l bad -> files m !! name = None -> sg' = segs m \/ sg' = <[fresh_seg m := blank]> (segs m) ->
  ShmInv (mkShm (<[name := fresh_seg m]> (files m)) sg' (S (fresh_seg m))) l (name :: bad).
Proof.
  intros [Hs Hc Hl Hf Hfr Hna Hi] Ef Hsg.
  assert (Hno : segs m !! fresh_seg m = None).
  { destruct (segs m !! fresh_seg m) eqn:E; [|done]. assert (fresh_seg m < fresh_seg m)%nat; [|lia].
    apply Hfr. by eexists. }
  assert (Hu : users l (fresh_seg m) = []).
  { destruct (users l (fresh_seg m)) as [|p l'] eqn:E; [done|]. assert (p ∈ users l (fresh_seg m)) as Hp by (rewrite E; left).
    apply list_elem_of_filter in Hp as [Hp1 Hp2]. destruct (Hl _ Hp2) as [_ [? H]]. congruence. }
  assert (Hkeep : forall sg, is_Some (segs m !! sg) -> is_Some (sg' !! sg)).
  { intros sg H. destruct Hsg as [->| ->]; [done|]. apply lookup_insert_is_Some'. by right. }
  assert (Hold : forall sg q, sg' !! sg = Some q -> segs m !! sg = Some q \/ sg = fresh_seg m /\ q = blank).
  { intros sg q. destruct Hsg as [->| ->]; [by left|]. intros [[<- <-]|[_ ?]]%lookup_insert_Some; auto. }
  split; cbn [files segs fresh_seg].
  - done.
  - intros sg q H. destruct (Hold _ _ H) as [?|[-> ->]]; [by apply Hc|]. by rewrite Hu.
  - intros p Hp. destruct (Hl p Hp) as [Hn Hsp]. split; [|by apply Hkeep].
    rewrite lookup_insert_ne; [done|]. intros ->. congruence.
  - intros n sg [[<- <-]|[Hn H]]%lookup_insert_Some; [right; by left|].
    destruct (Hf _ _ H) as [[? ?]|]; [left; auto|right; by right].
  - intros sg [q H]. destruct (Hold _ _ H) as [?|[-> _]]; [|lia]. assert (sg < fresh_seg m)%nat; [|lia]. apply Hfr. by eexists.
  - intros n sg [[<- <-]|[Hn H]]%lookup_insert_Some; [lia|]. apply Hna in H. lia.
  - intros n1 n2 sg H1 H2. apply lookup_insert_Some in H1 as [[<- <-]|[Hn1 H1]];
      apply lookup_insert_Some in H2 as [[<- E]|[Hn2 H2]]; try done.
    + apply Hna in H2. lia.
    + subst. apply Hna in H1. lia.
    + by eapply Hi.
Qed.

(** Names in use need not be remembered as left behind. *)
Lemma ShmInv_forget m l bad name seg : ShmInv m l (name :: bad) -> files m !! name = Some seg ->
  users l seg <> [] -> is_Some (segs m !! seg) -> ShmInv m l bad.
Proof.
  intros [Hs Hc Hl Hf Hfr Hna Hi] Ef Hu Hsg. split; try done. intros n sg H.
  destruct (Hf _ _ H) as [?|[->|?]%elem_of_cons]; [by left| |by right]. left. rewrite Ef in H. by injection H as <-.
Qed.

(** The first process creates the file and its segment. *)
Lemma ShmInv_attach_first m l bad name :
  ShmInv m l bad -> Z.of_nat (length l) < 2 ^ 32 - 1 -> files m !! name = None ->
  ShmInv (mkShm (<[name := fresh_seg m]> (files m))
    (<[fresh_seg m := increment init]> (<[fresh_seg m := blank]> (segs m)))
    (S (fresh_seg m))) (mkPtr name (fresh_seg m) :: l) bad.
Proof.
  intros HI Hlen Ef. pose proof (ShmInv_new_file m l bad name _ HI Ef (or_intror eq_refl)) as HN.
  apply (ShmInv_attach_again _ _ _ name (fresh_seg m) blank) in HN; cbn in *; rewrite ?lookup_insert_eq in *; try done.
  change (increment init) with (set_queue (increment blank) (Spsc.init SlotCount)).
  assert (H : ShmInv (mkShm (<[name := fresh_seg m]> (files m))
    (<[fresh_seg m := set_queue (increment blank) (Spsc.init SlotCount)]> (<[fresh_seg m := blank]> (segs m)))
    (S (fresh_seg m))) (mkPtr name (fresh_seg m) :: l) (name :: bad)).
  { destruct HN as [Hs Hc Hl Hf Hfr Hna Hi].
    assert (Hseg : forall x y sg, is_Some (<[fresh_seg m := x]> (<[fresh_seg m := blank]> (segs m)) !! sg) ->
      is_Some (<[fresh_seg m := y]> (<[fresh_seg m := blank]> (segs m)) !! sg)).
    { intros x y sg. by rewrite !lookup_insert_is_Some'. }
    split; cbn [files segs fresh_seg] in *; try done.
    - intros sg q [[<- <-]|[Hn H]]%lookup_insert_Some; [|apply Hc; by rewrite lookup_insert_ne].
      rewrite <- (Hc (fresh_seg m) (increment blank)); [done|apply lookup_insert_eq].
    - intros p Hp. destruct (Hl p Hp) as [? ?]. split; [done|by eapply Hseg].
    - intros n sg H. destruct (Hf n sg H) as [[? ?]|?]; [left; split; [done|by eapply Hseg]|by right].
    - intros sg H. apply Hfr. by eapply Hseg. }
  eapply ShmInv_forget; [exact H|apply lookup_insert_eq| |cbn; rewrite lookup_insert_eq; by eexists].
  rewrite users_cons. cbn. by rewrite decide_True.
Qed.

Lemma ShmInv_attach m l bad name c m' r :
  ShmInv m l bad -> Z.of_nat (length l) < 2 ^ 32 - 1 -> attach m name c = Ok (m', r) ->
  ShmInv m' (option_list r ++ l) (left_behind m m' name r bad).
Proof.
  intros HI Hlen. unfold attach, mapFileHuge, left_behind. destruct (open_ok c); cbn [negb].
  2:{ intros [= <- <-]. by destruct (files m !! name). }
  destruct (files m !! name) as [seg|] eqn:Ef.
  - destruct (mmap_ok c); [|by intros [= <- <-]; rewrite ?Ef].
    destruct (segs m !! seg) as [q|] eqn:Eq; [|done]. destruct (mlock_ok c); cbn [negb].
    + intros [= <- <-]. by apply ShmInv_attach_again.
    + by intros [= <- <-].
  - destruct (truncate_ok c); cbn [negb].
    2:{ intros [= <- <-]. cbn. rewrite lookup_insert_eq. apply ShmInv_new_file; [done..|by left]. }
    destruct (mmap_ok c); cbn.
    2:{ intros [= <- <-]. cbn. rewrite lookup_insert_eq. apply ShmInv_new_file; [done..|by right]. }
    rewrite lookup_insert_eq. destruct (mlock_ok c); cbn [negb]; intros [= <- <-]; cbn.
    + by apply ShmInv_attach_first.
    + rewrite lookup_insert_eq. apply ShmInv_new_file; [done..|by right].
Qed.

Lemma detach_ok m l bad p : ShmInv m l bad -> p ∈ l -> exists m' q,
  segs m !! p_seg p = Some q /\ 0 < refCount q /\ detach m p = Ok m' /\
  segs m' = <[p_seg p := set_refCount q (refCount q - 1)]> (segs m) /\ fresh_seg m' = fresh_seg m /\
  files m' = (if refCount q =? 1 then delete (p_name p) (files m) else files m).
Proof.
  intros [_ Hc Hl _ _ _ _] Hp. destruct (Hl p Hp) as [_ [q Eq]]. unfold detach, decrement. rewrite Eq.
  assert (Hpos : 0 < refCount q).
  { rewrite (Hc _ _ Eq). destruct (users l (p_seg p)) eqn:E; [|cbn; lia].
    by destruct (users_nil _ _ E p Hp). }
  destruct (Z.ltb_spec 0 (refCount q)); [|lia]. eexists _, q. by repeat split.
Qed.

Lemma ShmInv_detach m l1 l2 bad p m' :
  ShmInv m (l1 ++ p :: l2) bad -> detach m p = Ok m' -> ShmInv m' (l1 ++ l2) bad.
Proof.
  intros HI Hd. destruct (detach_ok m _ bad p HI) as (m1 & q & Eq & Hpos & Hd' & Es & Efr & Ef); [set_solver|].
  rewrite Hd' in Hd. injection Hd as ->. destruct HI as [Hs Hc Hl Hf Hfr Hna Hi].
  pose proof (Hc _ _ Eq) as Hq. rewrite users_mid, decide_True in Hq by done.
  assert (Hlast : refCount q = 1 <-> users (l1 ++ l2) (p_seg p) = []).
  { rewrite <- length_zero_iff_nil. lia. }
  destruct (Hl p) as [Hpn _]; [set_solver|].
  assert (Hseg : forall sg, is_Some (segs m' !! sg) <-> is_Some (segs m !! sg)).
  { intros sg. rewrite Es, lookup_insert_is_Some'. split; [|by right]. intros [<-|]; [by eexists|done]. }
  assert (Hkeep : forall n sg, files m !! n = Some sg -> users (l1 ++ l2) sg <> [] -> files m' !! n = Some sg).
  { intros n sg H Hu. rewrite Ef. destruct (Z.eqb_spec (refCount q) 1) as [E1|]; [|done].
    apply lookup_delete_Some. split; [|done]. intros <-. rewrite Hpn in H. injection H as <-. by apply Hu, Hlast. }
  split.
  - rewrite length_app in *. cbn in Hs. lia.
  - intros sg q' H. rewrite Es in H. apply lookup_insert_Some in H as [[<- <-]|[Hn H]].
    + cbn. lia.
    + apply Hc in H. rewrite users_mid, decide_False in H by done. lia.
  - intros p' Hp'. destruct (Hl p') as [H1 H2]; [set_solver|]. rewrite Hseg. split; [|done].
    apply Hkeep; [done|]. intros E. by destruct (users_nil _ _ E p' Hp').
  - intros n sg H. rewrite Hseg.
    assert (files m !! n = Some sg /\ (refCount q = 1 -> n <> p_name p)) as [Hm Hne].
    { rewrite Ef in H. destruct (Z.eqb_spec (refCount q) 1); [|by split].
      apply lookup_delete_Some in H as [? ?]. split; [done|]. intros _ ->. done. }
    destruct (Hf _ _ Hm) as [[Hu Hsg]|]; [left|by right]. split; [|done]. intros E.
    assert (p_seg p = sg).
    { destruct (decide (p_seg p = sg)) as [|Hn]; [done|]. exfalso. apply Hu.
      apply length_zero_iff_nil. rewrite users_mid, decide_False by done. by rewrite E. }
    subst sg. apply Hne; [by apply Hlast|]. by eapply Hi.
  - intros sg H. rewrite Efr. apply Hfr. by apply Hseg.
  - intros n sg H. rewrite Efr. apply (Hna n). rewrite Ef in H. destruct (_ =? _); [|done]. by apply lookup_delete_Some in H as [_ ?].
  - assert (Hsub : forall n sg, files m' !! n = Some sg -> files m !! n = Some sg).
    { intros n sg H. rewrite Ef in H. destruct (_ =? _); [|done]. by apply lookup_delete_Some in H as [_ ?]. }
    intros n1 n2 sg H1 H2. eapply Hi; eauto.
Qed.

Lemma ShmReach_inv x : ShmReach x -> ShmInv x.1.1 x.1.2 x.2.
Proof.
  induction 1 as [|x y _ IH Hs].
  - split; cbn; try done; intros; try (by apply not_elem_of_nil in H); by apply lookup_empty_is_Some in H.
  - destruct Hs as [m l bad name c m' r Hlen Ha|m l1 l2 bad p m' Hd|m l bad seg q q' Eq Er]; cbn in *.
    + by eapply ShmInv_attach.
    + by eapply ShmInv_detach.
    + assert (Hseg : forall sg, is_Some (<[seg := q']> (segs m) !! sg) <-> is_Some (segs m !! sg)).
      { intros sg. rewrite lookup_insert_is_Some'. split; [|by right]. intros [<-|]; [by eexists|done]. }
      destruct IH as [Hs Hc Hl Hf Hfr Hna Hi]. split; cbn; try done; try (setoid_rewrite Hseg; done).
      intros sg q0 H. apply lookup_insert_Some in H as [[<- <-]|[Hn H]]; [|by apply Hc].
      rewrite Er. by apply Hc.
Qed.

(** Whether every call the constructor makes succeeds. *)
Definition calls_ok (m : Shm) (name : string) (c : Calls) : bool :=
  open_ok c && (truncate_ok c || bool_decide (is_Some (files m !! name))) && mmap_ok c && mlock_ok c.

(** C27: in every sequence of constructors and destructors of the counted
    pointer, one at a time and with any system call of a constructor failing,
    the reference count of a mapping is the number of its live pointers, so
    it never underflows, and a destructor removes the name exactly when it is
    the last.  For a name that no failed creation has left behind the
    constructor throws exactly when one of its calls fails, and constructing
    on such a name that nobody has attached gives a newly made queue with
    reference count one. *)
Theorem shm_refcount_exact m l bad : ShmReach (m, l, bad) ->
  (forall p, p ∈ l -> exists q m', segs m !! p_seg p = Some q /\
     refCount q = Z.of_nat (length (users l (p_seg p))) /\ detach m p = Ok m' /\
     (files m' !! p_name p = None <-> refCount q = 1)) /\
  (forall name c, name ∉ bad -> exists m' r, attach m name c = Ok (m', r) /\ (is_Some r <-> calls_ok m name c = true) /\
     ((forall p, p ∈ l -> p_name p <> name) -> forall p, r = Some p -> segs m' !! p_seg p = Some (increment init))).
Proof.
  intros HR. pose proof (ShmReach_inv _ HR) as HI. cbn in HI. split.
  - intros p Hp. destruct (detach_ok m l bad p HI Hp) as (m' & q & Eq & Hpos & Hd & Es & _ & Ef).
    exists q, m'. destruct HI as [_ Hc Hl _ _ _ _]. split; [done|]. split; [by apply Hc|]. split; [done|].
    rewrite Ef. destruct (Z.eqb_spec (refCount q) 1) as [->|Hn].
    + by rewrite lookup_delete_eq.
    + destruct (Hl p Hp) as [-> _]. by split.
  - intros name c Hbad. destruct HI as [_ _ Hl Hf _ _ Hi]. unfold attach, mapFileHuge, calls_ok.
    destruct (open_ok c); cbn [negb andb]; [|eexists _, None; split; [done|]; split; [by rewrite is_Some_alt|done]].
    destruct (files m !! name) as [seg|] eqn:E.
    + destruct (Hf _ _ E) as [[Hu [q Hq]]|?]; [|done].
      rewrite bool_decide_true, orb_true_r by by eexists.
      destruct (mmap_ok c); cbn [andb]; [|eexists _, None; split; [done|]; split; [by rewrite is_Some_alt|done]].
      rewrite Hq. destruct (mlock_ok c); cbn [negb]; [|eexists _, None; split; [done|]; split; [by rewrite is_Some_alt|done]].
      eexists _, _. split; [done|]. split; [by split; eauto|]. intros Hn. exfalso.
      destruct (users l seg) as [|p l'] eqn:Eu; [done|].
      assert (p ∈ users l seg) as Hp by (rewrite Eu; left). apply list_elem_of_filter in Hp as [Hp1 Hp2].
      destruct (Hl _ Hp2) as [Hp3 _]. apply (Hn p Hp2). eapply Hi; [exact Hp3|]. by rewrite Hp1.
    + rewrite bool_decide_false, orb_false_r by (by intros [? ?]).
      destruct (truncate_ok c); cbn [negb andb]; [|eexists _, None; split; [done|]; split; [by rewrite is_Some_alt|done]].
      destruct (mmap_ok c); cbn; [|eexists _, None; split; [done|]; split; [by rewrite is_Some_alt|done]].
      rewrite lookup_insert_eq. destruct (mlock_ok c); cbn [negb]; [|eexists _, None; split; [done|]; split; [by rewrite is_Some_alt|done]].
      eexists _, _. split; [done|]. split; [by split; eauto|]. intros _ p [= <-]. cbn. by rewrite lookup_insert_eq.
Qed.

End ShmQueue.

(** Constructors one after the other. *)
Fixpoint attach_all (SlotCount : Z) (x : Shm * list Ptr * list string) (l : list (string * Calls))
    : res (Shm * list Ptr * list string) :=
  match l with
  | [] => Ok x
  | (name, c) :: l =>
      let '(m, ps, bad) := x in
      let! (m', r) := attach SlotCount m name c in
      attach_all SlotCount (m', option_list r ++ ps, left_behind m m' name r bad) l
  end.

Lemma reach_attach_all SlotCount l m ps bad y : Z.of_nat (length ps + length l) < 2 ^ 32 -> ShmReach SlotCount (m, ps, bad) ->
  attach_all SlotCount (m, ps, bad) l = Ok y -> ShmReach SlotCount y.
Proof.
  revert m ps bad. induction l as [|[name c] l IH]; intros m ps bad Hl HR; [by intros [= <-]|]. cbn [attach_all].
  destruct (attach SlotCount m name c) as [[m' r]|] eqn:E; [|done]. cbn in Hl. apply IH.
  - rewrite length_app. destruct r; cbn; lia.
  - eapply shm_next; [exact HR|]. apply (shm_attach _ _ _ _ name c); [lia|done].
Qed.

(** One creation fails in [ftruncate]; under another name one process
    attaches, one fails in [mlock] and another one attaches. *)
Definition attachments : list (string * Calls) :=
  [("down", mkCalls true false true true); ("up", all_ok); ("up", mkCalls true true true false); ("up", all_ok)].

Definition attached_shm : Shm :=
  match attach_all 8 (mkShm ∅ ∅ 0, [], []) attachments with Ok (m, _, _) => m | Err _ => mkShm ∅ ∅ 0 end.

Lemma attachments_run :
  attach_all 8 (mkShm ∅ ∅ 0, [], []) attachments = Ok (attached_shm, [mkPtr "up" 1; mkPtr "up" 1], ["down"]).
Proof. by vm_compute. Qed.

Lemma shm_refcount_exact_witness : exists q m', segs attached_shm !! 1%nat = Some q /\ refCount q = 2 /\
  detach attached_shm (mkPtr "up" 1) = Ok m' /\ (files m' !! "up" = None <-> refCount q = 1).
Proof.
  pose proof (reach_attach_all 8 attachments (mkShm ∅ ∅ 0) [] [] (attached_shm, [mkPtr "up" 1; mkPtr "up" 1], ["down"]) ltac:(vm_compute; reflexivity) (shm_start 8) attachments_run) as HR.
  destruct (proj1 (shm_refcount_exact 8 attached_shm _ _ HR) (mkPtr "up" 1) ltac:(left)) as (q & m' & H1 & H2 & H3 & H4).
  exists q, m'. split; [exact H1|]. split; [|by split]. rewrite H2. by vm_compute.
Defined.

End ShmQueue.

(** * The writer, the reactor and the futex *)
Module ShmWait.
Import ShmQueue.

Section Wait.
Context (SlotCount : Z).
Context (BufSize : Z).

(** [ShmWriter::syncTx], then [ShmQueue::notify]. *)
Inductive WPC :=
| WIdle
| WTry (m : bytes) (waiter : SpinWait.SpinWait)
| WCount (m : bytes) (waiter : SpinWait.SpinWait)
| WNotify
| WStore
| WWake.

(** [ShmReactor::loop] with one reader, and [ShmQueue::wait]. *)
Inductive RPC :=
| RTest
| RFor
| RPoll
| RDeliver (m : bytes)
| RNext
| RLoad
| RFlag (v : Z)
| RWait (v : Z)
| RBlocked (v : Z)
| RUnflag
| RExit.

(** [ShmReactor::stop]. *)
Inductive XPC := XIdle | XNotify | XStore | XWake | XJoin.

Record State := mkState {
  shm_ : ShmQueue;
  writer : WPC;
  reactor : RPC;
  stopper : XPC;
  rwaiter : SpinWait.SpinWait;
  busy : bool;
  stopRequested : bool;
  delivered : list bytes;
  sent : list bytes
}.

(** The reactor has entered its loop; both processes have attached. *)
Definition init : State :=
  mkState (set_refCount (ShmQueue.init SlotCount) 2) WIdle RTest XIdle
    (SpinWait.make SpinWait.SPIN_RETRIES_WARM) false false [] [].

Definition set_shm (s : State) x := mkState x (writer s) (reactor s) (stopper s) (rwaiter s) (busy s) (stopRequested s) (delivered s) (sent s).
Definition set_writer (s : State) x := mkState (shm_ s) x (reactor s) (stopper s) (rwaiter s) (busy s) (stopRequested s) (delivered s) (sent s).
Definition set_reactor (s : State) x := mkState (shm_ s) (writer s) x (stopper s) (rwaiter s) (busy s) (stopRequested s) (delivered s) (sent s).
Definition set_stopper (s : State) x := mkState (shm_ s) (writer s) (reactor s) x (rwaiter s) (busy s) (stopRequested s) (delivered s) (sent s).
Definition set_waiter (s : State) x := mkState (shm_ s) (writer s) (reactor s) (stopper s) x (busy s) (stopRequested s) (delivered s) (sent s).
Definition set_busy (s : State) x := mkState (shm_ s) (writer s) (reactor s) (stopper s) (rwaiter s) x (stopRequested s) (delivered s) (sent s).
Definition deliver (s : State) (m : bytes) := mkState (shm_ s) (writer s) (reactor s) (stopper s) (rwaiter s) (busy s) (stopRequested s) (delivered s ++ [m]) (sent s).
Definition record_sent (s : State) (m : bytes) := mkState (shm_ s) (writer s) (reactor s) (stopper s) (rwaiter s) (busy s) (stopRequested s) (delivered s) (sent s ++ [m]).

Definition wake (s : State) : State :=
  match reactor s with RBlocked _ => set_reactor s RUnflag | _ => s end.

Definition send_begin (s : State) (m : bytes) : State := set_writer s (WTry m SpinWait.make_default).

Definition wstep (s : State) : State :=
  match writer s with
  | WIdle => s
  | WTry m w =>
      let '(q, ok) := Spsc.write SlotCount (queue (shm_ s)) m in
      if ok then set_writer (record_sent (set_shm s (set_queue (shm_ s) q)) m) WNotify
      else set_writer s (WCount m w)
  | WCount m w =>
      if count (shm_ s) <? 2 then set_writer s WIdle
      else
        let '(w, more) := SpinWait.incr w in
        if more then set_writer s (WTry m w) else set_writer s WIdle
  | WNotify => if waitFlag (shm_ s) then set_writer s WStore else set_writer s WIdle
  | WStore => set_writer (set_shm s (bump (shm_ s))) WWake
  | WWake => set_writer (wake s) WIdle
  end.

Definition rstep (s : State) : State :=
  match reactor s with
  | RTest => if stopRequested s then set_reactor s RExit else set_reactor (set_busy s false) RFor
  | RFor => if stopRequested s then set_reactor s RNext else set_reactor s RPoll
  | RPoll =>
      let '(q, r) := Spsc.read SlotCount (queue (shm_ s)) BufSize in
      match r with
      | Some m => set_reactor (set_busy (set_shm s (set_queue (shm_ s) q)) true) (RDeliver m)
      | None => set_reactor s RNext
      end
  | RDeliver m => set_reactor (deliver s m) RNext
  | RNext =>
      if busy s then set_reactor (set_waiter s (SpinWait.reset (rwaiter s))) RTest
      else
        let '(w, more) := SpinWait.incr (rwaiter s) in
        if more then set_reactor (set_waiter s w) RTest else set_reactor (set_waiter s w) RLoad
  | RLoad => set_reactor s (RFlag (futex (shm_ s)))
  | RFlag v => set_reactor (set_shm s (set_waitFlag (shm_ s) true)) (RWait v)
  | RWait v => if futex (shm_ s) =? v then set_reactor s (RBlocked v) else set_reactor s RUnflag
  | RBlocked v => s
  | RUnflag =>
      set_reactor (set_waiter (set_shm s (set_waitFlag (shm_ s) false)) (SpinWait.reset (rwaiter s))) RTest
  | RExit => s
  end.

Definition xstep (s : State) : State :=
  match stopper s with
  | XIdle | XJoin => s
  | XNotify => if waitFlag (shm_ s) then set_stopper s XStore else set_stopper s XJoin
  | XStore => set_stopper (set_shm s (bump (shm_ s))) XWake
  | XWake => set_stopper (wake s) XJoin
  end.

Definition request_stop (s : State) : State :=
  mkState (shm_ s) (writer s) (reactor s) (stopper s) (rwaiter s) (busy s) true (delivered s) (sent s).

Inductive step (s : State) : State -> Prop :=
| step_send m : writer s = WIdle -> step s (send_begin s m)
| step_writer : step s (wstep s)
| step_reactor : step s (rstep s)
| step_stopper : step s (xstep s)
| step_request : step s (request_stop s)
| step_stop : stopper s = XIdle -> step s (set_stopper s XNotify).

Inductive Reach : State -> Prop :=
| reach_init : Reach init
| reach_step s s' : Reach s -> step s s' -> Reach s'.

(** ** A reader that sleeps is woken *)

Definition flag_inv (s : State) : Prop :=
  match reactor s with RWait _ | RBlocked _ => waitFlag (shm_ s) = true | _ => True end.

Lemma flag_inv_step s s' : flag_inv s -> step s s' -> flag_inv s'.
Proof.
  intros Hi [m Hw| | | | |Hx]; try exact Hi.
  - unfold flag_inv, wstep, wake in *. destruct (writer s); try done.
    + by destruct (Spsc.write _ _ _) as [q []].
    + destruct (count _ <? 2); [done|]. by destruct (SpinWait.incr _) as [? []].
    + case (waitFlag (shm_ s)); exact Hi.
    + destruct (reactor s) eqn:E; cbn; rewrite ?E; done.
  - unfold flag_inv, rstep in *. destruct (reactor s) eqn:E; try done; rewrite ?E.
    + by destruct (stopRequested s).
    + by destruct (stopRequested s).
    + by destruct (Spsc.read _ _ _) as [q []].
    + destruct (busy s); [done|]. by destruct (SpinWait.incr _) as [? []].
    + by destruct (_ =? _).
    + done.
    + done.
  - unfold flag_inv, xstep, wake in *. destruct (stopper s); try done.
    + case (waitFlag (shm_ s)); exact Hi.
    + destruct (reactor s) eqn:E; cbn; rewrite ?E; done.
Qed.

Lemma Reach_flag s : Reach s -> flag_inv s.
Proof. induction 1; [done|]. eauto using flag_inv_step. Qed.

(** A send that begins when the reactor is asleep wakes it: if the queue
    takes the message, four steps of the writer later the reactor is awake
    and the writer has returned. *)
Theorem shm_send_wakes_sleeper s v m : Reach s ->
  reactor s = RBlocked v -> writer s = WIdle ->
  snd (Spsc.write SlotCount (queue (shm_ s)) m) = true ->
  let s' := Nat.iter 4 wstep (send_begin s m) in
  reactor s' = RUnflag /\ writer s' = WIdle /\ sent s' = sent s ++ [m].
Proof.
  intros HR Hr Hw Hq. pose proof (Reach_flag _ HR) as Hf. unfold flag_inv in Hf. rewrite Hr in Hf.
  destruct s as [[q fx fc wf rc] wr re st wa bu rq dl se]. cbn in *. subst.
  unfold wstep at 4. cbn. destruct (Spsc.write SlotCount q m) as [q' ok]. cbn in Hq. subst. done.
Qed.

(** ** A reader on its way to sleep is not *)

(** Both threads are done with what they were doing and the reactor sleeps. *)
Definition stuck (s : State) : Prop :=
  (exists v, reactor s = RBlocked v) /\ writer s = WIdle /\ wstep s = s /\ rstep s = s /\
  (stopper s = XIdle \/ stopper s = XJoin) /\ xstep s = s.

(** The reactor after three more steps from the start of [wait]. *)
Definition asleep_in (s : State) : State :=
  set_reactor (set_shm s (set_waitFlag (shm_ s) true)) (RBlocked (futex (shm_ s))).

Lemma rload_sleeps s : reactor s = RLoad -> Nat.iter 3 rstep s = asleep_in s.
Proof.
  intros Hr. destruct s as [[q fx fc wf rc] wr re st wa bu rq dl se]. cbn in Hr. subst.
  cbn. unfold rstep. cbn. by rewrite Z.eqb_refl.
Qed.

Lemma asleep_stuck s : writer s = WIdle -> stopper s = XIdle \/ stopper s = XJoin -> stuck (asleep_in s).
Proof.
  intros Hw Hx. split; [by eexists|]. destruct s. cbn in *. subst. destruct Hx as [-> | ->];
    (split; [done|split; [done|split; [done|split; [auto|done]]]]).
Qed.

Definition waiting (k : Z) (r : RPC) : State :=
  mkState (set_refCount (ShmQueue.init SlotCount) 2) WIdle r XIdle
    (SpinWait.mkSpinWait SpinWait.SPIN_RETRIES_WARM k) false false [] [].

Lemma slot_init : 1 <= SlotCount -> Spsc.slot SlotCount (Spsc.init SlotCount) 0 =
  Spsc.mkSloth 0 0 (replicate Spsc.MAX_DATA_SIZE 0).
Proof.
  intros H. unfold Spsc.slot, Spsc.slot_of, Spsc.init. cbn [Spsc.slots_]. rewrite Z.land_0_l.
  apply (Spsc.init_slots_at SlotCount). lia.
Qed.

Context (Hslots : 1 <= SlotCount).

Lemma spsc_read_init : Spsc.read SlotCount (Spsc.init SlotCount) BufSize = (Spsc.init SlotCount, None).
Proof. unfold Spsc.read. change (Spsc.readIdx_ (Spsc.init SlotCount)) with 0. by rewrite slot_init. Qed.

Lemma spsc_write_init m : (length m <= Spsc.MAX_DATA_SIZE)%nat ->
  snd (Spsc.write SlotCount (Spsc.init SlotCount) m) = true.
Proof.
  intros Hm. unfold Spsc.write. change (Spsc.writeIdx_ (Spsc.init SlotCount)) with 0. rewrite slot_init by done.
  by destruct (Nat.ltb_spec Spsc.MAX_DATA_SIZE (length m)); [lia|].
Qed.

Lemma reach_waiting k : 0 <= k -> k <= SpinWait.SPIN_RETRIES_WARM -> Reach (waiting k RTest).
Proof.
  revert k. apply (natlike_ind (fun k => k <= SpinWait.SPIN_RETRIES_WARM -> Reach (waiting k RTest))).
  - intros _. exact reach_init.
  - intros k Hk IH Hle. specialize (IH ltac:(lia)).
    assert (E : Nat.iter 4 rstep (waiting k RTest) = waiting (Z.succ k) RTest).
    { cbn [Nat.iter nat_rect]. unfold rstep at 4. cbn [reactor waiting stopRequested]. unfold rstep at 3. cbn [reactor stopRequested set_reactor set_busy].
      unfold rstep at 2. cbn -[Spsc.read Spsc.init SpinWait.incr]. rewrite spsc_read_init.
      unfold rstep. cbn -[Spsc.read Spsc.init SpinWait.incr].
      unfold SpinWait.incr. cbn [SpinWait.cap_ SpinWait.cycles_].
      destruct (Z.leb_spec SpinWait.SPIN_RETRIES_WARM k); [lia|].
      destruct (k + 1 <? SpinWait.SPIN_RETRIES_HOT); [done|].
      destruct (k + 1 <? SpinWait.SPIN_RETRIES_WARM); [done|].
      destruct (Z.ltb_spec (k + 1) SpinWait.SPIN_RETRIES_YIELD); [done|].
      assert (SpinWait.SPIN_RETRIES_WARM < SpinWait.SPIN_RETRIES_YIELD) by done. lia. }
    rewrite <- E. cbn [Nat.iter nat_rect].
    do 4 (eapply reach_step; [|apply step_reactor]). exact IH.
Qed.

Lemma reach_rload : Reach (waiting SpinWait.SPIN_RETRIES_WARM RLoad).
Proof.
  assert (E : Nat.iter 4 rstep (waiting SpinWait.SPIN_RETRIES_WARM RTest) =
              waiting SpinWait.SPIN_RETRIES_WARM RLoad).
  { cbn [Nat.iter nat_rect]. unfold rstep at 4. cbn [reactor waiting stopRequested]. unfold rstep at 3. cbn [reactor stopRequested set_reactor set_busy].
    unfold rstep at 2. cbn -[Spsc.read Spsc.init SpinWait.incr]. by rewrite spsc_read_init. }
  rewrite <- E. cbn [Nat.iter nat_rect]. do 4 (eapply reach_step; [|apply step_reactor]).
  by apply reach_waiting.
Qed.

Lemma reach_rsteps n s : Reach s -> Reach (Nat.iter n rstep s).
Proof. intros H. induction n as [|n IH]; [done|]. exact (reach_step _ _ IH (step_reactor _)). Qed.

(** [wait] does not look at the queue or the stop token again between
    announcing that it sleeps and sleeping, so a notification that falls in
    between is lost: there is a run in which the writer has sent a message,
    successfully, and the reactor sleeps without having delivered it, and one
    in which the stop was requested and [stop] waits in its join for a
    reactor that sleeps; in both no thread can take a step any more. *)
Theorem shm_wait_misses_notify m : (length m <= Spsc.MAX_DATA_SIZE)%nat ->
  (exists s, Reach s /\ stuck s /\ sent s = [m] /\ delivered s = [] /\ stopRequested s = false) /\
  (exists s, Reach s /\ stuck s /\ stopRequested s = true /\ stopper s = XJoin).
Proof.
  intros Hm. split.
  - pose proof (spsc_write_init m Hm) as Hq.
    destruct (Spsc.write SlotCount (Spsc.init SlotCount) m) as [q ok] eqn:Eq. cbn in Hq. subst ok.
    set (s0 := waiting SpinWait.SPIN_RETRIES_WARM RLoad).
    set (s1 := set_writer (record_sent (set_shm s0 (set_queue (shm_ s0) q)) m) WIdle).
    assert (E1 : wstep (wstep (send_begin s0 m)) = s1).
    { unfold wstep at 2. cbn -[Spsc.write Spsc.init]. by rewrite Eq. }
    assert (HR : Reach s1).
    { rewrite <- E1. eapply reach_step; [|apply step_writer]. eapply reach_step; [|apply step_writer].
      eapply reach_step; [exact reach_rload|]. by apply step_send. }
    exists (asleep_in s1). rewrite <- (rload_sleeps s1) at 1 by done. split; [by apply reach_rsteps|].
    split; [apply asleep_stuck; [done|by left]|done].
  - set (s1 := xstep (set_stopper (request_stop (waiting SpinWait.SPIN_RETRIES_WARM RLoad)) XNotify)).
    assert (HR : Reach s1).
    { eapply reach_step; [|apply step_stopper]. eapply reach_step; [|by apply step_stop].
      eapply reach_step; [exact reach_rload|]. by apply step_request. }
    exists (asleep_in s1). rewrite <- (rload_sleeps s1) at 1 by done. split; [by apply reach_rsteps|].
    split; [apply asleep_stuck; [done|by right]|done].
Qed.

End Wait.

Lemma shm_wait_misses_notify_witness :
  (exists s, Reach 8 52 s /\ stuck 8 52 s /\ sent s = [[1; 2; 3]] /\ delivered s = [] /\ stopRequested s = false) /\
  (exists s, Reach 8 52 s /\ stuck 8 52 s /\ stopRequested s = true /\ stopper s = XJoin).
Proof. apply (shm_wait_misses_notify 8 52 ltac:(lia) [1; 2; 3]). cbn. unfold Spsc.MAX_DATA_SIZE. lia. Defined.

(** The reactor fell asleep on the empty queue. *)
Definition asleep : State := Nat.iter 3 (rstep 8 52) (waiting 8 SpinWait.SPIN_RETRIES_WARM RLoad).

Lemma shm_send_wakes_sleeper_witness :
  let s' := Nat.iter 4 (wstep 8) (send_begin asleep [4; 5]) in
  reactor s' = RUnflag /\ writer s' = WIdle /\ sent s' = [] ++ [[4; 5]].
Proof.
  apply (shm_send_wakes_sleeper 8 52 asleep 0 [4; 5]); try reflexivity.
  apply reach_rsteps, reach_rload. lia.
Defined.

End ShmWait.
