(* ===== verification/ShmTransport.v ===== *)
(** * Transport over shared memory

    Models [ShmReader] (common/src/transport/shm/shm_reader.cpp),
    [ShmWriter] (shm_writer.hpp), [ShmReactor] (shm_reactor.cpp) and
    [ShmTransport] (shm_transport.hpp).  The interleaving of a writer with
    the reactor is in [ShmQueue.v]; here a writer's retries meet an arbitrary
    environment, and the reactor's passes over its readers run callbacks that
    may close readers. *)

From S2P Require Import Prelude HugeArray SlotId Types SequencedSPSC LfqRunner ShmQueue.

Module ShmIo.

Abbreviation bytes := (list Z).

Section Io.
Context (SlotCount : Z).

Abbreviation Q := ShmQueue.ShmQueue.

(** ** The writer *)

Record Writer := mkWriter { closed_ : bool; w_shm : Q }.

(** The retry loop of [syncTx] and [asyncTx]; [env k] is what the other
    process does to the queue between the [k]-th attempt and the next. *)
Fixpoint tx_loop (fuel : nat) (env : nat -> Q -> Q) (k : nat) (q : Q)
    (waiter : SpinWait.SpinWait) (buffer : bytes) : res (Q * IoResult) :=
  match fuel with
  | O => Err OutOfFuel
  | S fuel =>
      let '(sq, ok) := Spsc.write SlotCount (ShmQueue.queue q) buffer in
      if ok then
        Ok (fst (ShmQueue.notify (ShmQueue.set_queue q sq)), mkIoResult (u32 (Z.of_nat (length buffer))) IoOk)
      else if ShmQueue.count q <? 2 then Ok (q, mkIoResult 0 Types.Closed)
      else
        let '(waiter, more) := SpinWait.incr waiter in
        if more then tx_loop fuel env (S k) (env k q) waiter buffer
        else Ok (q, mkIoResult 0 IoError)
  end.

Definition tx_fuel : nat := S (Z.to_nat SpinWait.SPIN_RETRIES_YIELD).

Definition syncTx (w : Writer) (env : nat -> Q -> Q) (buffer : bytes) : res (Writer * IoResult) :=
  if closed_ w then Ok (w, mkIoResult 0 IoError)
  else
    let! (q, r) := tx_loop tx_fuel env 0 (w_shm w) SpinWait.make_default buffer in
    Ok (mkWriter (closed_ w) q, r).

(** The callback is called with the result, or not at all when closed. *)
Definition asyncTx (w : Writer) (env : nat -> Q -> Q) (buffer : bytes) : res (Writer * option IoResult) :=
  if closed_ w then Ok (w, None)
  else
    let! (q, r) := tx_loop tx_fuel env 0 (w_shm w) SpinWait.make_default buffer in
    Ok (mkWriter (closed_ w) q, Some r).

Definition w_close (w : Writer) : Writer := mkWriter true (w_shm w).

(** The moved-from writer is closed. *)
Definition w_move (w : Writer) : Writer * Writer := (w, mkWriter true (w_shm w)).

Lemma tx_loop_total env buffer fuel k q w :
  0 <= SpinWait.cycles_ w <= SpinWait.SPIN_RETRIES_YIELD -> SpinWait.SPIN_RETRIES_YIELD - SpinWait.cycles_ w < Z.of_nat fuel ->
  exists q' r, tx_loop fuel env k q w buffer = Ok (q', r) /\
    (io_code r = IoOk -> io_bytes r = u32 (Z.of_nat (length buffer)) /\ (length buffer <= Spsc.MAX_DATA_SIZE)%nat) /\
    (io_code r <> IoOk -> io_bytes r = 0).
Proof.
  revert k q w. induction fuel as [|fuel IH]; intros k q w Hc Hf.
  - exfalso. lia.
  - cbn [tx_loop]. destruct (Spsc.write _ _ _) as [sq ok] eqn:Ew. destruct ok.
    + eexists _, _. split; [done|]. split; [|done]. intros _. split; [done|].
      unfold Spsc.write in Ew. destruct (Nat.ltb_spec Spsc.MAX_DATA_SIZE (length buffer)); [done|lia].
    + destruct (_ <? 2); [by eexists _, _|]. destruct (SpinWait.incr w) as [w' more] eqn:Ei. destruct more.
      * apply SpinWait.incr_true in Ei as (E1 & E2 & E3 & E4). apply IH; lia.
      * by eexists _, _.
Qed.

(** A blocking send always returns, whatever the other process does to
    the queue meanwhile: [Ok] with all the bytes, or no bytes with [Closed] or
    [Error].  A message larger than a slot is never sent, and a closed writer
    sends nothing. *)
Theorem sync_tx_returns w env buffer :
  exists w' r, syncTx w env buffer = Ok (w', r) /\ closed_ w' = closed_ w /\
    (io_code r = IoOk -> io_bytes r = u32 (Z.of_nat (length buffer)) /\
       (length buffer <= Spsc.MAX_DATA_SIZE)%nat /\ closed_ w = false) /\
    (io_code r <> IoOk -> io_bytes r = 0) /\ (closed_ w = true -> w' = w /\ io_code r = IoError).
Proof.
  unfold syncTx. destruct (closed_ w) eqn:Ec; [by eexists _, _|].
  destruct (tx_loop_total env buffer tx_fuel 0 (w_shm w) SpinWait.make_default) as (q & r & -> & H1 & H2).
  - by cbn.
  - unfold tx_fuel. cbn [SpinWait.cycles_ SpinWait.make_default SpinWait.make]. unfold SpinWait.SPIN_RETRIES_YIELD. lia.
  - exists (mkWriter false q), r. split; [done|]. split; [done|]. split; [|done].
    intros H. destruct (H1 H). done.
Qed.

(** ** The reader and the reactor *)

Inductive RState := Ready | Active | Closing | Closed.
Inductive PollResult := PIdle | PBusy | PVanished.

#[export] Instance RState_eq_dec : EqDecision RState.
Proof. solve_decision. Defined.
#[export] Instance PollResult_eq_dec : EqDecision PollResult.
Proof. solve_decision. Defined.

(** [r_buf] is the size of the buffer given to [asyncRx]. *)
Record Reader := mkReader { r_shm : Q; r_buf : Z; r_state : RState }.

(** The readers of the process, the reactor's registrations, the callback
    invocations and the polls so far.  [stopped_] is the reactor's thread
    having been joined. *)
Record Reactor := mkReactor {
  readers_ : list nat;
  store : gmap nat Reader;
  started_ : bool;
  rx : list (nat * bytes);
  polls : list (nat * PollResult)
}.

Definition set_readers (r : Reactor) l := mkReactor l (store r) (started_ r) (rx r) (polls r).
Definition set_store (r : Reactor) m := mkReactor (readers_ r) m (started_ r) (rx r) (polls r).

(** [ShmReactor::add] *)
Definition add (r : Reactor) (id : nat) : Reactor :=
  if started_ r then r else set_readers r (readers_ r ++ [id]).

(** [ShmReader::asyncRx]: the state changes even when the reactor refuses. *)
Definition asyncRx (r : Reactor) (id : nat) (buf : Z) : res Reactor :=
  match store r !! id with
  | None => Err NullDeref
  | Some rd =>
      match r_state rd with
      | Ready => Ok (add (set_store r (<[id := mkReader (r_shm rd) buf Active]> (store r))) id)
      | _ => Ok r
      end
  end.

(** [ShmReader::syncRx] *)
Definition syncRx : IoResult := mkIoResult 0 IoError.

(** [ShmReader::close] *)
Definition close (m : gmap nat Reader) (id : nat) : gmap nat Reader :=
  match m !! id with
  | Some rd =>
      match r_state rd with
      | Ready | Active => <[id := mkReader (fst (ShmQueue.notify (r_shm rd))) (r_buf rd) Closing]> m
      | _ => m
      end
  | None => m
  end.

(** What the callback of a reader does to the readers of the process. *)
Context (clb : nat -> bytes -> gmap nat Reader -> gmap nat Reader).

(** [ShmReader::poll] *)
Definition poll (r : Reactor) (id : nat) : res (Reactor * PollResult) :=
  match store r !! id with
  | None => Err NullDeref
  | Some rd =>
      match r_state rd with
      | Ready => Ok (r, PIdle)
      | Active =>
          let '(sq, got) := Spsc.read SlotCount (ShmQueue.queue (r_shm rd)) (r_buf rd) in
          match got with
          | Some (b :: bs) =>
              let m := <[id := mkReader (ShmQueue.set_queue (r_shm rd) sq) (r_buf rd) Active]> (store r) in
              Ok (mkReactor (readers_ r) (clb id (b :: bs) m) (started_ r) (rx r ++ [(id, b :: bs)]) (polls r), PBusy)
          | _ =>
              Ok (set_store r (<[id := mkReader (ShmQueue.set_queue (r_shm rd) sq) (r_buf rd) Active]> (store r)), PIdle)
          end
      | Closing => Ok (set_store r (<[id := mkReader (r_shm rd) (r_buf rd) Closed]> (store r)), PVanished)
      | Closed => Ok (r, PVanished)
      end
  end.

Definition record_poll (r : Reactor) (id : nat) (p : PollResult) : Reactor :=
  mkReactor (readers_ r) (store r) (started_ r) (rx r) (polls r ++ [(id, p)]).

Inductive PassEnd := PassDone (busy : bool) | PassEmpty.

(** The inner loop of [loop]; [stop k] is the stop token at its [k]-th test.
    A vanished reader is overwritten by the last one and the index does not
    advance. *)
Fixpoint pass (fuel : nat) (stop : nat -> bool) (k : nat) (r : Reactor) (i : nat) (busy : bool)
    : res (Reactor * PassEnd) :=
  match fuel with
  | O => Err OutOfFuel
  | S fuel =>
      match readers_ r !! i with
      | None => Ok (r, PassDone busy)
      | Some id =>
          if stop k then Ok (r, PassDone busy)
          else
            let! (r, p) := poll r id in
            let r := record_poll r id p in
            match p with
            | PVanished =>
                match last (readers_ r) with
                | None => Err OutOfBounds
                | Some b =>
                    let r := set_readers r (removelast (<[i := b]> (readers_ r))) in
                    match readers_ r with
                    | [] => Ok (r, PassEmpty)
                    | _ => pass fuel stop (S k) r i busy
                    end
                end
            | PBusy => pass fuel stop (S k) r (S i) true
            | PIdle => pass fuel stop (S k) r (S i) busy
            end
      end
  end.

Inductive LoopNext :=
| Again (waiter : SpinWait.SpinWait)
| Wait (id : nat)
| Left.

(** The rest of an iteration of the outer loop, up to [wait], which resets
    the waiter when it returns. *)
Definition after_pass (r : Reactor) (waiter : SpinWait.SpinWait) (e : PassEnd) : res LoopNext :=
  match e with
  | PassEmpty => Ok Left
  | PassDone true => Ok (Again (SpinWait.reset waiter))
  | PassDone false =>
      let '(waiter, more) := SpinWait.incr waiter in
      if more then Ok (Again waiter)
      else match readers_ r !! 0%nat with Some id => Ok (Wait id) | None => Err OutOfBounds end
  end.

Definition iteration (stop : nat -> bool) (r : Reactor) (waiter : SpinWait.SpinWait)
    : res (Reactor * LoopNext) :=
  if stop 0%nat then Ok (r, Left)
  else
    let! (r, e) := pass (S (length (readers_ r))) stop 1 r 0 false in
    let! n := after_pass r waiter e in
    Ok (r, n).

(** [ShmReactor::stop], up to the join: every reader is notified and the
    vector is cleared while the thread may still run. *)
Definition stop (r : Reactor) : Reactor :=
  if started_ r then
    mkReactor [] (foldr (fun id m => match m !! id with
        | Some rd => <[id := mkReader (fst (ShmQueue.notify (r_shm rd))) (r_buf rd) (r_state rd)]> m
        | None => m end) (store r) (readers_ r)) (started_ r) (rx r) (polls r)
  else r.

(** ** A pass polls every reader once *)

Lemma swap_remove (A C : list nat) id b : last (A ++ id :: C) = Some b ->
  exists B, removelast (<[length A := b]> (A ++ id :: C)) = A ++ B /\ B ≡ₚ C.
Proof.
  intros Hl. replace (length A) with (length A + 0)%nat by lia. rewrite insert_app_r. cbn [insert list_insert].
  destruct C as [|x C _] using rev_ind.
  - exists []. rewrite app_nil_r. by rewrite removelast_last.
  - rewrite app_comm_cons, (assoc_L app), last_snoc in Hl. injection Hl as ->.
    exists (b :: C). split; [|by rewrite Permutation_cons_append].
    by rewrite app_comm_cons, (assoc_L app), removelast_last.
Qed.

Definition alive (tr : list (nat * PollResult)) : list nat := (filter (fun p => p.2 <> PVanished) tr).*1.

Context (clb_keeps : forall id bs m, dom m ⊆ dom (clb id bs m)).

Definition registered (r : Reactor) : Prop := forall id, id ∈ readers_ r -> id ∈ dom (store r).

Lemma poll_ok r id : id ∈ dom (store r) -> exists r' p, poll r id = Ok (r', p) /\
  readers_ r' = readers_ r /\ polls r' = polls r /\ dom (store r) ⊆ dom (store r').
Proof.
  intros Hd. unfold poll. apply elem_of_dom in Hd as [rd ->].
  destruct (r_state rd); [by eexists _, _| |eexists _, _; repeat split; cbn; set_solver|by eexists _, _].
  destruct (Spsc.read _ _ _) as [sq [[|b bs]|]]; eexists _, _; (split; [done|]); cbn; (split; [done|]); (split; [done|]);
    [set_solver| |set_solver].
  etrans; [|apply clb_keeps]. set_solver.
Qed.

(** What a pass has done that started behind the readers [A] with the
    readers [C] still to poll: [tr] are its polls, [sk] the readers a stop
    request kept it from. *)
Definition pass_post (stop : nat -> bool) (r r' : Reactor) (A C : list nat) (busy : bool) (e : PassEnd)
    (tr : list (nat * PollResult)) (sk : list nat) : Prop :=
  polls r' = polls r ++ tr /\ tr.*1 ++ sk ≡ₚ C /\ readers_ r' ≡ₚ A ++ alive tr ++ sk /\
  (sk <> [] -> exists k, stop k = true) /\ dom (store r) ⊆ dom (store r') /\
  match e with
  | PassEmpty => readers_ r' = []
  | PassDone b => (A ++ C <> [] -> readers_ r' <> []) /\
      (b = true <-> busy = true \/ exists id, (id, PBusy) ∈ tr)
  end.

Lemma alive_cons id p tr : alive ((id, p) :: tr) = if decide (p = PVanished) then alive tr else id :: alive tr.
Proof.
  unfold alive. rewrite filter_cons. cbn. destruct (decide (p = PVanished)) as [->|Hn].
  - by rewrite decide_False by naive_solver.
  - by rewrite decide_True.
Qed.

(** One reader polled, and the rest of the pass after it. *)
Lemma pass_post_cons stop r r1 r2 r' id p A A' C C' busy b' e tr sk :
  pass_post stop r2 r' A' C' b' e tr sk ->
  store r2 = store r1 -> dom (store r) ⊆ dom (store r1) ->
  polls r2 = polls r ++ [(id, p)] -> readers_ r2 = A' ++ C' -> C' ≡ₚ C -> A' = A ++ (if decide (p = PVanished) then [] else [id]) ->
  (p = PVanished -> readers_ r2 <> []) -> (b' = true <-> busy = true \/ p = PBusy) ->
  pass_post stop r r' A (id :: C) busy e ((id, p) :: tr) sk.
Proof.
  intros (H1 & H2 & H3 & H4 & H5 & H6) Hs Hd Hp HA' HC HAA Hne Hb. unfold pass_post. rewrite H1, Hp, <- (assoc_L app), alive_cons.
  split; [done|]. split; [cbn; by rewrite H2, HC|]. split; [|split; [done|split]].
  - rewrite H3, HAA. destruct (decide (p = PVanished)); cbn; by rewrite <- ?(assoc_L app), ?app_nil_r.
  - rewrite Hs in H5. by etrans.
  - destruct e; [|done]. destruct H6 as [H6 H7]. split.
    + intros _. apply H6. rewrite <- HA'. destruct (decide (p = PVanished)) as [->|Hn]; [by apply Hne|].
      rewrite HA', HAA. by destruct A.
    + rewrite H7, Hb. setoid_rewrite elem_of_cons. clear. naive_solver.
Qed.

Lemma pass_ok fuel stop k r A C busy :
  (length C < fuel)%nat -> readers_ r = A ++ C -> registered r ->
  exists r' e tr sk, pass fuel stop k r (length A) busy = Ok (r', e) /\ pass_post stop r r' A C busy e tr sk.
Proof.
  revert k r A C busy. induction fuel as [|fuel IH]; intros k r A C busy Hf HA Hreg; [lia|].
  cbn [pass]. rewrite HA. destruct C as [|id C].
  { rewrite lookup_ge_None_2 by (rewrite app_nil_r; lia). exists r, (PassDone busy), [], []. split; [done|].
    unfold pass_post. rewrite HA. cbn. rewrite !app_nil_r. split_and!; try done. split; [by left|].
    intros [?|[? H]]; [done|]. by apply not_elem_of_nil in H. }
  rewrite list_lookup_middle by done. destruct (stop k) eqn:Estop.
  { exists r, (PassDone busy), [], (id :: C). split; [done|]. unfold pass_post. cbn. rewrite HA, app_nil_r.
    split_and!; try done; [by eexists|]. split; [by left|]. intros [?|[? H]]; [done|]. by apply not_elem_of_nil in H. }
  destruct (poll_ok r id) as (r1 & p & -> & Er & Ep & Hd); [apply Hreg; rewrite HA; set_solver|].
  cbn [record_poll readers_ set_readers]. rewrite Er, HA.
  assert (Hnext : forall r2 A' C' b', readers_ r2 = A' ++ C' -> store r2 = store r1 -> polls r2 = polls r ++ [(id, p)] ->
     (forall j, j ∈ readers_ r2 -> j ∈ readers_ r) -> C' ≡ₚ C -> A' = A ++ (if decide (p = PVanished) then [] else [id]) ->
     (p = PVanished -> readers_ r2 <> []) -> (b' = true <-> busy = true \/ p = PBusy) ->
     exists r' e tr sk, pass fuel stop (S k) r2 (length A') b' = Ok (r', e) /\ pass_post stop r r' A (id :: C) busy e tr sk).
  { intros r2 A' C' b' HA' Hs Hp Hin HC HAA Hne Hb. destruct (IH (S k) r2 A' C' b') as (r' & e & tr & sk & HP & Hpost).
    - rewrite HC. cbn in Hf. lia.
    - done.
    - intros j Hj. rewrite Hs. apply Hd, Hreg, Hin, Hj.
    - exists r', e, ((id, p) :: tr), sk. split; [done|]. by eapply (pass_post_cons stop r r1 r2). }
  destruct p eqn:Ep'; cbn [decide_rel] in Hnext.
  - destruct (Hnext (record_poll r1 id PIdle) (A ++ [id]) C busy) as (r' & e & tr & sk & HP & Hpost);
      try done; [by cbn; rewrite Er, HA, <- (assoc_L app)|by cbn; rewrite Ep|by cbn; rewrite Er|naive_solver|].
    exists r', e, tr, sk. split; [|done]. rewrite <- HP. f_equal. rewrite length_app. cbn. lia.
  - destruct (Hnext (record_poll r1 id PBusy) (A ++ [id]) C true) as (r' & e & tr & sk & HP & Hpost);
      try done; [by cbn; rewrite Er, HA, <- (assoc_L app)|by cbn; rewrite Ep|by cbn; rewrite Er|naive_solver|].
    exists r', e, tr, sk. split; [|done]. rewrite <- HP. f_equal. rewrite length_app. cbn. lia.
  - destruct (last (A ++ id :: C)) as [b|] eqn:El; [|by apply last_None in El; destruct A].
    destruct (swap_remove A C id b El) as (B & EB & HB). rewrite EB.
    destruct (A ++ B) as [|x l] eqn:EAB.
    + apply app_nil in EAB as [-> ->]. apply Permutation_nil_l in HB as <-.
      eexists _, PassEmpty, [(id, PVanished)], []. split; [done|]. unfold pass_post. rewrite alive_cons. cbn. rewrite Ep. by split_and!.
    + rewrite <- EAB. destruct (Hnext (set_readers (record_poll r1 id PVanished) (A ++ B)) A B busy)
        as (r' & e & tr & sk & HP & Hpost); try done.
      * cbn. by rewrite Ep.
      * intros j. cbn. rewrite HA, HB. set_solver.
      * by rewrite app_nil_r.
      * cbn. by rewrite EAB.
      * naive_solver.
      * by exists r', e, tr, sk.
Qed.

(** C28: as long as no stop is requested and the callbacks destroy no reader,
    a pass of the reactor over its readers polls each registered reader
    exactly once, whatever the callbacks do to the readers' states, drops
    exactly those that have vanished and keeps the others, and never indexes
    the vector out of range.  The pass reports an empty reactor when no
    reader is left, and it is busy when some reader had data. *)
Theorem reactor_pass_polls_once r : registered r -> readers_ r <> [] ->
  exists r' e tr, pass (S (length (readers_ r))) (fun _ => false) 1 r 0 false = Ok (r', e) /\
    polls r' = polls r ++ tr /\ tr.*1 ≡ₚ readers_ r /\ readers_ r' ≡ₚ alive tr /\
    (e = PassEmpty <-> readers_ r' = []) /\ (e = PassDone true -> exists id, (id, PBusy) ∈ tr) /\ registered r'.
Proof.
  intros Hreg Hne.
  destruct (pass_ok (S (length (readers_ r))) (fun _ => false) 1 r [] (readers_ r) false)
    as (r' & e & tr & sk & HP & H1 & H2 & H3 & H4 & H5 & H6); [lia|done|done|].
  assert (sk = []) as -> by (destruct sk; [done|by destruct H4]). rewrite app_nil_r in *.
  exists r', e, tr. do 4 (split; [done|]). split; [|split].
  - destruct e; [|done]. destruct H6 as [H6 _]. specialize (H6 Hne). by split.
  - intros ->. destruct H6 as [_ H6]. destruct (proj1 H6 eq_refl); [done|done].
  - intros id. rewrite H3. intros Hid. apply H5, Hreg. rewrite <- H2. unfold alive in Hid.
    apply list_elem_of_fmap in Hid as (x & -> & Hx). apply list_elem_of_filter in Hx as [_ Hx].
    apply list_elem_of_fmap. by exists x.
Qed.

(** An iteration of the loop starts with readers and a pass; the index 0 of
    [readers_[0]->wait()] is in range. *)
Lemma iteration_ok stop r w : registered r -> readers_ r <> [] ->
  exists r' n, iteration stop r w = Ok (r', n) /\ (n <> Left -> readers_ r' <> []).
Proof.
  intros Hreg Hne. unfold iteration. destruct (stop 0%nat); [by eexists _, _|].
  destruct (pass_ok (S (length (readers_ r))) stop 1 r [] (readers_ r) false)
    as (r' & e & tr & sk & HP & H1 & H2 & H3 & H4 & H5 & H6); [lia|done|done|].
  cbn [length] in HP. rewrite HP. unfold after_pass. destruct e as [[]|].
  - eexists _, _. split; [done|]. intros _. by apply H6.
  - destruct H6 as [H6 _]. specialize (H6 Hne). destruct (SpinWait.incr w) as [w' []]; [by eexists _, _|].
    destruct (readers_ r') eqn:E; [done|]. cbn. eexists _, _. split; [done|]. by rewrite E.
  - by eexists _, _.
Qed.

(** [ShmReactor::stop] clears the reader vector before it joins the
    thread that is using it: when the clear falls between the pass and
    [readers_[0]->wait()], the access is out of range. *)
Theorem reactor_stop_races_wait r w : started_ r = true -> SpinWait.cap_ w <= SpinWait.cycles_ w ->
  after_pass (stop r) w (PassDone false) = Err OutOfBounds.
Proof.
  intros Hs Hw. unfold stop, after_pass, SpinWait.incr. rewrite Hs.
  by destruct (Z.leb_spec (SpinWait.cap_ w) (SpinWait.cycles_ w)); [|lia].
Qed.

(** ** The life of a reader *)

(** A reader that is closed is polled [PVanished] and never delivers again. *)
Lemma close_is_final r id rd : store r !! id = Some rd -> r_state rd = Ready \/ r_state rd = Active ->
  exists r', poll (set_store r (close (store r) id)) id = Ok (r', PVanished) /\ rx r' = rx r.
Proof.
  intros Hs Hst. unfold close, poll. rewrite Hs.
  destruct Hst as [-> | ->]; cbn; rewrite lookup_insert_eq; cbn; by eexists.
Qed.

(** ** The transport *)

Inductive TType := TNone | TReader | TWriter.

(** [reader_] names a reader of the reactor. *)
Record Transport := mkTransport { type_ : TType; t_reader : option nat; t_writer : option Writer }.

Definition makeReader (id : nat) : Transport := mkTransport TReader (Some id) None.
Definition makeWriter (q : Q) : Transport := mkTransport TWriter None (Some (mkWriter false q)).

Definition t_syncRx (t : Transport) : IoResult :=
  match type_ t with TReader => syncRx | _ => mkIoResult 0 IoError end.

Definition t_asyncRx (t : Transport) (r : Reactor) (buf : Z) : res Reactor :=
  match type_ t with
  | TReader => match t_reader t with Some id => asyncRx r id buf | None => Err NullDeref end
  | _ => Ok r
  end.

Definition t_syncTx (t : Transport) (env : nat -> Q -> Q) (buffer : bytes) : res (Transport * IoResult) :=
  match type_ t with
  | TWriter =>
      match t_writer t with
      | Some w => let! (w, r) := syncTx w env buffer in Ok (mkTransport (type_ t) (t_reader t) (Some w), r)
      | None => Err NullDeref
      end
  | _ => Ok (t, mkIoResult 0 IoError)
  end.

Definition t_asyncTx (t : Transport) (env : nat -> Q -> Q) (buffer : bytes)
    : res (Transport * option IoResult) :=
  match type_ t with
  | TWriter =>
      match t_writer t with
      | Some w => let! (w, r) := asyncTx w env buffer in Ok (mkTransport (type_ t) (t_reader t) (Some w), r)
      | None => Err NullDeref
      end
  | _ => Ok (t, None)
  end.

Definition t_close (t : Transport) (m : gmap nat Reader) : Transport * gmap nat Reader :=
  (mkTransport (type_ t) (t_reader t) (option_map w_close (t_writer t)),
   match t_reader t with Some id => close m id | None => m end).

(** The factories and every operation keep the tag in step with the optional
    members, so no operation dereferences an empty one. *)
Definition t_wf (t : Transport) : Prop :=
  match type_ t with
  | TReader => is_Some (t_reader t) /\ t_writer t = None
  | TWriter => is_Some (t_writer t) /\ t_reader t = None
  | TNone => t_reader t = None /\ t_writer t = None
  end.

Lemma makeReader_wf id : t_wf (makeReader id).
Proof. by split. Qed.

Lemma makeWriter_wf q : t_wf (makeWriter q).
Proof. by split. Qed.

Lemma t_syncTx_wf t env buffer : t_wf t -> exists t' r, t_syncTx t env buffer = Ok (t', r) /\ t_wf t'.
Proof.
  unfold t_wf, t_syncTx. destruct (type_ t) eqn:Et; [by eexists _, _; rewrite Et|by eexists _, _; rewrite Et|].
  intros [[w ->] Hr]. unfold syncTx. destruct (closed_ w); [by eexists _, _|].
  destruct (tx_loop_total env buffer tx_fuel 0 (w_shm w) SpinWait.make_default) as (q & r & -> & _ & _);
    [by cbn|unfold tx_fuel; cbn [SpinWait.cycles_ SpinWait.make_default SpinWait.make]; unfold SpinWait.SPIN_RETRIES_YIELD; lia|].
  by eexists _, _.
Qed.

Lemma t_close_wf t m : t_wf t -> t_wf (fst (t_close t m)).
Proof.
  unfold t_wf. cbn. destruct (type_ t); intros [H1 H2]; rewrite ?H1, ?H2; cbn; try done.
  by destruct H1 as [w ->].
Qed.

End Io.

(** Two readers, one of them closing; its pass drops it and delivers the
    message of the other. *)
Definition sample_queue : ShmQueue.ShmQueue :=
  ShmQueue.set_queue (ShmQueue.init 4) (fst (Spsc.write 4 (Spsc.init 4) [7])).
Definition sample : Reactor :=
  mkReactor [0%nat; 1%nat] (<[0%nat := mkReader sample_queue 52 Closing]> {[1%nat := mkReader sample_queue 52 Active]}) true [] [].

Definition no_effect (id : nat) (bs : bytes) (m : gmap nat Reader) : gmap nat Reader := m.

Lemma reactor_pass_polls_once_witness :
  exists r' e tr, pass 4 no_effect 3 (fun _ => false) 1 sample 0 false = Ok (r', e) /\
    polls r' = [] ++ tr /\ tr.*1 ≡ₚ [0%nat; 1%nat].
Proof.
  destruct (reactor_pass_polls_once 4 no_effect (fun _ _ _ => reflexivity _) sample)
    as (r' & e & tr & H1 & H2 & H3 & _).
  - intros id Hid. apply elem_of_dom. cbn in Hid.
    apply elem_of_cons in Hid as [->|Hid]; [by eexists|].
    apply elem_of_cons in Hid as [->|Hid]; [by eexists|]. by apply not_elem_of_nil in Hid.
  - done.
  - by exists r', e, tr.
Defined.

Lemma reactor_stop_races_wait_witness :
  after_pass (stop sample) (SpinWait.mkSpinWait 5 5) (PassDone false) = Err OutOfBounds.
Proof. apply reactor_stop_races_wait; [reflexivity|]. cbn. lia. Defined.

Example sample_pass : exists r', pass 4 no_effect 3 (fun _ => false) 1 sample 0 false = Ok (r', PassDone true) /\
  readers_ r' = [1%nat] /\ rx r' = [(1%nat, [7])].
Proof. eexists. by split; [vm_compute|]. Qed.

End ShmIo.
