(* ===== verification/SlidingBuffer.v ===== *)
(** * The receive buffer

    Models [SlidingBuffer] (common/src/containers/sliding_buffer.hpp): the
    bytes of a stream that have arrived and are not consumed yet.  The
    invariant says that [data] are exactly those bytes; [buffer] always
    offers room when less than a message is pending. *)

From S2P Require Import Prelude.

Module SlidingBuffer.

Abbreviation bytes := (list Z).

Definition MIN_READ_CAPACITY : Z := 512.

Record State := mkState { head_ : Z; tail_ : Z; capacity_ : Z; buffer_ : bytes }.

Definition make (capacity : Z) : res State :=
  if capacity <? MIN_READ_CAPACITY then Err (Throw "Invalid ring buffer capacity")
  else Ok (mkState 0 0 capacity (replicate (Z.to_nat capacity) 0)).

Definition reset (s : State) : State := mkState 0 0 (capacity_ s) (buffer_ s).

(** The live bytes of the array. *)
Definition slice (b : bytes) (from n : Z) : bytes := take (Z.to_nat n) (drop (Z.to_nat from) b).

(** [memmove] of [n] bytes from [tail] to the front. *)
Definition rotate (s : State) : res State :=
  if tail_ s =? 0 then Ok s
  else if head_ s <? tail_ s then Err (Throw "head_ < tail_")
  else
    let dataSize := head_ s - tail_ s in
    let b := (if 0 <? dataSize
              then slice (buffer_ s) (tail_ s) dataSize ++ drop (Z.to_nat dataSize) (buffer_ s)
              else buffer_ s) in
    Ok (mkState dataSize 0 (capacity_ s) b).

(** [buffer]: the state and the span (offset and size) to read into. *)
Definition buffer (s : State) : res (State * (Z * Z)) :=
  let! s := (if capacity_ s - head_ s <? MIN_READ_CAPACITY then rotate s else Ok s) in
  Ok (s, (head_ s, capacity_ s - head_ s)).

Definition data (s : State) : res bytes :=
  if tail_ s <=? head_ s then Ok (slice (buffer_ s) (tail_ s) (head_ s - tail_ s)) else Err AssertFailed.

Definition commitWrite (s : State) (n : Z) : State * bool :=
  if capacity_ s <? head_ s + n then (s, false)
  else (mkState (head_ s + n) (tail_ s) (capacity_ s) (buffer_ s), true).

Definition commitRead (s : State) (n : Z) : res State :=
  if tail_ s + n <=? head_ s then
    let s := mkState (head_ s) (tail_ s + n) (capacity_ s) (buffer_ s) in
    Ok (if tail_ s =? head_ s then reset s else s)
  else Err AssertFailed.

(** The transport fills the span at [off] with [chunk]. *)
Definition fill (s : State) (off : Z) (chunk : bytes) : State :=
  mkState (head_ s) (tail_ s) (capacity_ s)
    (take (Z.to_nat off) (buffer_ s) ++ chunk ++ drop (Z.to_nat off + length chunk) (buffer_ s)).

(** ** The bytes that are pending *)

(** [pending] are the bytes received and not consumed. *)
Record Inv (s : State) (pending : bytes) : Prop := {
  sb_cap : MIN_READ_CAPACITY <= capacity_ s;
  sb_len : Z.of_nat (length (buffer_ s)) = capacity_ s;
  sb_order : 0 <= tail_ s <= head_ s /\ head_ s <= capacity_ s;
  sb_pending : pending = slice (buffer_ s) (tail_ s) (head_ s - tail_ s)
}.

Lemma Inv_make cap s : make cap = Ok s -> Inv s [].
Proof.
  unfold make. destruct (Z.ltb_spec cap MIN_READ_CAPACITY); [done|]. intros [= <-].
  unfold MIN_READ_CAPACITY in *. split; cbn; try done; [|lia]. rewrite length_replicate. lia.
Qed.

Lemma pending_length s p : Inv s p -> Z.of_nat (length p) = head_ s - tail_ s.
Proof.
  intros [_ Hl [H1 H2] ->]. unfold slice. rewrite length_take, length_drop. lia.
Qed.

Lemma data_ok s p : Inv s p -> data s = Ok p.
Proof. intros [_ _ [H1 _] ->]. unfold data. by destruct (Z.leb_spec (tail_ s) (head_ s)); [|lia]. Qed.

Lemma slice_front b n rest : 0 <= n -> Z.of_nat (length b) = n -> slice (b ++ rest) 0 n = b.
Proof. intros Hn Hl. unfold slice. cbn. rewrite drop_0. apply take_app_length'. lia. Qed.

Lemma rotate_ok s p : Inv s p -> exists s', rotate s = Ok s' /\ Inv s' p /\
  head_ s' = (if tail_ s =? 0 then head_ s else Z.of_nat (length p)) /\ capacity_ s' = capacity_ s.
Proof.
  intros HI. pose proof (pending_length _ _ HI) as Hp. pose proof HI as [Hc Hl [H1 H2] Hpe]. unfold rotate.
  destruct (Z.eqb_spec (tail_ s) 0); [by eexists|].
  destruct (Z.ltb_spec (head_ s) (tail_ s)); [lia|]. eexists. split; [done|]. rewrite Hp. split; [|done].
  split; cbn [capacity_ buffer_ head_ tail_]; try done; try lia.
  - destruct (Z.ltb_spec 0 (head_ s - tail_ s)); [|done]. rewrite <- Hpe, length_app, length_drop. lia.
  - rewrite Z.sub_0_r. destruct (Z.ltb_spec 0 (head_ s - tail_ s)) as [|Hz].
    + rewrite <- Hpe. rewrite slice_front; [done|lia|lia].
    + assert (p = []) as -> by (apply length_zero_iff_nil; lia).
      replace (head_ s - tail_ s) with 0 by lia. done.
Qed.

(** [buffer] keeps the pending bytes and offers at least
    [MIN_READ_CAPACITY] bytes as long as that many are not pending. *)
Lemma buffer_ok s p : Inv s p -> exists s' off avail, buffer s = Ok (s', (off, avail)) /\ Inv s' p /\
  off = head_ s' /\ avail = capacity_ s - off /\ capacity_ s' = capacity_ s /\
  (Z.of_nat (length p) + MIN_READ_CAPACITY <= capacity_ s -> MIN_READ_CAPACITY <= avail).
Proof.
  intros HI. pose proof (pending_length _ _ HI) as Hp. pose proof HI as [Hc Hl [H1 H2] _]. unfold buffer.
  destruct (Z.ltb_spec (capacity_ s - head_ s) MIN_READ_CAPACITY) as [Hlt|Hge].
  - destruct (rotate_ok s p HI) as (s' & -> & HI' & Hh & Hcap). eexists _, _, _. split; [done|].
    rewrite Hcap. do 4 (split; [done|]). intros Hle. destruct (Z.eqb_spec (tail_ s) 0); lia.
  - eexists _, _, _. split; [done|]. do 4 (split; [done|]). lia.
Qed.

(** Bytes written into the span and committed are appended. *)
Lemma receive_ok s p off chunk : Inv s p -> off = head_ s ->
  Z.of_nat (length chunk) <= capacity_ s - off ->
  exists s', commitWrite (fill s off chunk) (Z.of_nat (length chunk)) = (s', true) /\ Inv s' (p ++ chunk) /\
    capacity_ s' = capacity_ s.
Proof.
  intros HI -> Hle. pose proof (pending_length _ _ HI) as Hp. pose proof HI as [Hc Hl [H1 H2] Hpe].
  unfold commitWrite. cbn [capacity_ head_ fill].
  destruct (Z.ltb_spec (capacity_ s) (head_ s + Z.of_nat (length chunk))); [lia|].
  eexists. split; [done|]. split; [|done]. cbn. split; cbn [capacity_ buffer_ head_ tail_]; try done; try lia.
  - rewrite !length_app, length_take, length_drop. lia.
  - unfold slice in *. rewrite drop_app_le by (rewrite length_take; lia).
    replace (Z.to_nat (head_ s + Z.of_nat (length chunk) - tail_ s)) with (length p + length chunk)%nat by lia.
    rewrite skipn_firstn_comm. replace (Z.to_nat (head_ s) - Z.to_nat (tail_ s))%nat with (Z.to_nat (head_ s - tail_ s)) by lia.
    rewrite <- Hpe. rewrite take_app_ge by lia. replace (length p + length chunk - length p)%nat with (length chunk) by lia.
    by rewrite take_app_length.
Qed.

(** Consumed bytes are dropped from the front. *)
Lemma commitRead_ok s p n : Inv s p -> 0 <= n <= Z.of_nat (length p) ->
  exists s', commitRead s n = Ok s' /\ Inv s' (drop (Z.to_nat n) p) /\ capacity_ s' = capacity_ s.
Proof.
  intros HI Hn. pose proof (pending_length _ _ HI) as Hp. pose proof HI as [Hc Hl [H1 H2] Hpe].
  unfold commitRead. destruct (Z.leb_spec (tail_ s + n) (head_ s)); [|lia]. cbn [tail_ head_].
  destruct (Z.eqb_spec (tail_ s + n) (head_ s)) as [E|Hne]; eexists; (split; [done|]); (split; [|done]);
    split; cbn [capacity_ buffer_ head_ tail_ reset]; try done; try lia.
  - rewrite drop_ge by lia. done.
  - rewrite Hpe. unfold slice. rewrite skipn_firstn_comm, drop_drop. f_equal; [lia|]. f_equal. lia.
Qed.

Lemma Inv_reset s p : Inv s p -> Inv (reset s) [].
Proof. intros [H1 H2 [H3 H4] _]. by split; cbn; try lia. Qed.

End SlidingBuffer.
