(* ===== verification/Framing.v ===== *)
(** * Framing

    Models [FixedSizeFramer] and [DummyFramer]
    (common/src/transport/framing).  A serializer is an interface
    ([Serializer]); what the framers need of one is its law
    ([SerializerOk]).  [le16] is [LittleEndianUInt16]. *)

From S2P Require Import Prelude SlotId Types.

Abbreviation bytes := (list Z).

(** [Expected<size_t>] *)
Abbreviation expected := (Z + StatusCode)%type.

(** [serialize] gives the bytes written to the buffer; [deserialize] the
    messages posted to the consumer and the returned value. *)
Class Serializer (Msg : Type) := {
  serialize : Msg -> bytes;
  deserialize : bytes -> res (list Msg * expected)
}.

Module FixedSizeFramer.

Definition HEADER_SIZE : Z := 2.

Definition le16_put (x : Z) : bytes := [x mod 256; x / 256].
Definition le16_get (b : bytes) : Z := nth 0 b 0 + 256 * nth 1 b 0.

Section Framer.
Context {Msg : Type} `{SER : Serializer Msg}.

Definition frame (m : Msg) : bytes :=
  let body := serialize m in le16_put (u16 (Z.of_nat (length body))) ++ body.

#[local] Arguments frame : simpl never.

(** The loop of [unframe]: the messages posted and the returned value. *)
Fixpoint unframe_loop (fuel : nat) (buf : bytes) (cursor : Z) (posted : list Msg)
    : res (list Msg * expected) :=
  match fuel with
  | O => Err OutOfFuel
  | S fuel =>
      if cursor + HEADER_SIZE <? Z.of_nat (length buf) then
        let bodySize := le16_get (drop (Z.to_nat cursor) buf) in
        if (bodySize =? 0) || (1024 <? bodySize) then Ok (posted, inr SError)
        else if Z.of_nat (length buf) <? cursor + HEADER_SIZE + bodySize then Ok (posted, inl cursor)
        else
          let! (ms, r) := deserialize (take (Z.to_nat bodySize) (drop (Z.to_nat (cursor + HEADER_SIZE)) buf)) in
          match r with
          | inr e => Ok (posted ++ ms, inr e)
          | inl msgSize =>
              if negb (msgSize =? bodySize) then Ok (posted ++ ms, inr SError)
              else unframe_loop fuel buf (cursor + (bodySize + HEADER_SIZE)) (posted ++ ms)
          end
      else Ok (posted, inl cursor)
  end.

Definition unframe (buf : bytes) : res (list Msg * expected) := unframe_loop (S (length buf)) buf 0 [].

(** What the framer needs: the body has a size the reader accepts and is
    read back as the message. *)
Record Framable (m : Msg) : Prop := {
  fr_size : 1 <= Z.of_nat (length (serialize m)) <= 1024;
  fr_back : deserialize (serialize m) = Ok ([m], inl (Z.of_nat (length (serialize m))))
}.

(** The frames of a sequence of messages. *)
Definition frames (ms : list Msg) : bytes := concat (map frame ms).

Lemma le16_roundtrip x rest : 0 <= x < 2 ^ 16 -> le16_get (le16_put x ++ rest) = x.
Proof. intros. unfold le16_get, le16_put. cbn. pose proof (Z.div_mod x 256). lia. Qed.

Lemma frame_length m : length (frame m) = (2 + length (serialize m))%nat.
Proof. done. Qed.

Lemma frame_header m rest : Framable m -> le16_get (frame m ++ rest) = Z.of_nat (length (serialize m)).
Proof.
  intros [Hs _]. unfold frame. rewrite <- app_assoc.
  assert (u16 (Z.of_nat (length (serialize m))) = Z.of_nat (length (serialize m))) as ->
    by (unfold u16; apply Z.mod_small; lia).
  apply le16_roundtrip. lia.
Qed.

(** A strict prefix of a frame makes the loop stop before it. *)
Lemma unframe_partial m p q fuel pre posted : Framable m -> frame m = p ++ q -> q <> [] ->
  unframe_loop (S fuel) (pre ++ p) (Z.of_nat (length pre)) posted = Ok (posted, inl (Z.of_nat (length pre))).
Proof.
  intros Hm E Hq. cbn [unframe_loop]. rewrite length_app.
  destruct (Z.ltb_spec (Z.of_nat (length pre) + HEADER_SIZE) (Z.of_nat (length pre + length p))) as [Hlt|]; [|done].
  unfold HEADER_SIZE in *. rewrite Nat2Z.id, drop_app_length.
  pose proof (frame_header m [] Hm) as Hh. rewrite app_nil_r, E in Hh.
  assert (Hg : le16_get p = Z.of_nat (length (serialize m))).
  { rewrite <- Hh. destruct p as [|a [|b p]]; cbn in Hlt; try lia. done. }
  rewrite Hg. destruct Hm as [Hs _]. pose proof (frame_length m) as Hfl. rewrite E, length_app in Hfl.
  destruct (Z.eqb_spec (Z.of_nat (length (serialize m))) 0); [lia|].
  destruct (Z.ltb_spec 1024 (Z.of_nat (length (serialize m)))); [lia|]. cbn.
  destruct q; [done|]. cbn in Hfl.
  by destruct (Z.ltb_spec (Z.of_nat (length pre + length p)) (Z.of_nat (length pre) + 2 + Z.of_nat (length (serialize m)))); [|lia].
Qed.

(** A whole frame at the cursor is posted and skipped. *)
Lemma unframe_whole m fuel pre rest posted : Framable m ->
  unframe_loop (S fuel) (pre ++ frame m ++ rest) (Z.of_nat (length pre)) posted =
  unframe_loop fuel ((pre ++ frame m) ++ rest) (Z.of_nat (length (pre ++ frame m))) (posted ++ [m]).
Proof.
  intros Hm. cbn [unframe_loop]. rewrite !length_app, frame_length. unfold HEADER_SIZE.
  pose proof Hm as [Hs Hb].
  destruct (Z.ltb_spec (Z.of_nat (length pre) + 2) (Z.of_nat (length pre + (2 + length (serialize m) + length rest)))) as [_|]; [|lia].
  rewrite Nat2Z.id, drop_app_length, frame_header by done.
  destruct (Z.eqb_spec (Z.of_nat (length (serialize m))) 0); [lia|].
  destruct (Z.ltb_spec 1024 (Z.of_nat (length (serialize m)))); [lia|]. cbn [orb].
  destruct (Z.ltb_spec (Z.of_nat (length pre + (2 + length (serialize m) + length rest)))
    (Z.of_nat (length pre) + 2 + Z.of_nat (length (serialize m)))); [lia|].
  assert (E : take (Z.to_nat (Z.of_nat (length (serialize m)))) (drop (Z.to_nat (Z.of_nat (length pre) + 2)) (pre ++ frame m ++ rest)) = serialize m).
  { rewrite Nat2Z.id. replace (Z.to_nat (Z.of_nat (length pre) + 2)) with (length pre + 2)%nat by lia.
    rewrite drop_app_add. change (frame m) with (le16_put (u16 (Z.of_nat (length (serialize m)))) ++ serialize m).
    rewrite <- app_assoc. change 2%nat with (length (le16_put (u16 (Z.of_nat (length (serialize m)))))).
    rewrite drop_app_length. apply take_app_length. }
  rewrite E, Hb, Z.eqb_refl. cbn [negb]. f_equal; [by rewrite app_assoc|lia].
Qed.

Lemma unframe_frames_loop ms fuel pre p posted : Forall Framable ms ->
  (forall fuel pre posted, unframe_loop (S fuel) (pre ++ p) (Z.of_nat (length pre)) posted =
      Ok (posted, inl (Z.of_nat (length pre)))) ->
  (length ms < fuel)%nat ->
  unframe_loop fuel (pre ++ frames ms ++ p) (Z.of_nat (length pre)) posted =
    Ok (posted ++ ms, inl (Z.of_nat (length (pre ++ frames ms)))).
Proof.
  intros Hall Hp. revert fuel pre posted. induction Hall as [|m ms Hm Hall IH]; intros fuel pre posted Hf.
  - cbn. rewrite !app_nil_r. destruct fuel; [lia|]. apply Hp.
  - destruct fuel as [|fuel]; [cbn in Hf; lia|]. unfold frames in *. cbn [map concat].
    rewrite <- (app_assoc (frame m)), unframe_whole, (IH _ (pre ++ frame m)) by (done || (cbn in Hf; lia)).
    by rewrite <- !app_assoc.
Qed.

Lemma frames_length_ge ms : (length ms <= length (frames ms))%nat.
Proof. induction ms as [|m ms IH]; [done|]. unfold frames in *. cbn. rewrite length_app, frame_length. lia. Qed.

(** What is left of a stream behind its whole frames. *)
Definition tail_of (ms : list Msg) (p : bytes) : Prop :=
  match ms with
  | [] => p = []
  | m :: _ => exists q, frame m = p ++ q /\ q <> []
  end.

Lemma unframe_frames ms ms' p : Forall Framable ms -> Forall Framable ms' -> tail_of ms' p ->
  unframe (frames ms ++ p) = Ok (ms, inl (Z.of_nat (length (frames ms)))).
Proof.
  intros H1 H2 Ht. unfold unframe. apply (unframe_frames_loop ms _ [] p []); [done| |].
  - intros fuel pre posted. destruct ms' as [|m ms']; cbn in Ht.
    + subst. rewrite app_nil_r. cbn [unframe_loop]. unfold HEADER_SIZE.
      by destruct (Z.ltb_spec (Z.of_nat (length pre) + 2) (Z.of_nat (length pre))); [lia|].
    + destruct Ht as (q & E & Hq). apply Forall_cons in H2 as [Hm _]. by eapply unframe_partial.
  - rewrite length_app. pose proof (frames_length_ge ms). lia.
Qed.

(** Every prefix of a stream of frames is whole frames and a tail. *)
Lemma prefix_split ms R T : R ++ T = frames ms ->
  exists ms1 ms2 p, ms = ms1 ++ ms2 /\ R = frames ms1 ++ p /\ tail_of ms2 p /\ p ++ T = frames ms2.
Proof.
  revert R. induction ms as [|m ms IH]; intros R E.
  - apply app_nil in E as [-> ->]. by exists [], [], [].
  - change (frames (m :: ms)) with (frame m ++ frames ms) in E.
    destruct (le_lt_dec (length (frame m)) (length R)) as [Hle|Hlt].
    + assert (exists R', R = frame m ++ R') as [R' ->].
      { exists (drop (length (frame m)) R). rewrite <- (take_drop (length (frame m)) R) at 1. f_equal.
        rewrite <- (take_app_le R T), E, take_app_length by done. done. }
      rewrite <- app_assoc in E. apply app_inv_head in E.
      destruct (IH _ E) as (ms1 & ms2 & p & -> & -> & Ht & Ep).
      exists (m :: ms1), ms2, p. split; [done|]. split; [|done]. unfold frames. cbn. by rewrite app_assoc.
    + exists [], (m :: ms), R. split; [done|]. split; [done|]. split; [|done].
      exists (drop (length R) (frame m)). split.
      * rewrite <- (take_drop (length R) (frame m)) at 1. f_equal.
        assert (H : take (length R) (frame m ++ frames ms) = R) by (by rewrite <- E, take_app_length).
        rewrite take_app_le in H by lia. done.
      * intros Hn. apply (f_equal length) in Hn. rewrite length_drop, length_nil in Hn. lia.
Qed.

Lemma tail_length ms p : Forall Framable ms -> tail_of ms p -> Z.of_nat (length p) < 1026.
Proof.
  destruct ms as [|m ms]; cbn; [by intros _ ->|]. intros [[Hs _] _]%Forall_cons (q & E & Hq).
  apply (f_equal length) in E. rewrite length_app, frame_length in E. destruct q; [done|]. cbn in E. lia.
Qed.

End Framer.
End FixedSizeFramer.

Module DummyFramer.
Section Framer.
Context {Msg : Type} `{SER : Serializer Msg}.

Definition frame (m : Msg) : bytes := serialize m.

#[local] Arguments frame : simpl never.

(** The fuel is the number of bytes: a message that takes none would loop
    for ever. *)
Fixpoint unframe_loop (fuel : nat) (buf : bytes) (processedSize : Z) (posted : list Msg)
    : res (list Msg * expected) :=
  match fuel with
  | O => Err OutOfFuel
  | S fuel =>
      if processedSize <? Z.of_nat (length buf) then
        let! (ms, r) := deserialize (drop (Z.to_nat processedSize) buf) in
        match r with
        | inr e => Ok (posted ++ ms, inr e)
        | inl n => unframe_loop fuel buf (processedSize + n) (posted ++ ms)
        end
      else Ok (posted, inl processedSize)
  end.

Definition unframe (buf : bytes) : res (list Msg * expected) := unframe_loop (S (length buf)) buf 0 [].

(** A serializer that frames its messages itself. *)
Definition SelfFramed (m : Msg) : Prop :=
  serialize m <> [] /\
  forall rest, deserialize (serialize m ++ rest) = Ok ([m], inl (Z.of_nat (length (serialize m)))).

(** Whole messages are all posted ... *)
Lemma unframe_all ms : Forall SelfFramed ms ->
  unframe (concat (map frame ms)) = Ok (ms, inl (Z.of_nat (length (concat (map frame ms))))).
Proof.
  intros Hall. unfold unframe.
  assert (G : forall pre posted fuel, (length (concat (map frame ms)) < fuel)%nat ->
    unframe_loop fuel (pre ++ concat (map frame ms)) (Z.of_nat (length pre)) posted =
    Ok (posted ++ ms, inl (Z.of_nat (length (pre ++ concat (map frame ms)))))); [|by apply (G [] []); lia].
  induction Hall as [|m ms [Hne Hm] Hall IH]; intros pre posted fuel Hf.
  - cbn. rewrite !app_nil_r. destruct fuel; [lia|]. cbn. by destruct (Z.ltb_spec (Z.of_nat (length pre)) (Z.of_nat (length pre))); [lia|].
  - destruct fuel as [|fuel]; [lia|]. cbn [map concat] in *. rewrite length_app in Hf.
    assert (0 < length (frame m))%nat by (unfold frame; destruct (serialize m); [done|cbn; lia]).
    cbn [unframe_loop]. rewrite !length_app.
    destruct (Z.ltb_spec (Z.of_nat (length pre)) (Z.of_nat (length pre + (length (frame m) + length (concat (map frame ms)))))); [|lia].
    rewrite Nat2Z.id, drop_app_length. unfold frame at 1. rewrite Hm.
    replace (Z.of_nat (length pre) + Z.of_nat (length (serialize m))) with (Z.of_nat (length (pre ++ frame m)))
      by (rewrite length_app; unfold frame; lia).
    rewrite app_assoc, IH by lia. rewrite <- !app_assoc. by rewrite !length_app.
Qed.

(** ... but bytes a message is cut off in end the stream with an error. *)
Lemma unframe_cut ms p : Forall SelfFramed ms -> p <> [] -> deserialize p = Ok ([], inr SError) ->
  unframe (concat (map frame ms) ++ p) = Ok (ms, inr SError).
Proof.
  intros Hall Hp Hd. unfold unframe.
  assert (G : forall pre posted fuel, (length (concat (map frame ms)) < fuel)%nat ->
    unframe_loop fuel (pre ++ concat (map frame ms) ++ p) (Z.of_nat (length pre)) posted = Ok (posted ++ ms, inr SError)).
  { induction Hall as [|m ms [Hne Hm] Hall IH]; intros pre posted fuel Hf.
    - cbn. destruct fuel; [lia|]. cbn. rewrite length_app. destruct p as [|b p]; [done|]. cbn [length].
      destruct (Z.ltb_spec (Z.of_nat (length pre)) (Z.of_nat (length pre + S (length p)))); [|lia].
      by rewrite Nat2Z.id, drop_app_length, Hd.
    - destruct fuel as [|fuel]; [lia|]. cbn [map concat] in *. rewrite length_app in Hf.
      assert (0 < length (frame m))%nat by (unfold frame; destruct (serialize m); [done|cbn; lia]).
      cbn [unframe_loop]. rewrite !length_app.
      destruct (Z.ltb_spec (Z.of_nat (length pre)) (Z.of_nat (length pre + (length (frame m) + length (concat (map frame ms)) + length p)))); [|lia].
      rewrite Nat2Z.id, drop_app_length. rewrite <- app_assoc. unfold frame at 1. rewrite Hm.
      replace (Z.of_nat (length pre) + Z.of_nat (length (serialize m))) with (Z.of_nat (length (pre ++ frame m)))
        by (rewrite length_app; unfold frame; lia).
      rewrite app_assoc, IH by lia. by rewrite <- app_assoc. }
  apply (G [] []). rewrite length_app. lia.
Qed.

End Framer.
End DummyFramer.
