(* ===== verification/VyukovMPMC.v ===== *)
(** * The bounded multi-producer multi-consumer queue

    Models [VyukovMPMC] (common/src/containers/vyukov_mpmc.hpp): any number
    of threads run [push] and [pop], one shared access per step, in any
    interleaving.  Positions and sequence numbers are [size_t] and wrap.
    The theorems hold below 2^63 pushes, where the machine takes the same steps
    as one on unbounded positions; they say that positions are
    claimed one at a time, that a slot is written and read by the claimant of
    its position only, and that a pop returns the value of the push that
    claimed the same position. *)

From S2P Require Import Prelude.

Module VyukovMPMC.

Section Queue.
Context {Value : Type} (dummy : Value) (Capacity : Z).

Record Slot := mkSlot { sequence : Z; value : Value }.

(** Where a thread is; [PushLoop] holds the local [tail], [PopLoop] the
    local [head]. *)
Inductive PC :=
| Idle
| PushLoad (item : Value)
| PushLoop (item : Value) (tail : Z)
| PushCas (item : Value) (tail : Z)
| PushVal (item : Value) (tail : Z)
| PushSeq (tail : Z)
| PopLoad
| PopLoop (head : Z)
| PopCas (head : Z)
| PopVal (head : Z)
| PopSeq (head : Z) (out : Value).

(** [pushed] are the items in the order in which their positions were
    claimed, [results] the completed pops with their positions, for the
    statements. *)
Record State := mkState {
  head_ : Z;
  tail_ : Z;
  slots_ : Z -> Slot;
  threads : nat -> PC;
  pushed : list Value;
  results : list (Z * Value)
}.

Definition init : State := mkState 0 0 (fun i => mkSlot i dummy) (fun _ => Idle) [] [].

Definition slot (s : State) (pos : Z) : Slot := slots_ s (pos mod Capacity).

Definition fupd {B} `{EqDecision A} (f : A -> B) (a : A) (b : B) : A -> B :=
  fun x => if decide (x = a) then b else f x.

Definition set_pc (s : State) (t : nat) (pc : PC) : State :=
  mkState (head_ s) (tail_ s) (slots_ s) (fupd (threads s) t pc) (pushed s) (results s).

Definition set_slot (s : State) (pos : Z) (x : Slot) : State :=
  mkState (head_ s) (tail_ s) (fupd (slots_ s) (pos mod Capacity) x) (threads s) (pushed s) (results s).

(** [intptr_t]: a 64-bit word read as a signed number. *)
Definition i64 (x : Z) : Z := let y := u64 x in if y <? 2 ^ 63 then y else y - 2 ^ 64.

(** [slots_[pos & mask_]] *)
Definition mask_ : Z := Capacity - 1.
Definition cell (s : State) (pos : Z) : Slot := slots_ s (Z.land pos mask_).
Definition set_cell (s : State) (pos : Z) (x : Slot) : State :=
  mkState (head_ s) (tail_ s) (fupd (slots_ s) (Z.land pos mask_) x) (threads s) (pushed s) (results s).

(** The next access of thread [t]; [weak] is a spurious failure of
    [compare_exchange_weak].  Positions and sequence numbers are [size_t]. *)
Definition tstep (s : State) (t : nat) (weak : bool) : State :=
  match threads s t with
  | Idle => s
  | PushLoad item => set_pc s t (PushLoop item (tail_ s))
  | PushLoop item tail =>
      let diff := i64 (sequence (cell s tail)) - i64 tail in
      if diff =? 0 then set_pc s t (PushCas item tail)
      else if diff <? 0 then set_pc s t Idle
      else set_pc s t (PushLoad item)
  | PushCas item tail =>
      if negb weak && (tail_ s =? tail) then
        set_pc (mkState (head_ s) (u64 (tail + 1)) (slots_ s) (threads s) (pushed s ++ [item]) (results s)) t (PushVal item tail)
      else set_pc s t (PushLoop item (tail_ s))
  | PushVal item tail =>
      set_pc (set_cell s tail (mkSlot (sequence (cell s tail)) item)) t (PushSeq tail)
  | PushSeq tail =>
      set_pc (set_cell s tail (mkSlot (u64 (tail + 1)) (value (cell s tail)))) t Idle
  | PopLoad => set_pc s t (PopLoop (head_ s))
  | PopLoop head =>
      let diff := i64 (sequence (cell s head)) - i64 (u64 (head + 1)) in
      if diff =? 0 then set_pc s t (PopCas head)
      else if diff <? 0 then set_pc s t Idle
      else set_pc s t PopLoad
  | PopCas head =>
      if negb weak && (head_ s =? head) then
        set_pc (mkState (u64 (head + 1)) (tail_ s) (slots_ s) (threads s) (pushed s) (results s)) t (PopVal head)
      else set_pc s t (PopLoop (head_ s))
  | PopVal head => set_pc s t (PopSeq head (value (cell s head)))
  | PopSeq head out =>
      let s := set_cell s head (mkSlot (u64 (head + Capacity)) (value (cell s head))) in
      set_pc (mkState (head_ s) (tail_ s) (slots_ s) (threads s) (pushed s) (results s ++ [(head, out)])) t Idle
  end.

(** [empty] and [size], evaluated on one snapshot. *)
Definition empty (s : State) : bool := tail_ s <=? head_ s.
Definition size (s : State) : Z := u64 (tail_ s - head_ s).

Inductive step (s : State) : State -> Prop :=
| step_push t item : threads s t = Idle -> step s (set_pc s t (PushLoad item))
| step_pop t : threads s t = Idle -> step s (set_pc s t PopLoad)
| step_run t weak : step s (tstep s t weak).

Inductive Reach : State -> Prop :=
| reach_init : Reach init
| reach_step s s' : Reach s -> step s s' -> Reach s'.

(** The same machine on positions that never wrap, for the proof: the two
    agree until a position reaches 2^63 (see [tstep_unwrapped]). *)
Definition tstep_z (s : State) (t : nat) (weak : bool) : State :=
  match threads s t with
  | Idle => s
  | PushLoad item => set_pc s t (PushLoop item (tail_ s))
  | PushLoop item tail =>
      let diff := sequence (slot s tail) - tail in
      if diff =? 0 then set_pc s t (PushCas item tail)
      else if diff <? 0 then set_pc s t Idle
      else set_pc s t (PushLoad item)
  | PushCas item tail =>
      if negb weak && (tail_ s =? tail) then
        set_pc (mkState (head_ s) (tail + 1) (slots_ s) (threads s) (pushed s ++ [item]) (results s)) t (PushVal item tail)
      else set_pc s t (PushLoop item (tail_ s))
  | PushVal item tail =>
      set_pc (set_slot s tail (mkSlot (sequence (slot s tail)) item)) t (PushSeq tail)
  | PushSeq tail =>
      set_pc (set_slot s tail (mkSlot (tail + 1) (value (slot s tail)))) t Idle
  | PopLoad => set_pc s t (PopLoop (head_ s))
  | PopLoop head =>
      let diff := sequence (slot s head) - (head + 1) in
      if diff =? 0 then set_pc s t (PopCas head)
      else if diff <? 0 then set_pc s t Idle
      else set_pc s t PopLoad
  | PopCas head =>
      if negb weak && (head_ s =? head) then
        set_pc (mkState (head + 1) (tail_ s) (slots_ s) (threads s) (pushed s) (results s)) t (PopVal head)
      else set_pc s t (PopLoop (head_ s))
  | PopVal head => set_pc s t (PopSeq head (value (slot s head)))
  | PopSeq head out =>
      let s := set_slot s head (mkSlot (head + Capacity) (value (slot s head))) in
      set_pc (mkState (head_ s) (tail_ s) (slots_ s) (threads s) (pushed s) (results s ++ [(head, out)])) t Idle
  end.

Inductive step_z (s : State) : State -> Prop :=
| step_push_z t item : threads s t = Idle -> step_z s (set_pc s t (PushLoad item))
| step_pop_z t : threads s t = Idle -> step_z s (set_pc s t PopLoad)
| step_run_z t weak : step_z s (tstep_z s t weak).

Inductive Reach_z : State -> Prop :=
| reach_init_z : Reach_z init
| reach_step_z s s' : Reach_z s -> step_z s s' -> Reach_z s'.

(** ** Invariant *)

(** The position a thread has claimed for pushing, or for popping. *)
Definition pushing (pc : PC) : option Z :=
  match pc with PushVal _ p | PushSeq p => Some p | _ => None end.
Definition popping (pc : PC) : option Z :=
  match pc with PopVal p | PopSeq p _ => Some p | _ => None end.

(** What a slot is for: the push of a position, or the pop of one. *)
Inductive Use := Free (p : Z) | Full (p : Z).
Definition use_pos (u : Use) : Z := match u with Free p | Full p => p end.
Definition use_seq (u : Use) : Z := match u with Free p => p | Full p => p + 1 end.

Definition use_ok (s : State) (i : Z) (u : Use) : Prop :=
  0 <= use_pos u /\ use_pos u mod Capacity = i /\ sequence (slots_ s i) = use_seq u /\
  match u with
  | Free p => (tail_ s <= p /\ p - Capacity < head_ s) \/ exists t, pushing (threads s t) = Some p
  | Full p => p < tail_ s /\ pushed s !! Z.to_nat p = Some (value (slots_ s i)) /\
      (head_ s <= p \/ exists t, popping (threads s t) = Some p)
  end.

(** What a thread relies on. *)
Definition pc_ok (s : State) (pc : PC) : Prop :=
  match pc with
  | PushLoop _ p => 0 <= p
  | PushCas _ p => 0 <= p <= sequence (slot s p)
  | PushVal item p => head_ s <= p < tail_ s /\ 0 <= p /\ sequence (slot s p) = p /\ pushed s !! Z.to_nat p = Some item
  | PushSeq p => head_ s <= p < tail_ s /\ 0 <= p /\ sequence (slot s p) = p /\
      pushed s !! Z.to_nat p = Some (value (slot s p))
  | PopLoop p => 0 <= p
  | PopCas p => 0 <= p < sequence (slot s p)
  | PopVal p => 0 <= p < head_ s /\ tail_ s <= p + Capacity /\ sequence (slot s p) = p + 1 /\
      pushed s !! Z.to_nat p = Some (value (slot s p))
  | PopSeq p out => 0 <= p < head_ s /\ tail_ s <= p + Capacity /\ sequence (slot s p) = p + 1 /\
      pushed s !! Z.to_nat p = Some out
  | _ => True
  end.

Record Inv (s : State) : Prop := {
  i_range : 0 <= head_ s <= tail_ s /\ tail_ s <= head_ s + Capacity;
  i_pushed : Z.of_nat (length (pushed s)) = tail_ s;
  i_use : forall i, 0 <= i < Capacity -> exists u, use_ok s i u;
  i_pc : forall t, pc_ok s (threads s t);
  i_push_uniq : forall t1 t2 p, pushing (threads s t1) = Some p -> pushing (threads s t2) = Some p -> t1 = t2;
  i_pop_uniq : forall t1 t2 p, popping (threads s t1) = Some p -> popping (threads s t2) = Some p -> t1 = t2;
  i_res : forall p v, (p, v) ∈ results s -> 0 <= p < head_ s /\ pushed s !! Z.to_nat p = Some v /\
            forall t, popping (threads s t) <> Some p;
  i_res_nodup : NoDup (results s).*1
}.

Context (HC : 2 <= Capacity).

Lemma mpmc_Inv_init : Inv init.
Proof.
  split; cbn; try done; try lia.
  - intros i Hi. exists (Free i). unfold use_ok. cbn. rewrite Z.mod_small by lia.
    do 3 (split; [done || lia|]). left. lia.
  - intros p v H. by apply not_elem_of_nil in H.
  - constructor.
Qed.

Lemma fupd_eq {B} `{EqDecision A} (f : A -> B) a b : fupd f a b a = b.
Proof. unfold fupd. by rewrite decide_True. Qed.

Lemma fupd_ne {B} `{EqDecision A} (f : A -> B) a b x : x <> a -> fupd f a b x = f x.
Proof. intros. unfold fupd. by rewrite decide_False. Qed.

Lemma mod_range p : 0 <= p mod Capacity < Capacity.
Proof. apply Z.mod_pos_bound. lia. Qed.

(** Two positions of the same slot are equal or a capacity apart. *)
Lemma same_slot p q : p mod Capacity = q mod Capacity -> p < q + Capacity -> q < p + Capacity -> p = q.
Proof.
  intros E H1 H2. pose proof (Z.div_mod p Capacity). pose proof (Z.div_mod q Capacity).
  assert (p / Capacity = q / Capacity) by nia. lia.
Qed.

Lemma slot_set s p x q : slot (set_slot s p x) q = if decide (q mod Capacity = p mod Capacity) then x else slot s q.
Proof. done. Qed.

Lemma off_by_one p q : p mod Capacity = q mod Capacity -> p <> q + 1.
Proof. intros E ->. assert (q + 1 = q); [|lia]. apply same_slot; [done|lia|lia]. Qed.

Section Facts.
Context (s : State) (HI : Inv s).

Lemma use_free i u p : use_ok s i u -> sequence (slots_ s i) = p -> p mod Capacity = i -> u = Free p.
Proof.
  intros (_ & Hm & Hs & _) E Hp. destruct u as [q|q]; cbn in *; [by f_equal; lia|].
  exfalso. apply (off_by_one p q); [congruence|lia].
Qed.

Lemma use_full i u p : use_ok s i u -> sequence (slots_ s i) = p + 1 -> p mod Capacity = i -> u = Full p.
Proof.
  intros (_ & Hm & Hs & _) E Hp. destruct u as [q|q]; cbn in *; [|by f_equal; lia].
  exfalso. apply (off_by_one q p); [congruence|lia].
Qed.

Lemma pushing_ok t p : pushing (threads s t) = Some p -> head_ s <= p < tail_ s /\ sequence (slot s p) = p.
Proof.
  pose proof (i_pc _ HI t) as H. destruct (threads s t); try done; cbn in *; intros [= <-]; naive_solver.
Qed.

Lemma popping_ok t p : popping (threads s t) = Some p -> 0 <= p < head_ s /\ sequence (slot s p) = p + 1.
Proof.
  pose proof (i_pc _ HI t) as H. destruct (threads s t); try done; cbn in *; intros [= <-]; naive_solver.
Qed.

(** The slot at [tail] with a large enough sequence number is free. *)
Lemma slot_free p : tail_ s = p -> p <= sequence (slot s p) -> use_ok s (p mod Capacity) (Free p) /\ p - Capacity < head_ s.
Proof.
  intros Ht Hle. destruct (i_range _ HI) as [H1 H2]. destruct (i_use _ HI (p mod Capacity)) as [u Hu]; [apply mod_range|].
  pose proof Hu as (H0 & Hm & Hs & Hc). unfold slot in Hle. rewrite Hs in Hle. destruct u as [q|q]; cbn in *.
  - destruct Hc as [[Hq1 Hq2]|[t Hpt]].
    + assert (q = p) as -> by (apply same_slot; [done|lia|lia]). split; [done|lia].
    + apply pushing_ok in Hpt as [? _]. lia.
  - destruct Hc as [Hq _]. assert (q <> p - 1) by (intros ->; apply (off_by_one p (p - 1)); [done|lia]). lia.
Qed.

(** The slot at [head] with a large enough sequence number is full. *)
Lemma slot_full p : head_ s = p -> p < sequence (slot s p) -> use_ok s (p mod Capacity) (Full p) /\ p < tail_ s.
Proof.
  intros Hh Hlt. destruct (i_range _ HI) as [H1 H2]. destruct (i_use _ HI (p mod Capacity)) as [u Hu]; [apply mod_range|].
  pose proof Hu as (H0 & Hm & Hs & Hc). unfold slot in Hlt. rewrite Hs in Hlt. destruct u as [q|q]; cbn in *.
  - exfalso. destruct Hc as [[Hq1 Hq2]|[t Hpt]].
    + assert (q = p); [|lia]. apply same_slot; [done|lia|lia].
    + apply pushing_ok in Hpt as [? _]. assert (q = p); [|lia]. apply same_slot; [done|lia|lia].
  - destruct Hc as (Hq & _ & Hv). assert (q = p) as ->; [|by split]. apply same_slot; [done|lia|lia].
Qed.

(** Steps that claim and release nothing. *)
Lemma Inv_set_pc t pc : pushing pc = pushing (threads s t) -> popping pc = popping (threads s t) ->
  pc_ok s pc -> Inv (set_pc s t pc).
Proof.
  intros Hp1 Hp2 Hok. destruct HI as [H1 H2 H3 H4 H5 H6 H7 H8].
  assert (E1 : forall x, pushing (threads (set_pc s t pc) x) = pushing (threads s x)).
  { intros x. cbn. unfold fupd. case_decide; by subst. }
  assert (E2 : forall x, popping (threads (set_pc s t pc) x) = popping (threads s x)).
  { intros x. cbn. unfold fupd. case_decide; by subst. }
  split; try done.
  - intros i Hi. destruct (H3 i Hi) as [u Hu]. exists u. unfold use_ok in *.
    destruct Hu as (? & ? & ? & Hc). do 3 (split; [done|]).
    destruct u; [setoid_rewrite E1|setoid_rewrite E2]; done.
  - intros x. cbn. unfold fupd. case_decide; [done|apply H4].
  - intros t1 t2 p. rewrite !E1. apply H5.
  - intros t1 t2 p. rewrite !E2. apply H6.
  - intros p v Hr. destruct (H7 p v Hr) as (? & ? & H). do 2 (split; [done|]). intros x. by rewrite E2.
Qed.

End Facts.

Lemma lookup_snoc_old (l : list Value) x k v : l !! k = Some v -> (l ++ [x]) !! k = Some v.
Proof. apply lookup_app_l_Some. Qed.

(** A push claims the position [tail]. *)
Lemma Inv_claim_push s t item p : Inv s -> threads s t = PushCas item p -> tail_ s = p ->
  Inv (set_pc (mkState (head_ s) (p + 1) (slots_ s) (threads s) (pushed s ++ [item]) (results s)) t (PushVal item p)).
Proof.
  intros HI Et Ht. pose proof (i_pc _ HI t) as Hpc. rewrite Et in Hpc. cbn in Hpc.
  destruct (slot_free s HI p Ht) as [Hf Hh]; [lia|]. pose proof Hf as (_ & _ & Hseq & _). cbn in Hseq.
  pose proof HI as [H1 H2 H3 H4 H5 H6 H7 H8].
  assert (Hold : forall x, x <> t -> fupd (threads s) t (PushVal item p) x = threads s x) by (intros; by apply fupd_ne).
  assert (Hlook : forall q v, pushed s !! Z.to_nat q = Some v -> (pushed s ++ [item]) !! Z.to_nat q = Some v)
    by (intros; by apply lookup_snoc_old).
  split; cbn [head_ tail_ slots_ threads pushed results set_pc].
  - lia.
  - rewrite length_app. cbn. lia.
  - intros i Hi. destruct (decide (i = p mod Capacity)) as [->|Hne].
    + exists (Free p). destruct Hf as (? & ? & ? & _). do 3 (split; [done|]). right. exists t. cbn. by rewrite fupd_eq.
    + destruct (H3 i Hi) as [u (Hu0 & Hu1 & Hu2 & Hu)]. exists u. do 3 (split; [done|]).
      assert (Hup : use_pos u <> p) by congruence. destruct u as [q|q]; cbn in *.
      * destruct Hu as [Hu|[t' Ht']]; [left; lia|]. right. exists t'. rewrite Hold; [done|]. intros ->. by rewrite Et in Ht'.
      * destruct Hu as (Hq & Hv & Hw). split; [lia|]. split; [by apply Hlook|].
        destruct Hw as [|[t' Ht']]; [by left|]. right. exists t'. rewrite Hold; [done|]. intros ->. by rewrite Et in Ht'.
  - intros x. destruct (decide (x = t)) as [->|Hx].
    + rewrite fupd_eq. cbn. split; [lia|]. split; [lia|]. split; [done|].
      replace (Z.to_nat p) with (length (pushed s)) by lia. by rewrite list_lookup_middle.
    + rewrite Hold by done. pose proof (H4 x) as Hx4. destruct (threads s x); cbn in *; try done; unfold slot in *; cbn;
        try (destruct Hx4 as (? & ? & ? & ?); split_and!; auto; lia).
      * destruct Hx4 as (? & ? & Es & ?). split_and!; auto; try lia.
        destruct (Z.eq_dec (tail_ s) (head + Capacity)); [|lia].
        assert (p mod Capacity = head mod Capacity) as Em
          by (replace p with (head + 1 * Capacity) by lia; apply Z.mod_add; lia).
        rewrite Em in Hseq. lia.
      * destruct Hx4 as (? & ? & Es & ?). split_and!; auto; try lia.
        destruct (Z.eq_dec (tail_ s) (head + Capacity)); [|lia].
        assert (p mod Capacity = head mod Capacity) as Em
          by (replace p with (head + 1 * Capacity) by lia; apply Z.mod_add; lia).
        rewrite Em in Hseq. lia.
  - intros t1 t2 q. destruct (decide (t1 = t)) as [->|Hn1], (decide (t2 = t)) as [->|Hn2];
      rewrite ?fupd_eq, ?Hold by done; [done| | |apply H5]; cbn.
    + intros [= <-] Hq. apply (pushing_ok s HI) in Hq as [? _]. lia.
    + intros Hq [= <-]. apply (pushing_ok s HI) in Hq as [? _]. lia.
  - intros t1 t2 q. destruct (decide (t1 = t)) as [->|Hn1], (decide (t2 = t)) as [->|Hn2];
      rewrite ?fupd_eq, ?Hold by done; try done. apply H6.
  - intros q v Hr. destruct (H7 q v Hr) as (? & ? & Hnp). split; [done|]. split; [by apply Hlook|].
    intros x. destruct (decide (x = t)) as [->|Hx]; [by rewrite fupd_eq|]. rewrite Hold by done. apply Hnp.
  - done.
Qed.

(** A pop claims the position [head]. *)
Lemma Inv_claim_pop s t p : Inv s -> threads s t = PopCas p -> head_ s = p ->
  Inv (set_pc (mkState (p + 1) (tail_ s) (slots_ s) (threads s) (pushed s) (results s)) t (PopVal p)).
Proof.
  intros HI Et Hh. pose proof (i_pc _ HI t) as Hpc. rewrite Et in Hpc. cbn in Hpc.
  destruct (slot_full s HI p Hh) as [Hf Hlt]; [lia|]. pose proof Hf as (_ & _ & Hseq & _ & Hval & _). cbn in Hseq.
  pose proof HI as [H1 H2 H3 H4 H5 H6 H7 H8].
  assert (Hold : forall x, x <> t -> fupd (threads s) t (PopVal p) x = threads s x) by (intros; by apply fupd_ne).
  split; cbn [head_ tail_ slots_ threads pushed results set_pc]; try done; try lia.
  - intros i Hi. destruct (decide (i = p mod Capacity)) as [->|Hne].
    + exists (Full p). destruct Hf as (? & ? & ? & ? & ? & _). do 5 (split; [done|]). right. exists t. cbn. by rewrite fupd_eq.
    + destruct (H3 i Hi) as [u (Hu0 & Hu1 & Hu2 & Hu)]. exists u. do 3 (split; [done|]).
      assert (Hup : use_pos u <> p) by congruence. destruct u as [q|q]; cbn in *.
      * destruct Hu as [Hu|[t' Ht']]; [left; lia|]. right. exists t'. rewrite Hold; [done|]. intros ->. by rewrite Et in Ht'.
      * destruct Hu as (Hq & Hv & Hw). do 2 (split; [done|]).
        destruct Hw as [|[t' Ht']]; [left; lia|]. right. exists t'. rewrite Hold; [done|]. intros ->. by rewrite Et in Ht'.
  - intros x. destruct (decide (x = t)) as [->|Hx].
    + rewrite fupd_eq. cbn. split_and!; try lia; try done.
    + rewrite Hold by done. pose proof (H4 x) as Hx4. destruct (threads s x); cbn in *; try done; unfold slot in *; cbn;
        destruct Hx4 as (? & ? & Es & ?); split_and!; auto; try lia.
      all: destruct (Z.eq_dec (head_ s) tail) as [E|]; [|lia]; rewrite <- E, Hh in Es; lia.
  - intros t1 t2 q. destruct (decide (t1 = t)) as [->|Hn1], (decide (t2 = t)) as [->|Hn2];
      rewrite ?fupd_eq, ?Hold by done; try done. apply H5.
  - intros t1 t2 q. destruct (decide (t1 = t)) as [->|Hn1], (decide (t2 = t)) as [->|Hn2];
      rewrite ?fupd_eq, ?Hold by done; [done| | |apply H6]; cbn.
    + intros [= <-] Hq. apply (popping_ok s HI) in Hq as [? _]. lia.
    + intros Hq [= <-]. apply (popping_ok s HI) in Hq as [? _]. lia.
  - intros q v Hr. destruct (H7 q v Hr) as (? & ? & Hnp). split; [lia|]. split; [done|].
    intros x. destruct (decide (x = t)) as [->|Hx]; [rewrite fupd_eq; cbn; intros [= <-]; lia|]. rewrite Hold by done. apply Hnp.
Qed.

(** Accesses to a claimed slot, described by what they make of it: [x] is
    the new slot of [p], [u] its use. *)
Lemma use_other s t pc p x u i q : use_ok s i u -> i <> p mod Capacity ->
  (pushing (threads s t) = Some q \/ popping (threads s t) = Some q) -> q = p ->
  use_ok (set_pc (set_slot s p x) t pc) i u.
Proof.
  intros (Hu0 & Hu1 & Hu2 & Hu) Hne Hq ->. split; [done|]. split; [done|].
  cbn [set_pc set_slot slots_]. rewrite fupd_ne by done. split; [done|].
  assert (Hup : use_pos u <> p) by congruence.
  assert (Ho : forall t' q', q' <> p -> pushing (threads s t') = Some q' \/ popping (threads s t') = Some q' -> t' <> t).
  { intros t' q' Hq' H ->. destruct (threads s t); cbn in *; naive_solver. }
  destruct u as [r|r]; cbn in *.
  - destruct Hu as [Hu|[t' Ht']]; [by left|]. right. exists t'. rewrite fupd_ne; [done|]. apply (Ho t' r); auto.
  - destruct Hu as (Hr & Hv & Hw). do 2 (split; [done|]). destruct Hw as [|[t' Ht']]; [by left|]. right. exists t'.
    rewrite fupd_ne; [done|]. apply (Ho t' r); auto.
Qed.

(** The other threads are not disturbed by an access to a slot that is
    claimed by [t]: the sequence number only grows, and nobody else has
    claimed the slot. *)
Lemma pc_other s t pc p x t' : Inv s -> t' <> t ->
  (pushing (threads s t) = Some p \/ popping (threads s t) = Some p) ->
  sequence (slot s p) <= sequence x -> pc_ok (set_pc (set_slot s p x) t pc) (threads s t').
Proof.
  intros HI Hne Hq Hle. pose proof (i_pc _ HI t') as Hok.
  assert (Hsl : forall r, pushing (threads s t') = Some r \/ popping (threads s t') = Some r ->
    slot (set_pc (set_slot s p x) t pc) r = slot s r).
  { intros r Hr. change (slot (set_pc (set_slot s p x) t pc) r) with (slot (set_slot s p x) r). rewrite slot_set.
    case_decide as Em; [exfalso|done].
    assert (Es : slot s r = slot s p) by (unfold slot; by rewrite Em).
    destruct Hq as [Hq|Hq], Hr as [Hr|Hr].
    - destruct (pushing_ok s HI _ _ Hq) as [_ E1], (pushing_ok s HI _ _ Hr) as [_ E2]. assert (r = p) as -> by congruence.
      apply Hne. by eapply (i_push_uniq _ HI).
    - destruct (pushing_ok s HI _ _ Hq) as [_ E1], (popping_ok s HI _ _ Hr) as [_ E2]. rewrite Es in E2.
      apply (off_by_one p r); [done|lia].
    - destruct (popping_ok s HI _ _ Hq) as [_ E1], (pushing_ok s HI _ _ Hr) as [_ E2]. rewrite Es in E2.
      apply (off_by_one r p); [done|lia].
    - destruct (popping_ok s HI _ _ Hq) as [_ E1], (popping_ok s HI _ _ Hr) as [_ E2]. rewrite Es in E2.
      assert (r = p) as -> by lia. apply Hne. by eapply (i_pop_uniq _ HI). }
  assert (Hm : forall r, sequence (slot s r) <= sequence (slot (set_pc (set_slot s p x) t pc) r)).
  { intros r. change (slot (set_pc (set_slot s p x) t pc) r) with (slot (set_slot s p x) r). rewrite slot_set.
    case_decide as Em; [|done]. assert (slot s r = slot s p) as -> by (unfold slot; by rewrite Em). done. }
  destruct (threads s t') as [|?|? ?|? r|? r|r| |r|r|r|r ?]; try done; cbn [pc_ok] in *; try done.
  - pose proof (Hm r). lia.
  - rewrite Hsl; [done|by left].
  - rewrite Hsl; [done|by left].
  - pose proof (Hm r). lia.
  - rewrite Hsl; [done|by right].
  - rewrite Hsl; [done|by right].
Qed.

(** The writer of a claimed slot stores the item. *)
Lemma Inv_store_item s t item p : Inv s -> threads s t = PushVal item p ->
  Inv (set_pc (set_slot s p (mkSlot (sequence (slot s p)) item)) t (PushSeq p)).
Proof.
  intros HI Et. pose proof (i_pc _ HI t) as Hpc. rewrite Et in Hpc. destruct Hpc as (Hr & H0 & Hs & Hl).
  assert (Hq : pushing (threads s t) = Some p \/ popping (threads s t) = Some p) by (rewrite Et; by left).
  pose proof HI as [H1 H2 H3 H4 H5 H6 H7 H8].
  assert (E1 : forall y, pushing (fupd (threads s) t (PushSeq p) y) = pushing (threads s y)).
  { intros y. unfold fupd. case_decide; subst; [by rewrite Et|done]. }
  assert (E2 : forall y, popping (fupd (threads s) t (PushSeq p) y) = popping (threads s y)).
  { intros y. unfold fupd. case_decide; subst; [by rewrite Et|done]. }
  split; try done.
  - intros i Hi. destruct (H3 i Hi) as [u Hu]. destruct (decide (i = p mod Capacity)) as [->|Hne].
    + exists (Free p). pose proof Hu as (Hu0 & Hu1 & Hu2 & Hu3).
      assert (u = Free p) as -> by (eapply (use_free s); eauto). split; [done|]. split; [done|].
      cbn [set_pc set_slot slots_]. rewrite fupd_eq. split; [done|]. right. exists t. cbn. by rewrite fupd_eq.
    + exists u. by eapply use_other.
  - intros y. destruct (decide (y = t)) as [->|Hy].
    + cbn. rewrite fupd_eq. cbn. unfold slot. cbn. rewrite fupd_eq. split; [done|split; [done|split; [exact Hs|exact Hl]]].
    + cbn [set_pc set_slot threads]. rewrite fupd_ne by done. by apply pc_other.
  - intros t1 t2 q. cbn. rewrite !E1. apply H5.
  - intros t1 t2 q. cbn. rewrite !E2. apply H6.
  - intros q v Hv. destruct (H7 q v Hv) as (? & ? & Hn). do 2 (split; [done|]). intros y. cbn. by rewrite E2.
Qed.

(** The writer releases the slot to the readers. *)
Lemma Inv_release_push s t p : Inv s -> threads s t = PushSeq p ->
  Inv (set_pc (set_slot s p (mkSlot (p + 1) (value (slot s p)))) t Idle).
Proof.
  intros HI Et. pose proof (i_pc _ HI t) as Hpc. rewrite Et in Hpc. destruct Hpc as (Hr & H0 & Hs & Hl).
  assert (Hq : pushing (threads s t) = Some p \/ popping (threads s t) = Some p) by (rewrite Et; by left).
  pose proof HI as [H1 H2 H3 H4 H5 H6 H7 H8]. 
  split; try done.
  - intros i Hi. destruct (H3 i Hi) as [u Hu]. destruct (decide (i = p mod Capacity)) as [->|Hne].
    + exists (Full p). split; [done|]. split; [done|]. cbn [set_pc set_slot slots_]. rewrite fupd_eq. cbn.
      split; [done|]. split; [lia|]. split; [done|]. left. lia.
    + exists u. by eapply use_other.
  - intros y. destruct (decide (y = t)) as [->|Hy].
    + cbn. by rewrite fupd_eq.
    + cbn [set_pc set_slot threads]. rewrite fupd_ne by done. apply pc_other; try done. cbn. lia.
  - intros t1 t2 q. cbn. unfold fupd. repeat case_decide; try done. apply H5.
  - intros t1 t2 q. cbn. unfold fupd. repeat case_decide; try done. apply H6.
  - intros q v Hv. destruct (H7 q v Hv) as (? & ? & Hn). do 2 (split; [done|]). intros y. cbn. unfold fupd.
    case_decide; [done|]. apply Hn.
Qed.

(** The reader releases the slot to the writers of the next round. *)
Lemma Inv_release_pop s t p out : Inv s -> threads s t = PopSeq p out ->
  Inv (set_pc (mkState (head_ s) (tail_ s) (slots_ (set_slot s p (mkSlot (p + Capacity) (value (slot s p)))))
        (threads s) (pushed s) (results s ++ [(p, out)])) t Idle).
Proof.
  intros HI Et. pose proof (i_pc _ HI t) as Hpc. rewrite Et in Hpc. destruct Hpc as (Hr & H0 & Hs & Hl).
  assert (Hq : pushing (threads s t) = Some p \/ popping (threads s t) = Some p) by (rewrite Et; by right).
  pose proof HI as [H1 H2 H3 H4 H5 H6 H7 H8].
  set (x := mkSlot (p + Capacity) (value (slot s p))).
  split; try done.
  - intros i Hi. destruct (H3 i Hi) as [u Hu]. destruct (decide (i = p mod Capacity)) as [->|Hne].
    + exists (Free (p + Capacity)). split; [cbn; lia|]. split.
      { cbn. replace (p + Capacity) with (p + 1 * Capacity) by lia. apply Z.mod_add. lia. }
      cbn [set_pc set_slot slots_]. rewrite fupd_eq. cbn. split; [done|]. left. lia.
    + exists u. exact (use_other s t Idle p x u i p Hu Hne Hq eq_refl).
  - intros y. destruct (decide (y = t)) as [->|Hy].
    + cbn. by rewrite fupd_eq.
    + cbn [set_pc threads]. rewrite fupd_ne by done.
      pose proof (pc_other s t Idle p x y HI Hy Hq) as Hok. unfold x in Hok at 1. cbn [sequence] in Hok.
      specialize (Hok ltac:(lia)). by destruct (threads s y).
  - intros t1 t2 q. cbn. unfold fupd. repeat case_decide; try done. apply H5.
  - intros t1 t2 q. cbn. unfold fupd. repeat case_decide; try done. apply H6.
  - intros q v. cbn. rewrite elem_of_app, list_elem_of_singleton. intros [Hv|[= -> ->]].
    + destruct (H7 q v Hv) as (? & ? & Hn). do 2 (split; [done|]). intros y. unfold fupd. case_decide; [done|]. apply Hn.
    + split; [done|]. split; [done|]. intros y. unfold fupd. case_decide as Hy; [done|]. intros Hp. apply Hy.
      eapply H6; [exact Hp|]. by rewrite Et.
  - cbn. rewrite fmap_app. apply NoDup_app. split; [done|]. split; [|apply NoDup_singleton].
    intros q Hq1 Hq2. apply list_elem_of_singleton in Hq2 as ->. apply list_elem_of_fmap in Hq1 as ([r v] & Er & Hin).
    cbn in Er. subst r. destruct (H7 _ _ Hin) as (_ & _ & Hn). apply (Hn t). by rewrite Et.
Qed.

Lemma mpmc_Inv_step s s' : Inv s -> step_z s s' -> Inv s'.
Proof.
  intros HI [t item E|t E|t weak].
  - apply Inv_set_pc; [done|by rewrite E|by rewrite E|done].
  - apply Inv_set_pc; [done|by rewrite E|by rewrite E|done].
  - pose proof (i_pc _ HI t) as Hpc. pose proof (i_range _ HI) as [H1 H2]. unfold tstep_z.
    destruct (threads s t) as [|?|? p|? p|? p|p| |p|p|p|p ?] eqn:Et; cbn in Hpc; try done.
    + apply Inv_set_pc; rewrite ?Et; try done. cbn. lia.
    + destruct (Z.eqb_spec (sequence (slot s p) - p) 0); [|destruct (_ <? 0)]; apply Inv_set_pc; rewrite ?Et; try done. cbn. lia.
    + destruct (negb weak && (tail_ s =? p)) eqn:Ec.
      * bool_to_prop. by apply Inv_claim_push.
      * apply Inv_set_pc; rewrite ?Et; try done. cbn. lia.
    + by apply Inv_store_item.
    + by apply Inv_release_push.
    + apply Inv_set_pc; rewrite ?Et; try done. cbn. lia.
    + destruct (Z.eqb_spec (sequence (slot s p) - (p + 1)) 0); [|destruct (_ <? 0)]; apply Inv_set_pc; rewrite ?Et; try done. cbn. lia.
    + destruct (negb weak && (head_ s =? p)) eqn:Ec.
      * bool_to_prop. by apply Inv_claim_pop.
      * apply Inv_set_pc; rewrite ?Et; try done. cbn. lia.
    + apply Inv_set_pc; rewrite ?Et; try done.
    + exact (Inv_release_pop s t p _ HI Et).
Qed.

Lemma mpmc_Reach_inv s : Reach_z s -> Inv s.
Proof. induction 1; eauto using mpmc_Inv_init, mpmc_Inv_step. Qed.

(** ** The positions do not wrap *)

(** The positions the loops have loaded. *)
Definition Loaded (s : State) : Prop := forall t,
  match threads s t with PushLoop _ p | PopLoop p => p <= tail_ s | _ => True end.

Lemma Loaded_init : Loaded init.
Proof. by intros t. Qed.

Lemma Loaded_pc s s' t pc : Loaded s -> threads s' = fupd (threads s) t pc -> tail_ s <= tail_ s' ->
  match pc with PushLoop _ p | PopLoop p => p <= tail_ s' | _ => True end -> Loaded s'.
Proof.
  intros HL E Ht Hpc x. rewrite E. unfold fupd. case_decide; [done|]. specialize (HL x). destruct (threads s x); try done; lia.
Qed.

Lemma Loaded_step s s' : Inv s -> Loaded s -> step_z s s' -> Loaded s'.
Proof.
  intros HI HL [t item E|t E|t weak]; [by eapply Loaded_pc|by eapply Loaded_pc|].
  pose proof (i_range _ HI) as [H1 H2]. unfold tstep_z.
  destruct (threads s t) eqn:Et; cbn zeta; repeat case_match; try done; (eapply Loaded_pc; [done|cbn; reflexivity|..]);
    cbn in *; bool_to_prop; try done; try lia.
Qed.

Lemma seq_range s i : Inv s -> 0 <= i < Capacity -> 0 <= sequence (slots_ s i) <= tail_ s + Capacity.
Proof.
  intros HI Hi. destruct (i_use _ HI i Hi) as (u & H0 & _ & -> & Hu). pose proof (i_range _ HI).
  destruct u as [p|p]; cbn in *; [|lia]. destruct Hu as [|[t Ht]]; [lia|]. apply (pushing_ok s HI) in Ht as [? _]. lia.
Qed.

Lemma i64_small x : 0 <= x < 2 ^ 63 -> i64 x = x.
Proof. intros H. unfold i64. rewrite u64_small by lia. destruct (Z.ltb_spec x (2 ^ 63)); lia. Qed.

Context (k : Z) (Hk : 0 <= k) (Hpow : Capacity = 2 ^ k).

Lemma index_eq p : Z.land p mask_ = p mod Capacity.
Proof. unfold mask_. rewrite Hpow, Z.sub_1_r, <- Z.ones_equiv. by apply Z.land_ones. Qed.

Lemma cell_eq s p : cell s p = slot s p.
Proof. unfold cell, slot. by rewrite index_eq. Qed.

Lemma set_cell_eq s p x : set_cell s p x = set_slot s p x.
Proof. unfold set_cell, set_slot. by rewrite index_eq. Qed.

(** While positions are below 2^63 the two machines take the same steps. *)
Lemma tstep_unwrapped s t weak : Inv s -> Loaded s -> tail_ s + Capacity < 2 ^ 63 -> tstep s t weak = tstep_z s t weak.
Proof.
  intros HI HL Hb. pose proof (i_range _ HI) as [H1 H2]. pose proof (i_pc _ HI t) as Hpc. specialize (HL t).
  assert (Hseq : forall p, 0 <= sequence (slot s p) <= tail_ s + Capacity) by (intros p; apply seq_range, mod_range; done).
  unfold tstep, tstep_z. destruct (threads s t) as [|?|? p|? p|? p|p| |p|p|p|p ?]; cbn in Hpc; rewrite ?cell_eq, ?set_cell_eq;
    try done.
  - pose proof (Hseq p). by rewrite !i64_small by lia.
  - destruct (negb weak && (tail_ s =? p)) eqn:E; [|done]. bool_to_prop. by rewrite u64_small by lia.
  - by rewrite u64_small by lia.
  - pose proof (Hseq p). by rewrite u64_small, !i64_small by lia.
  - destruct (negb weak && (head_ s =? p)) eqn:E; [|done]. bool_to_prop. by rewrite u64_small by lia.
  - by rewrite u64_small by lia.
Qed.

Lemma pushed_grows s s' : step s s' -> (length (pushed s) <= length (pushed s'))%nat.
Proof.
  intros [t item E|t E|t weak]; [done..|]. unfold tstep.
  destruct (threads s t); cbn zeta; repeat case_match; cbn; rewrite ?length_app; lia.
Qed.

Lemma unwrapped s : Reach s -> Z.of_nat (length (pushed s)) + Capacity < 2 ^ 63 -> Reach_z s /\ Loaded s.
Proof.
  induction 1 as [|s s' HR IH Hs]; intros Hb; [split; [constructor|apply Loaded_init]|].
  destruct IH as [HZ HL]; [pose proof (pushed_grows _ _ Hs); lia|].
  assert (HI : Inv s) by by apply mpmc_Reach_inv.
  assert (Hz : step_z s s').
  { destruct Hs as [t item E|t E|t weak]; [by constructor|by constructor|].
    rewrite tstep_unwrapped; [constructor|done|done|]. rewrite <- (i_pushed _ HI).
    pose proof (pushed_grows _ _ (step_run s t weak)). lia. }
  split; [by eapply reach_step_z|by eapply Loaded_step].
Qed.

(** C26: with any number of pushing and popping threads in any interleaving,
    as long as fewer than 2^63 - [Capacity] items have been pushed, on a queue
    whose capacity is a power of two of at least 2: a completed pop returns
    the item of the push that claimed the same position, no position is
    popped twice, two threads never hold the same position, and the queue
    never holds more positions than its capacity: no item is lost, duplicated
    or overwritten.  (On one slot, which the code's assertions admit, it is:
    [one_slot_overwrites].) *)
Theorem mpmc_pops_what_was_pushed s : Reach s -> Z.of_nat (length (pushed s)) + Capacity < 2 ^ 63 ->
  (forall p v, (p, v) ∈ results s -> 0 <= p < head_ s /\ pushed s !! Z.to_nat p = Some v) /\
  NoDup (results s).*1 /\
  (forall t p v, threads s t = PopSeq p v -> pushed s !! Z.to_nat p = Some v) /\
  (forall t1 t2 p, pushing (threads s t1) = Some p -> pushing (threads s t2) = Some p -> t1 = t2) /\
  (forall t1 t2 p, popping (threads s t1) = Some p -> popping (threads s t2) = Some p -> t1 = t2) /\
  Z.of_nat (length (pushed s)) = tail_ s /\ 0 <= size s <= Capacity.
Proof.
  intros HR Hb. apply unwrapped in HR as [HR _]; [|done]. apply mpmc_Reach_inv in HR as [H1 H2 _ H4 H5 H6 H7 H8].
  unfold size. rewrite u64_small by lia. split_and!; try done; try lia.
  - intros p v Hv. by destruct (H7 p v Hv) as (? & ? & _).
  - intros t p v E. specialize (H4 t). rewrite E in H4. by destruct H4 as (_ & _ & _ & ?).
Qed.

End Queue.

(** Two threads push and one of them pops, on a queue of two slots. *)
Definition two_pushes : State :=
  let run s t n := Nat.iter n (fun s => tstep 2 s t false) s in
  let s := set_pc (set_pc (init 0) 1 (PushLoad 7)) 2 (PushLoad 8) in
  let s := run (run (run s 1%nat 2%nat) 2%nat 5%nat) 1%nat 5%nat in
  run (set_pc s 1 PopLoad) 1%nat 5%nat.

Lemma reach_two_pushes : Reach 0 2 two_pushes.
Proof.
  assert (Hrun : forall n s t, Reach 0 2 s -> Reach 0 2 (Nat.iter n (fun s => tstep 2 s t false) s)).
  { intros n s t H. induction n as [|n IH]; [done|]. exact (reach_step 0 2 _ _ IH (step_run 2 _ t false)). }
  unfold two_pushes. apply Hrun. refine (reach_step 0 2 _ _ _ (step_pop 2 _ 1%nat _)); [do 3 apply Hrun|].
  - refine (reach_step 0 2 _ _ _ (step_push 2 _ 2%nat _ _)); [|done].
    exact (reach_step 0 2 _ _ (reach_init 0 2) (step_push 2 (init 0) 1%nat 7 eq_refl)).
  - by vm_compute.
Qed.

Lemma mpmc_pops_what_was_pushed_witness : results two_pushes = [(0, 8)] /\ pushed two_pushes !! 0%nat = Some 8.
Proof.
  split; [by vm_compute|].
  apply (proj1 (mpmc_pops_what_was_pushed 0 2 ltac:(lia) 1 ltac:(lia) eq_refl two_pushes reach_two_pushes ltac:(vm_compute; reflexivity)) 0 8).
  vm_compute. left.
Defined.

(** On one slot the number that releases a slot to the readers is the one
    that releases it to the writers: two pushes one after the other succeed,
    and the first item is gone before anybody popped it. *)
Definition two_on_one_slot : State :=
  let run s t n := Nat.iter n (fun s => tstep 1 s t false) s in
  run (set_pc (run (set_pc (init 0) 1 (PushLoad 7)) 1%nat 5%nat) 1 (PushLoad 8)) 1%nat 5%nat.

Theorem one_slot_overwrites : threads two_on_one_slot 1%nat = Idle /\ pushed two_on_one_slot = [7; 8] /\
  results two_on_one_slot = [] /\ value (cell 1 two_on_one_slot 0) = 8 /\ size two_on_one_slot = 2.
Proof. vm_compute. by split_and!. Qed.

End VyukovMPMC.
