(* ===== verification/Channel.v ===== *)
(** * Channels

    Models [BufferPool] (common/src/containers/buffer_pool.hpp) and
    [Channel] (common/src/transport/channel.hpp): framing and routing between
    a transport and a bus.  The transport is seen through its completions:
    the bytes it has read into the span it was given, and the result of a
    write.  The pool's index queue is the FIFO that [VyukovMPMC.v] shows the
    concurrent one to be. *)

From S2P Require Import Prelude SlotId Types.
From S2P Require Import SlidingBuffer Framing.

Module BufferPool.

Section Pool.
Context (BUFFER_CAPACITY POOL_SIZE : Z).

(** [indexQueue_] and [nextFreeIdx_]; the storage itself is not read back. *)
Record State := mkState { indexQueue_ : list Z; nextFreeIdx_ : Z }.

Definition init : State := mkState [] 0.

(** [acquire]: the state and the buffer's index, [None] when exhausted. *)
Definition acquire (s : State) : State * option Z :=
  match indexQueue_ s with
  | i :: q => (mkState q (nextFreeIdx_ s), Some i)
  | [] =>
      let i := nextFreeIdx_ s in
      (mkState [] (u32 (i + 1)), if POOL_SIZE <=? i then None else Some i)
  end.

(** [release]: [push] fails on a full queue, which is only logged. *)
Definition release (s : State) (i : Z) : State :=
  if Z.of_nat (length (indexQueue_ s)) <? POOL_SIZE
  then mkState (indexQueue_ s ++ [i]) (nextFreeIdx_ s) else s.

(** The offset of a buffer in the storage. *)
Definition offset (i : Z) : Z := u32 (i * BUFFER_CAPACITY).

(** [live] are the buffers in use. *)
Record Inv (s : State) (live : list Z) : Prop := {
  bp_nodup : NoDup (live ++ indexQueue_ s);
  bp_range : Forall (fun i => 0 <= i < Z.min (nextFreeIdx_ s) POOL_SIZE) (live ++ indexQueue_ s);
  bp_next : 0 <= nextFreeIdx_ s < 2 ^ 32
}.

Context (Hpool : 0 < POOL_SIZE < 2 ^ 31).

Lemma buffers_Inv_init : Inv init [].
Proof. split; cbn; [constructor|constructor|lia]. Qed.

Lemma acquire_buffer_ok s live : Inv s live -> nextFreeIdx_ s < 2 ^ 32 - 1 ->
  match acquire s with
  | (s', Some i) => Inv s' (i :: live) /\ (i ∉ live) /\ 0 <= i < POOL_SIZE
  | (s', None) => Inv s' live /\ indexQueue_ s = []
  end.
Proof.
  intros [Hn Hr Hx] Hlt. unfold acquire. destruct (indexQueue_ s) as [|i q] eqn:Eq.
  - rewrite app_nil_r in *. destruct (Z.leb_spec POOL_SIZE (nextFreeIdx_ s)).
    + split; [|done]. split; cbn; rewrite ?u32_small, ?app_nil_r by lia; [done| |lia].
      eapply Forall_impl; [exact Hr|]. cbn. lia.
    + assert (Hni : nextFreeIdx_ s ∉ live).
      { intros Hin. rewrite Forall_forall in Hr. specialize (Hr _ Hin). lia. }
      split; [|split; [done|lia]]. split; cbn; rewrite ?u32_small, ?app_nil_r by lia.
      * by constructor.
      * constructor; [lia|]. eapply Forall_impl; [exact Hr|]. cbn. lia.
      * lia.
  - assert (Hp : live ++ i :: q ≡ₚ (i :: live) ++ q) by (by rewrite <- Permutation_middle).
    rewrite Hp in Hn, Hr. split; [by split|]. apply NoDup_cons in Hn as [Hi _]. split; [set_solver|].
    apply Forall_cons in Hr as [? _]. lia.
Qed.

Lemma release_buffer_ok s l1 i l2 : Inv s (l1 ++ i :: l2) -> Inv (release s i) (l1 ++ l2).
Proof.
  intros [Hn Hr Hx]. assert (Hp : (l1 ++ i :: l2) ++ indexQueue_ s ≡ₚ (l1 ++ l2) ++ indexQueue_ s ++ [i]) by solve_Permutation.
  rewrite Hp in Hn, Hr.
  assert (Hlen : Z.of_nat (length (indexQueue_ s)) < POOL_SIZE).
  { pose proof (NoDup_range_length 0 POOL_SIZE (indexQueue_ s ++ [i])) as H. rewrite length_app in H. cbn in H.
    assert (NoDup (indexQueue_ s ++ [i])) by (by apply NoDup_app in Hn as (_ & _ & ?)).
    apply Forall_app in Hr as [_ Hr].
    assert (Forall (fun x => 0 <= x < POOL_SIZE) (indexQueue_ s ++ [i])) by (eapply Forall_impl; [exact Hr|]; cbn; lia).
    assert (Z.of_nat (length (indexQueue_ s) + 1) <= POOL_SIZE - 0) by (apply H; [lia|done|done]). lia. }
  unfold release. destruct (Z.ltb_spec (Z.of_nat (length (indexQueue_ s))) POOL_SIZE); [|lia]. by split.
Qed.

(** As long as [acquire] is never called on an exhausted pool, no buffer gets
    lost: those below [nextFreeIdx_] are in use or in the queue. *)
Record Whole (s : State) (live : list Z) : Prop := {
  bp_inv : Inv s live;
  bp_count : Z.of_nat (length (live ++ indexQueue_ s)) = nextFreeIdx_ s;
  bp_bound : nextFreeIdx_ s <= POOL_SIZE
}.

Lemma whole_init : Whole init [].
Proof. split; [apply buffers_Inv_init|done|cbn; lia]. Qed.

Lemma whole_acquire s live : Whole s live -> Z.of_nat (length live) < POOL_SIZE ->
  exists s' i, acquire s = (s', Some i) /\ Whole s' (i :: live).
Proof.
  intros [HI Hc Hb] Hlt. pose proof (acquire_buffer_ok s live HI ltac:(lia)) as HA. unfold acquire in *.
  destruct (indexQueue_ s) as [|i q] eqn:Eq.
  - rewrite app_nil_r in Hc. destruct (Z.leb_spec POOL_SIZE (nextFreeIdx_ s)); [lia|]. destruct HA as (HA & _ & _).
    eexists _, _. split; [reflexivity|]. split; [exact HA| |]; cbn; rewrite ?app_nil_r, u32_small by lia; lia.
  - destruct HA as (HA & _ & _). eexists _, _. split; [reflexivity|]. split; [exact HA| |exact Hb]. cbn.
    rewrite length_app in *. cbn in Hc. lia.
Qed.

Lemma whole_perm s live live' : live ≡ₚ live' -> Whole s live -> Whole s live'.
Proof. intros H [[H1 H2 H3] Hc Hb]. split; [split|..]; by rewrite <- ?H. Qed.

Lemma whole_release s l1 i l2 : Whole s (l1 ++ i :: l2) -> Whole (release s i) (l1 ++ l2).
Proof.
  intros [HI Hc Hb]. pose proof (release_buffer_ok s l1 i l2 HI) as HI'.
  assert (Hq : indexQueue_ (release s i) = indexQueue_ s ++ [i] /\ nextFreeIdx_ (release s i) = nextFreeIdx_ s).
  { unfold release. rewrite !length_app in Hc. cbn in Hc. destruct (Z.ltb_spec (Z.of_nat (length (indexQueue_ s))) POOL_SIZE); [done|lia]. }
  destruct Hq as [Hq Hn]. split; [done| |by rewrite Hn]. rewrite Hq, Hn, <- Hc, !length_app. cbn. lia.
Qed.

(** Every failed [acquire] moves the counter on, and after 2^32 of them it
    starts again at buffers that are in use. *)
Lemma acquire_wraps s : indexQueue_ s = [] -> nextFreeIdx_ s = 2 ^ 32 - 1 ->
  exists s', acquire s = (s', None) /\ acquire s' = (mkState [] 1, Some 0).
Proof.
  intros Hq Hx. unfold acquire. rewrite Hq, Hx. destruct (Z.leb_spec POOL_SIZE (2 ^ 32 - 1)); [|lia].
  eexists. split; [done|]. cbn [indexQueue_ nextFreeIdx_]. change (u32 (2 ^ 32 - 1 + 1)) with 0.
  by destruct (Z.leb_spec POOL_SIZE 0); [lia|].
Qed.
End Pool.
End BufferPool.

Module Channel.

Inductive ConnectionStatus := Disconnected | Connected | ConnError.

#[export] Instance ConnectionStatus_eq_dec : EqDecision ConnectionStatus.
Proof. solve_decision. Defined.

Definition toString_ConnectionStatus (s : ConnectionStatus) : string :=
  match s with Disconnected => "disconnected" | Connected => "connected" | ConnError => "error" end.

Section Channel.
Context {Msg : Type} (frame : Msg -> bytes) (unframe : bytes -> res (list Msg * expected)).
Context (BUFFER_CAPACITY POOL_SIZE : Z).

(** [rx] is the span of the outstanding [asyncRx]; [bus_] and [events] what
    was posted to the bus, [tx] the writes handed to the transport. *)
Record State := mkState {
  id_ : Z;
  status_ : ConnectionStatus;
  buffer_ : SlidingBuffer.State;
  rx : option (Z * Z);
  bus_ : list Msg;
  events : list ConnectionStatus;
  tx : list (Z * bytes)
}.

Definition set_status (s : State) st := mkState (id_ s) st (buffer_ s) (rx s) (bus_ s) (events s) (tx s).

Definition onStatus (s : State) (st : ConnectionStatus) : State :=
  mkState (id_ s) st (buffer_ s) (rx s) (bus_ s) (events s ++ [st]) (tx s).

Definition read (s : State) : res State :=
  match status_ s with
  | Connected =>
      let! (b, span) := SlidingBuffer.buffer (buffer_ s) in
      Ok (mkState (id_ s) (status_ s) b (Some span) (bus_ s) (events s) (tx s))
  | _ => Ok s
  end.

(** [readHandler] for a result with code [code] that put [chunk] into the
    span of the read. *)
Definition readHandler (s : State) (code : IoStatus) (chunk : bytes) : res State :=
  match code with
  | IoOk =>
      let '(b, _) := SlidingBuffer.commitWrite (buffer_ s) (Z.of_nat (length chunk)) in
      let! d := SlidingBuffer.data b in
      let! (ms, unfr) := unframe d in
      match unfr with
      | inl n =>
          let! b := SlidingBuffer.commitRead b n in
          read (mkState (id_ s) (status_ s) b None (bus_ s ++ ms) (events s) (tx s))
      | inr e =>
          Ok (onStatus (mkState (id_ s) (status_ s) (SlidingBuffer.reset b) None (bus_ s ++ ms) (events s) (tx s)) ConnError)
      end
  | _ =>
      Ok (onStatus (mkState (id_ s) (status_ s) (SlidingBuffer.reset (buffer_ s)) None (bus_ s) (events s) (tx s)) ConnError)
  end.

(** The transport completes the outstanding read with [chunk]. *)
Definition receive (s : State) (chunk : bytes) : res State :=
  match rx s with
  | None => Ok s
  | Some (off, avail) =>
      if avail <? Z.of_nat (length chunk) then Err OutOfBounds
      else readHandler (mkState (id_ s) (status_ s) (SlidingBuffer.fill (buffer_ s) off chunk) (rx s) (bus_ s)
                          (events s) (tx s)) IoOk chunk
  end.

Fixpoint receive_all (s : State) (chunks : list bytes) : res State :=
  match chunks with
  | [] => Ok s
  | c :: cs => let! s := receive s c in receive_all s cs
  end.

(** [write]: the pool buffer is filled before its size is asserted. *)
Definition write (s : State) (p : BufferPool.State) (m : Msg) : res (State * BufferPool.State) :=
  match status_ s with
  | Connected =>
      match BufferPool.acquire POOL_SIZE p with
      | (p, None) => Ok (s, p)
      | (p, Some idx) =>
          let b := frame m in
          if BUFFER_CAPACITY <? Z.of_nat (length b) then Err OutOfBounds
          else if negb (Z.of_nat (length b) <? BUFFER_CAPACITY) then Err AssertFailed
          else Ok (mkState (id_ s) (status_ s) (buffer_ s) (rx s) (bus_ s) (events s) (tx s ++ [(idx, b)]), p)
      end
  | _ => Ok (s, p)
  end.

Definition writeHandler (s : State) (code : IoStatus) : State :=
  match code with IoOk | Closed => s | _ => onStatus s ConnError end.

(** The completion of a write: the buffer goes back to the pool. *)
Definition writeDone (s : State) (p : BufferPool.State) (idx : Z) (code : IoStatus) : State * BufferPool.State :=
  (writeHandler s code, BufferPool.release POOL_SIZE p idx).

Definition close (s : State) : State := set_status s Disconnected.

Definition isConnected (s : State) : bool := bool_decide (status_ s = Connected).
Definition isError (s : State) : bool := bool_decide (status_ s = ConnError).

(** The constructor, with the default capacity of the buffer a parameter. *)
Definition make (id capacity : Z) : res State :=
  let! b := SlidingBuffer.make capacity in Ok (mkState id Connected b None [] [] []).

End Channel.
Arguments State : clear implicits.

(** ** Reassembly of a framed stream *)

Section Stream.
Context {Msg : Type} `{SER : Serializer Msg}.

Abbreviation frame := FixedSizeFramer.frame.
Abbreviation frames := FixedSizeFramer.frames.
Abbreviation unframe := FixedSizeFramer.unframe.
Abbreviation State := (State Msg).

(** The channel has posted [done] and holds the bytes [p]. *)
Record StreamInv (s : State) (done : list Msg) (p : bytes) : Prop := {
  st_conn : status_ s = Connected;
  st_buf : SlidingBuffer.Inv (buffer_ s) p;
  st_rx : exists avail, rx s = Some (SlidingBuffer.head_ (buffer_ s), avail) /\
            avail = SlidingBuffer.capacity_ (buffer_ s) - SlidingBuffer.head_ (buffer_ s) /\
            SlidingBuffer.MIN_READ_CAPACITY <= avail;
  st_bus : bus_ s = done;
  st_events : events s = [];
  st_cap : 1538 <= SlidingBuffer.capacity_ (buffer_ s)
}.

Lemma read_ok s done p : status_ s = Connected -> SlidingBuffer.Inv (buffer_ s) p -> bus_ s = done ->
  events s = [] -> 1538 <= SlidingBuffer.capacity_ (buffer_ s) -> Z.of_nat (length p) < 1026 ->
  exists s', read s = Ok s' /\ StreamInv s' done p /\ SlidingBuffer.capacity_ (buffer_ s') = SlidingBuffer.capacity_ (buffer_ s).
Proof.
  intros Hc Hb Hd He Hcap Hp. unfold read. rewrite Hc.
  destruct (SlidingBuffer.buffer_ok _ _ Hb) as (b & off & avail & -> & Hb' & Ho & Ha & Hcap' & Hm).
  eexists. split; [done|]. split; [|done]. split; cbn; try done; [|lia].
  exists avail. split; [by rewrite Ho|]. split; [rewrite Hcap'; lia|]. apply Hm. unfold SlidingBuffer.MIN_READ_CAPACITY. lia.
Qed.

(** A new channel that has asked for its first read. *)
Lemma StreamInv_start id cap s0 s : 1538 <= cap -> make id cap = Ok s0 -> read s0 = Ok s -> StreamInv s [] [].
Proof.
  intros Hcap Hmk Hrd. unfold make in Hmk. destruct (SlidingBuffer.make cap) as [b|] eqn:Eb; [|done]. injection Hmk as <-.
  assert (Hcb : SlidingBuffer.capacity_ b = cap).
  { unfold SlidingBuffer.make in Eb. destruct (_ <? _); [done|]. by injection Eb as <-. }
  destruct (read_ok (mkState id Connected b None [] [] []) [] []) as (s' & Hs' & HI & _); cbn; try done; try lia.
  - by eapply SlidingBuffer.Inv_make.
  - rewrite Hrd in Hs'. by injection Hs' as ->.
Qed.

Lemma receive_frames s done p chunk ms T :
  StreamInv s done p -> (exists off avail, rx s = Some (off, avail) /\ Z.of_nat (length chunk) <= avail) ->
  Forall FixedSizeFramer.Framable ms -> p ++ chunk ++ T = frames ms ->
  exists s' ms1 ms2 p', receive unframe s chunk = Ok s' /\ ms = ms1 ++ ms2 /\
    StreamInv s' (done ++ ms1) p' /\ p' ++ T = frames ms2 /\ FixedSizeFramer.tail_of ms2 p'.
Proof.
  intros [Hc Hb (avail & Hr & Ha & Hm) Hd He Hcap] (off & avail' & Hr' & Hlen) Hfr E. rewrite Hr in Hr'. injection Hr' as _ <-.
  rewrite (app_assoc p) in E. destruct (FixedSizeFramer.prefix_split ms _ T E) as (ms1 & ms2 & p' & -> & Ep & Ht & E2).
  apply Forall_app in Hfr as [Hfr1 Hfr2].
  unfold receive. rewrite Hr. destruct (Z.ltb_spec avail (Z.of_nat (length chunk))); [lia|].
  unfold readHandler. cbn [buffer_ id_ status_ bus_ events tx].
  destruct (SlidingBuffer.receive_ok _ p (SlidingBuffer.head_ (buffer_ s)) chunk Hb eq_refl) as (b & -> & Hb' & Hcap'); [lia|].
  rewrite (SlidingBuffer.data_ok _ _ Hb'), Ep, (FixedSizeFramer.unframe_frames ms1 ms2 p') by done.
  destruct (SlidingBuffer.commitRead_ok b _ (Z.of_nat (length (frames ms1))) Hb') as (b' & -> & Hb'' & Hcap'').
  { rewrite Ep, length_app. lia. }
  rewrite Ep, Nat2Z.id, drop_app_length in Hb''.
  destruct (read_ok (mkState (id_ s) (status_ s) b' None (bus_ s ++ ms1) (events s) (tx s)) (done ++ ms1) p')
    as (s' & Hs' & HI & _); cbn; try done.
  - by rewrite Hd.
  - lia.
  - by eapply FixedSizeFramer.tail_length.
  - by exists s', ms1, ms2, p'.
Qed.

(** However the transport cuts the stream of frames into chunks of up to
    512 bytes, the channel posts exactly the messages that were sent, in
    order, stays connected, reports nothing, and its buffer never runs out of
    room. *)
Theorem channel_reassembles_stream id cap ms chunks s0 s :
  1538 <= cap -> Forall FixedSizeFramer.Framable ms ->
  Forall (fun c => Z.of_nat (length c) <= 512) chunks -> concat chunks = frames ms ->
  make id cap = Ok s0 -> read s0 = Ok s ->
  exists s', receive_all unframe s chunks = Ok s' /\ bus_ s' = ms /\ status_ s' = Connected /\ events s' = [].
Proof.
  intros Hcap Hfr Hch E Hmk Hrd.
  pose proof (StreamInv_start id cap s0 s Hcap Hmk Hrd) as HI.
  clear Hmk Hrd.
  assert (G : forall chunks s ms p done, StreamInv s done p -> p ++ concat chunks = frames ms ->
    FixedSizeFramer.tail_of ms p -> Forall FixedSizeFramer.Framable ms ->
    Forall (fun c => Z.of_nat (length c) <= 512) chunks ->
    exists s', receive_all unframe s chunks = Ok s' /\ bus_ s' = done ++ ms /\ status_ s' = Connected /\ events s' = []).
  { clear. intros chunks. induction chunks as [|c cs IH]; intros s ms p done HI E Ht Hfr Hch.
    - cbn in *. rewrite app_nil_r in E. destruct ms as [|m ms].
      + exists s. destruct HI. rewrite app_nil_r. by split_and!.
      + exfalso. destruct Ht as (q & Eq & Hq). change (frames (m :: ms)) with (frame m ++ frames ms) in E. rewrite Eq in E.
        rewrite <- app_assoc in E. apply (f_equal length) in E. rewrite !length_app in E. destruct q; [done|]. cbn in E. lia.
    - apply Forall_cons in Hch as [Hc Hcs].
      assert (Hav : exists off avail, rx s = Some (off, avail) /\ Z.of_nat (length c) <= avail).
      { destruct (st_rx _ _ _ HI) as (avail & Hr & _ & Hm). eexists _, _. split; [done|].
        unfold SlidingBuffer.MIN_READ_CAPACITY in Hm. lia. }
      destruct (receive_frames s done p c ms (concat cs) HI Hav Hfr E) as (s' & ms1 & ms2 & p' & Hs & -> & HI' & E' & Ht').
      cbn [receive_all]. rewrite Hs. apply Forall_app in Hfr as [_ Hfr2].
      destruct (IH s' ms2 p' (done ++ ms1) HI' E' Ht' Hfr2 Hcs) as (s2 & H1 & H2 & H3 & H4).
      exists s2. rewrite <- (assoc_L app) in H2. by split_and!. }
  apply (G chunks s ms [] []); try done. destruct ms as [|m ms]; [done|]. by exists (FixedSizeFramer.frame m).
Qed.

End Stream.

(** One-byte messages. *)
Definition byte_serializer : Serializer Z := {|
  serialize b := [b];
  deserialize bs := match bs with [b] => Ok ([b], inl 1) | _ => Ok ([], inr SError) end
|}.

Definition fresh_channel : State Z :=
  mkState 5 Connected (SlidingBuffer.mkState 0 0 2048 (replicate 2048 0)) None [] [] [].
Definition reading_channel : State Z :=
  mkState 5 Connected (SlidingBuffer.mkState 0 0 2048 (replicate 2048 0)) (Some (0, 2048)) [] [] [].

(** Two frames, the second one cut in the middle. *)
Lemma channel_reassembles_stream_witness :
  exists s', receive_all (FixedSizeFramer.unframe (SER := byte_serializer)) reading_channel [[1; 0; 65; 1]; [0; 66]] = Ok s' /\
    bus_ s' = [65; 66] /\ status_ s' = Connected /\ events s' = [].
Proof.
  apply (channel_reassembles_stream (SER := byte_serializer) 5 2048 [65; 66] [[1; 0; 65; 1]; [0; 66]] fresh_channel).
  - lia.
  - repeat constructor; cbn; try reflexivity; lia.
  - repeat constructor; cbn; lia.
  - reflexivity.
  - reflexivity.
  - reflexivity.
Defined.

End Channel.
