(* ===== verification/Serialization.v ===== *)
(** * Serializers

    Models the converters and serializers of
    common/src/serialization (fbs_converter.hpp, fbs_domain_serializer.hpp,
    sbe_converter.hpp, sbe_domain_serializer.hpp).  The FlatBuffers library,
    the SBE codecs and the code generated from the schemas are parameters:
    what they make of the schema's tables and messages ([FbsMessage],
    [SbeMessage]) and back. *)

From Stdlib Require Import Ascii.
From S2P Require Import Prelude SlotId Types.
From S2P Require Import Framing.

(** The messages the serializers support. *)
Inductive DomainMessage :=
| MLoginRequest (m : LoginRequest)
| MTokenBindRequest (m : TokenBindRequest)
| MLoginResponse (m : LoginResponse)
| MOrder (m : Order)
| MOrderStatus (m : OrderStatus)
| MTickerPrice (m : TickerPrice).

Module Fbs.

(** The generated enumerations are their values. *)
Definition OrderAction_of_fbs (v : Z) : res OrderAction :=
  if v =? 0 then Ok Dummy
  else if v =? 1 then Ok Buy
  else if v =? 2 then Ok Sell
  else if v =? 3 then Ok Modify
  else if v =? 4 then Ok Cancel
  else Err (Throw "Unknown gen::fbs::domain::OrderAction").

Definition OrderAction_to_fbs (a : OrderAction) : Z :=
  match a with Dummy => 0 | Buy => 1 | Sell => 2 | Modify => 3 | Cancel => 4 end.

Definition OrderState_of_fbs (v : Z) : res OrderState :=
  if v =? 0 then Ok Accepted
  else if v =? 1 then Ok Rejected
  else if v =? 2 then Ok Cancelled
  else if v =? 3 then Ok Partial
  else if v =? 4 then Ok Full
  else Err (Throw "Unknown gen::fbs::domain::OrderState").

Definition OrderState_to_fbs (s : OrderState) : Z :=
  match s with Accepted => 0 | Rejected => 1 | Cancelled => 2 | Partial => 3 | Full => 4 end.

(** The root table as the schema describes it: a string field that was not
    written is absent ([None], a null pointer); a union can name a type
    without a value, or a type this schema does not know. *)
Inductive FbsMessage :=
| FbLoginRequest (name password : option string)
| FbLoginResponse (token : Z) (ok : bool) (error : option string)
| FbTokenBindRequest (token : Z)
| FbOrder (id : Z) (ticker : option string) (quantity price action : Z)
| FbOrderStatus (order_id system_order_id quantity fill_price state : Z)
| FbTickerPrice (ticker : option string) (price : Z)
| FbNoValue
| FbUnknown.

(** [str->size()] and [str->data()] through a possibly null pointer. *)
Definition deref (s : option string) : res string :=
  match s with Some s => Ok s | None => Err NullDeref end.

Definition fbStringToTicker (str : option string) : res Ticker :=
  let! s := deref str in
  let chars := String.list_ascii_of_string s in
  let size := Nat.min (length chars) TICKER_SIZE in
  Ok (take size chars ++ replicate (TICKER_SIZE - size) zero).

Definition fbStringToString (str : option string) : res string := deref str.

Section Serializer.
(** [Finish]ed buffers, and verification with [GetRoot]: [None] when the
    verifier refuses. *)
Context (build : FbsMessage -> bytes) (verify_root : bytes -> option FbsMessage).

(** [deserialize]: what is posted and the returned value. *)
Definition deserialize (data : bytes) : res (list DomainMessage * expected) :=
  let done m := Ok ([m], inl (Z.of_nat (length data))) in
  match verify_root data with
  | None => Ok ([], inr SError)
  | Some (FbLoginRequest name password) =>
      let! n := fbStringToString name in
      let! p := fbStringToString password in
      done (MLoginRequest (mkLoginRequest n p))
  | Some (FbTokenBindRequest token) => done (MTokenBindRequest (mkTokenBindRequest token))
  | Some (FbLoginResponse token ok error) =>
      let! e := fbStringToString error in
      done (MLoginResponse (mkLoginResponse token ok e))
  | Some (FbOrder id ticker quantity price action) =>
      let! t := fbStringToTicker ticker in
      let! a := OrderAction_of_fbs action in
      done (MOrder (mkOrder id t quantity price a))
  | Some (FbOrderStatus order_id system_order_id quantity fill_price state) =>
      let! st := OrderState_of_fbs state in
      done (MOrderStatus (mkOrderStatus order_id system_order_id quantity fill_price st))
  | Some (FbTickerPrice ticker price) =>
      let! t := fbStringToTicker ticker in
      done (MTickerPrice (mkTickerPrice t price))
  | Some FbNoValue | Some FbUnknown => Ok ([], inr SError)
  end.

(** What [serialize] hands to the generated [Create] functions: the schema's
    tokens are 32 bits wide. *)
Definition to_table (m : DomainMessage) : FbsMessage :=
  match m with
  | MLoginRequest r => FbLoginRequest (Some (lr_name r)) (Some (lr_password r))
  | MTokenBindRequest r => FbTokenBindRequest (u32 (tbr_token r))
  | MLoginResponse r => FbLoginResponse (u32 (lresp_token r)) (lresp_ok r) (Some (lresp_error r))
  | MOrder o => FbOrder (o_id o) (Some (String.string_of_list_ascii (take TICKER_SIZE (o_ticker o))))
                  (o_quantity o) (o_price o) (OrderAction_to_fbs (o_action o))
  | MOrderStatus s => FbOrderStatus (os_orderId s) (os_systemOrderId s) (os_quantity s) (os_fillPrice s)
                        (OrderState_to_fbs (os_state s))
  | MTickerPrice p => FbTickerPrice (Some (String.string_of_list_ascii (take TICKER_SIZE (tp_ticker p)))) (tp_price p)
  end.

Definition serialize (m : DomainMessage) : bytes := build (to_table m).

Definition serializer : Serializer DomainMessage :=
  {| Framing.serialize := serialize; Framing.deserialize := deserialize |}.

Lemma action_roundtrip a : OrderAction_of_fbs (OrderAction_to_fbs a) = Ok a.
Proof. by destruct a. Qed.

Lemma state_roundtrip s : OrderState_of_fbs (OrderState_to_fbs s) = Ok s.
Proof. by destruct s. Qed.

Lemma ticker_roundtrip t : length t = TICKER_SIZE ->
  fbStringToTicker (Some (String.string_of_list_ascii (take TICKER_SIZE t))) = Ok t.
Proof.
  intros Ht. unfold fbStringToTicker. cbn [deref]. rewrite String.list_ascii_of_string_of_list_ascii, <- Ht, firstn_all.
  rewrite Nat.min_id, firstn_all, Nat.sub_diag. cbn. by rewrite app_nil_r.
Qed.

(** The fields the wire format holds: 32-bit tokens and 4-byte tickers. *)
Definition fits (m : DomainMessage) : Prop :=
  match m with
  | MTokenBindRequest r => 0 <= tbr_token r < 2 ^ 32
  | MLoginResponse r => 0 <= lresp_token r < 2 ^ 32
  | MOrder o => length (o_ticker o) = TICKER_SIZE
  | MTickerPrice p => length (tp_ticker p) = TICKER_SIZE
  | _ => True
  end.

(** The fields of a table at the widths the schema gives them. *)
Definition in_schema (t : FbsMessage) : Prop :=
  match t with
  | FbLoginResponse token _ _ | FbTokenBindRequest token => is_u32 token
  | FbOrder id _ quantity price action => is_u32 id /\ is_u32 quantity /\ is_u32 price /\ -128 <= action < 128
  | FbOrderStatus i1 i2 q p s => is_u32 i1 /\ is_u32 i2 /\ is_u32 q /\ is_u32 p /\ - 2 ^ 31 <= s < 2 ^ 31
  | FbTickerPrice _ price => is_u32 price
  | _ => True
  end.

(** The documented behaviour of the library: a finished buffer verifies, and
    its accessors read what was written. *)
Context (build_reads : forall t, in_schema t -> verify_root (build t) = Some t).

Definition u32_fields (m : DomainMessage) : Prop :=
  match m with
  | MOrder o => is_u32 (o_id o) /\ is_u32 (o_quantity o) /\ is_u32 (o_price o)
  | MOrderStatus s => is_u32 (os_orderId s) /\ is_u32 (os_systemOrderId s) /\ is_u32 (os_quantity s) /\ is_u32 (os_fillPrice s)
  | MTickerPrice p => is_u32 (tp_price p)
  | _ => True
  end.

Lemma to_table_in_schema m : u32_fields m -> in_schema (to_table m).
Proof.
  destruct m as [m|m|m|m|m|m]; cbn; try done; try (intros; apply u32_range).
  - intros (? & ? & ?). split_and!; try done; destruct (o_action m); cbn; lia.
  - intros (? & ? & ? & ?). split_and!; try done; destruct (os_state m); cbn; lia.
Qed.

(** What arrives: the tokens, 64 bits wide in the program, are 32 bits wide
    on the wire. *)
Definition wire (m : DomainMessage) : DomainMessage :=
  match m with
  | MTokenBindRequest r => MTokenBindRequest (mkTokenBindRequest (u32 (tbr_token r)))
  | MLoginResponse r => MLoginResponse (mkLoginResponse (u32 (lresp_token r)) (lresp_ok r) (lresp_error r))
  | _ => m
  end.

(** Tickers are arrays of four characters. *)
Definition tickers (m : DomainMessage) : Prop :=
  match m with
  | MOrder o => length (o_ticker o) = TICKER_SIZE
  | MTickerPrice p => length (tp_ticker p) = TICKER_SIZE
  | _ => True
  end.

Lemma fits_wire m : fits m -> tickers m /\ wire m = m.
Proof. destruct m as [m|m|m|m|m|m]; cbn; try done; destruct m; cbn; intros; by rewrite u32_small. Qed.

Lemma fbs_reads_wire m : u32_fields m -> tickers m ->
  deserialize (serialize m) = Ok ([wire m], inl (Z.of_nat (length (serialize m)))).
Proof.
  intros Hu Hf. unfold deserialize, serialize at 1. rewrite (build_reads _ (to_table_in_schema m Hu)).
  destruct m as [m|m|m|m|m|m]; cbn -[fbStringToTicker OrderAction_of_fbs OrderState_of_fbs take TICKER_SIZE u32] in *;
    try (by destruct m).
  - rewrite ticker_roundtrip by done. rewrite action_roundtrip. by destruct m.
  - rewrite state_roundtrip. by destruct m.
  - rewrite ticker_roundtrip by done. by destruct m.
Qed.

Lemma fbs_reads_back m : u32_fields m -> fits m ->
  deserialize (serialize m) = Ok ([m], inl (Z.of_nat (length (serialize m)))).
Proof. intros Hu [Ht Hw]%fits_wire. rewrite fbs_reads_wire by done. by rewrite Hw. Qed.

(** C24: every message whose fields have their C++ types (32-bit unsigned
    numbers, tickers of four characters; tokens and strings are arbitrary)
    is posted once by the deserializer, which consumes the whole buffer, with
    every field as it was except that a token is cut to its low 32 bits. *)
Theorem fbs_roundtrip m : u32_fields m -> tickers m ->
  deserialize (serialize m) = Ok ([wire m], inl (Z.of_nat (length (serialize m)))).
Proof. apply fbs_reads_wire. Qed.

(** A well-formed buffer from the network can take the process down: a
    message without its string field passes verification and the converter
    dereferences a null pointer; an enumeration value outside the schema
    makes the converter throw out of the read handler. *)
Theorem fbs_network_input_crashes id password qty price act :
  is_u32 id -> is_u32 qty -> is_u32 price -> 5 <= act < 128 ->
  deserialize (build (FbLoginRequest None (Some password))) = Err NullDeref /\
  deserialize (build (FbOrder id None qty price 1)) = Err NullDeref /\
  (exists what, deserialize (build (FbOrder id (Some "ABCD") qty price act)) = Err (Throw what)).
Proof.
  intros H1 H2 H3 H4. unfold deserialize. rewrite !build_reads by (cbn; done || (split_and!; done || lia)).
  split; [done|]. split; [done|]. eexists. unfold OrderAction_of_fbs. cbn.
  repeat (case_test; [lia|]). done.
Qed.

End Serializer.
End Fbs.

Module Sbe.

(** The enumerations of the schema. *)
Inductive SbeOrderAction := DUMMY | BUY | SELL | MODIFY | CANCEL | ACTION_NULL.
Inductive SbeOrderState := SAccepted | SRejected | SCancelled | SPartial | SFull | STATE_NULL.

Definition OrderAction_of_sbe (a : SbeOrderAction) : res OrderAction :=
  match a with
  | BUY => Ok Buy
  | SELL => Ok Sell
  | DUMMY => Ok Dummy
  | _ => Err (Throw "Unknown gen::sbe::domain::OrderAction::Value type")
  end.

Definition OrderAction_to_sbe (a : OrderAction) : res SbeOrderAction :=
  match a with
  | Buy => Ok BUY
  | Sell => Ok SELL
  | Dummy => Ok DUMMY
  | _ => Err (Throw "OrderAction type")
  end.

Definition OrderState_of_sbe (s : SbeOrderState) : res OrderState :=
  match s with
  | SAccepted => Ok Accepted
  | SRejected => Ok Rejected
  | SPartial => Ok Partial
  | SFull => Ok Full
  | _ => Err (Throw "Unknown gen::sbe::domain::OrderState::Value type")
  end.

Definition OrderState_to_sbe (s : OrderState) : res SbeOrderState :=
  match s with
  | Accepted => Ok SAccepted
  | Rejected => Ok SRejected
  | Partial => Ok SPartial
  | Full => Ok SFull
  | _ => Err (Throw "OrderState type")
  end.

(** The messages of the schema. *)
Inductive SbeMessage :=
| SbeLoginRequest (name password : string)
| SbeLoginResponse (token ok : Z) (error_msg : string)
| SbeTokenBindRequest (token : Z)
| SbeOrder (id : Z) (ticker : list ascii) (quantity price : Z) (action : SbeOrderAction)
| SbeOrderStatus (order_id system_order_id quantity fill_price : Z) (state : SbeOrderState)
| SbeTickerPrice (ticker : list ascii) (price : Z).

(** [sbeTemplateId] and the block length of the schema's fields. *)
Definition sbeTemplateId (m : SbeMessage) : Z :=
  match m with
  | SbeLoginRequest _ _ => 1
  | SbeLoginResponse _ _ _ => 2
  | SbeTokenBindRequest _ => 3
  | SbeOrder _ _ _ _ _ => 4
  | SbeOrderStatus _ _ _ _ _ => 5
  | SbeTickerPrice _ _ => 6
  end.

Definition sbeBlockLength (templateId : Z) : Z :=
  if templateId =? 1 then 32 + 32
  else if templateId =? 2 then 4 + 1 + 32
  else if templateId =? 3 then 4
  else if templateId =? 4 then 4 + 4 + 4 + 4 + 1
  else if templateId =? 5 then 4 + 4 + 4 + 4 + 4
  else 4 + 4.

Definition headerLength : Z := 2 + 2 + 2 + 2.

Definition sbeBlockAndHeaderLength (templateId : Z) : Z := headerLength + sbeBlockLength templateId.

(** [getChar4AsString]: up to the first zero; then [makeTicker] pads. *)
Fixpoint until_zero (l : list ascii) : list ascii :=
  match l with
  | [] => []
  | c :: l => if bool_decide (c = zero) then [] else c :: until_zero l
  end.

Section Serializer.
(** The generated codecs: the bytes of a message (a [Char32] setter throws
    on longer strings), the template identifier of a header, and the message
    the accessors of that template read. *)
Context (encode : SbeMessage -> res bytes) (templateId : bytes -> Z) (decode : bytes -> SbeMessage).

Definition deserialize (buffer : bytes) : res (list DomainMessage * expected) :=
  let size := Z.of_nat (length buffer) in
  if size <? headerLength then Ok ([], inr SError)
  else
    let id := templateId buffer in
    if negb ((1 <=? id) && (id <=? 6)) then Ok ([], inr SError)
    else if size <? sbeBlockAndHeaderLength id then Ok ([], inr SError)
    else
      let done m := Ok ([m], inl (sbeBlockAndHeaderLength id)) in
      match decode buffer with
      | SbeLoginRequest name password => done (MLoginRequest (mkLoginRequest name password))
      | SbeTokenBindRequest token => done (MTokenBindRequest (mkTokenBindRequest token))
      | SbeLoginResponse token ok error => done (MLoginResponse (mkLoginResponse token (ok =? 1) error))
      | SbeOrder i ticker quantity price action =>
          let! a := OrderAction_of_sbe action in
          done (MOrder (mkOrder i (makeTicker (until_zero ticker)) quantity price a))
      | SbeOrderStatus i1 i2 quantity fill_price state =>
          let! st := OrderState_of_sbe state in
          done (MOrderStatus (mkOrderStatus i1 i2 quantity fill_price st))
      | SbeTickerPrice ticker price => done (MTickerPrice (mkTickerPrice (makeTicker (until_zero ticker)) price))
      end.

Definition to_sbe (m : DomainMessage) : res SbeMessage :=
  match m with
  | MLoginRequest r => Ok (SbeLoginRequest (lr_name r) (lr_password r))
  | MTokenBindRequest r => Ok (SbeTokenBindRequest (u32 (tbr_token r)))
  | MLoginResponse r => Ok (SbeLoginResponse (u32 (lresp_token r)) (if lresp_ok r then 1 else 0) (lresp_error r))
  | MOrder o =>
      let! a := OrderAction_to_sbe (o_action o) in
      Ok (SbeOrder (o_id o) (o_ticker o) (o_quantity o) (o_price o) a)
  | MOrderStatus s =>
      let! st := OrderState_to_sbe (os_state s) in
      Ok (SbeOrderStatus (os_orderId s) (os_systemOrderId s) (os_quantity s) (os_fillPrice s) st)
  | MTickerPrice p => Ok (SbeTickerPrice (tp_ticker p) (tp_price p))
  end.

Definition serialize (m : DomainMessage) : res bytes := let! t := to_sbe m in encode t.

(** A string a [Char32] holds: no longer than it and without a zero. *)
Definition char32 (s : string) : Prop :=
  (length (String.list_ascii_of_string s) <= 32)%nat /\ (zero ∉ String.list_ascii_of_string s).

Definition in_schema (t : SbeMessage) : Prop :=
  match t with
  | SbeLoginRequest n p => char32 n /\ char32 p
  | SbeLoginResponse token ok e => is_u32 token /\ 0 <= ok < 256 /\ char32 e
  | SbeTokenBindRequest token => is_u32 token
  | SbeOrder i t q p _ => is_u32 i /\ length t = 4%nat /\ is_u32 q /\ is_u32 p
  | SbeOrderStatus i1 i2 q p _ => is_u32 i1 /\ is_u32 i2 /\ is_u32 q /\ is_u32 p
  | SbeTickerPrice t p => length t = 4%nat /\ is_u32 p
  end.

(** The documented behaviour of the codecs: a message takes its block and
    header length, and is read back by its accessors whatever follows it. *)
Context (encode_reads : forall t, in_schema t -> exists b, encode t = Ok b /\
  Z.of_nat (length b) = sbeBlockAndHeaderLength (sbeTemplateId t) /\
  forall rest, templateId (b ++ rest) = sbeTemplateId t /\ decode (b ++ rest) = t).

(** Fields of their C++ types, and strings that a [Char32] holds. *)
Definition sbe_typed (m : DomainMessage) : Prop :=
  match m with
  | MLoginRequest r => char32 (lr_name r) /\ char32 (lr_password r)
  | MTokenBindRequest r => True
  | MLoginResponse r => char32 (lresp_error r)
  | MOrder o => is_u32 (o_id o) /\ is_u32 (o_quantity o) /\ is_u32 (o_price o) /\ length (o_ticker o) = TICKER_SIZE
  | MOrderStatus s => is_u32 (os_orderId s) /\ is_u32 (os_systemOrderId s) /\ is_u32 (os_quantity s) /\ is_u32 (os_fillPrice s)
  | MTickerPrice p => is_u32 (tp_price p) /\ length (tp_ticker p) = TICKER_SIZE
  end.

(** What the converters can express. *)
Definition expressible (m : DomainMessage) : bool :=
  match m with
  | MOrder o => match o_action o with Modify | Cancel => false | _ => true end
  | MOrderStatus s => match os_state s with Cancelled => false | _ => true end
  | _ => true
  end.

(** What arrives: a token is cut to 32 bits, a ticker ends at its first
    zero. *)
Definition sbe_wire (m : DomainMessage) : DomainMessage :=
  match m with
  | MTokenBindRequest r => MTokenBindRequest (mkTokenBindRequest (u32 (tbr_token r)))
  | MLoginResponse r => MLoginResponse (mkLoginResponse (u32 (lresp_token r)) (lresp_ok r) (lresp_error r))
  | MOrder o => MOrder (mkOrder (o_id o) (makeTicker (until_zero (o_ticker o))) (o_quantity o) (o_price o) (o_action o))
  | MTickerPrice p => MTickerPrice (mkTickerPrice (makeTicker (until_zero (tp_ticker p))) (tp_price p))
  | _ => m
  end.

(** The messages that this leaves as they are. *)
Definition unchanged (m : DomainMessage) : Prop :=
  match m with
  | MTokenBindRequest r => is_u32 (tbr_token r)
  | MLoginResponse r => is_u32 (lresp_token r)
  | MOrder o => makeTicker (until_zero (o_ticker o)) = o_ticker o
  | MTickerPrice p => makeTicker (until_zero (tp_ticker p)) = tp_ticker p
  | _ => True
  end.

Lemma sbe_wire_unchanged m : unchanged m -> sbe_wire m = m.
Proof.
  destruct m as [m|m|m|m|m|m]; try done; destruct m; cbn -[makeTicker until_zero]; intros H;
    by rewrite ?H, ?u32_small by done.
Qed.

Lemma deserialize_encoded t b : in_schema t -> encode t = Ok b -> forall rest,
  deserialize (b ++ rest) =
    let done m := Ok ([m], inl (Z.of_nat (length b))) in
    match t with
    | SbeLoginRequest name password => done (MLoginRequest (mkLoginRequest name password))
    | SbeTokenBindRequest token => done (MTokenBindRequest (mkTokenBindRequest token))
    | SbeLoginResponse token ok error => done (MLoginResponse (mkLoginResponse token (ok =? 1) error))
    | SbeOrder i ticker quantity price action =>
        let! a := OrderAction_of_sbe action in
        done (MOrder (mkOrder i (makeTicker (until_zero ticker)) quantity price a))
    | SbeOrderStatus i1 i2 quantity fill_price state =>
        let! st := OrderState_of_sbe state in
        done (MOrderStatus (mkOrderStatus i1 i2 quantity fill_price st))
    | SbeTickerPrice ticker price => done (MTickerPrice (mkTickerPrice (makeTicker (until_zero ticker)) price))
    end.
Proof.
  intros Hs He rest. destruct (encode_reads t Hs) as (b' & He' & Hl & Hr).
  assert (b' = b) as -> by congruence. destruct (Hr rest) as [Ht Hd].
  assert (Hid : 1 <= sbeTemplateId t <= 6) by (destruct t; cbn; lia).
  assert (H8 : headerLength <= Z.of_nat (length b)).
  { rewrite Hl. unfold sbeBlockAndHeaderLength, sbeBlockLength. repeat case_match; lia. }
  unfold deserialize. rewrite length_app, Ht, Hd, <- Hl.
  destruct (Z.ltb_spec (Z.of_nat (length b + length rest)) headerLength); [lia|].
  destruct (Z.leb_spec 1 (sbeTemplateId t)); [|lia]. destruct (Z.leb_spec (sbeTemplateId t) 6); [|lia]. cbn [andb negb].
  by destruct (Z.ltb_spec (Z.of_nat (length b + length rest)) (Z.of_nat (length b))); [lia|].
Qed.

Lemma to_sbe_typed m : sbe_typed m -> expressible m = true ->
  exists t, to_sbe m = Ok t /\ in_schema t /\ forall b rest, encode t = Ok b ->
    deserialize (b ++ rest) = Ok ([sbe_wire m], inl (Z.of_nat (length b))).
Proof.
  intros Hf He.
  assert (G : forall t, to_sbe m = Ok t -> in_schema t ->
    (forall b : bytes, let done m := Ok ([m], inl (Z.of_nat (length b))) in
     match t with
     | SbeLoginRequest name password => done (MLoginRequest (mkLoginRequest name password))
     | SbeTokenBindRequest token => done (MTokenBindRequest (mkTokenBindRequest token))
     | SbeLoginResponse token ok error => done (MLoginResponse (mkLoginResponse token (ok =? 1) error))
     | SbeOrder i ticker quantity price action =>
         let! a := OrderAction_of_sbe action in
         done (MOrder (mkOrder i (makeTicker (until_zero ticker)) quantity price a))
     | SbeOrderStatus i1 i2 quantity fill_price state =>
         let! st := OrderState_of_sbe state in
         done (MOrderStatus (mkOrderStatus i1 i2 quantity fill_price st))
     | SbeTickerPrice ticker price => done (MTickerPrice (mkTickerPrice (makeTicker (until_zero ticker)) price))
     end = @Ok (list DomainMessage * expected) ([sbe_wire m], inl (Z.of_nat (length b)))) ->
    exists t, to_sbe m = Ok t /\ in_schema t /\ forall b rest, encode t = Ok b ->
      deserialize (b ++ rest) = Ok ([sbe_wire m], inl (Z.of_nat (length b)))).
  { intros t Et Hs Hd. exists t. split; [done|]. split; [done|]. intros b rest Hb.
    rewrite (deserialize_encoded t b Hs Hb rest). apply Hd. }
  destruct m as [m|m|m|m|m|m]; cbn -[makeTicker until_zero] in Hf, He.
  - eapply G; [done|exact Hf|]. intros b. by destruct m.
  - eapply G; [done|apply u32_range|done].
  - eapply G; [done| |intros b; by destruct m as [? [] ?]].
    cbn. split; [apply u32_range|]. split; [destruct (lresp_ok m); lia|done].
  - destruct Hf as (H1 & H2 & H3 & H4). destruct m as [i tk q p a]. cbn in *.
    destruct a; try done; (eapply G; [done|by split_and!|done]).
  - destruct Hf as (H1 & H2 & H3 & H4). destruct m as [i1 i2 q p st]. cbn in *.
    destruct st; try done; (eapply G; [done|by split_and!|done]).
  - destruct Hf as (H1 & H4). destruct m as [tk p]. eapply G; [done|by split|done].
Qed.

(** C25: of the messages whose fields have their C++ types, and whose strings
    have at most 32 characters and no zero, serializing throws for exactly the
    cancels, the modifications and the cancelled statuses.  Any other one is
    read from the front of every buffer its bytes begin, which is what the
    framer without headers relies on: the deserializer posts one message and
    consumes exactly those bytes.  That message is the one sent, but for a
    token, which is cut to 32 bits, and a ticker, which ends at its first zero;
    it is the one sent if the token has 32 bits and the ticker no letter after
    a zero. *)
Theorem sbe_roundtrip m : sbe_typed m ->
  (if expressible m then
     exists b, serialize m = Ok b /\ b <> [] /\
       forall rest, deserialize (b ++ rest) = Ok ([sbe_wire m], inl (Z.of_nat (length b)))
   else exists what, serialize m = Err (Throw what)) /\
  (unchanged m -> sbe_wire m = m).
Proof.
  intros Hf. split; [|apply sbe_wire_unchanged]. destruct (expressible m) eqn:Ex.
  - destruct (to_sbe_typed m Hf Ex) as (t & Et & Hs & Hd).
    destruct (encode_reads t Hs) as (b & He & Hl & _). exists b. unfold serialize. rewrite Et. split; [done|].
    split; [|intros rest; by apply Hd]. intros ->. cbn in Hl.
    revert Hl. unfold sbeBlockAndHeaderLength, sbeBlockLength, headerLength. repeat case_match; lia.
  - destruct m as [m|m|m|m|m|m]; try done; cbn in Ex; unfold serialize, to_sbe; eexists.
    + by destruct (o_action m).
    + by destruct (os_state m).
Qed.

(** Cancels, modifications and cancelled states cannot be sent over SBE:
    the converters throw, on both sides. *)
Theorem sbe_cancel_not_expressible o s : o_action o = Cancel \/ o_action o = Modify -> os_state s = Cancelled ->
  serialize (MOrder o) = Err (Throw "OrderAction type") /\
  serialize (MOrderStatus s) = Err (Throw "OrderState type").
Proof. intros Ha Hs. unfold serialize. cbn. rewrite Hs. by destruct Ha as [-> | ->]. Qed.

End Serializer.
End Sbe.

(** * Concrete codecs

    Instances of the parameters above, for the witnesses: any injective
    encoding for the tables, and the little-endian SBE layout of the
    schema. *)
Module Codecs.

Import Fbs.

Abbreviation fbs_repr :=
  ((option string * option string) + (Z * bool * option string) + Z + (Z * option string * Z * Z * Z) +
   (Z * Z * Z * Z * Z) + (option string * Z) + bool)%type.

Definition fbs_to (t : FbsMessage) : fbs_repr :=
  match t with
  | FbLoginRequest n p => inl (inl (inl (inl (inl (inl (n, p))))))
  | FbLoginResponse t o e => inl (inl (inl (inl (inl (inr (t, o, e))))))
  | FbTokenBindRequest t => inl (inl (inl (inl (inr t))))
  | FbOrder i t q p a => inl (inl (inl (inr (i, t, q, p, a))))
  | FbOrderStatus a b c d e => inl (inl (inr (a, b, c, d, e)))
  | FbTickerPrice t p => inl (inr (t, p))
  | FbNoValue => inr true
  | FbUnknown => inr false
  end.

Definition fbs_from (r : fbs_repr) : FbsMessage :=
  match r with
  | inl (inl (inl (inl (inl (inl (n, p)))))) => FbLoginRequest n p
  | inl (inl (inl (inl (inl (inr (t, o, e)))))) => FbLoginResponse t o e
  | inl (inl (inl (inl (inr t)))) => FbTokenBindRequest t
  | inl (inl (inl (inr (i, t, q, p, a)))) => FbOrder i t q p a
  | inl (inl (inr (a, b, c, d, e))) => FbOrderStatus a b c d e
  | inl (inr (t, p)) => FbTickerPrice t p
  | inr true => FbNoValue
  | inr false => FbUnknown
  end.

Fixpoint pos_bytes (p : positive) : bytes :=
  match p with xH => [2] | xO p => 0 :: pos_bytes p | xI p => 1 :: pos_bytes p end.

Fixpoint bytes_pos (b : bytes) : option positive :=
  match b with
  | [] => None
  | x :: b =>
      if x =? 2 then Some xH
      else match bytes_pos b with
           | Some p => Some (if x =? 0 then xO p else xI p)
           | None => None
           end
  end.

Lemma bytes_pos_bytes p : bytes_pos (pos_bytes p) = Some p.
Proof. induction p as [p IH|p IH|]; cbn; by rewrite ?IH. Qed.

Definition build (t : FbsMessage) : bytes := pos_bytes (encode (fbs_to t)).
Definition verify_root (b : bytes) : option FbsMessage :=
  p ← bytes_pos b; r ← decode p; Some (fbs_from r).

Lemma build_reads t : in_schema t -> verify_root (build t) = Some t.
Proof.
  intros _. unfold verify_root, build. rewrite bytes_pos_bytes. cbn [mbind option_bind]. rewrite decode_encode.
  cbn. by destruct t.
Qed.

Definition sample_order (a : OrderAction) : Order := mkOrder 7 ["A"; "B"; "C"; "D"]%char 10 20 a.

Lemma fbs_roundtrip_witness :
  deserialize verify_root (serialize build (MOrder (sample_order Cancel))) =
    Ok ([MOrder (sample_order Cancel)], inl (Z.of_nat (length (serialize build (MOrder (sample_order Cancel)))))).
Proof. apply (fbs_roundtrip build verify_root build_reads); [cbn; unfold is_u32; lia|reflexivity]. Defined.

Lemma fbs_network_input_crashes_witness :
  deserialize verify_root (build (FbLoginRequest None (Some "pw"))) = Err NullDeref.
Proof.
  apply (fbs_network_input_crashes build verify_root build_reads 1 "pw" 2 3 9); unfold is_u32; lia.
Defined.

(** The SBE layout. *)
Definition put32 (x : Z) : bytes := [x mod 256; x / 256 mod 256; x / 256 / 256 mod 256; x / 256 / 256 / 256].
Definition get32 (b : bytes) : Z := nth 0 b 0 + 256 * (nth 1 b 0 + 256 * (nth 2 b 0 + 256 * nth 3 b 0)).
Definition put_chars (l : list ascii) : bytes := map (fun c => Z.of_N (N_of_ascii c)) l.
Definition get_chars (b : bytes) : list ascii := map (fun x => ascii_of_N (Z.to_N x)) b.
Definition put_char32 (s : string) : bytes :=
  let l := String.list_ascii_of_string s in put_chars (l ++ replicate (32 - length l) zero).
Definition get_char32 (b : bytes) : string := String.string_of_list_ascii (Sbe.until_zero (get_chars (take 32 b))).
Definition header (block id : Z) : bytes := [block mod 256; block / 256; id; 0; 1; 0; 1; 0].

Definition action_byte (a : Sbe.SbeOrderAction) : Z :=
  match a with Sbe.DUMMY => 0 | Sbe.BUY => 1 | Sbe.SELL => 2 | Sbe.MODIFY => 3 | Sbe.CANCEL => 4 | Sbe.ACTION_NULL => 255 end.
Definition action_of_byte (b : Z) : Sbe.SbeOrderAction :=
  if b =? 0 then Sbe.DUMMY else if b =? 1 then Sbe.BUY else if b =? 2 then Sbe.SELL else if b =? 3 then Sbe.MODIFY
  else if b =? 4 then Sbe.CANCEL else Sbe.ACTION_NULL.
Definition state_word (s : Sbe.SbeOrderState) : Z :=
  match s with Sbe.SAccepted => 0 | Sbe.SRejected => 1 | Sbe.SCancelled => 2 | Sbe.SPartial => 3 | Sbe.SFull => 4
  | Sbe.STATE_NULL => 2 ^ 31 end.
Definition state_of_word (b : Z) : Sbe.SbeOrderState :=
  if b =? 0 then Sbe.SAccepted else if b =? 1 then Sbe.SRejected else if b =? 2 then Sbe.SCancelled
  else if b =? 3 then Sbe.SPartial else if b =? 4 then Sbe.SFull else Sbe.STATE_NULL.

Definition sbe_body (t : Sbe.SbeMessage) : bytes :=
  match t with
  | Sbe.SbeLoginRequest n p => put_char32 n ++ put_char32 p
  | Sbe.SbeLoginResponse token ok e => put32 token ++ [ok] ++ put_char32 e
  | Sbe.SbeTokenBindRequest token => put32 token
  | Sbe.SbeOrder i t q p a => put32 i ++ put_chars t ++ put32 q ++ put32 p ++ [action_byte a]
  | Sbe.SbeOrderStatus a b c d s => put32 a ++ put32 b ++ put32 c ++ put32 d ++ put32 (state_word s)
  | Sbe.SbeTickerPrice t p => put_chars t ++ put32 p
  end.

Definition long32 (s : string) : bool := (32 <? length (String.list_ascii_of_string s))%nat.

Definition sbe_encode (t : Sbe.SbeMessage) : res bytes :=
  let b := header (Sbe.sbeBlockLength (Sbe.sbeTemplateId t)) (Sbe.sbeTemplateId t) ++ sbe_body t in
  match t with
  | Sbe.SbeLoginRequest n p => if long32 n || long32 p then Err (Throw "string too large") else Ok b
  | Sbe.SbeLoginResponse _ _ e => if long32 e then Err (Throw "string too large") else Ok b
  | _ => Ok b
  end.

Definition sbe_template (b : bytes) : Z := nth 2 b 0 + 256 * nth 3 b 0.

Definition sbe_decode (b : bytes) : Sbe.SbeMessage :=
  let id := sbe_template b in
  let d := drop 8 b in
  if id =? 1 then Sbe.SbeLoginRequest (get_char32 d) (get_char32 (drop 32 d))
  else if id =? 2 then Sbe.SbeLoginResponse (get32 d) (nth 4 d 0) (get_char32 (drop 5 d))
  else if id =? 3 then Sbe.SbeTokenBindRequest (get32 d)
  else if id =? 4 then Sbe.SbeOrder (get32 d) (get_chars (take 4 (drop 4 d))) (get32 (drop 8 d)) (get32 (drop 12 d))
                         (action_of_byte (nth 16 d 0))
  else if id =? 5 then Sbe.SbeOrderStatus (get32 d) (get32 (drop 4 d)) (get32 (drop 8 d)) (get32 (drop 12 d))
                         (state_of_word (get32 (drop 16 d)))
  else Sbe.SbeTickerPrice (get_chars (take 4 d)) (get32 (drop 4 d)).

Lemma get_put32_cons x rest : is_u32 x ->
  get32 (x mod 256 :: x / 256 mod 256 :: x / 256 / 256 mod 256 :: x / 256 / 256 / 256 :: rest) = x.
Proof.
  intros _. unfold get32. cbn [nth]. pose proof (Z.div_mod x 256). pose proof (Z.div_mod (x / 256) 256).
  pose proof (Z.div_mod (x / 256 / 256) 256). lia.
Qed.

Lemma get_put32 x rest : is_u32 x -> get32 (put32 x ++ rest) = x.
Proof. apply get_put32_cons. Qed.

Lemma get_put_chars l : get_chars (put_chars l) = l.
Proof.
  unfold get_chars, put_chars. rewrite map_map. rewrite <- (map_id l) at 2. apply map_ext. intros c.
  rewrite N2Z.id. apply ascii_N_embedding.
Qed.

Lemma until_zero_pad l n : (zero ∉ l) -> Sbe.until_zero (l ++ replicate n zero) = l.
Proof.
  intros Hz. induction l as [|c l IH]; cbn.
  - by destruct n.
  - rewrite bool_decide_eq_false_2 by set_solver. rewrite IH by set_solver. done.
Qed.

Lemma put_char32_length s : (length (String.list_ascii_of_string s) <= 32)%nat -> length (put_char32 s) = 32%nat.
Proof. intros. unfold put_char32, put_chars. rewrite length_map, length_app, length_replicate. lia. Qed.

Lemma get_put_char32 s rest : Sbe.char32 s -> get_char32 (put_char32 s ++ rest) = s.
Proof.
  intros [Hl Hz]. unfold get_char32. rewrite take_app_length' by (by rewrite put_char32_length).
  unfold put_char32. rewrite get_put_chars, until_zero_pad by done. apply String.string_of_list_ascii_of_string.
Qed.

Lemma char32_not_long s : Sbe.char32 s -> long32 s = false.
Proof. intros [H _]. unfold long32. by apply Nat.ltb_ge. Qed.

Lemma state_word_roundtrip s : state_of_word (state_word s) = s.
Proof. by destruct s. Qed.

Lemma sbe_encode_reads t : Sbe.in_schema t -> exists b, sbe_encode t = Ok b /\
  Z.of_nat (length b) = Sbe.sbeBlockAndHeaderLength (Sbe.sbeTemplateId t) /\
  forall rest, sbe_template (b ++ rest) = Sbe.sbeTemplateId t /\ sbe_decode (b ++ rest) = t.
Proof.
  intros Hs. exists (header (Sbe.sbeBlockLength (Sbe.sbeTemplateId t)) (Sbe.sbeTemplateId t) ++ sbe_body t).
  split; [|split].
  - destruct t; try done; unfold sbe_encode.
    + destruct Hs as [H1 H2]. by rewrite !char32_not_long.
    + destruct Hs as (_ & _ & H2). by rewrite char32_not_long.
  - destruct t; cbn in Hs; unfold Sbe.sbeBlockAndHeaderLength; rewrite length_app; cbn -[put_char32 put_chars put32].
    + destruct Hs as [[H1 _] [H2 _]]. rewrite length_app, !put_char32_length by done. done.
    + destruct Hs as (_ & _ & [H2 _]). rewrite length_app. cbn -[put_char32]. rewrite put_char32_length by done. done.
    + done.
    + destruct Hs as (_ & Ht & _). unfold put_chars. rewrite !length_app, length_map, Ht. done.
    + done.
    + destruct Hs as (Ht & _). unfold put_chars. rewrite !length_app, length_map, Ht. done.
  - intros rest. split; [by destruct t|].
    rewrite <- app_assoc. destruct t as [n p|t o e|t|i t q p a|i1 i2 q p st|t p]; cbn in Hs.
    + destruct Hs as [Hn Hp]. change (Sbe.SbeLoginRequest (get_char32 ((put_char32 n ++ put_char32 p) ++ rest))
        (get_char32 (drop 32 ((put_char32 n ++ put_char32 p) ++ rest))) = Sbe.SbeLoginRequest n p).
      rewrite <- app_assoc, get_put_char32 by done. f_equal.
      rewrite drop_app_length' by (symmetry; apply put_char32_length; apply Hn). by apply get_put_char32.
    + destruct Hs as (Ht & Ho & He). change (Sbe.SbeLoginResponse (get32 (put32 t ++ o :: put_char32 e ++ rest)) o
        (get_char32 (put_char32 e ++ rest)) = Sbe.SbeLoginResponse t o e).
      rewrite get_put32 by done. f_equal. apply get_put_char32, He.
    + change (Sbe.SbeTokenBindRequest (get32 (put32 t ++ rest)) = Sbe.SbeTokenBindRequest t). by rewrite get_put32.
    + destruct Hs as (Hi & Ht & Hq & Hp). do 5 (destruct t as [|? t]; try discriminate Ht).
      change (Sbe.SbeOrder (get32 (put32 i ++ put_chars [a0; a1; a2; a3] ++ put32 q ++ put32 p ++ action_byte a :: rest))
        (get_chars (put_chars [a0; a1; a2; a3])) (get32 (put32 q ++ put32 p ++ action_byte a :: rest))
        (get32 (put32 p ++ action_byte a :: rest)) (action_of_byte (action_byte a)) =
        Sbe.SbeOrder i [a0; a1; a2; a3] q p a).
      rewrite !get_put32, get_put_chars by done. by destruct a.
    + destruct Hs as (H1 & H2 & H3 & H4).
      change (Sbe.SbeOrderStatus (get32 (put32 i1 ++ put32 i2 ++ put32 q ++ put32 p ++ put32 (state_word st) ++ rest))
        (get32 (put32 i2 ++ put32 q ++ put32 p ++ put32 (state_word st) ++ rest))
        (get32 (put32 q ++ put32 p ++ put32 (state_word st) ++ rest)) (get32 (put32 p ++ put32 (state_word st) ++ rest))
        (state_of_word (get32 (put32 (state_word st) ++ rest))) = Sbe.SbeOrderStatus i1 i2 q p st).
      rewrite !get_put32; try done; [by rewrite state_word_roundtrip|]. unfold is_u32. destruct st; cbn; lia.
    + destruct Hs as (Ht & Hp). do 5 (destruct t as [|? t]; try discriminate Ht).
      change (Sbe.SbeTickerPrice (get_chars (put_chars [a; a0; a1; a2])) (get32 (put32 p ++ rest)) =
        Sbe.SbeTickerPrice [a; a0; a1; a2] p). by rewrite get_put32, get_put_chars.
Qed.

Lemma sbe_roundtrip_witness : exists b, Sbe.serialize sbe_encode (MOrder (sample_order Buy)) = Ok b /\ b <> [] /\
  forall rest, Sbe.deserialize sbe_template sbe_decode (b ++ rest) = Ok ([MOrder (sample_order Buy)], inl (Z.of_nat (length b))).
Proof.
  refine (proj1 (Sbe.sbe_roundtrip sbe_encode sbe_template sbe_decode sbe_encode_reads (MOrder (sample_order Buy)) _)).
  split_and!; cbn; try done; unfold is_u32; lia.
Defined.

Lemma sbe_cancel_not_expressible_witness :
  Sbe.serialize sbe_encode (MOrder (sample_order Cancel)) = Err (Throw "OrderAction type").
Proof.
  apply (Sbe.sbe_cancel_not_expressible sbe_encode (sample_order Cancel) (mkOrderStatus 1 2 3 4 Cancelled)); [by left|reflexivity].
Defined.

End Codecs.
