(* ===== verification/Session.v ===== *)
(** * Sessions

    Models [SessionBus] and [SessionChannel] (server/src/ipc),
    [Authenticator], [NetworkSessionManager] and [TrustedSessionManager]
    (server/src/session).  Channels live in a store indexed by connection id
    and are referred to by id, as the program refers to them by shared
    pointer.  The manager's maps are [folly::AtomicHashMap]s, which, as their
    documentation says, never take a cell back: [erase] marks the key and
    keeps the value (so an erased channel stays as it is, open or closed)
    until [clear], and [insert] of a new key throws once the cells are used
    up.  The database, the transports and the number of cells a map can use
    are parameters. *)

From S2P Require Import Prelude SlotId Types.
From S2P Require Import Framing Channel.

Module SessionBus.

(** What the session posts to the server bus
    (server/src/domain/server_auth_messages.hpp). *)
Inductive Out :=
| OutLogin (connectionId : Z) (request : LoginRequest)
| OutTokenBind (connectionId : Z) (request : TokenBindRequest)
| OutOrder (o : ServerOrder)
| OutChannelStatus (clientId : option Z) (connectionId : Z) (status : Channel.ConnectionStatus).

(** The messages a channel can post to its bus. *)
Inductive In :=
| InLogin (r : LoginRequest)
| InTokenBind (r : TokenBindRequest)
| InOrder (o : Order)
| InStatus (connectionId : Z) (status : Channel.ConnectionStatus)
| InOther.

Record State := mkState { connId_ : Z; clientId_ : option Z }.

Definition authenticate (s : State) (clientId : Z) : State := mkState (connId_ s) (Some clientId).

Definition isAuthenticated (s : State) : bool := match clientId_ s with Some _ => true | None => false end.

Definition post (s : State) (message : In) : list Out :=
  match message with
  | InLogin r =>
      if isAuthenticated s then [OutChannelStatus (clientId_ s) (connId_ s) Channel.ConnError]
      else [OutLogin (connId_ s) r]
  | InTokenBind r =>
      if isAuthenticated s then [OutChannelStatus (clientId_ s) (connId_ s) Channel.ConnError]
      else [OutTokenBind (connId_ s) r]
  | InOrder o =>
      match clientId_ s with
      | None => [OutChannelStatus (clientId_ s) (connId_ s) Channel.ConnError]
      | Some c => [OutOrder (mkServerOrder c o)]
      end
  | InStatus conn st => [OutChannelStatus (clientId_ s) conn st]
  | InOther => []
  end.

(** An order reaches the server only from an authenticated session, and under
    that session's client id. *)
Lemma orders_are_authenticated s m o : OutOrder o ∈ post s m ->
  clientId_ s = Some (so_clientId o) /\ m = InOrder (so_order o).
Proof.
  destruct m as [r|r|o'|conn st|]; cbn; unfold isAuthenticated; destruct (clientId_ s) as [c|];
    rewrite ?list_elem_of_singleton; try done; try (intros H; by apply not_elem_of_nil in H).
  intros [= ->]. done.
Qed.

End SessionBus.

(** [Authenticator::post]; [checkCredentials] is the database's. *)
Module Authenticator.
Section Authenticator.
Context (checkCredentials : string -> string -> Z + StatusCode).

Record ServerLoginResponse := mkServerLoginResponse {
  slr_connectionId : Z; slr_clientId : Z; slr_ok : bool; slr_error : string
}.

Definition post (connectionId : Z) (request : LoginRequest) : ServerLoginResponse :=
  match checkCredentials (lr_name request) (lr_password request) with
  | inl clientId => mkServerLoginResponse connectionId clientId true ""
  | inr e => mkServerLoginResponse connectionId 0 false (toString_StatusCode e)
  end.
End Authenticator.
End Authenticator.

Module NetworkSessionManager.

Definition MAX_CONNECTIONS : Z := 10.

(** What was written to a channel; a status is tagged with the client it is
    for. *)
Inductive Written := WLogin (r : LoginResponse) | WStatus (clientId : Z) (s : OrderStatus).

Record Chan := mkChan { ch_client : option Z; ch_open : bool; ch_written : list Written }.

Record Session := mkSession {
  ss_clientId : Z; ss_token : Z; ss_up : option Z; ss_down : option Z
}.

(** The cells each map has used since it was last cleared; an erased key's
    cell stays used. *)
Record Cells := mkCells { upCells : Z; downCells : Z; sessionCells : Z }.

Definition noCells : Cells := mkCells 0 0 0.

(** [issued] records, for the statements, which client a token was generated
    for. *)
Record State := mkState {
  chans : gmap Z Chan;
  unauthorizedUpstreamMap_ : gset Z;
  unauthorizedDownstreamMap_ : gset Z;
  sessionsMap_ : gmap Z Session;
  nextConnection : Z;
  nextToken : Z;
  issued : gmap Z Z;
  cells : Cells
}.

Definition init : State := mkState ∅ ∅ ∅ ∅ 0 0 ∅ noCells.

Definition with_chans (s : State) c := mkState c (unauthorizedUpstreamMap_ s) (unauthorizedDownstreamMap_ s)
  (sessionsMap_ s) (nextConnection s) (nextToken s) (issued s) (cells s).
Definition with_up (s : State) u := mkState (chans s) u (unauthorizedDownstreamMap_ s)
  (sessionsMap_ s) (nextConnection s) (nextToken s) (issued s) (cells s).
Definition with_down (s : State) d := mkState (chans s) (unauthorizedUpstreamMap_ s) d
  (sessionsMap_ s) (nextConnection s) (nextToken s) (issued s) (cells s).
Definition with_sessions (s : State) m := mkState (chans s) (unauthorizedUpstreamMap_ s)
  (unauthorizedDownstreamMap_ s) m (nextConnection s) (nextToken s) (issued s) (cells s).

(** [genConnectionId], [genToken] (common/src/utils/id_utils.hpp): 64-bit
    counters cut to 32 bits. *)
Definition genConnectionId (s : State) : State * Z :=
  (mkState (chans s) (unauthorizedUpstreamMap_ s) (unauthorizedDownstreamMap_ s) (sessionsMap_ s)
     (u64 (nextConnection s + 1)) (nextToken s) (issued s) (cells s), u32 (nextConnection s)).
Definition genToken (s : State) : State * Z :=
  (mkState (chans s) (unauthorizedUpstreamMap_ s) (unauthorizedDownstreamMap_ s) (sessionsMap_ s)
     (nextConnection s) (u64 (nextToken s + 1)) (issued s) (cells s), u32 (nextToken s)).

Definition record_issued (s : State) (token client : Z) : State :=
  mkState (chans s) (unauthorizedUpstreamMap_ s) (unauthorizedDownstreamMap_ s) (sessionsMap_ s)
    (nextConnection s) (nextToken s) (<[token := client]> (issued s)) (cells s).

Definition update (s : State) (id : Z) (f : Chan -> Chan) : State :=
  with_chans s (alter f id (chans s)).

(** [Channel::write] on a channel that is not connected does nothing. *)
Definition chan_write (w : Written) (c : Chan) : Chan :=
  if ch_open c then mkChan (ch_client c) (ch_open c) (ch_written c ++ [w]) else c.

(** [SessionChannel::write(OrderStatus)] *)
Definition chan_write_status (client : Z) (st : OrderStatus) (c : Chan) : Chan :=
  match ch_client c with None => c | Some _ => chan_write (WStatus client st) c end.

(** [SessionChannel::authenticate] *)
Definition chan_authenticate (client : Z) (c : Chan) : Chan :=
  match ch_client c with Some _ => c | None => mkChan (Some client) (ch_open c) (ch_written c) end.

Definition chan_close (c : Chan) : Chan := mkChan (ch_client c) false (ch_written c).

Definition with_cells (s : State) c := mkState (chans s) (unauthorizedUpstreamMap_ s) (unauthorizedDownstreamMap_ s)
  (sessionsMap_ s) (nextConnection s) (nextToken s) (issued s) c.

Definition use_up (s : State) : State :=
  with_cells s (mkCells (upCells (cells s) + 1) (downCells (cells s)) (sessionCells (cells s))).
Definition use_down (s : State) : State :=
  with_cells s (mkCells (upCells (cells s)) (downCells (cells s) + 1) (sessionCells (cells s))).
Definition use_session (s : State) : State :=
  with_cells s (mkCells (upCells (cells s)) (downCells (cells s)) (sessionCells (cells s) + 1)).

Definition fresh_chan : Chan := mkChan None true [].

Section Maps.
(** How many cells a map made for [MAX_CONNECTIONS] entries can use is the
    library's: [full n] tells that a new key does not fit when [n] cells are
    used. *)
Context (full : Z -> bool).

Definition hash_map_full : fault := Throw "AtomicHashMap is full".

Definition acceptUpstream (s : State) (stop : bool) : res State :=
  if stop then Ok s
  else
    let '(s, id) := genConnectionId s in
    if MAX_CONNECTIONS <=? Z.of_nat (size (sessionsMap_ s)) then Ok s
    else if full (upCells (cells s)) then Err hash_map_full
    else Ok (use_up (with_up (with_chans s (<[id := fresh_chan]> (chans s))) ({[id]} ∪ unauthorizedUpstreamMap_ s))).

Definition acceptDownstream (s : State) (stop : bool) : res State :=
  if stop then Ok s
  else
    let '(s, id) := genConnectionId s in
    if MAX_CONNECTIONS <=? Z.of_nat (size (sessionsMap_ s)) then Ok s
    else if full (downCells (cells s)) then Err hash_map_full
    else Ok (use_down (with_down (with_chans s (<[id := fresh_chan]> (chans s))) ({[id]} ∪ unauthorizedDownstreamMap_ s))).

(** [close()]: every channel in the maps is closed; the erased ones end with
    [clear], which destroys the values of every cell. *)
Definition close (s : State) : State :=
  mkState (chan_close <$> chans s) ∅ ∅ ∅ (nextConnection s) (nextToken s) (issued s) noCells.

(** [post(CRef<ServerOrderStatus>)] *)
Definition postStatus (s : State) (stop : bool) (status : ServerOrderStatus) : State :=
  if stop then s
  else
    match sessionsMap_ s !! sos_clientId status with
    | None => s
    | Some session =>
        match ss_down session with
        | Some d => update s d (chan_write_status (sos_clientId status) (sos_orderStatus status))
        | None => s
        end
    end.

(** [post(CRef<ServerLoginResponse>)] *)
Definition postLogin (s : State) (stop : bool) (r : Authenticator.ServerLoginResponse) : res State :=
  if stop then Ok s
  else
    let conn := Authenticator.slr_connectionId r in
    let client := Authenticator.slr_clientId r in
    if bool_decide (conn ∈ unauthorizedUpstreamMap_ s) then
      let s := with_up s (unauthorizedUpstreamMap_ s ∖ {[conn]}) in
      if negb (Authenticator.slr_ok r) then
        Ok (update s conn (chan_write (WLogin (mkLoginResponse 0 false (Authenticator.slr_error r)))))
      else
        let '(s, token) := genToken s in
        match sessionsMap_ s !! client with
        | Some _ => Ok (update s conn (chan_write (WLogin (mkLoginResponse 0 false "Already authorized"))))
        | None =>
            if full (sessionCells (cells s)) then Err hash_map_full
            else
              let s := record_issued (with_sessions s (<[client := mkSession client token (Some conn) None]> (sessionsMap_ s)))
                         token client in
              let s := update (use_session s) conn (chan_write (WLogin (mkLoginResponse token true ""))) in
              Ok (update s conn (chan_authenticate client))
        end
    else Ok s.

(** [std::find_if] over the sessions; the order of the map is unspecified,
    and no two sessions share a token. *)
Definition find_token (s : State) (token : Z) : option (Z * Session) :=
  head (filter (fun kv => ss_token kv.2 = token) (map_to_list (sessionsMap_ s))).

(** [post(CRef<ServerTokenBindRequest>)] *)
Definition postTokenBind (s : State) (stop : bool) (conn token : Z) : State :=
  if stop then s
  else if bool_decide (conn ∈ unauthorizedDownstreamMap_ s) then
    let s := with_down s (unauthorizedDownstreamMap_ s ∖ {[conn]}) in
    match find_token s token with
    | None => update s conn (chan_write (WLogin (mkLoginResponse 0 false "Invalid token")))
    | Some (key, session) =>
        match ss_down session with
        | None =>
            let s := with_sessions s (<[key := mkSession (ss_clientId session) (ss_token session) (ss_up session) (Some conn)]>
                       (sessionsMap_ s)) in
            let s := update s conn (chan_authenticate (ss_clientId session)) in
            update s conn (chan_write (WLogin (mkLoginResponse token true "")))
        | Some _ =>
            let s := update s conn (chan_write (WLogin (mkLoginResponse 0 false "Already connected"))) in
            update s conn chan_close
        end
    end
  else s.

(** [post(CRef<ChannelStatusEvent>)]: the pointers are not checked. *)
Definition postChannelStatus (s : State) (clientId : option Z) (conn : Z) (status : Channel.ConnectionStatus)
    : res State :=
  match status with
  | Channel.Connected => Ok s
  | _ =>
      let! s :=
        match clientId with
        | Some c =>
            match sessionsMap_ s !! c with
            | Some session =>
                match ss_down session with
                | None => Err NullDeref
                | Some d =>
                    let s := update s d chan_close in
                    match ss_up session with
                    | None => Err NullDeref
                    | Some u =>
                        let s := update s u chan_close in
                        Ok (with_sessions s (delete c (sessionsMap_ s)))
                    end
                end
            | None => Ok s
            end
        | None => Ok s
        end in
      Ok (with_down (with_up s (unauthorizedUpstreamMap_ s ∖ {[conn]}))
            (unauthorizedDownstreamMap_ s ∖ {[conn]}))
  end.

(** ** Runs *)

Inductive Event :=
| EvUp
| EvDown
| EvStatus (st : ServerOrderStatus)
| EvLogin (r : Authenticator.ServerLoginResponse)
| EvBind (conn token : Z)
| EvChannel (clientId : option Z) (conn : Z) (st : Channel.ConnectionStatus)
| EvClose.

Definition handle (s : State) (stop : bool) (e : Event) : res State :=
  match e with
  | EvUp => acceptUpstream s stop
  | EvDown => acceptDownstream s stop
  | EvStatus st => Ok (postStatus s stop st)
  | EvLogin r => postLogin s stop r
  | EvBind conn token => Ok (postTokenBind s stop conn token)
  | EvChannel c conn st => postChannelStatus s c conn st
  | EvClose => Ok (close s)
  end.

Fixpoint run (s : State) (es : list Event) : res State :=
  match es with [] => Ok s | e :: es => let! s := handle s false e in run s es end.

(** ** Isolation *)

(** How connection [conn] came to speak for client [c]. *)
Definition granted (es : list Event) (s : State) (conn c : Z) : Prop :=
  (exists r, EvLogin r ∈ es /\ Authenticator.slr_ok r = true /\ Authenticator.slr_connectionId r = conn /\
     Authenticator.slr_clientId r = c) \/
  (exists token, EvBind conn token ∈ es /\ issued s !! token = Some c).

Definition chan_ok (es : list Event) (s : State) (conn : Z) (ch : Chan) : Prop :=
  (forall c st, WStatus c st ∈ ch_written ch -> ch_client ch = Some c) /\
  (forall c, ch_client ch = Some c -> granted es s conn c).

Record Inv (es : list Event) (s : State) : Prop := {
  nv_conn : 0 <= nextConnection s <= Z.of_nat (length es);
  nv_token : 0 <= nextToken s <= Z.of_nat (length es);
  nv_ids : forall conn ch, chans s !! conn = Some ch -> 0 <= conn < nextConnection s;
  nv_chans : forall conn ch, chans s !! conn = Some ch -> chan_ok es s conn ch;
  nv_unauth : forall conn ch, conn ∈ unauthorizedUpstreamMap_ s \/ conn ∈ unauthorizedDownstreamMap_ s ->
    chans s !! conn = Some ch -> ch_client ch = None;
  nv_session : forall c ss, sessionsMap_ s !! c = Some ss ->
    ss_clientId ss = c /\ issued s !! ss_token ss = Some c /\
    (forall d, ss_down ss = Some d -> d < nextConnection s /\ forall ch, chans s !! d = Some ch -> ch_client ch = Some c);
  nv_issued : forall token c, issued s !! token = Some c -> 0 <= token < nextToken s;
  nv_disj : unauthorizedUpstreamMap_ s ## unauthorizedDownstreamMap_ s;
  nv_dom : forall conn, conn ∈ unauthorizedUpstreamMap_ s \/ conn ∈ unauthorizedDownstreamMap_ s ->
    conn < nextConnection s
}.

(** Changes to the channels that touch neither who they speak for nor their
    statuses. *)
Definition same_owner (c c' : Chan) : Prop :=
  ch_client c' = ch_client c /\ forall cl st, WStatus cl st ∈ ch_written c' -> WStatus cl st ∈ ch_written c.

(** The channels of [s'] are those of [s] with their owners. *)
Definition owners (s s' : State) : Prop :=
  forall conn ch', chans s' !! conn = Some ch' -> exists ch, chans s !! conn = Some ch /\ same_owner ch ch'.

#[local] Arguments owners : simpl never.

Lemma granted_mono es e s s' conn c : granted es s conn c ->
  (forall token c, issued s !! token = Some c -> issued s' !! token = Some c) -> granted (e :: es) s' conn c.
Proof.
  intros [(r & H1 & H2 & H3 & H4)|(t & H1 & H2)] Hi.
  - left. exists r. split_and!; try done. by apply elem_of_cons; right.
  - right. exists t. split; [by apply elem_of_cons; right|by apply Hi].
Qed.

(** A handler that keeps the sessions, or drops some, and the channels'
    owners. *)
Lemma Inv_frame es e s s' : Inv es s ->
  owners s s' ->
  unauthorizedUpstreamMap_ s' ⊆ unauthorizedUpstreamMap_ s ->
  unauthorizedDownstreamMap_ s' ⊆ unauthorizedDownstreamMap_ s ->
  sessionsMap_ s' ⊆ sessionsMap_ s -> nextConnection s <= nextConnection s' <= nextConnection s + 1 ->
  nextToken s <= nextToken s' <= nextToken s + 1 -> issued s' = issued s -> Inv (e :: es) s'.
Proof.
  intros [H1 H2 H3 H4 H5 H6 H7 H8 H9] Hc Hu Hd Hs En Et Ei. split.
  - cbn. lia.
  - cbn. lia.
  - intros conn ch' H. destruct (Hc _ _ H) as (ch & Hch & _). specialize (H3 _ _ Hch). lia.
  - intros conn ch' H. destruct (Hc _ _ H) as (ch & Hch & Hown & Hw). destruct (H4 _ _ Hch) as [Hs1 Hs2].
    split; rewrite Hown.
    + intros c st Hin. eapply Hs1. by apply Hw.
    + intros c Hcl. eapply granted_mono; [by apply Hs2|]. by rewrite Ei.
  - intros conn ch' Hin H. destruct (Hc _ _ H) as (ch & Hch & Hown & _). rewrite Hown. eapply H5; [|done].
    destruct Hin; [left|right]; set_solver.
  - intros c ss H. eapply lookup_weaken in H; [|exact Hs]. destruct (H6 _ _ H) as (Ha & Hb & Hd'). rewrite Ei.
    split_and!; try done. intros d Hdn. destruct (Hd' _ Hdn) as [Hlt Hcl]. split; [lia|].
    intros ch' Hch'. destruct (Hc _ _ Hch') as (ch & Hch & Hown & _). rewrite Hown. by apply Hcl.
  - intros t c H. rewrite Ei in H. specialize (H7 _ _ H). lia.
  - set_solver.
  - intros conn Hin. assert (conn < nextConnection s); [|lia]. apply H9. set_solver.
Qed.

Lemma same_owner_refl c : same_owner c c.
Proof. by split. Qed.

Lemma same_owner_login r c : same_owner c (chan_write (WLogin r) c).
Proof.
  unfold chan_write. destruct (ch_open c); [|done]. split; [done|]. cbn. intros cl st.
  rewrite elem_of_app, list_elem_of_singleton. by intros [?|[=]].
Qed.

Lemma same_owner_close c : same_owner c (chan_close c).
Proof. by split. Qed.

Lemma same_owner_trans a b c : same_owner a b -> same_owner b c -> same_owner a c.
Proof. intros [H1 H2] [H3 H4]. split; [congruence|auto]. Qed.

Lemma owners_refl s s' : chans s' = chans s -> owners s s'.
Proof. intros E conn ch. rewrite E. intros H. exists ch. split; [done|apply same_owner_refl]. Qed.

Lemma owners_trans a b c : owners a b -> owners b c -> owners a c.
Proof.
  intros H1 H2 conn ch H. destruct (H2 _ _ H) as (x & Hx & Ho). destruct (H1 _ _ Hx) as (y & Hy & Ho').
  exists y. split; [done|]. by eapply same_owner_trans.
Qed.

Lemma owners_update s conn f : (forall c, same_owner c (f c)) -> owners s (update s conn f).
Proof.
  intros Hf id ch. cbn. rewrite lookup_alter_Some. intros [(-> & y & Hy & ->)|[Hn H]]; eexists; split; try done; apply same_owner_refl.
Qed.

(** A new connection. *)
Lemma Inv_accept es e s id u d k : Inv es s -> Z.of_nat (length es) < 2 ^ 32 -> id = u32 (nextConnection s) ->
  (u = {[id]} ∪ unauthorizedUpstreamMap_ s /\ d = unauthorizedDownstreamMap_ s \/
   u = unauthorizedUpstreamMap_ s /\ d = {[id]} ∪ unauthorizedDownstreamMap_ s) ->
  Inv (e :: es) (mkState (<[id := fresh_chan]> (chans s)) u d (sessionsMap_ s) (u64 (nextConnection s + 1)) (nextToken s) (issued s) k).
Proof.
  intros [H1 H2 H3 H4 H5 H6 H7 H8 H9] Hlt Hid Hud. rewrite u32_small in Hid by lia. subst id. rewrite u64_small by lia.
  assert (Hnot1 : nextConnection s ∉ unauthorizedUpstreamMap_ s) by (intros Hin; specialize (H9 _ (or_introl Hin)); lia).
  assert (Hnot2 : nextConnection s ∉ unauthorizedDownstreamMap_ s) by (intros Hin; specialize (H9 _ (or_intror Hin)); lia).
  split; cbn; try done; try lia.
  - intros conn ch [[<- <-]|[Hn H]]%lookup_insert_Some; [lia|]. specialize (H3 _ _ H). lia.
  - intros conn ch [[<- <-]|[Hn H]]%lookup_insert_Some.
    + split; cbn; [|done]. intros c st Hin. by apply not_elem_of_nil in Hin.
    + destruct (H4 _ _ H) as [Ha Hb]. split; [done|]. intros c Hc. by eapply granted_mono; [apply Hb|].
  - intros conn ch Hin [[<- <-]|[Hn H]]%lookup_insert_Some; [done|]. eapply H5; [|done]. set_solver.
  - intros c ss Hss. destruct (H6 _ _ Hss) as (Ha & Hb & Hc). split_and!; try done.
    intros dn Hdn. destruct (Hc _ Hdn) as [Hlt' Hcl]. split; [lia|].
    intros ch [[<- <-]|[Hn H]]%lookup_insert_Some; [lia|by apply Hcl].
  - set_solver.
  - intros conn Hin. assert (conn = nextConnection s \/ conn < nextConnection s) as [|]; [|lia|lia].
    destruct (decide (conn = nextConnection s)); [by left|right]. apply H9. set_solver.
Qed.

(** An authorized channel gets its owner: [conn] was unauthorized, so it
    carries no status yet. *)
Lemma Inv_grant es e s s' conn c ss : Inv es s ->
  (conn ∈ unauthorizedUpstreamMap_ s \/ conn ∈ unauthorizedDownstreamMap_ s) ->
  (forall id ch', id <> conn -> chans s' !! id = Some ch' -> chans s !! id = Some ch') ->
  (forall ch', chans s' !! conn = Some ch' -> exists ch, chans s !! conn = Some ch /\
     (forall cl st, WStatus cl st ∈ ch_written ch' -> WStatus cl st ∈ ch_written ch) /\
     (ch_client ch = None -> ch_client ch' = Some c)) ->
  unauthorizedUpstreamMap_ s' = unauthorizedUpstreamMap_ s ∖ {[conn]} ->
  unauthorizedDownstreamMap_ s' = unauthorizedDownstreamMap_ s ∖ {[conn]} ->
  sessionsMap_ s' = <[c := ss]> (sessionsMap_ s) -> ss_clientId ss = c -> issued s' !! ss_token ss = Some c ->
  (forall d, ss_down ss = Some d -> d = conn) ->
  nextConnection s' = nextConnection s -> nextToken s <= nextToken s' <= nextToken s + 1 ->
  (forall t x, issued s' !! t = Some x -> 0 <= t < nextToken s') ->
  (forall t x, issued s !! t = Some x -> issued s' !! t = Some x) ->
  granted (e :: es) s' conn c -> Inv (e :: es) s'.
Proof.
  intros [H1 H2 H3 H4 H5 H6 H7 H8 H9] Hun Hoth Hconn Eu Ed Es Hssc Hsst Hssd En Et Hi Him Hg.
  assert (Hold : forall id ch', chans s' !! id = Some ch' -> exists ch, chans s !! id = Some ch /\ (id <> conn -> ch = ch')).
  { intros id ch' H. destruct (decide (id = conn)) as [->|Hne].
    - destruct (Hconn _ H) as (ch & Hch & _). by exists ch.
    - exists ch'. split; [by apply Hoth|done]. }
  split.
  - rewrite En. cbn. lia.
  - cbn. lia.
  - intros id ch' H. destruct (Hold _ _ H) as (ch & Hch & _). rewrite En. by eapply H3.
  - intros id ch' H. destruct (decide (id = conn)) as [->|Hne].
    + destruct (Hconn _ H) as (ch & Hch & Hw & Hcl). pose proof (H5 _ _ Hun Hch) as Hnone. split.
      * intros c' st Hin. destruct (H4 _ _ Hch) as [Ha _]. specialize (Ha _ _ (Hw _ _ Hin)). congruence.
      * intros c' Hc'. rewrite (Hcl Hnone) in Hc'. by injection Hc' as <-.
    + destruct (H4 _ _ (Hoth _ _ Hne H)) as [Ha Hb]. split; [done|]. intros c' Hc'. eapply granted_mono; [by apply Hb|done].
  - intros id ch' Hin H. rewrite Eu, Ed in Hin. assert (id <> conn) by set_solver.
    eapply H5; [|by apply Hoth]. set_solver.
  - intros c' ss' H. rewrite Es in H. apply lookup_insert_Some in H as [[<- <-]|[Hn H]].
    + split; [done|]. split; [done|]. intros d Hd. specialize (Hssd _ Hd) as ->. rewrite En. split; [by apply H9|].
      intros ch' Hch'. destruct (Hconn _ Hch') as (ch & Hch & _ & Hcl). apply Hcl. by apply (H5 conn).
    + destruct (H6 _ _ H) as (Ha & Hb & Hc). split; [done|]. split; [by apply Him|]. intros d Hd.
      destruct (Hc _ Hd) as [Hlt Hcl]. rewrite En. split; [done|]. intros ch' Hch'.
      destruct (decide (d = conn)) as [->|Hne]; [|by apply Hcl, Hoth].
      destruct (Hconn _ Hch') as (ch & Hch & _). pose proof (H5 _ _ Hun Hch) as Hn1. rewrite (Hcl _ Hch) in Hn1. done.
  - done.
  - rewrite Eu, Ed. set_solver.
  - intros id Hin. rewrite En. apply H9. rewrite Eu, Ed in Hin. set_solver.
Qed.

Lemma find_token_Some s token key ss : find_token s token = Some (key, ss) ->
  sessionsMap_ s !! key = Some ss /\ ss_token ss = token.
Proof using Type. clear full.
  unfold find_token. intros H. apply head_Some_elem_of in H. apply list_elem_of_filter in H as [H1 H2].
  split; [by apply elem_of_map_to_list|done].
Qed.

Lemma Inv_up es s s' : Inv es s -> Z.of_nat (length es) < 2 ^ 32 - 1 -> acceptUpstream s false = Ok s' ->
  Inv (EvUp :: es) s'.
Proof.
  intros HI Hlt. pose proof (nv_conn _ _ HI). unfold acceptUpstream, genConnectionId.
  destruct (MAX_CONNECTIONS <=? _); [|destruct (full _); [done|]]; intros [= <-].
  - apply (Inv_frame es _ s); try done; [by apply owners_refl| |cbn; lia]. cbn. rewrite u64_small; lia.
  - exact (Inv_accept es EvUp s _ _ _ _ HI ltac:(lia) eq_refl (or_introl (conj eq_refl eq_refl))).
Qed.

Lemma Inv_down es s s' : Inv es s -> Z.of_nat (length es) < 2 ^ 32 - 1 -> acceptDownstream s false = Ok s' ->
  Inv (EvDown :: es) s'.
Proof.
  intros HI Hlt. pose proof (nv_conn _ _ HI). unfold acceptDownstream, genConnectionId.
  destruct (MAX_CONNECTIONS <=? _); [|destruct (full _); [done|]]; intros [= <-].
  - apply (Inv_frame es _ s); try done; [by apply owners_refl| |cbn; lia]. cbn. rewrite u64_small; lia.
  - exact (Inv_accept es EvDown s _ _ _ _ HI ltac:(lia) eq_refl (or_intror (conj eq_refl eq_refl))).
Qed.

(** A status is written to the channel of its client. *)
Lemma Inv_status es s st : Inv es s -> Inv (EvStatus st :: es) (postStatus s false st).
Proof.
  intros HI. unfold postStatus. assert (Hsame : Inv (EvStatus st :: es) s).
  { apply (Inv_frame es _ s); try done; [by apply owners_refl|lia|lia]. }
  destruct (sessionsMap_ s !! sos_clientId st) as [ss|] eqn:Es; [|done].
  destruct (ss_down ss) as [d|] eqn:Ed; [|done].
  destruct (nv_session _ _ HI _ _ Es) as (_ & _ & Hdn). destruct (Hdn _ Ed) as [_ Hcl].
  destruct Hsame as [H1 H2 H3 H4 H5 H6 H7 H8 H9].
  assert (Hown : forall id ch', alter (chan_write_status (sos_clientId st) (sos_orderStatus st)) d (chans s) !! id = Some ch' ->
    exists ch, chans s !! id = Some ch /\ ch_client ch' = ch_client ch /\
      (forall c x, WStatus c x ∈ ch_written ch' -> WStatus c x ∈ ch_written ch \/ (id = d /\ c = sos_clientId st))).
  { intros id ch'. rewrite lookup_alter_Some. intros [(-> & ch & Hch & ->)|[Hn H]].
    - exists ch. split; [done|]. unfold chan_write_status, chan_write. destruct (ch_client ch) eqn:Ec; [|by auto].
      destruct (ch_open ch); cbn; [|by auto]. split; [done|]. intros c x. rewrite elem_of_app, list_elem_of_singleton.
      intros [?|[= -> _]]; auto.
    - exists ch'. auto. }
  split; cbn; try done.
  - intros id ch' H. destruct (Hown _ _ H) as (ch & Hch & _). by eapply H3.
  - intros id ch' H. destruct (Hown _ _ H) as (ch & Hch & Hc & Hw). destruct (H4 _ _ Hch) as [Ha Hb]. split.
    + intros c x Hin. rewrite Hc. destruct (Hw _ _ Hin) as [Hin'|[-> ->]]; [by eapply Ha|by apply Hcl].
    + intros c. rewrite Hc. apply Hb.
  - intros id ch' Hin H. destruct (Hown _ _ H) as (ch & Hch & Hc & _). rewrite Hc. by eapply H5.
  - intros c ss' H. destruct (H6 _ _ H) as (Ha & Hb & Hd). split_and!; try done. intros d' Hd'.
    destruct (Hd _ Hd') as [Hl Hk]. split; [done|]. intros ch' Hch'. destruct (Hown _ _ Hch') as (ch & Hch & Hc & _).
    rewrite Hc. by apply Hk.
Qed.

Lemma Inv_login es s s' r : Inv es s -> Z.of_nat (length es) < 2 ^ 32 - 1 -> postLogin s false r = Ok s' ->
  Inv (EvLogin r :: es) s'.
Proof.
  intros HI Hlt. pose proof (nv_token _ _ HI) as Ht. unfold postLogin. case_bool_decide as Hin.
  2:{ intros [= <-]. apply (Inv_frame es _ s); try done; [by apply owners_refl|lia|lia]. }
  set (conn := Authenticator.slr_connectionId r) in *. set (c := Authenticator.slr_clientId r).
  destruct (negb (Authenticator.slr_ok r)) eqn:Eok.
  - intros [= <-]. apply (Inv_frame es _ s); try done; cbn; try lia; [|set_solver].
    eapply owners_trans; [|apply owners_update, same_owner_login]. by apply owners_refl.
  - unfold genToken. cbn [sessionsMap_ with_up]. destruct (sessionsMap_ s !! c) as [ss|] eqn:Es; [intros [= <-]|destruct (full _); [done|intros [= <-]]].
    + apply (Inv_frame es _ s); try done; cbn; try lia; [|set_solver|rewrite u64_small; lia].
      eapply owners_trans; [|apply owners_update, same_owner_login]. by apply owners_refl.
    + cbn [nextToken with_up]. rewrite u32_small by lia.
      assert (Hfresh : forall t x, issued s !! t = Some x -> t <> nextToken s)
        by (intros t x H ->; apply (nv_issued _ _ HI) in H; lia).
      eapply (Inv_grant es _ s _ conn c (mkSession c (nextToken s) (Some conn) None)); try done.
      * by left.
      * intros id ch' Hne. cbn. by rewrite !lookup_alter_ne.
      * intros ch'. cbn. rewrite lookup_alter_eq, lookup_alter_eq. destruct (chans s !! conn) as [ch|]; [|done]. cbn.
        intros [= <-]. exists ch. split; [done|]. unfold chan_authenticate, chan_write. split.
        -- intros cl st. destruct (ch_open ch); destruct (ch_client ch); cbn; try done;
             rewrite elem_of_app, list_elem_of_singleton; by intros [?|[=]].
        -- intros Hn. destruct (ch_open ch); cbn; by rewrite Hn.
      * cbn. pose proof (nv_disj _ _ HI). set_solver.
      * cbn. by rewrite lookup_insert_eq.
      * cbn. rewrite u64_small; lia.
      * intros t x. cbn. rewrite u64_small by lia. intros [[<- <-]|[Hn H]]%lookup_insert_Some; [lia|].
        apply (nv_issued _ _ HI) in H. lia.
      * intros t x H. cbn. rewrite lookup_insert_ne; [done|]. intros <-. by apply (Hfresh _ _ H).
      * left. exists r. split; [left|]. split; [by destruct (Authenticator.slr_ok r)|done].
Qed.

Lemma Inv_bind es s conn token : Inv es s -> Inv (EvBind conn token :: es) (postTokenBind s false conn token).
Proof.
  intros HI. unfold postTokenBind. case_bool_decide as Hin.
  2:{ apply (Inv_frame es _ s); try done; [by apply owners_refl|lia|lia]. }
  change (find_token (with_down s (unauthorizedDownstreamMap_ s ∖ {[conn]})) token) with (find_token s token).
  destruct (find_token s token) as [[key ss]|] eqn:Ef.
  2:{ apply (Inv_frame es _ s); try done; cbn; try lia; [|set_solver].
      eapply owners_trans; [|apply owners_update, same_owner_login]. by apply owners_refl. }
  apply find_token_Some in Ef as [Es Etk]. destruct (nv_session _ _ HI _ _ Es) as (Ek & Ei & _).
  destruct (ss_down ss) as [d|] eqn:Ed.
  { apply (Inv_frame es _ s); try done; cbn; try lia; [|set_solver].
    eapply owners_trans; [|apply owners_update, same_owner_close].
    eapply owners_trans; [|apply owners_update, same_owner_login]. by apply owners_refl. }
  rewrite Ek. eapply (Inv_grant es _ s _ conn key (mkSession key (ss_token ss) (ss_up ss) (Some conn))); try done.
  - by right.
  - intros id ch' Hne. cbn. by rewrite !lookup_alter_ne.
  - intros ch'. cbn. rewrite lookup_alter_eq, lookup_alter_eq. destruct (chans s !! conn) as [ch|]; [|done]. cbn.
    intros [= <-]. exists ch. split; [done|]. unfold chan_authenticate, chan_write. split.
    + intros cl st. destruct (ch_client ch); cbn; destruct (ch_open ch); cbn; try done;
        rewrite elem_of_app, list_elem_of_singleton; by intros [?|[=]].
    + intros Hn. rewrite Hn. cbn. by destruct (ch_open ch).
  - cbn. pose proof (nv_disj _ _ HI). set_solver.
  - cbn. intros x [= <-]. done.
  - cbn. lia.
  - intros t x. cbn. intros H. by apply (nv_issued _ _ HI) in H.
  - right. exists token. split; [left|]. cbn. by rewrite <- Etk.
Qed.

Lemma Inv_channel es s s' c conn st : Inv es s -> postChannelStatus s c conn st = Ok s' -> Inv (EvChannel c conn st :: es) s'.
Proof.
  intros HI. unfold postChannelStatus.
  assert (Hdone : forall x, owners s x -> unauthorizedUpstreamMap_ x = unauthorizedUpstreamMap_ s ->
    unauthorizedDownstreamMap_ x = unauthorizedDownstreamMap_ s -> sessionsMap_ x ⊆ sessionsMap_ s ->
    nextConnection x = nextConnection s -> nextToken x = nextToken s -> issued x = issued s ->
    Inv (EvChannel c conn st :: es) (with_down (with_up x (unauthorizedUpstreamMap_ x ∖ {[conn]}))
            (unauthorizedDownstreamMap_ x ∖ {[conn]}))).
  { intros x Hx E1 E2 E3 E4 E5 E6. apply (Inv_frame es _ s); try done; cbn; try lia; try set_solver. }
  assert (Hsame : Inv (EvChannel c conn st :: es) s).
  { apply (Inv_frame es _ s); try done; [by apply owners_refl|lia|lia]. }
  assert (Hplain : Inv (EvChannel c conn st :: es) (with_down (with_up s (unauthorizedUpstreamMap_ s ∖ {[conn]}))
            (unauthorizedDownstreamMap_ s ∖ {[conn]}))).
  { apply Hdone; try done. by apply owners_refl. }
  destruct st; [|by intros [= <-]|]; (destruct c as [c|]; [|by intros [= <-]]);
    (destruct (sessionsMap_ s !! c) as [ss|] eqn:Es; [|by intros [= <-]]);
    (destruct (ss_down ss) as [d|]; [|done]); (destruct (ss_up ss) as [u|]; [|done]); intros [= <-];
    (apply (Hdone (with_sessions (update (update s d chan_close) u chan_close) (delete c (sessionsMap_ s))));
       try done; [|by apply delete_subseteq]);
    (eapply owners_trans; [apply owners_update, same_owner_close|]);
    (eapply owners_trans; [apply owners_update, same_owner_close|]); by apply owners_refl.
Qed.

Lemma Inv_close es s : Inv es s -> Inv (EvClose :: es) (close s).
Proof.
  intros HI. apply (Inv_frame es _ s); try done; cbn; try lia; try set_solver; [|apply map_empty_subseteq].
  intros id ch'. cbn. rewrite lookup_fmap. destruct (chans s !! id) as [ch|]; [|done]. cbn. intros [= <-].
  exists ch. split; [done|apply same_owner_close].
Qed.

Lemma Inv_handle es e s s' : Inv es s -> Z.of_nat (length es) < 2 ^ 32 - 1 -> handle s false e = Ok s' -> Inv (e :: es) s'.
Proof.
  intros HI Hlt. destruct e; cbn [handle]; intros H; try (injection H as <-).
  - by eapply Inv_up.
  - by eapply Inv_down.
  - by apply Inv_status.
  - by eapply Inv_login.
  - by apply Inv_bind.
  - by eapply Inv_channel.
  - by apply Inv_close.
Qed.

Lemma Inv_no_session : Inv [] init.
Proof using Type. clear full.
  split; cbn; try done; try lia; try set_solver.
Qed.

Lemma run_inv es s0 es0 s : Inv es0 s0 -> Z.of_nat (length es0 + length es) < 2 ^ 32 - 1 ->
  run s0 es = Ok s -> Inv (rev es ++ es0) s.
Proof.
  revert s0 es0. induction es as [|e es IH]; intros s0 es0 HI Hlt; cbn; [by intros [= <-]|].
  destruct (handle s0 false e) as [s1|] eqn:E; [|done]. intros Hr. cbn in Hlt. rewrite <- app_assoc. cbn.
  apply (IH s1); [|cbn; lia|done]. eapply Inv_handle; [done|lia|done].
Qed.

(** C22: in every run of the session manager a channel carries order statuses
    of one client only, the client it was authenticated for, and it was
    authenticated either by a successful login on that very connection or by
    presenting a token that had been generated for that client. *)
Theorem session_isolation es s conn ch : Z.of_nat (length es) < 2 ^ 32 - 1 ->
  run init es = Ok s -> chans s !! conn = Some ch ->
  (forall c st, WStatus c st ∈ ch_written ch -> ch_client ch = Some c) /\
  (forall c, ch_client ch = Some c ->
    (exists r, EvLogin r ∈ es /\ Authenticator.slr_ok r = true /\ Authenticator.slr_connectionId r = conn /\
       Authenticator.slr_clientId r = c) \/
    (exists token, EvBind conn token ∈ es /\ issued s !! token = Some c)).
Proof.
  intros Hlt Hr Hch. apply (run_inv es init [] s Inv_no_session) in Hr; [|done]. rewrite app_nil_r in Hr.
  destruct (nv_chans _ _ Hr _ _ Hch) as [H1 H2]. split; [done|]. intros c Hc.
  destruct (H2 c Hc) as [(r & Hin & Hx)|(t & Hin & Hx)].
  - left. exists r. split; [|done]. rewrite list_elem_of_In in *. by apply in_rev.
  - right. exists t. split; [|done]. rewrite list_elem_of_In in *. by apply in_rev.
Qed.

End Maps.

(** A map that can use sixteen cells. *)
Definition sixteen (n : Z) : bool := 16 <=? n.

Definition ok_login (conn client : Z) : Event := EvLogin (Authenticator.mkServerLoginResponse conn client true "").
Definition sample_status : OrderStatus := mkOrderStatus 5 6 7 8 Accepted.

(** A client logs in on connection 0, binds connection 1 and is sent a
    status. *)
Definition session_run : list Event :=
  [EvUp; EvDown; ok_login 0 9; EvBind 1 0; EvStatus (mkServerOrderStatus 9 sample_status)].

Definition session_state : State :=
  match run sixteen init session_run with Ok s => s | Err _ => init end.

Lemma session_isolation_witness :
  exists ch, chans session_state !! 1 = Some ch /\
    ch_written ch = [WLogin (mkLoginResponse 0 true ""); WStatus 9 sample_status] /\ ch_client ch = Some 9.
Proof.
  eexists. split; [vm_compute; reflexivity|]. split; [reflexivity|].
  eapply (proj1 (session_isolation sixteen session_run session_state 1 _ ltac:(cbn; lia) ltac:(vm_compute; reflexivity)
     ltac:(vm_compute; reflexivity)) 9 sample_status).
  right. left.
Defined.

(** A status event of a client that has logged in and has not bound its
    downstream yet dereferences a null pointer: a logged-in client that
    repeats its login, which the session bus answers with such an event,
    takes the server down. *)
Theorem half_bound_session_crashes : exists s,
  run sixteen init [EvUp; ok_login 0 9] = Ok s /\
  SessionBus.post (SessionBus.mkState 0 (Some 9)) (SessionBus.InLogin (mkLoginRequest "a" "b")) =
    [SessionBus.OutChannelStatus (Some 9) 0 Channel.ConnError] /\
  handle sixteen s false (EvChannel (Some 9) 0 Channel.ConnError) = Err NullDeref.
Proof. eexists. split; [vm_compute; reflexivity|]. by split. Qed.

(** Tokens are consecutive numbers, so a connection that never logged in
    can bind itself as the downstream of a client that has just logged in: it
    receives that client's order statuses, and the client's own token is then
    refused. *)
Theorem guessed_token_takes_downstream : exists s attacker victim,
  run sixteen init [EvUp; EvDown; EvDown; ok_login 0 9; EvBind 1 0; EvBind 2 0;
            EvStatus (mkServerOrderStatus 9 sample_status)] = Ok s /\
  chans s !! 1 = Some attacker /\ WStatus 9 sample_status ∈ ch_written attacker /\
  chans s !! 2 = Some victim /\ ch_written victim = [WLogin (mkLoginResponse 0 false "Already connected")] /\
  ch_open victim = false.
Proof.
  eexists _, _, _. split; [vm_compute; reflexivity|]. split; [vm_compute; reflexivity|]. split; [right; left|].
  split; [vm_compute; reflexivity|]. by split.
Qed.

(** A login that is refused is logged as "closing channel": the channel gets
    the answer and stays open, nobody will ever close it before the server
    stops, and its cell is not given back. *)
Definition refuse (conn : Z) : list Event := [EvUp; EvLogin (Authenticator.mkServerLoginResponse conn 0 false "Invalid password")].

Theorem refused_channel_stays_open : exists s ch, run sixteen init (refuse 0) = Ok s /\
  unauthorizedUpstreamMap_ s = ∅ /\ sessionsMap_ s = ∅ /\ upCells (cells s) = 1 /\
  chans s !! 0 = Some ch /\ ch_open ch = true /\ ch_written ch = [WLogin (mkLoginResponse 0 false "Invalid password")].
Proof. eexists _, _. split; [vm_compute; reflexivity|]. by split_and!. Qed.

(** Connections that come and go use the cells up: with no session and nobody
    connected the next connection makes the insert throw. *)
Definition churn (n : nat) : list Event :=
  flat_map (fun i => [EvUp; EvChannel None (Z.of_nat i) Channel.Disconnected]) (seq 0 n).

Theorem churn_fills_the_map : exists s, run sixteen init (churn 16) = Ok s /\
  unauthorizedUpstreamMap_ s = ∅ /\ sessionsMap_ s = ∅ /\ handle sixteen s false EvUp = Err hash_map_full.
Proof. eexists. split; [vm_compute; reflexivity|]. by split_and!. Qed.

End NetworkSessionManager.

(** [TrustedSessionManager]: one client, no authentication; [tx] is
    [syncTx] of the downstream transport. *)
Module TrustedSessionManager.
Section Trusted.
Context {Transport : Type} (tx : Transport -> OrderStatus -> Transport * IoResult) (t_close : Transport -> Transport).

Inductive Out := OutError (e : InternalError) | OutServerOrder (o : ServerOrder).

Record State := mkState { order_ : Order; upChannel_ : option Transport; downChannel_ : option Transport }.

Definition acceptUpstream (s : State) (t : Transport) : State := mkState (order_ s) (Some t) (downChannel_ s).
Definition acceptDownstream (s : State) (t : Transport) : State := mkState (order_ s) (upChannel_ s) (Some t).

Definition close (s : State) : State :=
  mkState (order_ s) (option_map t_close (upChannel_ s)) (option_map t_close (downChannel_ s)).

Definition postChannelStatus (s : State) (stop : bool) (st : Channel.ConnectionStatus) : State :=
  if stop then s else match st with Channel.Connected => s | _ => close s end.

(** A read has completed; its bytes are already in [order_]. *)
Definition postIo (s : State) (stop : bool) (r : IoResult) : list Out :=
  if stop then []
  else if negb (io_ok r) then [OutError (mkInternalError SError "Failed to read from shm")]
  else [OutServerOrder (mkServerOrder 0 (order_ s))].

(** The downstream pointer is not checked. *)
Definition postStatus (s : State) (stop : bool) (st : ServerOrderStatus) : res (State * list Out) :=
  if stop then Ok (s, [])
  else
    match downChannel_ s with
    | None => Err NullDeref
    | Some t =>
        let '(t, r) := tx t (sos_orderStatus st) in
        Ok (mkState (order_ s) (upChannel_ s) (Some t),
            if io_ok r then [] else [OutError (mkInternalError SError "Failed to write ServerOrderStatus to shm")])
    end.

(** Once both channels are accepted every handler completes and keeps them. *)
Lemma trusted_total s stop st t : downChannel_ s = Some t ->
  exists s' out, postStatus s stop st = Ok (s', out) /\ is_Some (downChannel_ s').
Proof.
  intros H. unfold postStatus. destruct stop; [by eexists _, _; rewrite H|]. rewrite H.
  destruct (tx t (sos_orderStatus st)). by eexists _, _.
Qed.
End Trusted.
End TrustedSessionManager.
