(* ===== verification/Fifo.v ===== *)
(** * Bounded queues of messages

    The interface a component has to the queue it shares with another
    thread: [Fifo] are the two calls, [FifoOk] what they promise when each
    call runs as a whole, for the clients' proofs.  [SequencedSPSC] over
    messages of one trivially copyable type ([write<T>], [read<T>] of
    common/src/containers/sequenced_spsc.hpp) implements it. *)

From S2P Require Import Prelude HugeArray SequencedSPSC.

Class Fifo (Q A : Type) := {
  fifo_write : Q -> A -> Q * bool;
  fifo_read : Q -> Q * option A
}.

(** [fifo_holds q l]: the queue holds the messages [l], oldest first.  [fits]
    are the values of the message type, [cap] is the capacity. *)
Class FifoOk (Q A : Type) `{Fifo Q A} (cap : Z) (fits : A -> Prop) := {
  fifo_holds : Q -> list A -> Prop;
  fifo_bound q l : fifo_holds q l -> Z.of_nat (length l) <= cap;
  fifo_write_ok q l a : fifo_holds q l -> fits a -> Z.of_nat (length l) < cap ->
    exists q', fifo_write q a = (q', true) /\ fifo_holds q' (l ++ [a]);
  fifo_write_full q l a : fifo_holds q l -> fits a -> Z.of_nat (length l) = cap ->
    fifo_write q a = (q, false);
  fifo_read_ok q l a : fifo_holds q (a :: l) -> exists q', fifo_read q = (q', Some a) /\ fifo_holds q' l;
  fifo_read_empty q : fifo_holds q [] -> fifo_read q = (q, None)
}.

(** The object representation of a message type of [sizeof_] bytes. *)
Class Codec (A : Type) := {
  sizeof_ : nat;
  put : A -> list Z;
  get : list Z -> A
}.

Class CodecOk (A : Type) `{Codec A} (fits : A -> Prop) : Prop := {
  put_length a : length (put a) = sizeof_;
  put_get a : fits a -> get (put a) = a
}.

(** A [uint32_t], little-endian. *)
#[export] Instance u32_codec : Codec Z := {|
  sizeof_ := 4;
  put x := [x mod 256; x / 256 mod 256; x / 256 / 256 mod 256; x / 256 / 256 / 256];
  get b := nth 0 b 0 + 256 * (nth 1 b 0 + 256 * (nth 2 b 0 + 256 * nth 3 b 0))
|}.

#[export] Instance u32_codec_ok : CodecOk Z (fun x => 0 <= x < 2 ^ 32).
Proof. split; [done|]. intros a _. cbn [get put u32_codec nth].
  pose proof (Z.div_mod a 256). pose proof (Z.div_mod (a / 256) 256). pose proof (Z.div_mod (a / 256 / 256) 256). lia.
Qed.

Section Spsc.
Context (SlotCount bits : Z) (Hpow : SlotCount = 2 ^ bits) (Hbits : 1 <= bits <= 32).
Context {A : Type} `{CA : Codec A} (fits : A -> Prop) `{CO : !CodecOk A fits} (Hsize : (sizeof_ <= Spsc.MAX_DATA_SIZE)%nat).

Abbreviation Queue := Spsc.Queue.
Abbreviation Inv := (Spsc.Inv SlotCount).

(** [write<T>] and [read<T>]. *)
#[local] Instance spsc_fifo : Fifo Queue A := {|
  fifo_write q a := Spsc.write SlotCount q (put a);
  fifo_read q := let '(q, r) := Spsc.read SlotCount q (Z.of_nat sizeof_) in (q, option_map get r)
|}.

(** The queue between two calls. *)
Definition at_rest (q : Queue) (P R : list Spsc.bytes) : Prop :=
  Inv (Spsc.mkSys q (Spsc.PDone true) (Spsc.CDone None) P R).

Definition spsc_holds (q : Queue) (l : list A) : Prop :=
  Forall fits l /\ exists R, at_rest q (R ++ map put l) R.

Lemma spsc_write_ok q P R m : at_rest q P R -> Z.of_nat (length P) < Z.of_nat (length R) + SlotCount ->
  (length m <= Spsc.MAX_DATA_SIZE)%nat ->
  exists q', Spsc.write SlotCount q m = (q', true) /\ at_rest q' (P ++ [m]) R.
Proof.
  intros HI Hroom Hm. pose proof (Spsc.i_prod _ _ HI) as Hw. cbn in Hw.
  destruct (Spsc.i_free _ _ HI (Z.of_nat (length P))) as [Hs Hd]; [cbn; lia|]. cbn in Hs, Hd.
  unfold Spsc.write. rewrite (proj2 (Nat.ltb_ge _ _) Hm), Hw, (Spsc.slot_at _ _ Hpow Hbits), Hs, Z.eqb_refl.
  cbn [negb]. eexists. split; [done|].
  assert (Hdl : length (Spsc.memcpy (Spsc.data (Spsc.at_pos SlotCount q (Z.of_nat (length P)))) m) = Spsc.MAX_DATA_SIZE).
  { unfold Spsc.memcpy. rewrite length_app, length_drop, Hd. lia. }
  pose proof (Spsc.Inv_write_free _ _ Hpow Hbits _ HI (Spsc.PSeq (u64 (Z.of_nat (length P))) m)
    (Z.of_nat (length m)) _ Hroom Hdl) as H1. cbn zeta in H1. cbn [Spsc.queue Spsc.published Spsc.received Spsc.cpc] in H1.
  assert (H2 := H1 ltac:(cbn; rewrite (Spsc.at_pos_put_eq _ _ Hpow Hbits); cbn; unfold Spsc.memcpy;
    rewrite take_app_length; split_and!; done || lia)). clear H1.
  assert (H1 := Spsc.Inv_pstep _ _ Hpow Hbits _ H2 _ _ eq_refl). cbn in H1.
  assert (H3 := Spsc.Inv_pstep _ _ Hpow Hbits _ H1 _ _ eq_refl). cbn in H3. clear H1 H2.
  rewrite !Spsc.slot_put in H3. unfold at_rest, Spsc.put_slot in *. cbn in *. by rewrite insert_insert_eq, !Hw in H3.
Qed.

Lemma spsc_write_full q P R m : at_rest q P R -> Z.of_nat (length P) = Z.of_nat (length R) + SlotCount ->
  Spsc.write SlotCount q m = (q, false).
Proof.
  intros HI E. pose proof (Spsc.i_prod _ _ HI) as Hw. cbn in Hw. unfold Spsc.write.
  destruct (Spsc.MAX_DATA_SIZE <? length m)%nat; [done|]. rewrite Hw, (Spsc.slot_at _ _ Hpow Hbits).
  destruct (Z.eqb_spec (Spsc.seq (Spsc.at_pos SlotCount q (Z.of_nat (length P)))) (u64 (Z.of_nat (length P)))) as [Es|]; [|done].
  apply (Spsc.free_test _ _ Hpow Hbits _ HI) in Es. cbn in Es. lia.
Qed.

Lemma spsc_read_ok q R m rest mx : at_rest q (R ++ m :: rest) R -> Z.of_nat (length m) <= mx ->
  exists q', Spsc.read SlotCount q mx = (q', Some m) /\ at_rest q' (R ++ m :: rest) (R ++ [m]).
Proof.
  intros HI Hmx. pose proof (Spsc.i_cons _ _ HI) as Hr. cbn in Hr.
  assert (Hm : (R ++ m :: rest) !! length R = Some m) by (by rewrite lookup_app_r, Nat.sub_diag by lia).
  destruct (Spsc.i_full _ _ HI _ _ Hm) as (Hs & Hsz & Hlen & Hd & Htk); [cbn; lia|]. cbn in Hs, Hsz, Hlen, Hd, Htk.
  unfold Spsc.read. rewrite Hr, (Spsc.slot_at _ _ Hpow Hbits), (Spsc.u64_succ), Hs, Z.eqb_refl, Hsz.
  cbn [negb]. destruct (Z.ltb_spec mx (Z.of_nat (length m))); [lia|]. rewrite Nat2Z.id, Htk.
  eexists. split; [done|].
  assert (Hlt : Z.of_nat (length R) < Z.of_nat (length (R ++ m :: rest))) by (rewrite length_app; cbn [length]; lia).
  pose proof (Spsc.Inv_receive _ _ Hpow Hbits _ HI m Hlt Hm Hr) as H1. cbn in H1.
  assert (H3 := Spsc.Inv_cstep _ _ Hpow Hbits _ H1 _ _ eq_refl). cbn in H3. clear H1.
  apply (Spsc.Inv_consumer_local _ _) with (pc := Spsc.CDone None) in H3; [|exact (Spsc.i_cons _ _ H3)].
  cbn in H3. unfold at_rest, Spsc.put_slot in *. cbn. by rewrite Hsz, Hr, Spsc.u64_succ, <- (Spsc.u64_addN SlotCount) in H3.
Qed.

Lemma spsc_read_empty q R mx : at_rest q R R -> Spsc.read SlotCount q mx = (q, None).
Proof.
  intros HI. pose proof (Spsc.i_cons _ _ HI) as Hr. cbn in Hr. unfold Spsc.read.
  rewrite Hr, (Spsc.slot_at _ _ Hpow Hbits), Spsc.u64_succ.
  destruct (Z.eqb_spec (Spsc.seq (Spsc.at_pos SlotCount q (Z.of_nat (length R)))) (u64 (Z.of_nat (length R) + 1))) as [Es|]; [|done].
  apply (Spsc.full_test _ _ Hpow Hbits _ HI) in Es. cbn in Es. lia.
Qed.

#[local] Instance spsc_fifo_ok : FifoOk Queue A SlotCount fits.
Proof.
  refine {| fifo_holds := spsc_holds |}.
  - intros q l (_ & R & HI). pose proof (Spsc.i_window _ _ HI) as Hw. cbn in Hw.
    rewrite length_app, length_map in Hw. lia.
  - intros q l a (Hf & R & HI) Ha Hlt.
    destruct (spsc_write_ok q _ R (put a) HI) as (q' & E & HI').
    + rewrite length_app, length_map. lia.
    + by rewrite put_length.
    + exists q'. split; [done|]. split; [apply Forall_app; by split; [|constructor]|]. exists R. by rewrite map_app, (assoc_L app).
  - intros q l a (Hf & R & HI) Ha E. apply (spsc_write_full q _ R _ HI). rewrite length_app, length_map. lia.
  - intros q l a (Hf & R & HI). apply Forall_cons in Hf as [Ha Hf].
    destruct (spsc_read_ok q R (put a) (map put l) (Z.of_nat sizeof_) HI) as (q' & E & HI'); [by rewrite put_length|].
    exists q'. cbn [fifo_read spsc_fifo]. rewrite E. cbn. rewrite put_get by done. split; [done|]. split; [done|].
    exists (R ++ [put a]). by rewrite <- (assoc_L app).
  - intros q (_ & R & HI). cbn [fifo_read spsc_fifo]. rewrite app_nil_r in HI. by rewrite (spsc_read_empty q R _ HI).
Defined.

Lemma spsc_holds_init : spsc_holds (Spsc.init SlotCount) [].
Proof. split; [done|]. exists []. apply (Spsc.Inv_start _ _ Hpow Hbits). Qed.
End Spsc.
