(* ===== verification/Telemetry.v ===== *)
(** * Telemetry

    Models [TelemetryMsg] and its constructors (common/src/types/
    telemetry_types.hpp, common/src/utils/telemetry_utils.hpp), the latency
    histogram [RttTracker] (common/src/utils/rtt_tracker.hpp), the monitor's
    [LatencyTracker] (monitor/src/latency_tracker.hpp) and the number
    formatting of common/src/utils/string_utils.hpp.  Floating point is a
    parameter: [scale] is the product of a cycle count and [nsPerCycle] cut
    to 64 bits. *)

From Stdlib Require Import Ascii.
From stdpp Require Import pretty.
From S2P Require Import Prelude Types.

Module Telemetry.

Inductive Source := FromServer | FromClient.

(** The payload is a union tagged by [TelemetryType]. *)
Inductive Payload :=
| Startup (pid coreId : Z) (buildInfo : list ascii)
| OrderLatency (id created fulfilled notified ordersPlaced ordersFulfilled : Z)
| Runtime (ts rps avgLatNs : Z)
| Profiling (waitSpins ftxWait ftxWake maxCallNs : Z)
| Log (level : Z) (msg : list ascii).

Record TelemetryMsg := mkMsg { tm_source : Source; tm_componentId : Z; tm_data : Payload }.

(** [strncpy(dst, src, n - 1); dst[n - 1] = '\0'] on an array of [n] bytes;
    [src] is the C string without its terminator. *)
Definition strncpy_z (n : nat) (src : list ascii) : list ascii :=
  let copied := take (n - 1) src in
  copied ++ replicate (n - length copied) zero.

Definition createStartupMsg (source : Source) (compId pid coreId : Z) (build : list ascii) : TelemetryMsg :=
  mkMsg source compId (Startup pid coreId (strncpy_z 40 build)).

Definition createOrderLatencyMsg (source : Source) (compId id start fulfilled notified ordersPlaced ordersFulfilled : Z)
    : TelemetryMsg :=
  mkMsg source compId (OrderLatency id start fulfilled notified ordersPlaced ordersFulfilled).

Definition createRuntimeMsg (source : Source) (compId ts rps avgLatNs : Z) : TelemetryMsg :=
  mkMsg source compId (Runtime ts rps avgLatNs).

Definition createProfilingMsg (source : Source) (compId spins wait wake maxCall : Z) : TelemetryMsg :=
  mkMsg source compId (Profiling spins wait wake maxCall).

Definition createLogMsg (source : Source) (compId level : Z) (text : list ascii) : TelemetryMsg :=
  mkMsg source compId (Log level (strncpy_z 47 text)).

(** [fromArray]: the characters before the first zero. *)
Fixpoint fromArray (arr : list ascii) : list ascii :=
  match arr with
  | [] => []
  | c :: arr => if bool_decide (c = zero) then [] else c :: fromArray arr
  end.

(** A C string has no zero inside. *)
Definition c_string (l : list ascii) : Prop := Forall (fun c => c <> zero) l.

Lemma fromArray_app l rest : c_string l -> fromArray (l ++ zero :: rest) = l.
Proof.
  induction 1 as [|c l Hc _ IH]; cbn; [done|]. by rewrite bool_decide_eq_false_2, IH.
Qed.

(** What is stored in a fixed array is read back, cut to the array. *)
Lemma strncpy_roundtrip n src : (0 < n)%nat -> c_string src ->
  fromArray (strncpy_z n src) = take (n - 1) src /\ length (strncpy_z n src) = n.
Proof.
  intros Hn Hs. unfold strncpy_z. rewrite length_app, length_replicate.
  assert (Hl : (length (take (n - 1) src) <= n - 1)%nat) by (rewrite length_take; lia).
  split; [|lia].
  destruct (n - length (take (n - 1) src))%nat as [|k] eqn:E; [lia|]. cbn [replicate].
  apply fromArray_app. by apply Forall_take.
Qed.

End Telemetry.

Module RttTracker.
Section RttTracker.
Context (Ranges : list Z).

Definition RangeCount : nat := S (length Ranges).

Record RttSample := mkSample { sum : Z; size : Z }.

Record RttStats := mkStats { samples : list RttSample; globalMax : Z }.

Definition init : RttStats := mkStats (replicate RangeCount (mkSample 0 0)) 0.

(** [((bucket += (ns >= Ranges)), ...)] on a [uint8_t]. *)
Definition getRange (ns : Z) : Z :=
  foldl (fun bucket range => u8 (bucket + Z.b2z (range <=? ns))) 0 Ranges.

Definition logRtt (s : RttStats) (rttNs : Z) : res RttStats :=
  let bucket := Z.to_nat (getRange rttNs) in
  match samples s !! bucket with
  | None => Err OutOfBounds
  | Some smp =>
      Ok (mkStats (<[bucket := mkSample (u64 (sum smp + rttNs)) (u64 (size smp + 1))]> (samples s))
            (if globalMax s <? rttNs then rttNs else globalMax s))
  end.

(** [getStats] copies the statistics. *)
Definition getStats (s : RttStats) : RttStats := s.

Definition volume (snap : RttStats) : Z := foldl (fun total smp => u64 (total + size smp)) 0 (samples snap).

Definition reset (s : RttStats) : RttStats := mkStats (replicate RangeCount (mkSample 0 0)) 0.

Definition toScale (ns : Z) : string :=
  if ns <? 1000 then (pretty ns +:+ "ns")%string
  else if ns <? 1000000 then (pretty (ns / 1000) +:+ "µs")%string
  else if ns <? 1000000000 then (pretty (ns / 1000000) +:+ "ms")%string
  else (pretty (ns / 1000000000) +:+ "s")%string.

Fixpoint log_all (s : RttStats) (l : list Z) : res RttStats :=
  match l with [] => Ok s | ns :: l => let! s := logRtt s ns in log_all s l end.

(** ** The histogram is exact *)

(** The values of [l] that fall into bucket [i]: those at or above [i] of
    the ranges. *)
Definition in_bucket (i : nat) (ns : Z) : bool :=
  bool_decide (length (filter (fun r => r <= ns) Ranges) = i).

Definition bucket_of (i : nat) (l : list Z) : list Z := filter (fun ns => Is_true (in_bucket i ns)) l.

Hypothesis few_ranges : (length Ranges < 255)%nat.

Lemma getRange_count ns : getRange ns = Z.of_nat (length (filter (fun r => r <= ns) Ranges)).
Proof.
  unfold getRange.
  assert (G : forall l b, 0 <= b -> b + Z.of_nat (length l) < 256 ->
    foldl (fun bucket range => u8 (bucket + Z.b2z (range <=? ns))) b l =
    b + Z.of_nat (length (filter (fun r => r <= ns) l))).
  { induction l as [|r l IH]; intros b Hb Hl; cbn [foldl length] in *; [cbn; lia|].
    rewrite filter_cons. unfold u8.
    destruct (Z.leb_spec r ns); [rewrite decide_True by done|rewrite decide_False by lia];
      cbn [Z.b2z length]; rewrite Z.mod_small by lia; rewrite IH by lia; lia. }
  rewrite G; lia.
Qed.

(** The statistics of the values [l]. *)
Definition exact (s : RttStats) (l : list Z) : Prop :=
  length (samples s) = RangeCount /\
  (forall i smp, samples s !! i = Some smp ->
     sum smp = u64 (foldr Z.add 0 (bucket_of i l)) /\ size smp = u64 (Z.of_nat (length (bucket_of i l)))) /\
  globalMax s = foldr Z.max 0 l.

Lemma bucket_of_snoc i l ns :
  bucket_of i (l ++ [ns]) = bucket_of i l ++ (if in_bucket i ns then [ns] else []).
Proof.
  unfold bucket_of. rewrite filter_app, filter_cons, filter_nil. by destruct (in_bucket i ns).
Qed.

Lemma sum_snoc l x : foldr Z.add 0 (l ++ [x]) = foldr Z.add 0 l + x.
Proof. induction l as [|y l IH]; cbn; [lia|]. rewrite IH. lia. Qed.

Lemma max_snoc l x : foldr Z.max 0 (l ++ [x]) = Z.max (foldr Z.max 0 l) (Z.max x 0).
Proof. induction l as [|y l IH]; cbn; [lia|]. rewrite IH. lia. Qed.

Lemma u64_add_l a b : u64 (u64 a + b) = u64 (a + b).
Proof. unfold u64. by rewrite Zplus_mod_idemp_l. Qed.

Lemma logRtt_exact s l ns : exact s l -> 0 <= ns -> exists s', logRtt s ns = Ok s' /\ exact s' (l ++ [ns]).
Proof.
  intros (Hlen & Hs & Hm) Hns. unfold logRtt. rewrite getRange_count, Nat2Z.id.
  set (b := length (filter (fun r => r <= ns) Ranges)).
  assert (Hb : (b < RangeCount)%nat).
  { unfold b, RangeCount. pose proof (length_filter (fun r => r <= ns) Ranges). lia. }
  destruct (lookup_lt_is_Some_2 (samples s) b) as [smp Hsmp]; [lia|]. rewrite Hsmp.
  eexists. split; [done|]. split; [cbn; by rewrite length_insert|]. split; cbn [samples globalMax].
  - intros i smp' Hi. rewrite bucket_of_snoc. unfold in_bucket. fold b.
    destruct (decide (b = i)) as [<-|Hne]; [rewrite bool_decide_eq_true_2 by done|rewrite bool_decide_eq_false_2 by done].
    + rewrite list_lookup_insert_eq in Hi by lia. injection Hi as <-. destruct (Hs _ _ Hsmp) as [-> ->].
      cbn [sum size]. rewrite !u64_add_l, sum_snoc, length_app. cbn [length]. split; do 2 f_equal; lia.
    + rewrite list_lookup_insert_ne in Hi by done. rewrite app_nil_r. by apply Hs.
  - rewrite Hm, max_snoc. destruct (Z.ltb_spec (foldr Z.max 0 l) ns); lia.
Qed.

Lemma init_exact : exact init [].
Proof.
  split; [apply length_replicate|]. split; [|done]. intros i smp H.
  by apply lookup_replicate in H as [-> _].
Qed.

(** C30: the histogram is exact: after any sequence of logged round-trip times
    bucket [i] holds the number and the sum, modulo 2^64, of the times at or
    above exactly [i] of the ranges, the maximum is the largest time, and no
    bucket index is out of range. *)
Theorem rtt_histogram_exact l : Forall (fun ns => 0 <= ns) l ->
  exists s, log_all init l = Ok s /\ exact s l.
Proof.
  intros Hl. assert (G : forall s l0, exact s l0 -> exists s', log_all s l = Ok s' /\ exact s' (l0 ++ l)).
  { induction Hl as [|ns l Hns _ IH]; intros s l0 He; cbn [log_all].
    - exists s. by rewrite app_nil_r.
    - destruct (logRtt_exact s l0 ns He Hns) as (s1 & -> & He1).
      destruct (IH s1 _ He1) as (s2 & -> & He2). exists s2. by rewrite <- (assoc_L app) in He2. }
  apply (G init [] init_exact).
Qed.

End RttTracker.

Lemma rtt_histogram_exact_witness :
  exists s, log_all [1000; 5000] (init [1000; 5000]) [10; 4000; 1000; 99999] = Ok s /\
    exact [1000; 5000] s [10; 4000; 1000; 99999].
Proof. apply rtt_histogram_exact; [cbn; lia|]. repeat constructor; lia. Defined.
End RttTracker.

(** [LatencyTracker]: the telemetry handler and the statistics timer.
    [scale] is [x * nsPerCycle] converted to [uint64_t]. *)
Module LatencyTracker.
Section LatencyTracker.
Context (Ranges : list Z) (scale : Z -> Z) (monitorRate_ : Z).

Definition post (s : RttTracker.RttStats) (msg : Telemetry.TelemetryMsg) : res RttTracker.RttStats :=
  match Telemetry.tm_data msg with
  | Telemetry.OrderLatency _ created _ notified _ _ =>
      RttTracker.logRtt Ranges s (scale (u64 (notified - created)))
  | _ => Ok s
  end.

(** The timer's handler when it was not cancelled: the requests per second
    that are logged, if any; a rate of 0 ms divides by zero. *)
Definition onStatsTimer (s : RttTracker.RttStats) : res (RttTracker.RttStats * option Z) :=
  let stats := RttTracker.getStats s in
  let volume := RttTracker.volume stats in
  if negb (volume =? 0) then
    if monitorRate_ =? 0 then Err (Throw "division by zero")
    else Ok (RttTracker.reset Ranges s, Some (u64 (volume * 1000) / monitorRate_))
  else Ok (s, None).

End LatencyTracker.
End LatencyTracker.

(** Number formatting. *)
Module StringUtils.

Definition formatCompact (num : Z) : string :=
  if num <? 1000 then pretty num
  else if num <? 1000000 then (pretty (num / 1000) +:+ "k")%string
  else (pretty (num / 1000000) +:+ "m")%string.

(** [while (n > 0) { s.insert(n, ","); n -= 3; }]; [insert] throws when [n]
    is past the end, which it never is. *)
Fixpoint insert_commas (fuel : nat) (s : list ascii) (n : Z) : list ascii :=
  match fuel with
  | O => s
  | S fuel =>
      if 0 <? n then insert_commas fuel (take (Z.to_nat n) s ++ ","%char :: drop (Z.to_nat n) s) (n - 3)
      else s
  end.

Definition thousandify_digits (s : list ascii) : list ascii :=
  insert_commas (length s) s (Z.of_nat (length s) - 3).

Definition thousandify (value : Z) : string :=
  String.string_of_list_ascii (thousandify_digits (String.list_ascii_of_string (pretty value))).

(** The reference: groups of three from the right. *)
Fixpoint groups (fuel : nat) (s : list ascii) : list ascii :=
  match fuel with
  | O => s
  | S fuel =>
      if (length s <=? 3)%nat then s
      else groups fuel (take (length s - 3) s) ++ ","%char :: drop (length s - 3) s
  end.

Lemma insert_commas_groups fuel (s rest : list ascii) : (length s <= fuel)%nat ->
  insert_commas fuel (s ++ rest) (Z.of_nat (length s) - 3) = groups fuel s ++ rest.
Proof.
  revert s rest. induction fuel as [|fuel IH]; intros s rest Hf; cbn [insert_commas groups]; [done|].
  destruct (Nat.leb_spec (length s) 3); destruct (Z.ltb_spec 0 (Z.of_nat (length s) - 3)); try lia; [done|].
  replace (Z.to_nat (Z.of_nat (length s) - 3)) with (length s - 3)%nat by lia.
  rewrite take_app_le, drop_app_le by lia.
  assert (El : length (take (length s - 3) s) = (length s - 3)%nat) by (rewrite length_take; lia).
  replace (Z.of_nat (length s) - 3 - 3) with (Z.of_nat (length (take (length s - 3) s)) - 3) by lia.
  rewrite IH by lia. by rewrite <- (assoc_L app).
Qed.

(** The commas of a number's digits stand before every third digit from the
    right; a leading minus sign is counted as a digit. *)
Lemma thousandify_groups s : thousandify_digits s = groups (length s) s.
Proof.
  unfold thousandify_digits. rewrite <- (app_nil_r s) at 2. rewrite insert_commas_groups by lia. apply app_nil_r.
Qed.

Lemma thousandify_examples :
  thousandify 1234567 = "1,234,567"%string /\ thousandify 999 = "999"%string /\ thousandify (-123) = "-,123"%string.
Proof. done. Qed.

End StringUtils.

(** [composeKey] and [decomposeKey] (common/src/types/primitive_types.hpp). *)
Module CompositeKey.

Definition composeKey (left right : Z) : Z := Z.lor (Z.shiftl left 32) right.

Definition decomposeKey (key : Z) : Z * Z := (u32 (Z.shiftr key 32), u32 key).

Lemma compose_decompose left right : is_u32 left -> is_u32 right ->
  is_u64 (composeKey left right) /\ decomposeKey (composeKey left right) = (left, right).
Proof.
  intros Hl Hr. unfold composeKey, decomposeKey, is_u32, is_u64 in *.
  assert (E : Z.lor (Z.shiftl left 32) right = left * 2 ^ 32 + right).
  { rewrite Z.lor_comm, lor_shiftl_add by lia. lia. }
  rewrite E, Z.shiftr_div_pow2 by lia. split; [lia|]. f_equal; unfold u32.
  - rewrite Z.div_add_l, Z.div_small, Z.add_0_r, Z.mod_small; lia.
  - rewrite Z.add_comm, Z.mod_add, Z.mod_small; lia.
Qed.

End CompositeKey.

(** ** The telemetry adapter

    [TelemetryAdapter] (common/src/adapters/telemetry_adapter.hpp): the
    client writes its messages to shared memory, the monitor posts what it
    reads there; [DummyTelemetryAdapter] does neither. *)

Module TelemetryAdapter.
Section Adapter.
Context {Transport : Type} (tx : Transport -> Telemetry.TelemetryMsg -> Transport * Types.IoResult)
  (t_close : Transport -> Transport) (makeWriter makeReader : Transport).

(** [subscribed]: the adapter handles the messages of the bus; [reading]: a
    read into [msg_] was requested. *)
Record State := mkState {
  producer_ : bool;
  msg_ : Telemetry.TelemetryMsg;
  transport_ : Transport;
  subscribed : bool;
  reading : bool
}.

Definition init (producer : bool) (msg : Telemetry.TelemetryMsg) : State :=
  mkState producer msg (if producer then makeWriter else makeReader) false false.

Definition start (s : State) : State :=
  if producer_ s then mkState (producer_ s) (msg_ s) (transport_ s) true (reading s)
  else mkState (producer_ s) (msg_ s) (transport_ s) (subscribed s) true.

Definition close (s : State) : State := mkState (producer_ s) (msg_ s) (t_close (transport_ s)) (subscribed s) (reading s).

(** [post(CRef<TelemetryMsg>)]: a message that cannot be written is logged
    and lost. *)
Definition postMsg (s : State) (msg : Telemetry.TelemetryMsg) : State :=
  mkState (producer_ s) (msg_ s) (tx (transport_ s) msg).1 (subscribed s) (reading s).

(** [post(CRef<IoResult>)]; the message read is in [msg_]. *)
Definition postIo (s : State) (r : Types.IoResult) : list Telemetry.TelemetryMsg :=
  if Types.io_ok r then [msg_ s] else [].

(** Only the producer takes messages off the bus, only the consumer puts
    messages on it. *)
Lemma start_one_way producer msg : let s := start (init producer msg) in
  subscribed s = producer /\ reading s = negb producer.
Proof. by destruct producer. Qed.
End Adapter.
End TelemetryAdapter.
