(* ===== verification/TradeEngine.v ===== *)
(** * The client's trade engine

    Models [TradeEngine] (client/src/execution/trade_engine.hpp), its
    [MarketData] (client/src/execution/market_data.hpp) and
    [utils::fluctuateThePrice] (common/src/utils/market_utils.hpp).  The
    worker thread sends orders and cancels, the network thread handles the
    statuses; both are handlers on one state that return what they post.
    The clock, the random generator and the stop token are inputs.  The
    queue of cancels is used through the interface [Fifo]. *)

From S2P Require Import Prelude SlotId HugeArray Types SlotIdPool SequencedSPSC Fifo Telemetry.

Module TradeEngine.

Record ClientOrder := mkClientOrder { co_order : Order; co_created : Z; co_sysOId : Z }.

#[export] Instance ClientOrder_zeroed : Zeroed ClientOrder :=
  mkClientOrder (mkOrder 0 (replicate TICKER_SIZE Ascii.zero) 0 0 Dummy) 0 0.

(** What the engine does to the rest of the client.  [JoinWorker] is [stop]
    called on a thread other than the worker: the thread waits for the trade
    loop to end. *)
Inductive Out :=
| OutOrder (o : Order)
| OutTelemetry (m : Telemetry.TelemetryMsg)
| OutStartWorker
| OutScheduleStats
| OutEngineReady
| OutError (e : InternalError)
| JoinWorker.

(** [std::uniform_int_distribution] draws: the price offset, the side and
    the quantity of a new order. *)
Record Draw := mkDraw { d_offset : Z; d_side : Z; d_quantity : Z }.

Definition PRICE_FLUCTUATION_RATE : Z := 5.

(** [size_t] arithmetic, then a conversion to [int32_t] that keeps the value
    for every 32-bit price. *)
Definition price_delta (price : Z) : Z := price * PRICE_FLUCTUATION_RATE / 100.

(** [RNG::generate(0, delta * 2)] returned [offset]. *)
Definition fluctuateThePrice (price offset : Z) : Z := u32 (price + (offset - price_delta price)).

Section TradeEngine.
Context `{B : Build} {Q : Type} `{FQ : !Fifo Q Z}.

Abbreviation index := (SlotId.index MAX_SYSTEM_ORDERS).
Abbreviation slot_valid := (SlotId.isValid MAX_SYSTEM_ORDERS).

(** [marketData_] is listed in the order of its iterators; [cursor] is the
    function-local static of [sendNew]. *)
Record State := mkState {
  marketData_ : list (Ticker * Z);
  cursor : nat;
  idPool_ : Pool.State;
  orders_ : gmap Z ClientOrder;
  placed_ : Z;
  fulfilled_ : Z;
  cancelled_ : Z;
  started_ : bool;
  trading_ : bool;
  toCancel_ : Q
}.

Definition init (md : list (Ticker * Z)) (q : Q) : State :=
  mkState md 0 Pool.init HugeArray.alloc 0 0 0 false false q.

Definition set_cursor (s : State) c := mkState (marketData_ s) c (idPool_ s) (orders_ s)
  (placed_ s) (fulfilled_ s) (cancelled_ s) (started_ s) (trading_ s) (toCancel_ s).
Definition set_pool (s : State) p := mkState (marketData_ s) (cursor s) p (orders_ s)
  (placed_ s) (fulfilled_ s) (cancelled_ s) (started_ s) (trading_ s) (toCancel_ s).
Definition set_orders (s : State) o := mkState (marketData_ s) (cursor s) (idPool_ s) o
  (placed_ s) (fulfilled_ s) (cancelled_ s) (started_ s) (trading_ s) (toCancel_ s).
Definition set_counters (s : State) p f c := mkState (marketData_ s) (cursor s) (idPool_ s) (orders_ s)
  p f c (started_ s) (trading_ s) (toCancel_ s).
Definition set_flags (s : State) st tr := mkState (marketData_ s) (cursor s) (idPool_ s) (orders_ s)
  (placed_ s) (fulfilled_ s) (cancelled_ s) st tr (toCancel_ s).
Definition set_toCancel (s : State) q := mkState (marketData_ s) (cursor s) (idPool_ s) (orders_ s)
  (placed_ s) (fulfilled_ s) (cancelled_ s) (started_ s) (trading_ s) q.
Definition set_market (s : State) md := mkState md (cursor s) (idPool_ s) (orders_ s)
  (placed_ s) (fulfilled_ s) (cancelled_ s) (started_ s) (trading_ s) (toCancel_ s).

Definition isValid (r : ClientOrder) : bool := negb (co_created r =? 0) && slot_valid (co_sysOId r).

Definition start (s : State) : State * list Out :=
  if started_ s then (s, [])
  else (set_flags s true (trading_ s), [OutStartWorker; OutScheduleStats]).

(** [stop()]; the worker joining itself returns at once. *)
Definition stop (onWorker : bool) : list Out := if onWorker then [] else [JoinWorker].

Definition tradeStart (s : State) : State := if trading_ s then s else set_flags s (started_ s) true.
Definition tradeStop (s : State) : State := if negb (trading_ s) then s else set_flags s (started_ s) false.

(** [loadMarketData]: the database's answer; [emplace] keeps the first price
    of a ticker.  An empty answer without an error is asked for its error,
    which is undefined. *)
Fixpoint emplace_all (md : list (Ticker * Z)) (prices : list TickerPrice) : list (Ticker * Z) :=
  match prices with
  | [] => md
  | p :: prices =>
      emplace_all (if bool_decide (tp_ticker p ∈ md.*1) then md else md ++ [(tp_ticker p, tp_price p)]) prices
  end.

Definition loadMarketData (result : list TickerPrice + StatusCode) : res (list (Ticker * Z)) :=
  match result with
  | inr e => Err (Throw (toString_StatusCode e))
  | inl [] => Err NullDeref
  | inl prices => Ok (emplace_all [] prices)
  end.

(** The returned flag is false when no identifier is left. *)
Definition sendNew (s : State) (d : Draw) (now : Z) : res (State * list Out * bool) :=
  let cur := if (cursor s =? length (marketData_ s))%nat then 0%nat else cursor s in
  match marketData_ s !! cur with
  | None => Err OutOfBounds
  | Some (ticker, price) =>
      let s := set_cursor s (S cur) in
      let newPrice := fluctuateThePrice price (d_offset d) in
      let action := if d_side d =? 0 then Buy else Sell in
      let! (p, id) := Pool.acquire MAX_SYSTEM_ORDERS (idPool_ s) in
      let s := set_pool s p in
      if negb (slot_valid id) then Ok (s, stop true, false)
      else
        let order := mkOrder (SlotId.raw id) ticker (d_quantity d) newPrice action in
        let! os := HugeArray.set MAX_SYSTEM_ORDERS (orders_ s) (index id) (mkClientOrder order now id) in
        let s := set_orders s os in
        Ok (set_counters s (u64 (placed_ s + 1)) (fulfilled_ s) (cancelled_ s), [OutOrder order], true)
  end.

Definition sendCancel (s : State) (now : Z) : res (State * list Out * bool) :=
  let '(q, idx) := fifo_read (toCancel_ s) in
  let s := set_toCancel s q in
  match idx with
  | None => Ok (s, [], false)
  | Some idx =>
      let! r := HugeArray.get MAX_SYSTEM_ORDERS (orders_ s) idx in
      let o := co_order r in
      let! os := HugeArray.set MAX_SYSTEM_ORDERS (orders_ s) idx (mkClientOrder o now (co_sysOId r)) in
      Ok (set_orders s os,
          [OutOrder (mkOrder (SlotId.raw (co_sysOId r)) (o_ticker o) (o_quantity o) (o_price o) Cancel)], true)
  end.

(** One round of [tradeLoop] up to the pause; the flag tells whether the loop
    goes on. *)
Definition tradeRound (s : State) (stopRequested : bool) (d : Draw) (now : Z) : res (State * list Out * bool) :=
  if stopRequested then Ok (s, [], false)
  else if negb (trading_ s) then Ok (s, [], true)
  else
    let! (s, out, sent) := sendCancel s now in
    if (sent : bool) then Ok (s, out, true)
    else let! (s, out', sent) := sendNew s d now in Ok (s, out ++ out', sent).

(** The pause: [tradeRate] rounds that look at the stop token; false when
    the loop is left. *)
Fixpoint pause (tradeRate : nat) (stopRequested : nat -> bool) : bool :=
  match tradeRate with
  | O => true
  | S n => if stopRequested n then false else pause n stopRequested
  end.

Definition release (s : State) (soid : Z) : res State :=
  let! p := Pool.release MAX_SYSTEM_ORDERS (idPool_ s) soid in Ok (set_pool s p).

(** [post(CRef<OrderStatus>)] on the network thread; [coin] is the draw that
    decides whether an accepted order is to be cancelled. *)
Definition postStatus (s : State) (stopRequested : bool) (st : OrderStatus) (cycl coin : Z)
    : res (State * list Out) :=
  if stopRequested then Ok (s, [])
  else
    let soid := os_orderId st in
    if negb (slot_valid soid) then Ok (s, stop false)
    else
      let! r := HugeArray.get MAX_SYSTEM_ORDERS (orders_ s) (index soid) in
      if negb (isValid r) then Ok (s, stop false)
      else
        let! os := HugeArray.set MAX_SYSTEM_ORDERS (orders_ s) (index soid)
                     (mkClientOrder (co_order r) (co_created r) (os_systemOrderId st)) in
        let s := set_orders s os in
        let out := [OutTelemetry (Telemetry.createOrderLatencyMsg Telemetry.FromClient 0 (os_orderId st)
                      (co_created r) 0 cycl (placed_ s) (fulfilled_ s))] in
        match os_state st with
        | Accepted =>
            if coin =? 1 then Ok (set_toCancel s (fifo_write (toCancel_ s) (index soid)).1, out)
            else Ok (s, out)
        | Full =>
            let! s := release (set_counters s (placed_ s) (u64 (fulfilled_ s + 1)) (cancelled_ s)) soid in Ok (s, out)
        | Cancelled =>
            let! s := release (set_counters s (placed_ s) (fulfilled_ s) (u64 (cancelled_ s + 1))) soid in Ok (s, out)
        | Rejected => let! s := release s soid in Ok (s, out)
        | Partial => Ok (s, out)
        end.

(** [post(CRef<TickerPrice>)] *)
Definition postPrice (s : State) (p : TickerPrice) : State :=
  set_market s (map (fun kv => if bool_decide (kv.1 = tp_ticker p) then (kv.1, tp_price p) else kv) (marketData_ s)).

(** The handler of the statistics timer: what it logs and the new
    [lastCounter]; [None] when it stops rescheduling itself. *)
Definition onStats (s : State) (cancelledTimer stopRequested : bool) (lastCounter : Z)
    : option (Z * option (string * string * string)) :=
  if cancelledTimer || stopRequested then None
  else
    let counter := u64 (u64 (placed_ s + fulfilled_ s) + cancelled_ s) in
    Some (counter,
          if negb (lastCounter =? counter)
          then Some (StringUtils.formatCompact (placed_ s), StringUtils.formatCompact (fulfilled_ s),
                     StringUtils.formatCompact (cancelled_ s))
          else None).

End TradeEngine.
Arguments State Q : clear implicits.

(** ** The price of a new order *)

(** An order is priced within five per cent of the market price. *)
Lemma fluctuateThePrice_bound price offset :
  0 <= price -> price + price_delta price < 2 ^ 32 -> 0 <= offset <= 2 * price_delta price ->
  100 * Z.abs (fluctuateThePrice price offset - price) <= PRICE_FLUCTUATION_RATE * price.
Proof.
  unfold fluctuateThePrice, price_delta, PRICE_FLUCTUATION_RATE. intros Hp Hlt Ho.
  pose proof (Z.mul_div_le (price * 5) 100). rewrite u32_small; lia.
Qed.

(** ** Runs against a server that keeps the order protocol *)

(** What is known of an order that was sent and not closed. *)
Inductive Phase := Sent | Resting (sys : Z) | Cancelling (sys : Z).

Section Run.
Context `{B : Build} `{BO : !BuildOk B} {Q : Type} `{FQ : !Fifo Q Z} (cap : Z)
  `{FO : !FifoOk Q Z cap (fun x => 0 <= x < 2 ^ 32)}.

Abbreviation index := (SlotId.index MAX_SYSTEM_ORDERS).
Abbreviation slot_valid := (SlotId.isValid MAX_SYSTEM_ORDERS).
Abbreviation PInv := (Pool.Inv MAX_SYSTEM_ORDERS).
Abbreviation State := (State Q).

Definition record (s : State) (i : Z) : ClientOrder := HugeArray.at_ (orders_ s) i.

(** The statuses the protocol allows: an order that was sent is rejected,
    filled at once or rests under a server-side identifier; an order whose
    cancel was sent is cancelled. *)
Definition answers (g : gmap Z Phase) (st : OrderStatus) : Prop :=
  match os_state st, g !! os_orderId st with
  | (Rejected | Full), Some Sent => True
  | (Accepted | Partial), Some Sent => slot_valid (os_systemOrderId st) = true
  | Cancelled, Some (Cancelling sys) => os_systemOrderId st = sys
  | _, _ => False
  end.

Definition after_status (g : gmap Z Phase) (st : OrderStatus) : gmap Z Phase :=
  match os_state st with
  | Accepted | Partial => <[os_orderId st := Resting (os_systemOrderId st)]> g
  | _ => delete (os_orderId st) g
  end.

(** The order the next cancel is for. *)
Definition cancel_target (s : State) : option Z :=
  option_map (fun idx => o_id (co_order (record s idx))) (fifo_read (toCancel_ s)).2.

Definition after_round (g : gmap Z Phase) (s : State) (out : list Out) : gmap Z Phase :=
  match out with
  | [OutOrder o] =>
      if bool_decide (o_action o = Cancel)
      then match cancel_target s with Some id => <[id := Cancelling (o_id o)]> g | None => g end
      else <[o_id o := Sent]> g
  | _ => g
  end.

Inductive Reach : State -> gmap Z Phase -> Prop :=
| reach_init md q : md <> [] -> fifo_holds q [] -> Reach (init md q) ∅
| reach_start s g : Reach s g -> Reach (start s).1 g
| reach_tradeStart s g : Reach s g -> Reach (tradeStart s) g
| reach_tradeStop s g : Reach s g -> Reach (tradeStop s) g
| reach_price s g p : Reach s g -> Reach (postPrice s p) g
| reach_round s g d now s' out go : Reach s g -> 0 < now ->
    tradeRound s false d now = Ok (s', out, go) -> Reach s' (after_round g s out)
| reach_status s g st cycl coin s' out : Reach s g -> answers g st ->
    postStatus s false st cycl coin = Ok (s', out) -> Reach s' (after_status g st).

Definition phase_ok (ph : Phase) (r : ClientOrder) : Prop :=
  match ph with Sent => True | Resting sys | Cancelling sys => co_sysOId r = sys end.

Definition open_rest (g : gmap Z Phase) (idx : Z) : Prop :=
  exists id sys, g !! id = Some (Resting sys) /\ index id = idx.

Record Inv (s : State) (g : gmap Z Phase) : Prop := {
  e_market : marketData_ s <> [] /\ (cursor s <= length (marketData_ s))%nat;
  e_pool : exists local shared out, PInv (idPool_ s) local shared out /\ forall id, id ∈ out <-> is_Some (g !! id);
  e_rec : forall id ph, g !! id = Some ph ->
    o_id (co_order (record s (index id))) = id /\ isValid (record s (index id)) = true /\
    phase_ok ph (record s (index id));
  e_queue : exists l, fifo_holds (toCancel_ s) l /\ NoDup l /\ Forall (open_rest g) l
}.

Lemma index_max id : 0 <= index id < MAX_SYSTEM_ORDERS.
Proof.
  apply (SlotId.index_range _ SYSTEM_ORDER_BITS).
Qed.

Lemma index_u32 id : 0 <= index id < 2 ^ 32.
Proof.
  pose proof (index_max id). pose proof (@SlotId.cap_pow2 _ _ system_slot_capacity). destruct BO.
  assert (2 ^ SYSTEM_ORDER_BITS <= 2 ^ 32) by (apply Z.pow_le_mono_r; lia). lia.
Qed.

Lemma index_inj (s : State) g id id' : Inv s g -> is_Some (g !! id) -> is_Some (g !! id') -> index id = index id' -> id = id'.
Proof.
  intros HI [ph H] [ph' H'] E. destruct (e_rec _ _ HI _ _ H) as [<- _], (e_rec _ _ HI _ _ H') as [<- _]. by rewrite E.
Qed.

(** Steps that change neither the records nor the pool nor the queue. *)
Lemma engine_Inv_frame s s' g : Inv s g ->
  marketData_ s' <> [] -> (cursor s' <= length (marketData_ s'))%nat ->
  idPool_ s' = idPool_ s -> orders_ s' = orders_ s -> toCancel_ s' = toCancel_ s -> Inv s' g.
Proof.
  intros [H1 H2 H3 H4] Hm Hc Ep Eo Eq. split; [done|by rewrite Ep| |by rewrite Eq].
  unfold record. by rewrite Eo.
Qed.

Lemma pool_size (s : State) (g : gmap Z Phase) local shared out : PInv (idPool_ s) local shared out ->
  (forall id, id ∈ out <-> is_Some (g !! id)) -> length out = size g.
Proof.
  intros HP Hg. rewrite <- length_map_to_list, <- (length_fmap fst). apply Permutation_length, NoDup_Permutation.
  - pose proof (Pool.inv_nodup _ _ _ _ _ HP) as Hn. rewrite !map_app in Hn.
    apply NoDup_app in Hn as (_ & _ & Hn). apply NoDup_app in Hn as (_ & _ & Hn). by apply NoDup_fmap_1 in Hn.
  - apply NoDup_fst_map_to_list.
  - intros id. rewrite Hg, list_elem_of_fmap. split.
    + intros [ph H]. exists (id, ph). by rewrite elem_of_map_to_list.
    + intros ([k ph] & -> & H%elem_of_map_to_list). by exists ph.
Qed.

Lemma open_rest_other (g : gmap Z Phase) id ph l : Forall (open_rest g) l -> (forall sys, g !! id <> Some (Resting sys)) ->
  Forall (open_rest (<[id := ph]> g)) l.
Proof.
  intros Hl Hn. eapply Forall_impl; [exact Hl|]. intros idx (id' & sys & H & E). exists id', sys. split; [|done].
  rewrite lookup_insert_ne; [done|]. intros ->. by apply (Hn sys).
Qed.

(** *** A new order *)

Definition new_order (s : State) (g : gmap Z Phase) (s' : State) (out : list Out) (go : bool) : Prop :=
  (exists o, out = [OutOrder o] /\ go = true /\ o_action o <> Cancel /\ slot_valid (o_id o) = true /\
     (forall id, is_Some (g !! id) -> index id <> index (o_id o)) /\ Inv s' (<[o_id o := Sent]> g)) \/
  (out = [] /\ go = false /\ Z.of_nat (size g) = MAX_SYSTEM_ORDERS - 1 /\ Inv s' g).

Lemma capacity_max : Pool.CAPACITY MAX_SYSTEM_ORDERS = MAX_SYSTEM_ORDERS.
Proof. by rewrite (Pool.capacity_eq _ SYSTEM_ORDER_BITS), <- (@SlotId.cap_pow2 _ _ system_slot_capacity). Qed.

Lemma sendNew_ok s g d now : Inv s g -> 0 < now ->
  exists s' out go, sendNew s d now = Ok (s', out, go) /\ new_order s g s' out go.
Proof.
  intros HI Hnow. destruct (e_market _ _ HI) as [Hm Hc]. destruct (e_pool _ _ HI) as (local & shared & ids & HP & Hg).
  assert (Hlen : length (marketData_ s) <> 0%nat) by (by destruct (marketData_ s)).
  unfold sendNew. set (cur := if (cursor s =? length (marketData_ s))%nat then 0%nat else cursor s).
  assert (Hcur : (cur < length (marketData_ s))%nat) by (unfold cur; destruct (Nat.eqb_spec (cursor s) (length (marketData_ s))); lia).
  destruct (lookup_lt_is_Some_2 _ _ Hcur) as [[t p] Hp]. rewrite Hp. cbn [idPool_ set_cursor].
  destruct (Pool.acquire_ok _ SYSTEM_ORDER_BITS _ _ _ _ HP) as (pl & id & -> & [Hacq|(-> & Hex & HP')]).
  - pose proof (Pool.acquired_fresh _ _ _ _ Hacq) as (Hv & Hr & Hi & Hni). rewrite Hv. cbn [negb].
    rewrite HugeArray.set_ok by apply index_max. eexists _, _, _. split; [done|]. left.
    eexists. split; [done|]. split; [done|]. cbn [o_action o_id].
    assert (Hfresh : forall id', is_Some (g !! id') -> index id' <> index id).
    { intros id' Hid' E. apply Hni. rewrite <- E. apply list_elem_of_fmap. exists id'. split; [done|]. by apply Hg. }
    split; [by destruct (d_side d =? 0)|]. split; [done|]. split; [done|].
    assert (Hnone : g !! id = None).
    { destruct (g !! id) eqn:E; [|done]. exfalso. by apply (Hfresh id). }
    destruct Hacq as (local' & shared' & HP'). split; cbn.
    + split; [done|]. lia.
    + exists local', shared', (id :: ids). split; [exact HP'|]. intros id'. rewrite elem_of_cons, Hg, lookup_insert_is_Some.
      destruct (decide (id = id')); naive_solver.
    + unfold record. cbn. intros id' ph Hid'. destruct (decide (id = id')) as [<-|Hne].
      * rewrite lookup_insert_eq in Hid'. injection Hid' as <-. rewrite HugeArray.at_set_eq. cbn.
        split; [done|]. split; [|done]. unfold isValid. cbn. rewrite Hv. by destruct (Z.eqb_spec now 0); [lia|].
      * rewrite lookup_insert_ne in Hid' by done. rewrite HugeArray.at_set_ne; [by apply (e_rec _ _ HI)|].
        intros E. symmetry in E. revert E. by apply Hfresh.
    + destruct (e_queue _ _ HI) as (l & H1 & H2 & H3). exists l. split; [done|]. split; [done|].
      apply open_rest_other; [done|]. intros sys. change (SlotId.raw id) with id. by rewrite Hnone.
  - rewrite SlotId.invalid_not_valid. cbn [negb]. eexists _, _, _. split; [done|]. right.
    split; [done|]. split; [done|]. split.
    + rewrite <- (pool_size _ _ _ _ _ HP Hg). unfold Pool.exhausted in Hex. by rewrite capacity_max in Hex.
    + split; cbn; [split; [done|lia]|by exists [], [], ids|apply (e_rec _ _ HI)|apply (e_queue _ _ HI)].
Qed.

(** *** A cancel *)

Definition cancel_order (s : State) (g : gmap Z Phase) (s' : State) (o : Order) : Prop :=
  exists id, cancel_target s = Some id /\ g !! id = Some (Resting (o_id o)) /\ o_action o = Cancel /\
    let sent := co_order (record s (index id)) in
    o_id sent = id /\ o_ticker o = o_ticker sent /\ o_quantity o = o_quantity sent /\ o_price o = o_price sent /\
    Inv s' (<[id := Cancelling (o_id o)]> g).

(** Overwriting the record of an open order, its order kept. *)
Lemma rec_update (s : State) (g : gmap Z Phase) id ph created sys :
  (forall id' ph', g !! id' = Some ph' -> o_id (co_order (record s (index id'))) = id' /\
     isValid (record s (index id')) = true /\ phase_ok ph' (record s (index id'))) ->
  is_Some (g !! id) -> created <> 0 -> slot_valid sys = true ->
  phase_ok ph (mkClientOrder (co_order (record s (index id))) created sys) ->
  forall id' ph', <[id := ph]> g !! id' = Some ph' ->
    let r := HugeArray.at_ (<[index id := mkClientOrder (co_order (record s (index id))) created sys]> (orders_ s)) (index id') in
    o_id (co_order r) = id' /\ isValid r = true /\ phase_ok ph' r.
Proof.
  intros Hrec [ph0 Hid] Hc Hv Hok id' ph' H. destruct (decide (id = id')) as [<-|Hne].
  - rewrite lookup_insert_eq in H. injection H as <-. rewrite HugeArray.at_set_eq. cbn [co_order].
    split; [by apply Hrec in Hid as [? _]|]. split; [|done]. unfold isValid. cbn. rewrite Hv.
    by destruct (Z.eqb_spec created 0).
  - rewrite lookup_insert_ne in H by done. rewrite HugeArray.at_set_ne; [by apply Hrec|].
    intros E. destruct (Hrec _ _ Hid) as [E1 _], (Hrec _ _ H) as [E2 _]. rewrite E in E1. congruence.
Qed.

Lemma sendCancel_ok s g now : Inv s g -> 0 < now ->
  (exists s' o, sendCancel s now = Ok (s', [OutOrder o], true) /\ cancel_order s g s' o) \/
  (exists s', sendCancel s now = Ok (s', [], false) /\ Inv s' g /\ orders_ s' = orders_ s).
Proof.
  intros HI Hnow. destruct (e_queue _ _ HI) as (l & Hl & Hnd & Hopen). unfold sendCancel.
  destruct l as [|idx l].
  - rewrite (fifo_read_empty _ Hl). right. eexists. split; [done|]. split; [|done].
    destruct HI as [H1 H2 H3 H4]. split; cbn; [done..|]. by exists [].
  - destruct (fifo_read_ok _ _ _ Hl) as (q & E & Hq). rewrite E. left.
    apply Forall_cons in Hopen as [(id & sys & Hid & <-) Hopen]. apply NoDup_cons in Hnd as [Hni Hnd].
    cbn [orders_ set_toCancel]. rewrite HugeArray.get_ok, HugeArray.set_ok by apply index_max.
    fold (record s (index id)). destruct (e_rec _ _ HI _ _ Hid) as (Eo & Hv & Hs). cbn in Hs.
    eexists _, _. split; [done|]. exists id. cbn. unfold cancel_target. rewrite E. cbn. rewrite Eo.
    unfold SlotId.raw. rewrite Hs. do 7 (split; [done|]).
    unfold isValid in Hv. apply andb_true_iff in Hv as [_ Hv]. split; cbn.
    + apply (e_market _ _ HI).
    + destruct (e_pool _ _ HI) as (local & shared & out & HP & Hg). exists local, shared, out. split; [done|].
      intros id'. rewrite Hg, lookup_insert_is_Some. destruct (decide (id = id')) as [<-|]; naive_solver.
    + unfold record at 1. cbn [orders_]. rewrite <- Hs.
      apply rec_update; [apply (e_rec _ _ HI)|done|lia|done|done].
    + exists l. split; [done|]. split; [done|]. rewrite Forall_forall in *. intros idx Hidx.
      destruct (Hopen idx Hidx) as (id' & sys' & H' & <-). exists id', sys'. split; [|done].
      rewrite lookup_insert_ne; [done|]. by intros ->.
Qed.

(** *** A status *)

Lemma isValid_set o created sys : isValid (mkClientOrder o created sys) = negb (created =? 0) && slot_valid sys.
Proof. done. Qed.

(** Closing an order gives its identifier back. *)
Lemma engine_release_ok (s : State) (g : gmap Z Phase) id ph :
  marketData_ s <> [] /\ (cursor s <= length (marketData_ s))%nat ->
  (exists local shared out, PInv (idPool_ s) local shared out /\ forall id, id ∈ out <-> is_Some (g !! id)) ->
  (forall id' ph', delete id g !! id' = Some ph' -> o_id (co_order (record s (index id'))) = id' /\
     isValid (record s (index id')) = true /\ phase_ok ph' (record s (index id'))) ->
  (exists l, fifo_holds (toCancel_ s) l /\ NoDup l /\ Forall (open_rest g) l) ->
  g !! id = Some ph -> (forall sys, ph <> Resting sys) ->
  exists s', release s id = Ok s' /\ Inv s' (delete id g).
Proof.
  intros Hm (local & shared & out & HP & Hg) Hrec (l & Hl & Hnd & Hopen) Hid Hph.
  assert (Hin : id ∈ out) by (apply Hg; by exists ph).
  apply elem_of_Permutation in Hin as [out' Hperm]. apply (Pool.Inv_out_perm _ _ _ _ _ _ Hperm) in HP.
  destruct (Pool.release_ok _ SYSTEM_ORDER_BITS _ _ _ _ _ HP) as (p & E & HP'). unfold release. rewrite E.
  eexists. split; [done|]. split; cbn; [done| |done|].
  - exists local, (shared ++ [SlotId.nextGen MAX_SYSTEM_ORDERS id]), out'. split; [done|]. intros id'.
    pose proof (Pool.inv_nodup _ _ _ _ _ HP) as Hn. rewrite !map_app in Hn.
    apply NoDup_app in Hn as (_ & _ & Hn). apply NoDup_app in Hn as (_ & _ & Hn).
    apply NoDup_fmap_1, NoDup_cons in Hn as [Hni _]. rewrite lookup_delete_is_Some, <- Hg, Hperm, elem_of_cons.
    split; [intros H; split; [by intros ->|by right]|]. intros [Hne [->|?]]; done.
  - exists l. split; [done|]. split; [done|]. eapply Forall_impl; [exact Hopen|].
    intros idx (id' & sys & H & E'). exists id', sys. split; [|done]. rewrite lookup_delete_ne; [done|].
    intros <-. rewrite Hid in H. injection H as ->. by apply (Hph sys).
Qed.

(** The identifier of an open order is valid: the pool handed it out. *)
Lemma open_id_valid s g id : Inv s g -> is_Some (g !! id) -> slot_valid id = true.
Proof.
  intros HI Hid. destruct (e_pool _ _ HI) as (local & shared & out & HP & Hg).
  apply Hg, elem_of_Permutation in Hid as [out' Hperm]. apply (Pool.Inv_out_perm _ _ _ _ _ _ Hperm) in HP.
  apply (Pool.acquired_fresh _ (idPool_ s) id out'). by exists local, shared.
Qed.

(** Asking for the cancel of an order that rests: its slot is not queued
    already, and a full queue drops the request. *)
Lemma queue_cancel_ok s g id sys l : Inv s g -> g !! id = Some (Resting sys) ->
  fifo_holds (toCancel_ s) l -> NoDup l -> Forall (open_rest g) l -> index id ∉ l ->
  Inv (set_toCancel s (fifo_write (toCancel_ s) (index id)).1) g.
Proof.
  intros [R1 R2 R3 _] Hid H1 H2 Hl Hni. split; cbn; [done..|].
  pose proof (fifo_bound _ _ H1). destruct (Z.eq_dec (Z.of_nat (length l)) cap) as [Ec|Ec].
  - rewrite (fifo_write_full _ _ _ H1 (index_u32 _) Ec). by exists l.
  - destruct (fifo_write_ok _ _ _ H1 (index_u32 id)) as (q & -> & Hq); [lia|].
    exists (l ++ [index id]). split; [done|]. split.
    + apply NoDup_app. split; [done|]. split; [|apply NoDup_singleton]. by intros idx Hidx ->%list_elem_of_singleton.
    + apply Forall_app. split; [done|]. apply Forall_singleton. by exists id, sys.
Qed.

(** The slot of an order that waits for its answer is not in the queue of cancels. *)
Lemma sent_not_queued s g id l : Inv s g -> g !! id = Some Sent -> Forall (open_rest g) l -> index id ∉ l.
Proof.
  intros HI Hid Hl Hin. rewrite Forall_forall in Hl. destruct (Hl _ Hin) as (id' & sys & H' & E).
  assert (id' = id) as -> by (eapply index_inj; [exact HI|by eexists|by eexists|done]). by rewrite Hid in H'.
Qed.

Lemma engine_status_ok s g st cycl coin : Inv s g -> answers g st ->
  exists s' m, postStatus s false st cycl coin = Ok (s', [OutTelemetry m]) /\ Inv s' (after_status g st).
Proof.
  intros HI Ha. unfold answers in Ha.
  assert (exists ph, g !! os_orderId st = Some ph) as [ph Hid].
  { destruct (os_state st), (g !! os_orderId st); naive_solver. }
  destruct (e_rec _ _ HI _ _ Hid) as (Eo & Hv & Hs).
  destruct (e_pool _ _ HI) as (local & shared & out & HP & Hg).
  pose proof (open_id_valid _ _ _ HI ltac:(by exists ph)) as Hsv.
  unfold postStatus. rewrite Hsv. cbn [negb]. rewrite HugeArray.get_ok by apply index_max.
  fold (record s (index (os_orderId st))). rewrite Hv. cbn [negb]. rewrite HugeArray.set_ok by apply index_max.
  unfold isValid in Hv. apply andb_true_iff in Hv as [Hc Hv]. apply negb_true_iff, Z.eqb_neq in Hc.
  set (r' := mkClientOrder _ _ _). set (s1 := set_orders s _).
  assert (Hother : forall id' ph', delete (os_orderId st) g !! id' = Some ph' ->
    o_id (co_order (record s1 (index id'))) = id' /\ isValid (record s1 (index id')) = true /\
    phase_ok ph' (record s1 (index id'))).
  { intros id' ph' H. apply lookup_delete_Some in H as [Hne H]. unfold record, s1. cbn.
    rewrite HugeArray.at_set_ne; [by apply (e_rec _ _ HI)|]. intros E. apply Hne.
    eapply index_inj; [exact HI|by exists ph|by exists ph'|done]. }
  assert (Hrest : forall sys, ph = Sent -> os_systemOrderId st = sys -> slot_valid sys = true ->
    Inv s1 (<[os_orderId st := Resting sys]> g)).
  { intros sys -> <- Hsys. split; cbn.
    - apply (e_market _ _ HI).
    - exists local, shared, out. split; [done|]. intros id. rewrite Hg, lookup_insert_is_Some.
      destruct (decide (os_orderId st = id)) as [<-|]; naive_solver.
    - by apply rec_update; [apply (e_rec _ _ HI)|exists Sent| | |].
    - destruct (e_queue _ _ HI) as (l & H1 & H2 & H3). exists l. split; [done|]. split; [done|].
      apply open_rest_other; [done|]. by rewrite Hid. }
  assert (Hclose : forall p f c, (forall sys, ph <> Resting sys) ->
    exists s', release (set_counters s1 p f c) (os_orderId st) = Ok s' /\ Inv s' (delete (os_orderId st) g)).
  { intros p f c Hph. apply (engine_release_ok _ g _ ph); cbn; try done; [apply (e_market _ _ HI)|by exists local, shared, out|apply (e_queue _ _ HI)]. }
  unfold after_status. destruct (os_state st) eqn:Est, ph as [|sys|sys]; rewrite ?Hid in Ha; try done.
  - specialize (Hrest _ eq_refl eq_refl Ha). destruct (coin =? 1); [|by eexists _, _].
    eexists _, _. split; [done|]. destruct (e_queue _ _ HI) as (l & H1 & H2 & H3).
    apply (queue_cancel_ok _ _ _ (os_systemOrderId st) l); try done; [by rewrite lookup_insert_eq| |by apply (sent_not_queued s g)].
    apply open_rest_other; [done|]. by rewrite Hid.
  - destruct (Hclose (placed_ s1) (fulfilled_ s1) (cancelled_ s1)) as (s' & E & HI'); [done|].
    assert (E' : set_counters s1 (placed_ s1) (fulfilled_ s1) (cancelled_ s1) = s1) by done. rewrite E' in E.
    rewrite E. by eexists _, _.
  - destruct (Hclose (placed_ s1) (fulfilled_ s1) (u64 (cancelled_ s1 + 1))) as (s' & -> & HI'); [done|]. by eexists _, _.
  - by eexists _, _; split; [|apply Hrest].
  - destruct (Hclose (placed_ s1) (u64 (fulfilled_ s1 + 1)) (cancelled_ s1)) as (s' & -> & HI'); [done|]. by eexists _, _.
Qed.

(** *** Runs *)

(** The orders of one round: a new order uses a slot no open order has, a
    cancel names by its server-side identifier a resting order that the
    engine sent, and repeats its ticker, quantity and price. *)
Definition round_ok (s : State) (g : gmap Z Phase) (out : list Out) (go : bool) : Prop :=
  match out with
  | [] => go = false -> Z.of_nat (size g) = MAX_SYSTEM_ORDERS - 1
  | [OutOrder o] =>
      go = true /\
      ((o_action o <> Cancel /\ slot_valid (o_id o) = true /\
        forall id, is_Some (g !! id) -> index id <> index (o_id o)) \/
       (o_action o = Cancel /\ exists id, g !! id = Some (Resting (o_id o)) /\
          let sent := co_order (record s (index id)) in
          o_id sent = id /\ o_ticker o = o_ticker sent /\ o_quantity o = o_quantity sent /\ o_price o = o_price sent))
  | _ => False
  end.

Lemma tradeRound_ok s g d now : Inv s g -> 0 < now ->
  exists s' out go, tradeRound s false d now = Ok (s', out, go) /\ Inv s' (after_round g s out) /\ round_ok s g out go.
Proof.
  intros HI Hnow. unfold tradeRound. destruct (trading_ s); cbn [negb].
  2: { exists s, [], true. by split; [|split; [exact HI|]]. }
  destruct (sendCancel_ok s g now HI Hnow) as
    [(s' & o & -> & id & Et & Hid & Ea & E1 & E2 & E3 & E4 & HI')|(s1 & -> & HI1 & _)].
  - exists s', [OutOrder o], true. split; [done|]. cbn [after_round round_ok].
    rewrite bool_decide_eq_true_2, Et by done. split; [done|]. split; [done|]. right. split; [done|]. by exists id.
  - destruct (sendNew_ok s1 g d now HI1 Hnow) as (s' & out & go & -> &
      [(o & -> & -> & Ha & Hv & Hf & HI')|(-> & -> & Hs & HI')]).
    + exists s', [OutOrder o], true. split; [done|]. cbn [after_round round_ok].
      rewrite bool_decide_eq_false_2 by done. split; [done|]. split; [done|]. by left.
    + exists s', [], false. split; [done|]. split; [exact HI'|]. cbn. intros _. exact Hs.
Qed.

Lemma postPrice_keeps (s : State) p : marketData_ s <> [] ->
  marketData_ (postPrice s p) <> [] /\ length (marketData_ (postPrice s p)) = length (marketData_ s).
Proof. intros H. cbn. rewrite length_map. split; [by destruct (marketData_ s)|done]. Qed.

Lemma engine_Reach_Inv s g : Reach s g -> Inv s g.
Proof.
  induction 1 as [md q Hmd Hq|s g _ IH|s g _ IH|s g _ IH|s g p _ IH|s g d now s' out go _ IH Hnow E|s g st cycl coin s' out _ IH Ha E].
  - split; cbn; [split; [done|lia]| |intros id ph H; by rewrite lookup_empty in H|exists []; split_and!; [done|constructor|constructor]].
    exists [], [], []. split; [apply (Pool.pool_Inv_init _ SYSTEM_ORDER_BITS)|].
    intros id. rewrite lookup_empty. split; [by intros ?%elem_of_nil|by intros ?%is_Some_None].
  - destruct (e_market _ _ IH). unfold start. destruct (started_ s); [done|]. by apply (engine_Inv_frame s).
  - destruct (e_market _ _ IH). unfold tradeStart. destruct (trading_ s); [done|]. by apply (engine_Inv_frame s).
  - destruct (e_market _ _ IH). unfold tradeStop. destruct (trading_ s); [|done]. by apply (engine_Inv_frame s).
  - destruct (e_market _ _ IH) as [Hm Hc]. destruct (postPrice_keeps s p Hm) as [H1 H2].
    apply (engine_Inv_frame s); try done. rewrite H2. exact Hc.
  - destruct (tradeRound_ok s g d now IH Hnow) as (s1 & out1 & go1 & E1 & HI & _). rewrite E in E1. by injection E1 as -> -> ->.
  - destruct (engine_status_ok s g st cycl coin IH Ha) as (s1 & m & E1 & HI). rewrite E in E1. by injection E1 as -> ->.
Qed.

(** C29: in every run of the trade engine against a server that keeps the order
    protocol no handler faults: each round of the trade loop sends nothing,
    a new order under an identifier whose slot no open order uses, or a
    cancel of one of the engine's own resting orders under its server-side
    identifier; the loop ends by itself only when every identifier is in
    use; and each status is recorded and answered with one telemetry
    message, without stopping the engine. *)
Theorem engine_speaks_for_its_orders s g : Reach s g ->
  (forall d now, 0 < now -> exists s' out go, tradeRound s false d now = Ok (s', out, go) /\ round_ok s g out go) /\
  (forall st cycl coin, answers g st -> exists s' m, postStatus s false st cycl coin = Ok (s', [OutTelemetry m])).
Proof.
  intros HR. apply engine_Reach_Inv in HR as HI. split.
  - intros d now Hnow. destruct (tradeRound_ok s g d now HI Hnow) as (s' & out & go & E & _ & H). by exists s', out, go.
  - intros st cycl coin Ha. destruct (engine_status_ok s g st cycl coin HI Ha) as (s' & m & E & _). by exists s', m.
Qed.

(** A first order can always be sent and come to rest. *)
Lemma reach_one_resting (md : list (Ticker * Z)) (q : Q) (sys : Z) : md <> [] -> fifo_holds q [] -> slot_valid sys = true ->
  MAX_SYSTEM_ORDERS <> 1 -> exists s g id, Reach s g /\ g !! id = Some (Resting sys).
Proof.
  intros Hmd Hq Hsys Hmax. set (s0 := tradeStart (init md q)).
  assert (R0 : Reach s0 ∅) by (apply reach_tradeStart, reach_init; done).
  pose proof (engine_Reach_Inv _ _ R0) as HI.
  destruct (sendNew_ok s0 _ (mkDraw 0 0 7) 1 HI Z.lt_0_1)
    as (s1 & out & go & E & [(o & -> & -> & Ha & _ & _ & HI')|(_ & _ & Hs & _)]).
  2: { rewrite map_size_empty in Hs. cbn in Hs. lia. }
  assert (Ht : tradeRound s0 false (mkDraw 0 0 7) 1 = Ok (s1, [OutOrder o], true)).
  { unfold tradeRound, sendCancel, s0. cbn [trading_ tradeStart init set_flags negb toCancel_].
    rewrite (fifo_read_empty q Hq). change (set_toCancel _ _) with s0. by rewrite E. }
  pose proof (reach_round _ _ _ _ _ _ _ R0 Z.lt_0_1 Ht) as R1. cbn [after_round] in R1.
  rewrite bool_decide_eq_false_2 in R1 by done.
  set (st := mkOrderStatus (o_id o) sys 0 0 Accepted).
  assert (Hst : answers (<[o_id o := Sent]> ∅) st) by (unfold answers; cbn; by rewrite lookup_insert_eq).
  destruct (engine_status_ok s1 _ st 1 1 (engine_Reach_Inv _ _ R1) Hst) as (s2 & m & E2 & _).
  exists s2, (after_status (<[o_id o := Sent]> ∅) st), (o_id o). split; [by eapply reach_status|].
  unfold after_status. cbn. by rewrite lookup_insert_eq.
Qed.

End Run.

(** ** When the protocol is broken *)

Section Broken.
Context `{B : Build} {Q : Type} `{FQ : !Fifo Q Z}.

(** [stop] is called by the status handler on the network thread for a
    status it cannot place and waits there for the trade loop; the loop looks
    only at the stop token and at [trading_], which [stop] does not touch, so
    until somebody else requests a stop the network thread waits. *)
Lemma bad_status_blocks_network_thread (s : State Q) st cycl coin :
  SlotId.isValid MAX_SYSTEM_ORDERS (os_orderId st) = false ->
  postStatus s false st cycl coin = Ok (s, [JoinWorker]) /\
  forall d now, trading_ s = false -> tradeRound s false d now = Ok (s, [], true).
Proof.
  intros Hv. split; [unfold postStatus; by rewrite Hv|]. intros d now Ht. unfold tradeRound. by rewrite Ht.
Qed.
End Broken.

(** ** Examples *)

Section Examples.
#[local] Instance example_build : Build := build_cicd.

(** [SequencedSPSC<1024>] of 32-bit indices. *)
#[local] Instance example_fifo : Fifo Spsc.Queue Z := spsc_fifo 1024.
#[local] Instance example_fifo_ok : FifoOk Spsc.Queue Z 1024 (fun x => 0 <= x < 2 ^ 32) :=
  spsc_fifo_ok 1024 10 eq_refl ltac:(lia) _ ltac:(by apply Nat.leb_le).

Definition example_market : list (Ticker * Z) := [(makeTicker (String.list_ascii_of_string "AAPL"), 100)].

(** A run that sent an order the server lets rest. *)
Lemma reach_resting : exists s g id,
  Reach 1024 s g /\ g !! id = Some (Resting (SlotId.make MAX_SYSTEM_ORDERS 5 1)).
Proof.
  apply (reach_one_resting 1024 example_market (Spsc.init 1024)); [done| |done|done].
  by apply (spsc_holds_init 1024 10).
Qed.

Lemma engine_speaks_for_its_orders_witness : exists s g,
  Reach 1024 s g /\ g <> ∅ /\ exists s' out go, tradeRound s false (mkDraw 3 1 9) 2 = Ok (s', out, go) /\ round_ok s g out go.
Proof.
  destruct reach_resting as (s & g & id & HR & Hid). exists s, g. split; [exact HR|]. split.
  - intros ->. by rewrite lookup_empty in Hid.
  - apply (engine_speaks_for_its_orders 1024 s g HR). lia.
Defined.
End Examples.
End TradeEngine.
