(* ===== verification/System.v ===== *)
(** * Clients and server together

    The trade engines of any number of clients, their channels to the server
    and the server's order path as one transition system.  A channel is a
    pair of queues, orders up and statuses down (the round trips of the
    codecs and the theorems of the transports justify it); a session tags
    each order with its client's id and a status goes to the session of the
    client it names (server/src/session).  [TradeEngine.v] proves the engine
    correct against a server that keeps the order protocol, [ServerRun.v]
    proves the server correct for clients that behave; here each discharges
    what the other assumes. *)

From S2P Require Import Prelude SlotId HugeArray Types PriceLevelBook SlotIdPool OrderGateway Coordinator Server ServerRun.
From S2P Require Import SequencedSPSC Fifo Telemetry TradeEngine.

Module System.

(** ** The ids of one client among pairs of client and id *)

Definition ids_of (c : Z) (l : list (Z * Z)) : list Z :=
  omap (fun p => if decide (p.1 = c) then Some p.2 else None) l.

Lemma ids_of_app c l1 l2 : ids_of c (l1 ++ l2) = ids_of c l1 ++ ids_of c l2.
Proof. apply omap_app. Qed.

Lemma elem_of_ids_of c l id : id ∈ ids_of c l <-> (c, id) ∈ l.
Proof.
  unfold ids_of. rewrite list_elem_of_omap. split.
  - intros ([c' id'] & Hin & H). cbn in H. destruct (decide (c' = c)) as [->|]; [|done]. by injection H as ->.
  - intros Hin. exists (c, id). split; [done|]. cbn. by rewrite decide_True.
Qed.

#[export] Instance ids_of_perm c : Proper ((≡ₚ) ==> (≡ₚ)) (ids_of c).
Proof. intros l l' H. unfold ids_of. by rewrite H. Qed.

(** No duplicates within any client, no duplicates at all. *)
Lemma nodup_by_client {A} (f : A -> Z * Z) l :
  (forall x, x ∈ l -> NoDup (ids_of (f x).1 (map f l))) -> NoDup l.
Proof.
  induction l as [|x l IH]; intros H; [constructor|]. constructor.
  - intros Hx. pose proof (H x ltac:(left)) as Hn. cbn in Hn. rewrite decide_True in Hn by done.
    apply NoDup_cons in Hn as [Hni _]. apply Hni, elem_of_ids_of. rewrite <- surjective_pairing.
    apply list_elem_of_fmap. by exists x.
  - apply IH. intros y Hy. pose proof (H y ltac:(by right)) as Hn. cbn in Hn.
    destruct (decide ((f x).1 = (f y).1)); [by apply NoDup_cons in Hn as [_ ?]|done].
Qed.

(** ** The system *)

Section System.
Context `{B : Build} {Q : Type} `{FQ : !Fifo Q Z}.

Record Client := mkClient {
  engine : TradeEngine.State Q;
  up : list Order;
  down : list OrderStatus
}.

Record Sys := mkSys { server : Server.State; clients : gmap Z Client }.

(** What the engine posts: orders go up the channel, the rest is its own. *)
Definition orders_of (out : list TradeEngine.Out) : list Order :=
  omap (fun m => match m with TradeEngine.OutOrder o => Some o | _ => None end) out.

Definition own_of (out : list TradeEngine.Out) : list TradeEngine.Out :=
  List.filter (fun m => match m with TradeEngine.OutOrder _ => false | _ => true end) out.

(** A status goes to the client it names, if there is one. *)
Definition tell (cs : gmap Z Client) (m : Server.Sent) : gmap Z Client :=
  match m with
  | Server.ToClient st =>
      alter (fun cl => mkClient (engine cl) (up cl) (down cl ++ [sos_orderStatus st])) (sos_clientId st) cs
  | Server.ToSystemBus _ => cs
  end.

Inductive Op :=
| TradeStart (c : Z)
| TradeStop (c : Z)
| Price (c : Z) (p : TickerPrice)
| Round (c : Z) (d : TradeEngine.Draw) (now : Z)
| Upstream (c : Z)
| ServerStep (o : Server.Op)
| Downstream (c cycl coin : Z).

Definition with_engine (y : Sys) (c : Z) (cl : Client) (e : TradeEngine.State Q) (out : list TradeEngine.Out) : Sys :=
  mkSys (server y) (<[c := mkClient e (up cl ++ orders_of out) (down cl)]> (clients y)).

Definition serve (y : Sys) (cs : gmap Z Client) (o : Server.Op) : res (Sys * list (Z * TradeEngine.Out)) :=
  let! (s, sent) := Server.run_op (server y) o in Ok (mkSys s (foldl tell cs sent), []).

(** What the engines post besides orders is returned with the client. *)
Definition run_op (y : Sys) (o : Op) : res (Sys * list (Z * TradeEngine.Out)) :=
  let client c (f : Client -> res (Sys * list (Z * TradeEngine.Out))) :=
    match clients y !! c with Some cl => f cl | None => Ok (y, []) end in
  match o with
  | TradeStart c => client c (fun cl => Ok (with_engine y c cl (TradeEngine.tradeStart (engine cl)) [], []))
  | TradeStop c => client c (fun cl => Ok (with_engine y c cl (TradeEngine.tradeStop (engine cl)) [], []))
  | Price c p => client c (fun cl => Ok (with_engine y c cl (TradeEngine.postPrice (engine cl) p) [], []))
  | Round c d now => client c (fun cl =>
      let! (e, out, _) := TradeEngine.tradeRound (engine cl) false d now in
      Ok (with_engine y c cl e out, map (pair c) (own_of out)))
  | Upstream c => client c (fun cl =>
      match up cl with
      | [] => Ok (y, [])
      | o :: rest =>
          serve y (<[c := mkClient (engine cl) rest (down cl)]> (clients y)) (Server.Submit (mkServerOrder c o))
      end)
  | ServerStep (Server.Submit _) => Ok (y, [])
  | ServerStep o => serve y (clients y) o
  | Downstream c cycl coin => client c (fun cl =>
      match down cl with
      | [] => Ok (y, [])
      | st :: rest =>
          let! (e, out) := TradeEngine.postStatus (engine cl) false st cycl coin in
          Ok (with_engine y c (mkClient (engine cl) (up cl) rest) e out, map (pair c) (own_of out))
      end)
  end.

Fixpoint run (y : Sys) (ops : list Op) : res (Sys * list (Z * TradeEngine.Out)) :=
  match ops with
  | [] => Ok (y, [])
  | o :: ops =>
      let! (y, m1) := run_op y o in
      let! (y, m2) := run y ops in
      Ok (y, m1 ++ m2)
  end.
End System.
Arguments Client Q : clear implicits.
Arguments Sys Q : clear implicits.

(** ** The invariant *)

Section Inv.
Context `{B : Build} `{BO : !BuildOk B} {Q : Type} `{FQ : !Fifo Q Z} (cap : Z)
  `{FO : !FifoOk Q Z cap (fun x => 0 <= x < 2 ^ 32)}.

Abbreviation Phases := (gmap Z TradeEngine.Phase).
Abbreviation order_at e id := (TradeEngine.co_order (TradeEngine.record e (SlotId.index MAX_SYSTEM_ORDERS id))).
Abbreviation who := ServerRun.who.
Abbreviation accepted := ServerRun.accepted.

(** The orders and the first answers of a client that are under way, and the
    cancels, by the client's own order id. *)
Definition new_of (o : Order) : option Z := if bool_decide (o_action o = Cancel) then None else Some (o_id o).
Definition answer_of (st : OrderStatus) : option Z :=
  if bool_decide (os_state st = Cancelled) then None else Some (os_orderId st).
Definition cancelled_of (st : OrderStatus) : option Z :=
  if bool_decide (os_state st = Cancelled) then Some (os_orderId st) else None.
Definition cancel_of (s : Server.State) (o : Order) : option Z :=
  if bool_decide (o_action o = Cancel) then Some (who s (o_id o)).2 else None.

Definition first_answers (s : Server.State) (lost : list Z) (c : Z) (cl : Client Q) : list Z :=
  omap new_of (up cl) ++ ids_of c (map (who s) (ServerRun.under_way s ++ lost)) ++ omap answer_of (down cl).
Definition cancels (s : Server.State) (c : Z) (cl : Client Q) : list Z :=
  omap (cancel_of s) (up cl) ++ ids_of c (map (who s) (ServerRun.cancelling s)) ++ omap cancelled_of (down cl).

(** What a client sends up: new orders the server can route, and cancels of
    orders of its own that the server accepted. *)
Definition up_ok (s : Server.State) (c : Z) (g : Phases) (o : Order) : Prop :=
  0 < o_price o /\
  (o_action o = Buy \/ o_action o = Sell) /\ ServerRun.order_ok s (mkServerOrder c o) \/
  0 < o_price o /\ o_action o = Cancel /\ exists id, g !! id = Some (TradeEngine.Cancelling (o_id o)) /\
    accepted s (o_id o) /\ who s (o_id o) = (c, id).

Definition down_ok (s : Server.State) (c : Z) (g : Phases) (st : OrderStatus) : Prop :=
  match os_state st with
  | Accepted | Partial => accepted s (os_systemOrderId st) /\ who s (os_systemOrderId st) = (c, os_orderId st)
  | Cancelled => g !! os_orderId st = Some (TradeEngine.Cancelling (os_systemOrderId st))
  | _ => True
  end.

Record ClientInv (s : Server.State) (lost : list Z) (c : Z) (cl : Client Q) (g : Phases) : Prop := {
  c_engine : TradeEngine.Reach cap (engine cl) g;
  c_price : forall id, is_Some (g !! id) -> 0 < o_price (order_at (engine cl) id);
  c_up : Forall (up_ok s c g) (up cl);
  c_down : Forall (down_ok s c g) (down cl);
  c_nodup : NoDup (first_answers s lost c cl);
  c_first : forall id, id ∈ first_answers s lost c cl <-> g !! id = Some TradeEngine.Sent;
  c_cancels : NoDup (cancels s c cl);
  c_rest : forall id sys, g !! id = Some (TradeEngine.Resting sys) -> accepted s sys /\ who s sys = (c, id)
}.

Record Inv (y : Sys Q) (gs : Z -> Phases) (out lost : list Z) : Prop := {
  y_server : ServerRun.Inv (server y) out lost;
  y_clients : forall c cl, clients y !! c = Some cl -> ClientInv (server y) lost c cl (gs c);
  y_cancelling : forall sys, sys ∈ ServerRun.cancelling (server y) ->
    accepted (server y) sys /\ is_Some (clients y !! (who (server y) sys).1) /\
    gs (who (server y) sys).1 !! (who (server y) sys).2 = Some (TradeEngine.Cancelling sys)
}.

(** What the market data, the random draws and the schedule have to respect. *)
Definition quote (e : TradeEngine.State Q) : option (Ticker * Z) :=
  let n := length (TradeEngine.marketData_ e) in
  TradeEngine.marketData_ e !! (if (TradeEngine.cursor e =? n)%nat then 0%nat else TradeEngine.cursor e).

Definition draw_ok (y : Sys Q) (e : TradeEngine.State Q) (d : TradeEngine.Draw) : Prop :=
  forall t p, quote e = Some (t, p) ->
    is_Some (Market.data_ (Server.coord (server y)) !! t) /\
    0 < p /\ p + TradeEngine.price_delta p < MAX_TICKS /\
    0 <= TradeEngine.d_offset d <= 2 * TradeEngine.price_delta p /\ 0 <= TradeEngine.d_quantity d < 2 ^ 32.

Definition op_ok (y : Sys Q) (o : Op) : Prop :=
  match o with
  | Round c d now => 0 < now /\ forall cl, clients y !! c = Some cl -> draw_ok y (engine cl) d
  | ServerStep o => ServerRun.op_ok (server y) o
  | _ => True
  end.

Fixpoint run_ok (y : Sys Q) (ops : list Op) : Prop :=
  match ops with
  | [] => True
  | o :: ops => op_ok y o /\ forall y' m, run_op y o = Ok (y', m) -> run_ok y' ops
  end.

(** ** What the engine sends *)

Lemma fluctuate_range p offset :
  0 < p -> p + TradeEngine.price_delta p < 2 ^ 32 -> 0 <= offset <= 2 * TradeEngine.price_delta p ->
  0 < TradeEngine.fluctuateThePrice p offset <= p + TradeEngine.price_delta p.
Proof.
  unfold TradeEngine.fluctuateThePrice, TradeEngine.price_delta, TradeEngine.PRICE_FLUCTUATION_RATE. intros Hp Hlt Ho.
  pose proof (Z.mul_div_le (p * 5) 100). rewrite u32_small; lia.
Qed.

Lemma get_inv {A} `{Zeroed A} c (a : gmap Z A) i x : HugeArray.get c a i = Ok x -> 0 <= i < c /\ HugeArray.at_ a i = x.
Proof.
  destruct (decide (0 <= i < c)); [rewrite HugeArray.get_ok by done; by intros [= <-]|by rewrite HugeArray.get_oob].
Qed.

Lemma set_inv {A} c (a a' : gmap Z A) i x : HugeArray.set c a i x = Ok a' -> a' = <[i := x]> a.
Proof. unfold HugeArray.set. destruct (_ && _)%bool; [|done]. by intros [= <-]. Qed.

(** A round leaves the orders of the records alone, except the one it sends. *)
Lemma cancel_sends (e : TradeEngine.State Q) now e' out sent :
  TradeEngine.sendCancel e now = Ok (e', out, sent) ->
  (forall id, order_at e' id = order_at e id) /\ quote e' = quote e /\
  (forall o, out = [TradeEngine.OutOrder o] -> o_action o = Cancel).
Proof.
  unfold TradeEngine.sendCancel. destruct (fifo_read (TradeEngine.toCancel_ e)) as [q [idx|]]; cbn.
  2: { intros [= <- <- _]. by split; [|split]. }
  destruct (HugeArray.get _ _ idx) as [r|] eqn:Eg; [|done].
  destruct (HugeArray.set _ _ idx _) as [os|] eqn:Es; [|done]. intros [= <- <- _].
  split; [|split; [done|by intros o [= <-]]]. intros id. unfold TradeEngine.record. cbn.
  apply get_inv in Eg as [_ <-]. apply set_inv in Es as ->.
  destruct (decide (idx = SlotId.index MAX_SYSTEM_ORDERS id)) as [->|Hne];
    [by rewrite HugeArray.at_set_eq|by rewrite HugeArray.at_set_ne].
Qed.

Lemma new_sends (e : TradeEngine.State Q) d now e' out go :
  TradeEngine.sendNew e d now = Ok (e', out, go) ->
  (out = [] /\ forall id, order_at e' id = order_at e id) \/
  exists o t p, out = [TradeEngine.OutOrder o] /\ order_at e' (o_id o) = o /\ quote e = Some (t, p) /\ o_ticker o = t /\
    o_price o = TradeEngine.fluctuateThePrice p (TradeEngine.d_offset d) /\
    o_quantity o = TradeEngine.d_quantity d /\ (o_action o = Buy \/ o_action o = Sell) /\
    (forall id, SlotId.index MAX_SYSTEM_ORDERS id <> SlotId.index MAX_SYSTEM_ORDERS (o_id o) -> order_at e' id = order_at e id).
Proof.
  unfold TradeEngine.sendNew, quote. destruct (TradeEngine.marketData_ e !! _) as [[t p]|] eqn:Eq; [|done].
  destruct (Pool.acquire _ _) as [[pl id]|]; [|done]. destruct (SlotId.isValid _ id); cbn [negb].
  2: { intros [= <- <- _]. by left. }
  destruct (HugeArray.set _ _ _ _) as [os|] eqn:Es; [|done]. intros [= <- <- _]. right.
  apply set_inv in Es as ->. eexists _, t, p. split; [done|]. unfold TradeEngine.record. cbn.
  unfold SlotId.raw. rewrite HugeArray.at_set_eq. do 5 (split; [done|]). split; [destruct (_ =? 0); auto|].
  intros id' Hne. by rewrite HugeArray.at_set_ne.
Qed.

Lemma status_keeps (e : TradeEngine.State Q) st cycl coin e' out :
  TradeEngine.postStatus e false st cycl coin = Ok (e', out) -> forall id, order_at e' id = order_at e id.
Proof.
  unfold TradeEngine.postStatus. destruct (SlotId.isValid _ _); cbn [negb]; [|by intros [= <- _]].
  destruct (HugeArray.get _ _ _) as [r|] eqn:Eg; [|done]. destruct (TradeEngine.isValid r); cbn [negb]; [|by intros [= <- _]].
  destruct (HugeArray.set _ _ _ _) as [os|] eqn:Es; [|done]. apply get_inv in Eg as [_ <-]. apply set_inv in Es as ->.
  assert (Hk : forall (e1 : TradeEngine.State Q) id, TradeEngine.orders_ e1 = <[SlotId.index MAX_SYSTEM_ORDERS (os_orderId st) :=
      TradeEngine.mkClientOrder (order_at e (os_orderId st))
        (TradeEngine.co_created (TradeEngine.record e (SlotId.index MAX_SYSTEM_ORDERS (os_orderId st)))) (os_systemOrderId st)]>
      (TradeEngine.orders_ e) -> order_at e1 id = order_at e id).
  { intros e1 id E. unfold TradeEngine.record. rewrite E.
    destruct (decide (SlotId.index MAX_SYSTEM_ORDERS (os_orderId st) = SlotId.index MAX_SYSTEM_ORDERS id)) as [Ei|Hne];
      [by rewrite <- Ei, HugeArray.at_set_eq|by rewrite HugeArray.at_set_ne]. }
  assert (Hr : forall (e1 e2 : TradeEngine.State Q) x, TradeEngine.release e1 x = Ok e2 -> TradeEngine.orders_ e2 = TradeEngine.orders_ e1).
  { intros e1 e2 x. unfold TradeEngine.release. destruct (Pool.release _ _ _); [|done]. by intros [= <-]. }
  intros H id. apply Hk. destruct (os_state st); cbn in H.
  - destruct (coin =? 1); by injection H as <- _.
  - destruct (TradeEngine.release _ _) as [e1|] eqn:E1; [|done]. injection H as <- _. by rewrite (Hr _ _ _ E1).
  - destruct (TradeEngine.release _ _) as [e1|] eqn:E1; [|done]. injection H as <- _. by rewrite (Hr _ _ _ E1).
  - by injection H as <- _.
  - destruct (TradeEngine.release _ _) as [e1|] eqn:E1; [|done]. injection H as <- _. by rewrite (Hr _ _ _ E1).
Qed.

Lemma round_cases (e : TradeEngine.State Q) g d now :
  TradeEngine.Inv cap e g -> 0 < now ->
  exists e' out go, TradeEngine.tradeRound e false d now = Ok (e', out, go) /\
    ((out = [] /\ forall id, order_at e' id = order_at e id) \/
     (exists o id, out = [TradeEngine.OutOrder o] /\ o_action o = Cancel /\ TradeEngine.cancel_target e = Some id /\
        g !! id = Some (TradeEngine.Resting (o_id o)) /\ o_price o = o_price (order_at e id) /\
        forall id', order_at e' id' = order_at e id') \/
     (exists o t p, out = [TradeEngine.OutOrder o] /\ (o_action o = Buy \/ o_action o = Sell) /\ g !! o_id o = None /\
        order_at e' (o_id o) = o /\ quote e = Some (t, p) /\ o_ticker o = t /\
        o_price o = TradeEngine.fluctuateThePrice p (TradeEngine.d_offset d) /\ o_quantity o = TradeEngine.d_quantity d /\
        forall id', is_Some (g !! id') -> order_at e' id' = order_at e id')).
Proof.
  intros HI Hnow. unfold TradeEngine.tradeRound. destruct (TradeEngine.trading_ e); cbn [negb].
  2: { eexists e, [], true. split; [done|]. by left. }
  destruct (TradeEngine.sendCancel_ok cap e g now HI Hnow) as
    [(e1 & o & E & id & Et & Hid & Ea & _ & _ & _ & Ep & _)|(e1 & E & HI1 & _)].
  - rewrite E. eexists e1, _, true. split; [done|]. right. left. exists o, id.
    destruct (cancel_sends _ _ _ _ _ E) as (Hk & _). auto 10.
  - rewrite E. destruct (cancel_sends _ _ _ _ _ E) as (Hk & Hq & _).
    destruct (TradeEngine.sendNew_ok cap e1 g d now HI1 Hnow) as (e' & out & go & E' & Hn). rewrite E'.
    eexists e', _, go. split; [done|]. cbn [app].
    destruct (new_sends _ _ _ _ _ _ E') as [[-> Hk']|(o & t & p & -> & Ho & Hqu & Ht & Hp & Hqt & Ha & Hk')].
    { left. split; [done|]. intros id. by rewrite Hk'. }
    right. right. exists o, t, p. rewrite <- Hq.
    destruct Hn as [(o' & [= <-] & _ & _ & _ & Hfr & _)|([=] & _)].
    assert (g !! o_id o = None). { destruct (g !! o_id o) eqn:Eg; [|done]. by destruct (Hfr (o_id o)). }
    do 8 (split; [done|]). intros id' Hid'. rewrite Hk'; [done|]. by apply Hfr.
Qed.

(** ** An engine's step *)

Definition upd (gs : Z -> Phases) (c : Z) (g : Phases) : Z -> Phases := fun c' => if decide (c' = c) then g else gs c'.

Section Step.
Context (y : Sys Q) (gs : Z -> Phases) (out lost : list Z) (HY : Inv y gs out lost).

Lemma engine_step c cl cl' g' :
  clients y !! c = Some cl -> ClientInv (server y) lost c cl' g' ->
  (forall sys, sys ∈ ServerRun.cancelling (server y) -> (who (server y) sys).1 = c ->
     g' !! (who (server y) sys).2 = Some (TradeEngine.Cancelling sys)) ->
  Inv (mkSys (server y) (<[c := cl']> (clients y))) (upd gs c g') out lost.
Proof.
  intros Hc HC Hp. split; cbn [server clients].
  - apply HY.
  - intros c' cl0 H. unfold upd. destruct (decide (c' = c)) as [->|Hne].
    + rewrite lookup_insert_eq in H. by injection H as <-.
    + rewrite lookup_insert_ne in H by done. by apply (y_clients _ _ _ _ HY).
  - intros sys Hsys. destruct (y_cancelling _ _ _ _ HY sys Hsys) as (H1 & H2 & H3). split; [done|].
    unfold upd. destruct (decide (_ = c)) as [E|Hne].
    + rewrite E, lookup_insert_eq. split; [done|]. by apply Hp.
    + by rewrite lookup_insert_ne.
Qed.

(** A step of the engine that sends nothing. *)
Lemma silent_step c cl e :
  clients y !! c = Some cl -> TradeEngine.Reach cap e (gs c) ->
  (forall id, order_at e id = order_at (engine cl) id) ->
  exists gs', Inv (with_engine y c cl e []) gs' out lost.
Proof.
  intros Hc HR Ho. exists (upd gs c (gs c)). unfold with_engine. cbn [orders_of omap list_omap]. rewrite app_nil_r.
  pose proof (y_clients _ _ _ _ HY _ _ Hc) as [H1 H2 H3 H4 H5 H6 H7 H8].
  apply (engine_step c cl); [done| |].
  - split; try done. cbn [engine]. intros id Hid. rewrite Ho. auto.
  - intros sys Hsys <-. by apply (y_cancelling _ _ _ _ HY).
Qed.

(** A cancel under way is of an order the engine knows it is cancelling. *)
Lemma cancels_phase c cl id :
  clients y !! c = Some cl -> id ∈ cancels (server y) c cl -> exists sys, gs c !! id = Some (TradeEngine.Cancelling sys).
Proof.
  intros Hc. pose proof (y_clients _ _ _ _ HY _ _ Hc) as HC. unfold cancels. rewrite !elem_of_app. intros [H|[H|H]].
  - apply list_elem_of_omap in H as (o & Ho & E). unfold cancel_of in E. case_bool_decide; [|done]. apply (inj Some) in E as <-.
    pose proof (c_up _ _ _ _ _ HC) as Hu. rewrite Forall_forall in Hu.
    destruct (Hu _ Ho) as [(_ & [Ha|Ha] & _)|(_ & _ & id & Hid & _ & ->)]; [congruence..|eauto].
  - apply elem_of_ids_of, list_elem_of_fmap in H as (sys & E & Hsys).
    destruct (y_cancelling _ _ _ _ HY _ Hsys) as (_ & _ & H). rewrite <- E in H. eauto.
  - apply list_elem_of_omap in H as (st & Hst & E). unfold cancelled_of in E. case_bool_decide as Es; [|done]. injection E as <-.
    pose proof (c_down _ _ _ _ _ HC) as Hd. rewrite Forall_forall in Hd. specialize (Hd _ Hst). unfold down_ok in Hd.
    rewrite Es in Hd. eauto.
Qed.

(** What was said of a client stays true while the phases of its cancels do. *)
Lemma up_ok_keep c (cl : Client Q) (g' : Phases) l :
  Forall (up_ok (server y) c (gs c)) l -> (forall o, o ∈ l -> o ∈ up cl) ->
  (forall id sys, id ∈ omap (cancel_of (server y)) (up cl) -> gs c !! id = Some (TradeEngine.Cancelling sys) -> g' !! id = gs c !! id) ->
  Forall (up_ok (server y) c g') l.
Proof.
  rewrite !Forall_forall. intros H Hl Hk o Ho. destruct (H _ Ho) as [Hn|(Hp & Ha & id & Hid & Hacc & Hw)]; [by left|right].
  split; [done|]. split; [done|]. exists id. rewrite (Hk id (o_id o)); [done| |done].
  apply list_elem_of_omap. exists o. split; [auto|]. unfold cancel_of. rewrite bool_decide_true by done. by rewrite Hw.
Qed.

Lemma down_ok_keep c (g' : Phases) l :
  Forall (down_ok (server y) c (gs c)) l ->
  (forall id sys, id ∈ omap cancelled_of l -> gs c !! id = Some (TradeEngine.Cancelling sys) -> g' !! id = gs c !! id) ->
  Forall (down_ok (server y) c g') l.
Proof.
  rewrite !Forall_forall. intros H Hk st Hst. pose proof (H _ Hst) as Hd. unfold down_ok in *.
  destruct (os_state st) eqn:Es; try done. rewrite (Hk _ (os_systemOrderId st)); [done| |done].
  apply list_elem_of_omap. exists st. split; [done|]. unfold cancelled_of. by rewrite bool_decide_true.
Qed.

(** The engine sends the cancel of an order that rests: the order's phase turns to Cancelling. *)
Lemma cancel_sent_step c cl e m id :
  clients y !! c = Some cl ->
  TradeEngine.Reach cap e (<[id := TradeEngine.Cancelling (o_id m)]> (gs c)) ->
  o_action m = Cancel -> gs c !! id = Some (TradeEngine.Resting (o_id m)) ->
  o_price m = o_price (order_at (engine cl) id) -> (forall id', order_at e id' = order_at (engine cl) id') ->
  Inv (with_engine y c cl e [TradeEngine.OutOrder m]) (upd gs c (<[id := TradeEngine.Cancelling (o_id m)]> (gs c))) out lost.
Proof.
  intros Hc HR Ha Hid Hp Hk. pose proof (y_clients _ _ _ _ HY _ _ Hc) as HC.
  destruct (c_rest _ _ _ _ _ HC id _ Hid) as [Hacc Hw].
  assert (Hni : id ∉ cancels (server y) c cl).
  { intros Hin. destruct (cancels_phase c cl id Hc Hin) as [sys Hs]. congruence. }
  assert (Hkeep : forall id' sys, gs c !! id' = Some (TradeEngine.Cancelling sys) ->
    <[id := TradeEngine.Cancelling (o_id m)]> (gs c) !! id' = gs c !! id').
  { intros id' sys H. rewrite lookup_insert_ne; [done|]. intros ->. congruence. }
  apply (engine_step c cl); [done| |].
  2: { intros sys Hsys <-. destruct (y_cancelling _ _ _ _ HY _ Hsys) as (_ & _ & H). by rewrite (Hkeep _ sys). }
  assert (Ef : first_answers (server y) lost c (mkClient e (up cl ++ [m]) (down cl)) = first_answers (server y) lost c cl).
  { unfold first_answers. cbn [up down]. rewrite omap_app. cbn [omap list_omap]. unfold new_of at 2.
    by rewrite bool_decide_true, app_nil_r by done. }
  assert (Ec : cancels (server y) c (mkClient e (up cl ++ [m]) (down cl)) ≡ₚ id :: cancels (server y) c cl).
  { unfold cancels. cbn [up down]. rewrite omap_app. cbn [omap list_omap]. unfold cancel_of at 2.
    rewrite bool_decide_true, Hw by done. cbn. solve_Permutation. }
  split; cbn [engine up down orders_of omap list_omap]; try done.
  + intros id' Hid'. rewrite Hk. apply (c_price _ _ _ _ _ HC). apply lookup_insert_is_Some in Hid' as [<-|[_ ?]]; [by eexists|done].
  + apply Forall_app. split; [|apply Forall_singleton; right].
    * apply (up_ok_keep c cl _ _ (c_up _ _ _ _ _ HC)); [done|]. intros id' sys _. apply Hkeep.
    * rewrite Hp. split; [apply (c_price _ _ _ _ _ HC); by eexists|]. split; [done|]. exists id. by rewrite lookup_insert_eq.
  + apply (down_ok_keep c _ _ (c_down _ _ _ _ _ HC)). intros id' sys _. apply Hkeep.
  + rewrite Ef. apply HC.
  + intros id'. rewrite Ef, (c_first _ _ _ _ _ HC). destruct (decide (id = id')) as [<-|Hne].
    * rewrite lookup_insert_eq, Hid. split; discriminate.
    * by rewrite lookup_insert_ne.
  + rewrite Ec. constructor; [done|apply HC].
  + intros id' sys H. destruct (decide (id = id')) as [<-|Hne]; [by rewrite lookup_insert_eq in H|].
    rewrite lookup_insert_ne in H by done. by apply (c_rest _ _ _ _ _ HC).
Qed.

(** The engine sends a new order: it joins the orders waiting for their first answer. *)
Lemma order_sent_step c cl e m :
  clients y !! c = Some cl -> TradeEngine.Reach cap e (<[o_id m := TradeEngine.Sent]> (gs c)) ->
  o_action m <> Cancel -> gs c !! o_id m = None -> order_at e (o_id m) = m ->
  (forall id', is_Some (gs c !! id') -> order_at e id' = order_at (engine cl) id') ->
  0 < o_price m -> o_action m = Buy \/ o_action m = Sell -> ServerRun.order_ok (server y) (mkServerOrder c m) ->
  Inv (with_engine y c cl e [TradeEngine.OutOrder m]) (upd gs c (<[o_id m := TradeEngine.Sent]> (gs c))) out lost.
Proof.
  intros Hc HR Hne Hn Hm Hk Hpr Ha Hok. pose proof (y_clients _ _ _ _ HY _ _ Hc) as HC.
  assert (Hkeep : forall id' ph, gs c !! id' = Some ph -> <[o_id m := TradeEngine.Sent]> (gs c) !! id' = gs c !! id').
  { intros id' ph H. rewrite lookup_insert_ne; [done|]. intros E'. rewrite E' in Hn. congruence. }
  apply (engine_step c cl); [done| |].
  2: { intros sys Hsys <-. destruct (y_cancelling _ _ _ _ HY _ Hsys) as (_ & _ & H'). by rewrite (Hkeep _ (TradeEngine.Cancelling sys)). }
  assert (Ef : first_answers (server y) lost c (mkClient e (up cl ++ [m]) (down cl)) ≡ₚ o_id m :: first_answers (server y) lost c cl).
  { unfold first_answers. cbn [up down]. rewrite omap_app. cbn [omap list_omap]. unfold new_of at 2.
    rewrite bool_decide_false by done. solve_Permutation. }
  assert (Ec : cancels (server y) c (mkClient e (up cl ++ [m]) (down cl)) = cancels (server y) c cl).
  { unfold cancels. cbn [up down]. rewrite omap_app. cbn [omap list_omap]. unfold cancel_of at 2.
    by rewrite bool_decide_false, app_nil_r by done. }
  split; cbn [engine up down orders_of omap list_omap]; try done.
  + intros id' Hid'. destruct (decide (o_id m = id')) as [<-|Hn']; [by rewrite Hm; lia|].
    rewrite lookup_insert_ne in Hid' by done. rewrite Hk by done. by apply (c_price _ _ _ _ _ HC).
  + apply Forall_app. split; [|apply Forall_singleton; left].
    * apply (up_ok_keep c cl _ _ (c_up _ _ _ _ _ HC)); [done|]. intros id' sys _. apply Hkeep.
    * by split.
  + apply (down_ok_keep c _ _ (c_down _ _ _ _ _ HC)). intros id' sys _. apply Hkeep.
  + rewrite Ef. constructor; [|apply HC]. rewrite (c_first _ _ _ _ _ HC). congruence.
  + intros id'. rewrite Ef, elem_of_cons, (c_first _ _ _ _ _ HC). destruct (decide (o_id m = id')) as [<-|Hn'].
    * rewrite lookup_insert_eq. naive_solver.
    * rewrite lookup_insert_ne by done. naive_solver.
  + rewrite Ec. apply HC.
  + intros id' sys H'. destruct (decide (o_id m = id')) as [<-|Hn']; [by rewrite lookup_insert_eq in H'|].
    rewrite lookup_insert_ne in H' by done. by apply (c_rest _ _ _ _ _ HC).
Qed.

(** A round of an engine keeps the invariant, whatever it sends. *)
Lemma round_step c cl d now :
  clients y !! c = Some cl -> op_ok y (Round c d now) ->
  exists e o go gs', TradeEngine.tradeRound (engine cl) false d now = Ok (e, o, go) /\ own_of o = [] /\
    Inv (with_engine y c cl e o) gs' out lost.
Proof.
  intros Hc [Hnow Hd]. specialize (Hd _ Hc). pose proof (y_clients _ _ _ _ HY _ _ Hc) as HC.
  pose proof (TradeEngine.engine_Reach_Inv cap _ _ (c_engine _ _ _ _ _ HC)) as HE.
  destruct (round_cases _ _ d now HE Hnow) as (e & o & go & E & Hcase). exists e, o, go.
  pose proof (TradeEngine.reach_round cap _ _ _ _ _ _ _ (c_engine _ _ _ _ _ HC) Hnow E) as HR. rewrite E.
  destruct Hcase as [(-> & Hk)|[(m & id & -> & Ha & Et & Hid & Hp & Hk)|(m & t & p & -> & Ha & Hn & Hm & Hq & Ht & Hp & Hqt & Hk)]].
  - destruct (silent_step c cl e Hc HR Hk) as [gs' HI]. by exists gs'.
  - exists (upd gs c (<[id := TradeEngine.Cancelling (o_id m)]> (gs c))). split; [done|]. split; [done|].
    cbn [TradeEngine.after_round] in HR. rewrite bool_decide_true, Et in HR by done. by apply cancel_sent_step.
  - exists (upd gs c (<[o_id m := TradeEngine.Sent]> (gs c))). split; [done|]. split; [done|].
    assert (Hne : o_action m <> Cancel) by (destruct Ha; congruence).
    cbn [TradeEngine.after_round] in HR. rewrite bool_decide_false in HR by done.
    destruct (Hd _ _ Hq) as (Hdata & Hpos & Hlt & Hoff & Hqty). pose proof max_ticks_range.
    pose proof (fluctuate_range p (TradeEngine.d_offset d) Hpos ltac:(lia) Hoff) as Hpr. rewrite <- Hp in Hpr.
    apply order_sent_step; try done; [lia|]. intros _ _. cbn [so_order]. rewrite Ht, Hqt. split; [lia|]. by split.
Qed.

(** The status at the head of a client's channel is one the protocol allows. *)
Lemma head_answers c cl st rest :
  clients y !! c = Some cl -> down cl = st :: rest -> TradeEngine.answers (gs c) st.
Proof.
  intros Hc Hd. pose proof (y_clients _ _ _ _ HY _ _ Hc) as HC. pose proof (c_down _ _ _ _ _ HC) as Hdn.
  rewrite Hd in Hdn. apply Forall_cons in Hdn as [Hst _]. unfold TradeEngine.answers.
  assert (Hsent : os_state st <> Cancelled -> gs c !! os_orderId st = Some TradeEngine.Sent).
  { intros Hs. apply (c_first _ _ _ _ _ HC). unfold first_answers. rewrite Hd, !elem_of_app. right. right.
    cbn. unfold answer_of at 1. rewrite bool_decide_false by done. left. }
  assert (Hv : accepted (server y) (os_systemOrderId st) -> SlotId.isValid MAX_SYSTEM_ORDERS (os_systemOrderId st) = true).
  { intros Ha. pose proof (ServerRun.i_gateway _ _ _ (y_server _ _ _ _ HY)) as HG.
    pose proof (ServerRun.accepted_open _ _ _ HG Ha) as Hin. destruct (Gateway.gw_pool _ _ HG) as (l & sh & HP).
    apply elem_of_Permutation in Hin as [out' Hperm]. apply (Pool.Inv_out_perm _ _ _ _ _ _ Hperm) in HP.
    apply (Pool.acquired_fresh _ (Gateway.idPool_ (Server.gateway (server y))) (os_systemOrderId st) out').
    by exists l, sh. }
  unfold down_ok in Hst. destruct (os_state st) eqn:Es; try (rewrite Hsent by done; tauto).
  by rewrite Hst.
Qed.

(** *** The status at the head of the channel *)
Section Downstream.
Context (c : Z) (cl : Client Q) (st : OrderStatus) (rest : list OrderStatus) (e : TradeEngine.State Q).
Context (Hc : clients y !! c = Some cl) (Hd : down cl = st :: rest).
Context (HR : TradeEngine.Reach cap e (TradeEngine.after_status (gs c) st)).
Context (Hk : forall id, order_at e id = order_at (engine cl) id).
Let g' := TradeEngine.after_status (gs c) st.

Lemma status_other id : id <> os_orderId st -> g' !! id = gs c !! id.
Proof.
  intros Hne. unfold g', TradeEngine.after_status.
  destruct (os_state st); rewrite ?lookup_insert_ne, ?lookup_delete_ne by done; done.
Qed.

Lemma status_phase id : is_Some (g' !! id) -> is_Some (gs c !! id).
Proof.
  destruct (decide (id = os_orderId st)) as [->|Hne]; [|by rewrite status_other].
  intros _. pose proof (head_answers c cl st rest Hc Hd) as H. unfold TradeEngine.answers in H.
  destruct (os_state st), (gs c !! os_orderId st); try done; by eexists.
Qed.

Lemma head_down : down_ok (server y) c (gs c) st /\ Forall (down_ok (server y) c (gs c)) rest.
Proof. pose proof (c_down _ _ _ _ _ (y_clients _ _ _ _ HY _ _ Hc)) as H. rewrite Hd in H. by apply Forall_cons in H. Qed.

(** The client hears that its cancel went through: the identifier is free again. *)
Lemma cancelled_heard_step :
  os_state st = Cancelled -> Inv (mkSys (server y) (<[c := mkClient e (up cl) rest]> (clients y))) (upd gs c g') out lost.
Proof.
  intros Es. pose proof (y_clients _ _ _ _ HY _ _ Hc) as HC. pose proof (head_answers c cl st rest Hc Hd) as Ha.
  pose proof status_other as Hother. pose proof status_phase as Hph. destruct head_down as [Hst Hdn].
  pose proof (c_nodup _ _ _ _ _ HC) as Hfn. pose proof (c_cancels _ _ _ _ _ HC) as Hcn.
  assert (Hg : gs c !! os_orderId st = Some (TradeEngine.Cancelling (os_systemOrderId st))).
  { unfold down_ok in Hst. by rewrite Es in Hst. }
  assert (Hg' : g' !! os_orderId st = None).
  { unfold g', TradeEngine.after_status. rewrite Es. by rewrite lookup_delete_eq. }
  assert (Ef : first_answers (server y) lost c (mkClient e (up cl) rest) = first_answers (server y) lost c cl).
  { unfold first_answers. rewrite Hd. cbn [up down omap list_omap]. unfold answer_of at 2. by rewrite bool_decide_true. }
  assert (Ec : cancels (server y) c cl ≡ₚ os_orderId st :: cancels (server y) c (mkClient e (up cl) rest)).
  { unfold cancels. rewrite Hd. cbn [up down omap list_omap]. unfold cancelled_of at 1. rewrite bool_decide_true by done.
    solve_Permutation. }
  rewrite Ec in Hcn. apply NoDup_cons in Hcn as [Hni Hcn]. unfold cancels in Hni. cbn [up down] in Hni.
  rewrite !not_elem_of_app in Hni. destruct Hni as (Hn1 & Hn2 & Hn3).
  apply (engine_step c cl); [done| |].
  + split; cbn [engine up down]; try done.
    * intros id Hid. rewrite Hk. apply (c_price _ _ _ _ _ HC). auto.
    * apply (up_ok_keep c cl _ _ (c_up _ _ _ _ _ HC)); [done|]. intros id sys Hin _. apply Hother. by intros ->.
    * apply (down_ok_keep c _ _ Hdn). intros id sys Hin _. apply Hother. by intros ->.
    * rewrite Ef. exact Hfn.
    * intros id. rewrite Ef, (c_first _ _ _ _ _ HC). destruct (decide (id = os_orderId st)) as [->|Hne]; [|by rewrite Hother].
      rewrite Hg, Hg'. split; discriminate.
    * intros id sys H. destruct (decide (id = os_orderId st)) as [->|Hne]; [congruence|]. rewrite Hother in H by done.
      by apply (c_rest _ _ _ _ _ HC).
  + intros sys Hsys Ew. destruct (y_cancelling _ _ _ _ HY _ Hsys) as (_ & _ & H). rewrite Ew in H.
    rewrite Hother; [done|]. intros E'. apply Hn2, elem_of_ids_of, list_elem_of_fmap. exists sys. split; [|done].
    rewrite <- E', <- Ew. by rewrite <- surjective_pairing.
Qed.

(** The client hears the first answer to an order: it rests, or its identifier is free again. *)
Lemma answer_heard_step :
  os_state st <> Cancelled -> Inv (mkSys (server y) (<[c := mkClient e (up cl) rest]> (clients y))) (upd gs c g') out lost.
Proof.
  intros Es. pose proof (y_clients _ _ _ _ HY _ _ Hc) as HC. pose proof (head_answers c cl st rest Hc Hd) as Ha.
  pose proof status_other as Hother. pose proof status_phase as Hph. destruct head_down as [Hst Hdn].
  pose proof (c_nodup _ _ _ _ _ HC) as Hfn. pose proof (c_cancels _ _ _ _ _ HC) as Hcn.
  assert (Hg : gs c !! os_orderId st = Some TradeEngine.Sent).
  { unfold TradeEngine.answers in Ha. destruct (os_state st); try done; by destruct (gs c !! _) as [[]|]. }
  assert (Ef : first_answers (server y) lost c cl ≡ₚ os_orderId st :: first_answers (server y) lost c (mkClient e (up cl) rest)).
  { unfold first_answers. rewrite Hd. cbn [up down omap list_omap]. unfold answer_of at 1. rewrite bool_decide_false by done.
    solve_Permutation. }
  assert (Ec : cancels (server y) c (mkClient e (up cl) rest) = cancels (server y) c cl).
  { unfold cancels. rewrite Hd. cbn [up down omap list_omap]. unfold cancelled_of at 2. by rewrite bool_decide_false. }
  rewrite Ef in Hfn. apply NoDup_cons in Hfn as [Hni Hfn].
  assert (Hg' : g' !! os_orderId st <> Some TradeEngine.Sent).
  { unfold g', TradeEngine.after_status. destruct (os_state st); rewrite ?lookup_insert_eq, ?lookup_delete_eq; done. }
  assert (Hcan : forall id sys, gs c !! id = Some (TradeEngine.Cancelling sys) -> g' !! id = gs c !! id).
  { intros id sys H. apply Hother. intros ->. congruence. }
  apply (engine_step c cl); [done| |].
  + split; cbn [engine up down]; try done.
    * intros id Hid. rewrite Hk. apply (c_price _ _ _ _ _ HC). auto.
    * apply (up_ok_keep c cl _ _ (c_up _ _ _ _ _ HC)); [done|]. intros id sys _. apply Hcan.
    * apply (down_ok_keep c _ _ Hdn). intros id sys _. apply Hcan.
    * intros id. destruct (decide (id = os_orderId st)) as [->|Hne]; [by split|]. rewrite Hother by done.
      rewrite <- (c_first _ _ _ _ _ HC), Ef, elem_of_cons. naive_solver.
    * rewrite Ec. exact Hcn.
    * intros id sys H. destruct (decide (id = os_orderId st)) as [->|Hne].
      2: { rewrite Hother in H by done. by apply (c_rest _ _ _ _ _ HC). }
      revert H. unfold g', TradeEngine.after_status. unfold down_ok in Hst.
      destruct (os_state st); rewrite ?lookup_insert_eq, ?lookup_delete_eq; try done; by intros [= <-].
  + intros sys Hsys Ew. destruct (y_cancelling _ _ _ _ HY _ Hsys) as (_ & _ & H). rewrite Ew in H. by rewrite (Hcan _ sys).
Qed.
End Downstream.

Lemma downstream_step c cl st rest cycl coin :
  clients y !! c = Some cl -> down cl = st :: rest ->
  exists e m gs', TradeEngine.postStatus (engine cl) false st cycl coin = Ok (e, [TradeEngine.OutTelemetry m]) /\
    Inv (with_engine y c (mkClient (engine cl) (up cl) rest) e [TradeEngine.OutTelemetry m]) gs' out lost.
Proof.
  intros Hc Hd. pose proof (y_clients _ _ _ _ HY _ _ Hc) as HC. pose proof (head_answers c cl st rest Hc Hd) as Ha.
  pose proof (TradeEngine.engine_Reach_Inv cap _ _ (c_engine _ _ _ _ _ HC)) as HE.
  destruct (TradeEngine.engine_status_ok cap _ _ st cycl coin HE Ha) as (e & m & E & _).
  pose proof (TradeEngine.reach_status cap _ _ _ _ _ _ _ (c_engine _ _ _ _ _ HC) Ha E) as HR.
  pose proof (status_keeps _ _ _ _ _ _ E) as Hk.
  exists e, m, (upd gs c (TradeEngine.after_status (gs c) st)). split; [done|].
  unfold with_engine. cbn [up down orders_of omap list_omap]. rewrite app_nil_r.
  destruct (decide (os_state st = Cancelled)); [by apply cancelled_heard_step|by apply answer_heard_step].
Qed.

End Step.

(** ** The server's step *)

(** The statuses for one client among what the server sent. *)
Definition told_to (c : Z) (sent : list Server.Sent) : list OrderStatus :=
  omap (fun m => match m with
    | Server.ToClient st => if decide (sos_clientId st = c) then Some (sos_orderStatus st) else None
    | Server.ToSystemBus _ => None
    end) sent.

Definition hear (c : Z) (sent : list Server.Sent) (cl : Client Q) : Client Q :=
  mkClient (engine cl) (up cl) (down cl ++ told_to c sent).

Lemma tell_lookup c sent : forall cs, foldl tell cs sent !! c = hear c sent <$> (cs !! c).
Proof.
  unfold hear. induction sent as [|m sent IH]; intros cs; cbn [foldl told_to omap list_omap].
  { destruct (cs !! c) as [[]|]; cbn; by rewrite ?app_nil_r. }
  rewrite IH. destruct m as [st|e]; cbn [tell]; [|done].
  destruct (decide (sos_clientId st = c)) as [<-|Hne].
  - rewrite lookup_alter_eq. destruct (cs !! sos_clientId st); cbn; [|done]. by rewrite <- (assoc_L app).
  - by rewrite lookup_alter_ne.
Qed.

Lemma told_answers c sent : omap answer_of (told_to c sent) = ids_of c (ServerRun.answered sent).
Proof.
  induction sent as [|[st|e] sent IH]; [done| |done]. cbn [told_to omap list_omap ServerRun.answered].
  fold (told_to c sent). change (omap _ sent) with (ServerRun.answered sent) at 1.
  destruct (decide (sos_clientId st = c)) as [<-|Hne]; case_bool_decide as Hs; cbn [omap list_omap ids_of];
    unfold answer_of at 1 || idtac; rewrite ?(bool_decide_true _ Hs), ?(bool_decide_false _ Hs); try done; cbn;
    rewrite ?decide_True, ?decide_False by done; try done; by f_equal.
Qed.

Lemma told_cancels s s' c sent :
  (forall st, Server.ToClient st ∈ sent -> ServerRun.truthful s s' st) ->
  omap cancelled_of (told_to c sent) = ids_of c (map (who s) (ServerRun.told_cancelled sent)).
Proof.
  induction sent as [|[st|e] sent IH]; intros H; [done| |].
  2: { cbn. apply IH. intros st' Hst'. apply H. by right. }
  specialize (IH ltac:(intros st' Hst'; apply H; by right)). pose proof (H st ltac:(left)) as Ht.
  unfold ServerRun.truthful in Ht. cbn [told_to omap list_omap ServerRun.told_cancelled]. fold (told_to c sent).
  change (omap _ sent) with (ServerRun.told_cancelled sent) at 1.
  case_bool_decide as Hs.
  - rewrite Hs in Ht. destruct Ht as [_ Hw]. cbn [map ids_of omap list_omap]. rewrite Hw. cbn.
    destruct (decide (sos_clientId st = c)) as [<-|Hne]; [|done]. cbn. unfold cancelled_of at 1.
    rewrite bool_decide_true by done. by f_equal.
  - destruct (decide (sos_clientId st = c)) as [<-|Hne]; [|done]. cbn. unfold cancelled_of at 1.
    by rewrite bool_decide_false.
Qed.

Section Serve.
Context (y : Sys Q) (gs : Z -> Phases) (out lost : list Z) (HY : Inv y gs out lost).
Context (o : Server.Op) (cs0 : gmap Z (Client Q)).

(** The clients as the server's step finds them: the order it takes has left
    its channel. *)
Definition taken (c : Z) (cl cl0 : Client Q) : Prop :=
  engine cl0 = engine cl /\ down cl0 = down cl /\ (forall m, m ∈ up cl0 -> m ∈ up cl) /\
  omap new_of (up cl) ≡ₚ ids_of c (ServerRun.due o) ++ omap new_of (up cl0) /\
  omap (cancel_of (server y)) (up cl) ≡ₚ
    ids_of c (map (who (server y)) (ServerRun.asks_cancel o)) ++ omap (cancel_of (server y)) (up cl0).

Context (Hcs : forall c cl0, cs0 !! c = Some cl0 -> exists cl, clients y !! c = Some cl /\ taken c cl cl0).
Context (Hdom : forall c, is_Some (clients y !! c) -> is_Some (cs0 !! c)).
Context (Hasks : forall sys, sys ∈ ServerRun.asks_cancel o ->
  accepted (server y) sys /\ is_Some (clients y !! (who (server y) sys).1) /\
  gs (who (server y) sys).1 !! (who (server y) sys).2 = Some (TradeEngine.Cancelling sys)).

Context (s' : Server.State) (sent : list Server.Sent) (out' lost' : list Z).
Context (HI' : ServerRun.Inv s' out' lost').
Context (Hledger : ServerRun.due o ++ map (who (server y)) (ServerRun.under_way (server y) ++ lost) ≡ₚ
  ServerRun.answered sent ++ map (who s') (ServerRun.under_way s' ++ lost')).
Context (Hfacts : ServerRun.step_facts (server y) o s' sent).
Context (Hdata : forall t, is_Some (Market.data_ (Server.coord (server y)) !! t) -> is_Some (Market.data_ (Server.coord s') !! t)).

Abbreviation s := (server y).
Abbreviation asked := (ServerRun.asks_cancel o ++ ServerRun.cancelling s).

Lemma asked_ok sys : sys ∈ asked ->
  accepted s sys /\ is_Some (clients y !! (who s sys).1) /\ gs (who s sys).1 !! (who s sys).2 = Some (TradeEngine.Cancelling sys).
Proof. rewrite elem_of_app. intros [H|H]; [by apply Hasks|by apply (y_cancelling _ _ _ _ HY)]. Qed.

(** All the cancels of a client, where the step finds them. *)
Lemma cancels_split c cl cl0 :
  clients y !! c = Some cl -> taken c cl cl0 ->
  cancels s c cl ≡ₚ omap (cancel_of s) (up cl0) ++ ids_of c (map (who s) asked) ++ omap cancelled_of (down cl).
Proof.
  intros _ (_ & _ & _ & _ & Hu). unfold cancels. rewrite Hu, map_app, ids_of_app. solve_Permutation.
Qed.

Lemma asked_nodup : NoDup asked.
Proof.
  apply (nodup_by_client (who s)). intros sys Hsys. destruct (asked_ok sys Hsys) as (_ & [cl Hc] & _).
  destruct (Hdom _ (ex_intro _ cl Hc)) as [cl0 H0]. destruct (Hcs _ _ H0) as (cl1 & Hc1 & Ht).
  rewrite Hc in Hc1. injection Hc1 as <-. pose proof (c_cancels _ _ _ _ _ (y_clients _ _ _ _ HY _ _ Hc)) as Hn.
  rewrite (cancels_split _ cl cl0 Hc Ht) in Hn. apply NoDup_app in Hn as (_ & _ & Hn). by apply NoDup_app in Hn as [Hn _].
Qed.

(** Told or still under way: each cancel once, of an order that was accepted
    before the step and, unless told, is after it. *)
Lemma asked_split : exists k, asked ≡ₚ ServerRun.told_cancelled sent ++ ServerRun.cancelling s' ++ k.
Proof.
  destruct (submseteq_Permutation _ _ (ServerRun.sf_cancels _ _ _ _ Hfacts)) as [k Hk].
  exists k. rewrite Hk. by rewrite (assoc_L app).
Qed.

Lemma told_asked sys : sys ∈ ServerRun.told_cancelled sent -> sys ∈ asked.
Proof. destruct asked_split as [k Hk]. rewrite Hk, elem_of_app. by left. Qed.

Lemma still_asked sys : sys ∈ ServerRun.cancelling s' ->
  sys ∈ asked /\ accepted s' sys /\ who s' sys = who s sys.
Proof.
  intros H. destruct asked_split as [k Hk]. assert (Hin : sys ∈ asked) by (rewrite Hk, !elem_of_app; auto).
  split; [done|]. destruct (asked_ok sys Hin) as (Ha & _). destruct (ServerRun.sf_kept _ _ _ _ Hfacts sys Ha) as [|Ht]; [done|].
  pose proof asked_nodup as Hn. rewrite Hk in Hn. apply NoDup_app in Hn as (_ & Hn & _). exfalso. apply (Hn _ Ht).
  rewrite elem_of_app. by left.
Qed.

(** An accepted order whose client is not cancelling it stays accepted. *)
Lemma kept c id sys : accepted s sys -> who s sys = (c, id) ->
  (forall x, gs c !! id <> Some (TradeEngine.Cancelling x)) -> accepted s' sys /\ who s' sys = (c, id).
Proof.
  intros Ha Hw Hn. destruct (ServerRun.sf_kept _ _ _ _ Hfacts sys Ha) as [[H1 H2]|Ht]; [by rewrite H2|].
  destruct (asked_ok sys (told_asked _ Ht)) as (_ & _ & H). rewrite Hw in H. by destruct (Hn sys).
Qed.

(** A cancel still in its client's channel: its order stays accepted. *)
Lemma kept_up c cl cl0 m :
  clients y !! c = Some cl -> taken c cl cl0 -> m ∈ up cl0 -> o_action m = Cancel ->
  exists id, gs c !! id = Some (TradeEngine.Cancelling (o_id m)) /\ who s (o_id m) = (c, id) /\
    accepted s' (o_id m) /\ who s' (o_id m) = (c, id) /\ 0 < o_price m.
Proof.
  intros Hc Ht Hm Ha. pose proof (y_clients _ _ _ _ HY _ _ Hc) as HC. pose proof (c_up _ _ _ _ _ HC) as Hu.
  rewrite Forall_forall in Hu. destruct (Hu m) as [(_ & [Hx|Hx] & _)|(Hp & _ & id & Hid & Hacc & Hw)]; [by apply Ht|congruence..|].
  exists id. split; [done|]. split; [done|]. destruct (ServerRun.sf_kept _ _ _ _ Hfacts _ Hacc) as [[H1 H2]|Htold].
  { by rewrite H2. }
  exfalso. pose proof (c_cancels _ _ _ _ _ HC) as Hn. rewrite (cancels_split _ cl cl0 Hc Ht) in Hn.
  apply NoDup_app in Hn as (_ & Hn & _). apply (Hn id).
  - apply list_elem_of_omap. exists m. split; [done|]. unfold cancel_of. rewrite bool_decide_true by done. by rewrite Hw.
  - rewrite elem_of_app, elem_of_ids_of. left. apply list_elem_of_fmap. exists (o_id m). split; [done|]. by apply told_asked.
Qed.

(** The answers a client waits for: what it hears now is what the ledger gave up. *)
Lemma hear_first c cl cl0 :
  clients y !! c = Some cl -> taken c cl cl0 ->
  first_answers s' lost' c (hear c sent cl0) ≡ₚ first_answers s lost c cl.
Proof.
  intros Hc Ht. pose proof (y_clients _ _ _ _ HY _ _ Hc) as HC. destruct Ht as (He & Hd & Hsub & Hnew & Hcan).
  unfold first_answers, hear. cbn [up down]. rewrite Hd, omap_app, told_answers, Hnew.
  pose proof (ids_of_perm c _ _ Hledger) as Hl. rewrite !ids_of_app in Hl.
  rewrite <- !(assoc_L app). 
  transitivity (omap new_of (up cl0) ++ (ids_of c (ServerRun.answered sent) ++ ids_of c (map (who s') (ServerRun.under_way s' ++ lost'))) ++ omap answer_of (down cl)); [solve_Permutation|].
  rewrite <- Hl. solve_Permutation.
Qed.

(** What a client has not read yet is still true, and so is what the server just told it. *)
Lemma hear_down c cl cl0 :
  clients y !! c = Some cl -> taken c cl cl0 -> Forall (down_ok s' c (gs c)) (down cl0 ++ told_to c sent).
Proof.
  intros Hc Ht. pose proof (y_clients _ _ _ _ HY _ _ Hc) as HC. destruct Ht as (He & Hd & Hsub & Hnew & Hcan).
  rewrite Hd. apply Forall_app. split.
  + pose proof (c_down _ _ _ _ _ HC) as Hdn. rewrite Forall_forall in *. intros st Hst. pose proof (Hdn _ Hst) as H.
    assert (Hsent : os_state st <> Cancelled -> forall x, gs c !! os_orderId st <> Some (TradeEngine.Cancelling x)).
    { intros Hs x. rewrite (proj1 (c_first _ _ _ _ _ HC (os_orderId st))); [done|]. unfold first_answers.
      rewrite !elem_of_app. right. right. apply list_elem_of_omap. exists st. split; [done|].
      unfold answer_of. by rewrite bool_decide_false. }
    unfold down_ok in *. destruct (os_state st); try done; destruct H as [H1 H2];
      by apply (kept c (os_orderId st) (os_systemOrderId st) H1 H2 (Hsent ltac:(done))).
  + rewrite Forall_forall. intros st Hst. apply list_elem_of_omap in Hst as ([ss|e] & Hin & E); [|done].
    destruct (decide (sos_clientId ss = c)) as [Ec|]; [|done]. injection E as <-.
    pose proof (ServerRun.sf_sent _ _ _ _ Hfacts ss Hin) as H. unfold ServerRun.truthful, down_ok in *. rewrite Ec in H.
    destruct (os_state (sos_orderStatus ss)); try done. destruct H as [H Hw].
    destruct (y_cancelling _ _ _ _ HY _ H) as (_ & _ & Hg). by rewrite Hw in Hg.
Qed.

(** No cancel is under way twice. *)
Lemma hear_cancels c cl cl0 :
  clients y !! c = Some cl -> taken c cl cl0 -> NoDup (cancels s' c (hear c sent cl0)).
Proof.
  intros Hc Ht. pose proof (y_clients _ _ _ _ HY _ _ Hc) as HC. pose proof Ht as (He & Hd & Hsub & Hnew & Hcan).
  assert (Hup : omap (cancel_of s') (up cl0) = omap (cancel_of s) (up cl0)).
  { assert (Hall : forall m, m ∈ up cl0 -> cancel_of s' m = cancel_of s m).
    { intros m Hm. unfold cancel_of. case_bool_decide as Ha; [|done].
      destruct (kept_up c cl cl0 m Hc Ht Hm Ha) as (id & _ & -> & _ & -> & _). done. }
    clear -Hall. induction (up cl0) as [|m l IH]; [done|]. cbn. rewrite (Hall m) by left.
    destruct (cancel_of s m); [f_equal|]; apply IH; intros; apply Hall; by right. }
  assert (Hwho : map (who s') (ServerRun.cancelling s') = map (who s) (ServerRun.cancelling s')).
  { apply map_ext_in. intros sys Hsys%list_elem_of_In. by destruct (still_asked sys Hsys) as (_ & _ & ?). }
  destruct asked_split as [k Hk]. pose proof (c_cancels _ _ _ _ _ HC) as Hn.
  rewrite (cancels_split _ cl cl0 Hc Ht), Hk, !map_app, !ids_of_app in Hn.
  unfold cancels, hear. cbn [up down]. rewrite Hup, Hwho, omap_app, Hd, (told_cancels _ _ c sent (ServerRun.sf_sent _ _ _ _ Hfacts)).
  match goal with |- NoDup ?l => match type of Hn with NoDup ?l' =>
    assert (Hp : l' ≡ₚ l ++ ids_of c (map (who s) k)) by solve_Permutation end end.
  rewrite Hp in Hn. by apply NoDup_app in Hn as [Hn _].
Qed.

(** The server's step keeps the invariant of each client. *)
Lemma serve_client c cl cl0 :
  clients y !! c = Some cl -> taken c cl cl0 -> ClientInv s' lost' c (hear c sent cl0) (gs c).
Proof.
  intros Hc Ht. pose proof (y_clients _ _ _ _ HY _ _ Hc) as HC. pose proof Ht as (He & _ & Hsub & _).
  pose proof (hear_first c cl cl0 Hc Ht) as Ef.
  split; cbn [engine up down hear].
  - rewrite He. apply HC.
  - intros id. rewrite He. apply HC.
  - rewrite Forall_forall. intros m Hm. pose proof (c_up _ _ _ _ _ HC) as Hu. rewrite Forall_forall in Hu.
    destruct (Hu m (Hsub _ Hm)) as [(Hp & Ha & Hok)|(Hp & Ha & _)].
    + left. split; [done|]. split; [done|]. intros Hv Hn. destruct (Hok Hv Hn) as (H1 & H2 & H3). auto.
    + right. destruct (kept_up c cl cl0 m Hc Ht Hm Ha) as (id & H1 & H2 & H3 & H4 & _). split; [done|]. split; [done|]. eauto.
  - by apply (hear_down c cl).
  - rewrite Ef. apply HC.
  - intros id. rewrite Ef. apply HC.
  - by apply (hear_cancels c cl).
  - intros id sys H. destruct (c_rest _ _ _ _ _ HC id sys H) as [Ha Hw]. apply (kept c id sys Ha Hw). congruence.
Qed.

Lemma serve_inv : Inv (mkSys s' (foldl tell cs0 sent)) gs out' lost'.
Proof.
  split; cbn [server clients].
  - exact HI'.
  - intros c cl'. rewrite tell_lookup. destruct (cs0 !! c) as [cl0|] eqn:E0; [|done]. cbn. intros [= <-].
    destruct (Hcs _ _ E0) as (cl & Hc & Ht). by apply (serve_client c cl).
  - intros sys Hsys. destruct (still_asked sys Hsys) as (Hin & Ha & Hw). destruct (asked_ok sys Hin) as (_ & Hc & Hg).
    rewrite Hw. split; [done|]. split; [|done]. rewrite tell_lookup. apply fmap_is_Some. by apply Hdom.
Qed.
End Serve.

(** ** Every step *)

Lemma server_data (x : Server.State) o x' sent :
  Server.run_op x o = Ok (x', sent) ->
  forall t, is_Some (Market.data_ (Server.coord x) !! t) -> is_Some (Market.data_ (Server.coord x') !! t).
Proof.
  intros E. destruct o as [so|w|].
  - cbn [Server.run_op] in E. unfold Server.submit in E. destruct (Gateway.postOrder _ _) as [[g outs]|]; [|done].
    destruct (ServerRun.route_frame _ _ _ _ E) as (-> & _). done.
  - by destruct (ServerRun.work_frame _ _ _ _ E).
  - destruct (ServerRun.deliver_frame _ _ _ E) as (-> & _). done.
Qed.

Definition telemetry_only (m : list (Z * TradeEngine.Out)) : Prop :=
  Forall (fun x => exists t, x.2 = TradeEngine.OutTelemetry t) m.

Definition steps (y : Sys Q) (o : Op) : Prop :=
  exists y' m gs' out' lost', run_op y o = Ok (y', m) /\ Inv y' gs' out' lost' /\ telemetry_only m.

Section Steps.
Context (y : Sys Q) (gs : Z -> Phases) (out lost : list Z) (HY : Inv y gs out lost).

Lemma serve_steps cs0 o op :
  run_op y op = serve y cs0 o -> ServerRun.op_ok (server y) o ->
  (forall c cl0, cs0 !! c = Some cl0 -> exists cl, clients y !! c = Some cl /\ taken y o c cl cl0) ->
  (forall c, is_Some (clients y !! c) -> is_Some (cs0 !! c)) ->
  (forall sys, sys ∈ ServerRun.asks_cancel o ->
    accepted (server y) sys /\ is_Some (clients y !! (who (server y) sys).1) /\
    gs (who (server y) sys).1 !! (who (server y) sys).2 = Some (TradeEngine.Cancelling sys)) ->
  steps y op.
Proof.
  intros Eop Hok Hcs Hdom Hasks.
  destruct (ServerRun.op_advances _ _ _ (y_server _ _ _ _ HY) o Hok) as (s' & sent & out' & lost' & E & HI' & Hl & _ & Hf).
  exists (mkSys s' (foldl tell cs0 sent)), [], gs, out', lost'. split; [rewrite Eop; unfold serve; by rewrite E|].
  split; [|constructor]. eapply serve_inv; try done. by eapply server_data.
Qed.

Lemma taken_same o c cl : ids_of c (ServerRun.due o) = [] ->
  ids_of c (map (who (server y)) (ServerRun.asks_cancel o)) = [] -> taken y o c cl cl.
Proof. intros H1 H2. unfold taken. rewrite H1, H2. auto. Qed.

Lemma server_steps o : ServerRun.op_ok (server y) o -> steps y (ServerStep o).
Proof.
  intros Hok. destruct o as [so|w|].
  { exists y, [], gs, out, lost. split; [done|]. split; [done|constructor]. }
  all: eapply serve_steps; [done|exact Hok| |done|by intros sys ?%elem_of_nil];
    intros c cl0 H; exists cl0; split; [done|]; by apply taken_same.
Qed.

Lemma upstream_steps c : steps y (Upstream c).
Proof.
  destruct (clients y !! c) as [cl|] eqn:Hc; [destruct (up cl) as [|m rest] eqn:Eu|].
  1, 3: exists y, [], gs, out, lost; split; [cbn [run_op]; by rewrite Hc, ?Eu|]; split; [done|constructor].
  pose proof (y_clients _ _ _ _ HY _ _ Hc) as HC. pose proof (c_up _ _ _ _ _ HC) as Hup.
  rewrite Eu in Hup. apply Forall_cons in Hup as [Hm _].
  assert (Hval : Gateway.isValid (mkServerOrder c m) = true).
  { unfold Gateway.isValid. cbn. apply Z.ltb_lt. by destruct Hm as [[? _]|[? _]]. }
  eapply (serve_steps (<[c := mkClient (engine cl) rest (down cl)]> (clients y)) (Server.Submit (mkServerOrder c m))).
  - cbn [run_op]. by rewrite Hc, Eu.
  - cbn. destruct Hm as [(_ & _ & Hok)|(_ & Ha & _)]; [done|]. intros _ Hn. unfold ServerRun.is_new in Hn. cbn in Hn.
    by rewrite Ha in Hn.
  - assert (Hcase : (o_action m <> Cancel /\ ServerRun.due (Server.Submit (mkServerOrder c m)) = [(c, o_id m)] /\
        ServerRun.asks_cancel (Server.Submit (mkServerOrder c m)) = []) \/
      (o_action m = Cancel /\ ServerRun.due (Server.Submit (mkServerOrder c m)) = [] /\
        ServerRun.asks_cancel (Server.Submit (mkServerOrder c m)) = [o_id m] /\ (who (server y) (o_id m)).1 = c)).
    { unfold ServerRun.due, ServerRun.asks_cancel, ServerRun.is_new. rewrite Hval. cbn [so_order negb orb].
      destruct Hm as [(_ & Ha & _)|(_ & Ha & id & _ & _ & Hw)]; [left|right].
      - destruct Ha as [-> | ->]; by rewrite bool_decide_false.
      - rewrite Ha, Hw. by rewrite bool_decide_true. }
    intros c' cl0 H0. destruct (decide (c' = c)) as [->|Hne].
    + rewrite lookup_insert_eq in H0. injection H0 as <-. exists cl. split; [done|]. unfold taken.
      cbn [engine up down]. rewrite Eu. cbn [omap list_omap]. unfold new_of at 1, cancel_of at 1.
      split; [done|]. split; [done|]. split; [by right|].
      destruct Hcase as [(Ha & -> & ->)|(Ha & -> & -> & Hw)].
      * rewrite !bool_decide_false by done. cbn. by rewrite decide_True.
      * rewrite !bool_decide_true by done. cbn [map ids_of omap list_omap]. rewrite decide_True by done. by split.
    + rewrite lookup_insert_ne in H0 by done. exists cl0. split; [done|]. apply taken_same.
      * destruct Hcase as [(_ & -> & _)|(_ & -> & _)]; [|done]. cbn. by rewrite decide_False.
      * destruct Hcase as [(_ & _ & ->)|(_ & _ & -> & Hw)]; [done|]. cbn [map ids_of omap list_omap]. rewrite decide_False; [done|congruence].
  - intros c' Hs. by apply lookup_insert_is_Some'; right.
  - intros sys Hsys. cbn in Hsys. case_bool_decide as Ha; [|by apply elem_of_nil in Hsys].
    apply list_elem_of_singleton in Hsys as ->. destruct Hm as [(_ & [Hx|Hx] & _)|(_ & _ & id & Hid & Hacc & Hw)]; [congruence..|].
    rewrite Hw. split; [done|]. split; [by exists cl|done].
Qed.

Lemma op_steps o : op_ok y o -> steps y o.
Proof.
  assert (Hnone : run_op y o = Ok (y, []) -> steps y o).
  { intros E. exists y, [], gs, out, lost. split; [done|]. split; [done|constructor]. }
  assert (Hsil : forall c cl e, clients y !! c = Some cl -> TradeEngine.Reach cap e (gs c) ->
    TradeEngine.orders_ e = TradeEngine.orders_ (engine cl) -> run_op y o = Ok (with_engine y c cl e [], []) -> steps y o).
  { intros c cl e Hc HR Ho E. destruct (silent_step y gs out lost HY c cl e Hc HR) as [gs' HI].
    { intros id. unfold TradeEngine.record. by rewrite Ho. }
    exists (with_engine y c cl e []), [], gs', out, lost. split; [done|]. split; [done|constructor]. }
  intros Hok. destruct o as [c|c|c p|c d now|c|o|c cycl coin]; [| | | |by apply upstream_steps|by apply server_steps|].
  all: destruct (clients y !! c) as [cl|] eqn:Hc; [|apply Hnone; cbn [run_op]; by rewrite Hc];
    pose proof (c_engine _ _ _ _ _ (y_clients _ _ _ _ HY _ _ Hc)) as HR.
  - apply (Hsil c cl (TradeEngine.tradeStart (engine cl)) Hc); [by apply TradeEngine.reach_tradeStart| |cbn [run_op]; by rewrite Hc].
    unfold TradeEngine.tradeStart. by destruct (TradeEngine.trading_ _).
  - apply (Hsil c cl (TradeEngine.tradeStop (engine cl)) Hc); [by apply TradeEngine.reach_tradeStop| |cbn [run_op]; by rewrite Hc].
    unfold TradeEngine.tradeStop. by destruct (negb _).
  - apply (Hsil c cl (TradeEngine.postPrice (engine cl) p) Hc); [by apply TradeEngine.reach_price|done|cbn [run_op]; by rewrite Hc].
  - destruct (round_step y gs out lost HY c cl d now Hc Hok) as (e & m & go & gs' & E & Ho & HI).
    exists (with_engine y c cl e m), (map (pair c) (own_of m)), gs', out, lost. split; [cbn [run_op]; by rewrite Hc, E|].
    split; [done|]. rewrite Ho. constructor.
  - destruct (down cl) as [|st rest] eqn:Ed; [apply Hnone; cbn [run_op]; by rewrite Hc, Ed|].
    destruct (downstream_step y gs out lost HY c cl st rest cycl coin Hc Ed) as (e & m & gs' & E & HI).
    eexists _, _, gs', out, lost. split; [cbn [run_op]; by rewrite Hc, Ed, E|]. split; [exact HI|]. cbn.
    apply Forall_singleton. by exists m.
Qed.
End Steps.

Lemma run_steps ops : forall y gs out lost, Inv y gs out lost -> run_ok y ops ->
  exists y' m gs' out' lost', run y ops = Ok (y', m) /\ Inv y' gs' out' lost' /\ telemetry_only m.
Proof.
  induction ops as [|o ops IH]; intros y gs out lost HY Hok.
  { exists y, [], gs, out, lost. split; [done|]. split; [done|constructor]. }
  destruct Hok as [Ho Hok]. destruct (op_steps y gs out lost HY o Ho) as (y1 & m1 & gs1 & out1 & lost1 & E1 & HY1 & Hm1).
  destruct (IH y1 gs1 out1 lost1 HY1 (Hok _ _ E1)) as (y2 & m2 & gs2 & out2 & lost2 & E2 & HY2 & Hm2).
  exists y2, (m1 ++ m2), gs2, out2, lost2. cbn [run]. rewrite E1, E2. split; [done|]. split; [done|]. by apply Forall_app.
Qed.

Definition fresh_client (cl : Client Q) : Prop :=
  exists md q, cl = mkClient (TradeEngine.init md q) [] [] /\ md <> [] /\ fifo_holds q [].

Lemma system_Inv_init prices coresApp data cs :
  (length coresApp <= 1)%nat -> Market.loadMarketData (inl prices) coresApp = Ok data ->
  (forall c cl, cs !! c = Some cl -> fresh_client cl) ->
  Inv (mkSys (Server.init data coresApp) cs) (fun _ => ∅) [] [].
Proof.
  intros Hlen E Hcs. destruct (ServerRun.server_Inv_init _ _ _ Hlen E) as [HI _].
  pose proof (ServerRun.init_events data coresApp) as He.
  assert (Hu : ServerRun.under_way (Server.init data coresApp) = []) by (unfold ServerRun.under_way; by rewrite He).
  assert (Hn : ServerRun.cancelling (Server.init data coresApp) = []) by (unfold ServerRun.cancelling; by rewrite He).
  split; cbn [server clients]; [done| |intros sys; rewrite Hn; by intros ?%elem_of_nil].
  intros c cl Hc. destruct (Hcs c cl Hc) as (md & q & -> & Hmd & Hq).
  assert (Hf : first_answers (Server.init data coresApp) [] c (mkClient (TradeEngine.init md q) [] []) = [])
    by (unfold first_answers; by rewrite Hu).
  split; cbn [engine up down].
  - by apply TradeEngine.reach_init.
  - intros id. rewrite lookup_empty. by intros [? [=]].
  - constructor.
  - constructor.
  - rewrite Hf. constructor.
  - intros id. rewrite Hf, lookup_empty. split; [by intros ?%elem_of_nil|done].
  - unfold cancels. rewrite Hn. constructor.
  - intros id sys. by rewrite lookup_empty.
Qed.

(** C3: any number of clients trade against a server with at most one worker, each
    with its own trade engine; the threads of the server, the sessions and the
    engines take their steps in any order.  Provided the engines draw, within
    range, from market data the server trades, on its price grid, and each
    cancel that the worker takes still finds its order accepted and resting
    ([run_ok]; [Server.filled_order_can_still_be_cancelled] is why this has to
    be asked), nothing faults: no handler of the server or of an engine, and
    no engine is stopped by a status it cannot place (all the engines post
    besides orders is telemetry).  Every engine is then in a state its own
    theorem is about, the status next in line for it is one its protocol
    allows, and the orders it has sent and not seen answered are, each once, on
    their way up, in the server or lost there to a full book or queue, or on
    their way down. *)
Theorem system_keeps_protocol prices coresApp data (cs : gmap Z (Client Q)) ops :
  (length coresApp <= 1)%nat -> Market.loadMarketData (inl prices) coresApp = Ok data ->
  (forall c cl, cs !! c = Some cl -> fresh_client cl) ->
  run_ok (mkSys (Server.init data coresApp) cs) ops ->
  exists y m gs out lost, run (mkSys (Server.init data coresApp) cs) ops = Ok (y, m) /\ telemetry_only m /\
    ServerRun.Inv (server y) out lost /\
    forall c cl, clients y !! c = Some cl ->
      TradeEngine.Reach cap (engine cl) (gs c) /\
      (forall st rest, down cl = st :: rest -> TradeEngine.answers (gs c) st) /\
      NoDup (first_answers (server y) lost c cl) /\
      (forall id, gs c !! id = Some TradeEngine.Sent <-> id ∈ first_answers (server y) lost c cl).
Proof.
  intros Hlen E Hcs Hok. pose proof (system_Inv_init prices coresApp data cs Hlen E Hcs) as HY.
  destruct (run_steps ops _ _ _ _ HY Hok) as (y & m & gs & out & lost & Er & HY' & Hm).
  exists y, m, gs, out, lost. split; [done|]. split; [done|]. split; [apply HY'|]. intros c cl Hc.
  pose proof (y_clients _ _ _ _ HY' _ _ Hc) as HC. split; [apply HC|]. split; [|split; [apply HC|]].
  - intros st rest Hd. by apply (head_answers y gs out lost HY' c cl st rest).
  - intros id. symmetry. apply HC.
Qed.
End Inv.

(** ** A concrete run *)

Section Concrete.
#[local] Existing Instance build_cicd.
#[local] Instance concrete_fifo : Fifo Spsc.Queue Z := spsc_fifo 1024.
#[local] Instance concrete_fifo_ok : FifoOk Spsc.Queue Z 1024 (fun x => 0 <= x < 2 ^ 32) :=
  spsc_fifo_ok 1024 10 eq_refl ltac:(lia) _ ltac:(by apply Nat.leb_le).

Definition op_okb (y : Sys Spsc.Queue) (o : Op) : bool :=
  match o with
  | Round c d now =>
      (0 <? now) &&
      match clients y !! c with
      | None => true
      | Some cl => match quote (engine cl) with
          | None => true
          | Some (t, p) =>
              bool_decide (is_Some (Market.data_ (Server.coord (server y)) !! t)) && (0 <? p) &&
              (p + TradeEngine.price_delta p <? MAX_TICKS) && (0 <=? TradeEngine.d_offset d) &&
              (TradeEngine.d_offset d <=? 2 * TradeEngine.price_delta p) && (0 <=? TradeEngine.d_quantity d) &&
              (TradeEngine.d_quantity d <? 2 ^ 32)
          end
      end
  | ServerStep o => ServerRun.op_okb (server y) o
  | _ => true
  end.

Fixpoint run_okb (y : Sys Spsc.Queue) (ops : list Op) : bool :=
  match ops with
  | [] => true
  | o :: ops => op_okb y o && match run_op y o with Ok (y', _) => run_okb y' ops | Err _ => true end
  end.

Lemma system_op_okb_ok y gs out lost o : Inv 1024 y gs out lost -> op_okb y o = true -> op_ok y o.
Proof.
  intros HY H. destruct o as [c|c|c p|c d now|c|o|c cycl coin]; try done.
  - cbn in H. apply andb_prop in H as [Hn H]. split; [bool_to_prop; lia|]. intros cl Hc t p Hq. rewrite Hc, Hq in H.
    repeat (apply andb_prop in H as [H ?]). apply bool_decide_eq_true in H. bool_to_prop. split; [done|]. lia.
  - by apply (ServerRun.op_okb_ok _ out lost); [apply HY|].
Qed.

Lemma system_run_okb_ok ops : forall y gs out lost, Inv 1024 y gs out lost -> run_okb y ops = true -> run_ok y ops.
Proof.
  induction ops as [|o ops IH]; intros y gs out lost HY H; [done|]. apply andb_prop in H as [Ho H].
  pose proof (system_op_okb_ok y gs out lost o HY Ho) as Hok. split; [done|]. intros y' m E. rewrite E in H.
  destruct (op_steps 1024 y gs out lost HY o Hok) as (y1 & m1 & gs1 & out1 & lost1 & E1 & HY1 & _).
  rewrite E in E1. injection E1 as <- <-. by apply (IH y' gs1 out1 lost1).
Qed.

Definition trader (md : list (Ticker * Z)) : Client Spsc.Queue := mkClient (TradeEngine.init md (Spsc.init 1024)) [] [].

Definition two_traders : gmap Z (Client Spsc.Queue) :=
  {[ 7 := trader [(Market.AAA, 60)]; 8 := trader [(Market.BBB, 40); (Market.AAA, 60)] ]}.

(** Client 7 sells, sees its order accepted and cancels it, while client 8
    buys something else. *)
Definition trading_ops : list Op :=
  [TradeStart 7; TradeStart 8; Round 7 (TradeEngine.mkDraw 3 1 9) 5; Round 8 (TradeEngine.mkDraw 1 0 4) 6;
   Upstream 7; ServerStep (Server.Work 0); Upstream 8; ServerStep Server.Deliver; Downstream 7 1 1;
   Round 7 (TradeEngine.mkDraw 0 0 1) 8; Upstream 7; ServerStep (Server.Work 0); ServerStep (Server.Work 0);
   ServerStep Server.Deliver; ServerStep Server.Deliver; Downstream 7 2 0].

Lemma two_traders_fresh c cl : two_traders !! c = Some cl -> fresh_client 1024 cl.
Proof.
  unfold two_traders. intros H. apply lookup_insert_Some in H as [[_ <-]|[_ H]];
    [|apply lookup_singleton_Some in H as [_ <-]]; eexists _, _; (split; [reflexivity|]); (split; [done|]);
    by apply (spsc_holds_init 1024 10).
Qed.

Lemma system_keeps_protocol_witness :
  exists y m gs, run (mkSys Server.server_0 two_traders) trading_ops = Ok (y, m) /\ telemetry_only m /\
    forall c cl, clients y !! c = Some cl -> TradeEngine.Reach 1024 (engine cl) (gs c).
Proof.
  destruct (system_keeps_protocol 1024 Market.three_tickers [] Server.one_worker_data two_traders trading_ops)
    as (y & m & gs & out & lost & H1 & H2 & _ & H3).
  - cbn. lia.
  - reflexivity.
  - exact two_traders_fresh.
  - eapply system_run_okb_ok; [apply (system_Inv_init 1024 Market.three_tickers [] Server.one_worker_data two_traders);
      [cbn; lia|reflexivity|exact two_traders_fresh]|]. vm_compute. reflexivity.
  - exists y, m, gs. split; [exact H1|]. split; [exact H2|]. intros c cl Hc. apply (H3 c cl Hc).
Defined.
End Concrete.
End System.
