(* ===== verification/ClientConnection.v ===== *)
(** * The client's connections

    Models [NetworkConnectionManager] and [TrustedConnectionManager]
    (client/src/connection), [ShmClient] (client/src/ipc/shm/shm_client.hpp),
    and the login handshake of the network client with the server's session
    manager: client, [SessionBus], [Authenticator] and
    [NetworkSessionManager] run together over two connections. *)

From S2P Require Import Prelude SlotId Types.
From S2P Require Import Framing Channel Session.

(** connection_state.hpp and client/src/events.hpp *)
Inductive ConnectionState := CDisconnected | CConnected | CTokenReceived | CAuthenticated.

Inductive ServerConnectionState := ServerDisconnected | ServerConnected | ServerFailed.

#[export] Instance ConnectionState_eq_dec : EqDecision ConnectionState.
Proof. solve_decision. Defined.

#[export] Instance ServerConnectionState_eq_dec : EqDecision ServerConnectionState.
Proof. solve_decision. Defined.

Definition toString_ConnectionState (e : ConnectionState) : string :=
  match e with
  | CDisconnected => "disconnected"
  | CConnected => "connected"
  | CTokenReceived => "token received"
  | CAuthenticated => "authenticated"
  end.

Definition toString_ServerConnectionState (e : ServerConnectionState) : string :=
  match e with
  | ServerDisconnected => "Disconnected from the server"
  | ServerConnected => "Connected to the server"
  | ServerFailed => "Failed to connect"
  end.

Module NetworkClient.

Inductive UpMsg := UpLogin (r : LoginRequest) | UpOrder (o : Order).

(** What the manager does: writes on a channel, starts reading one, drops
    its reference to one, and posts to the bus. *)
Inductive Out :=
| OutUp (conn : Z) (m : UpMsg)
| OutDown (conn : Z) (r : TokenBindRequest)
| OutRead (conn : Z)
| OutRelease (conn : Z)
| OutState (s : ServerConnectionState).

(** Channels are named by their connection id; [nextConnection] is the
    counter of [genConnectionId]. *)
Record State := mkState {
  upstreamChannel_ : option Z;
  downstreamChannel_ : option Z;
  pricesChannel_ : option Z;
  token_ : option Z;
  state_ : ConnectionState;
  nextConnection : Z
}.

Definition init (next : Z) : State := mkState None None None None CDisconnected next.

Section NetworkClient.
Context (name password : string).

Definition set_state (s : State) st := mkState (upstreamChannel_ s) (downstreamChannel_ s) (pricesChannel_ s)
  (token_ s) st (nextConnection s).
Definition set_token (s : State) t := mkState (upstreamChannel_ s) (downstreamChannel_ s) (pricesChannel_ s)
  t (state_ s) (nextConnection s).

Definition tryAuthenticate (s : State) : State * list Out :=
  match upstreamChannel_ s, downstreamChannel_ s with
  | Some up, Some _ => (set_state s CConnected, [OutUp up (UpLogin (mkLoginRequest name password))])
  | _, _ => (s, [])
  end.

Definition onUpstream (s : State) : State * list Out :=
  match upstreamChannel_ s with
  | Some _ => (s, [])
  | None =>
      let id := u32 (nextConnection s) in
      let s := mkState (Some id) (downstreamChannel_ s) (pricesChannel_ s) (token_ s) (state_ s)
                 (u64 (nextConnection s + 1)) in
      let '(s, out) := tryAuthenticate s in (s, OutRead id :: out)
  end.

Definition onDownstream (s : State) : State * list Out :=
  match downstreamChannel_ s with
  | Some _ => (s, [])
  | None =>
      let id := u32 (nextConnection s) in
      let s := mkState (upstreamChannel_ s) (Some id) (pricesChannel_ s) (token_ s) (state_ s)
                 (u64 (nextConnection s + 1)) in
      let '(s, out) := tryAuthenticate s in (s, OutRead id :: out)
  end.

Definition released (o : option Z) : list Out := match o with Some c => [OutRelease c] | None => [] end.

(** The previous datagram channel, if any, is replaced. *)
Definition onDatagram (s : State) : State * list Out :=
  let id := u32 (nextConnection s) in
  (mkState (upstreamChannel_ s) (downstreamChannel_ s) (Some id) (token_ s) (state_ s) (u64 (nextConnection s + 1)),
   released (pricesChannel_ s) ++ [OutRead id]).

Definition reset (s : State) : State * list Out :=
  (mkState None None None None CDisconnected (nextConnection s),
   released (upstreamChannel_ s) ++ released (downstreamChannel_ s) ++ released (pricesChannel_ s)
   ++ [OutState ServerDisconnected]).

(** [post(CRef<ConnectionStatusEvent>)] *)
Definition postStatus (s : State) (status : Channel.ConnectionStatus) : State * list Out :=
  match status with Channel.Connected => (s, []) | _ => reset s end.

(** [post(CRef<LoginResponse>)]: the downstream pointer is not checked. *)
Definition postLogin (s : State) (event : LoginResponse) : res (State * list Out) :=
  if negb (lresp_ok event) then Ok (reset s)
  else
    let s := set_token s (Some (lresp_token event)) in
    match state_ s with
    | CConnected =>
        match downstreamChannel_ s with
        | None => Err NullDeref
        | Some d => Ok (set_state s CTokenReceived, [OutDown d (mkTokenBindRequest (lresp_token event))])
        end
    | CTokenReceived => Ok (set_state s CAuthenticated, [OutState ServerConnected])
    | _ => Ok (s, [])
    end.

(** [post(CRef<Order>)] *)
Definition postOrder (s : State) (o : Order) : list Out :=
  match upstreamChannel_ s with Some up => [OutUp up (UpOrder o)] | None => [] end.

(** ** Handlers never dereference a missing channel *)

Inductive Event :=
| EvUp | EvDown | EvDatagram | EvStatus (st : Channel.ConnectionStatus) | EvLogin (r : LoginResponse) | EvOrder (o : Order).

Definition handle (s : State) (e : Event) : res (State * list Out) :=
  match e with
  | EvUp => Ok (onUpstream s)
  | EvDown => Ok (onDownstream s)
  | EvDatagram => Ok (onDatagram s)
  | EvStatus st => Ok (postStatus s st)
  | EvLogin r => postLogin s r
  | EvOrder o => Ok (s, postOrder s o)
  end.

Fixpoint run (s : State) (es : list Event) : res (State * list Out) :=
  match es with
  | [] => Ok (s, [])
  | e :: es => let! (s, o) := handle s e in let! (s, o') := run s es in Ok (s, o ++ o')
  end.

(** Past [CDisconnected] both channels exist. *)
Definition Inv (s : State) : Prop :=
  state_ s <> CDisconnected -> is_Some (upstreamChannel_ s) /\ is_Some (downstreamChannel_ s).

(** The notifications to the control center in a list of outputs. *)
Fixpoint notes (out : list Out) : list ServerConnectionState :=
  match out with [] => [] | OutState st :: out => st :: notes out | _ :: out => notes out end.

Lemma notes_app a b : notes (a ++ b) = notes a ++ notes b.
Proof. induction a as [|o a IH]; [done|]. destruct o; cbn; by rewrite ?IH. Qed.

Lemma notes_released o : notes (released o) = [].
Proof. by destruct o. Qed.

(** The client is told [Connected] only by the second successful login
    response after both channels were connected. *)
Definition note_ok (s s' : State) (out : list Out) : Prop :=
  forall st, st ∈ notes out ->
    (st = ServerConnected /\ state_ s = CTokenReceived /\ state_ s' = CAuthenticated) \/
    (st = ServerDisconnected /\ s' = (reset s).1).

Lemma tryAuthenticate_Inv s : state_ s = CDisconnected -> Inv (tryAuthenticate s).1 /\ notes (tryAuthenticate s).2 = [].
Proof.
  intros E. unfold tryAuthenticate, Inv. destruct (upstreamChannel_ s) eqn:Eu, (downstreamChannel_ s) eqn:Ed; cbn; try done.
Qed.

Lemma Inv_disconnected s : Inv s -> upstreamChannel_ s = None \/ downstreamChannel_ s = None -> state_ s = CDisconnected.
Proof.
  intros HI H. destruct (decide (state_ s = CDisconnected)); [done|]. destruct HI as [[? Hu] [? Hd]]; [done|].
  rewrite Hu, Hd in H. by destruct H.
Qed.

Lemma reset_notes s : notes (reset s).2 = [ServerDisconnected].
Proof. cbn. by rewrite !notes_app, !notes_released. Qed.

Lemma reset_ok s : Inv (reset s).1 /\ note_ok s (reset s).1 (reset s).2.
Proof. split; [done|]. intros st. rewrite reset_notes, list_elem_of_singleton. by right. Qed.

Lemma handle_ok s e : Inv s -> exists s' out, handle s e = Ok (s', out) /\ Inv s' /\ note_ok s s' out.
Proof.
  intros HI. destruct e as [| | |st|r|o]; cbn [handle].
  - unfold onUpstream. destruct (upstreamChannel_ s) eqn:Eu.
    { eexists _, _. split; [done|]. split; [done|]. by intros st ?%elem_of_nil. }
    assert (Es : state_ s = CDisconnected) by (apply Inv_disconnected; auto).
    match goal with |- context [tryAuthenticate ?x] => destruct (tryAuthenticate_Inv x Es) as [H1 H2], (tryAuthenticate x) as [s1 out] end.
    eexists _, _. split; [done|]. split; [done|]. intros st. cbn in *. by rewrite H2, elem_of_nil.
  - unfold onDownstream. destruct (downstreamChannel_ s) eqn:Ed.
    { eexists _, _. split; [done|]. split; [done|]. by intros st ?%elem_of_nil. }
    assert (Es : state_ s = CDisconnected) by (apply Inv_disconnected; auto).
    match goal with |- context [tryAuthenticate ?x] => destruct (tryAuthenticate_Inv x Es) as [H1 H2], (tryAuthenticate x) as [s1 out] end.
    eexists _, _. split; [done|]. split; [done|]. intros st. cbn in *. by rewrite H2, elem_of_nil.
  - eexists _, _. split; [done|]. split; [exact HI|]. intros st. by rewrite notes_app, notes_released, elem_of_nil.
  - destruct st; [exists (reset s).1, (reset s).2; split; [done|apply reset_ok]|
                  |exists (reset s).1, (reset s).2; split; [done|apply reset_ok]].
    eexists _, _. split; [done|]. split; [done|]. by intros st' ?%elem_of_nil.
  - unfold postLogin. destruct (lresp_ok r); cbn [negb];
      [|exists (reset s).1, (reset s).2; split; [done|apply reset_ok]].
    cbn [state_ set_token downstreamChannel_]. destruct (state_ s) eqn:Es.
    + eexists _, _. split; [done|]. split; [|by intros st ?%elem_of_nil]. unfold Inv. cbn. by rewrite Es.
    + destruct HI as [Hu [d Hd]]; [by rewrite Es|]. rewrite Hd. eexists _, _. split; [done|].
      split; [|by intros st ?%elem_of_nil]. unfold Inv. cbn. by rewrite Hd.
    + eexists _, _. split; [done|]. split; [unfold Inv; cbn; intros _; apply HI; by rewrite Es|].
      intros st. cbn. rewrite list_elem_of_singleton. intros ->. left. by rewrite Es.
    + eexists _, _. split; [done|]. split; [|by intros st ?%elem_of_nil]. unfold Inv. cbn. intros _. apply HI. by rewrite Es.
  - eexists _, _. split; [done|]. split; [done|]. intros st. unfold postOrder.
    destruct (upstreamChannel_ s); cbn; by rewrite elem_of_nil.
Qed.

(** The handlers complete on every sequence of events. *)
Lemma run_ok es s : Inv s -> exists s' out, run s es = Ok (s', out) /\ Inv s'.
Proof.
  revert s. induction es as [|e es IH]; intros s HI; cbn; [by eexists _, _|].
  destruct (handle_ok s e HI) as (s1 & o1 & -> & HI1 & _). destruct (IH s1 HI1) as (s2 & o2 & -> & HI2).
  by eexists _, _.
Qed.

Lemma Inv_client next : Inv (init next).
Proof. done. Qed.

End NetworkClient.
End NetworkClient.

(** [TrustedConnectionManager] and the part of [ShmClient] that feeds it;
    [tx] is [syncTx] of the upstream transport, [t_close] is [close]. *)
Module TrustedClient.
Section Trusted.
Context {Transport : Type} (tx : Transport -> Order -> Transport * IoResult) (t_close : Transport -> Transport).

Inductive Out := OutStatus (s : OrderStatus) | OutState (s : ServerConnectionState).

Record State := mkState {
  upstreamChannel_ : option Transport;
  downstreamChannel_ : option Transport;
  pricesChannel_ : option Transport;
  status_ : OrderStatus
}.

Definition notify (s : State) : list Out :=
  match upstreamChannel_ s, downstreamChannel_ s with
  | Some _, Some _ => [OutState ServerConnected]
  | _, _ => []
  end.

Definition onUpstream (s : State) (t : Transport) : State * list Out :=
  match upstreamChannel_ s with
  | Some _ => (s, [])
  | None =>
      let s := mkState (Some t) (downstreamChannel_ s) (pricesChannel_ s) (status_ s) in (s, notify s)
  end.

Definition onDownstream (s : State) (t : Transport) : State * list Out :=
  match downstreamChannel_ s with
  | Some _ => (s, [])
  | None =>
      let s := mkState (upstreamChannel_ s) (Some t) (pricesChannel_ s) (status_ s) in (s, notify s)
  end.

Definition onDatagram (s : State) (t : Transport) : State :=
  match pricesChannel_ s with
  | Some _ => s
  | None => mkState (upstreamChannel_ s) (downstreamChannel_ s) (Some t) (status_ s)
  end.

(** The transports are closed but not dropped. *)
Definition reset (s : State) : State * list Out :=
  (mkState (option_map t_close (upstreamChannel_ s)) (option_map t_close (downstreamChannel_ s))
     (option_map t_close (pricesChannel_ s)) (status_ s),
   [OutState ServerDisconnected]).

(** [post(CRef<IoResult>)]; the bytes read are already in [status_]. *)
Definition postIo (s : State) (r : IoResult) : State * list Out :=
  if bool_decide (io_code r = IoOk) then (s, [OutStatus (status_ s)]) else reset s.

(** [post(CRef<Order>)]: the upstream pointer is not checked. *)
Definition postOrder (s : State) (o : Order) : res (State * list Out) :=
  match upstreamChannel_ s with
  | None => Err NullDeref
  | Some t =>
      let '(t, r) := tx t o in
      let s := mkState (Some t) (downstreamChannel_ s) (pricesChannel_ s) (status_ s) in
      Ok (if negb (io_ok r) then reset s else (s, []))
  end.

Definition postStatus (s : State) (st : Channel.ConnectionStatus) : State * list Out :=
  match st with Channel.Connected => (s, []) | _ => reset s end.

(** [ShmClient::initialize] with both callbacks set: the writer end first. *)
Definition initialize (s : State) (writer reader : Transport) : State * list Out :=
  let '(s, o1) := onUpstream s writer in
  let '(s, o2) := onDownstream s reader in (s, o1 ++ o2).

(** Starting the client connects it exactly once, after which orders never
    find a missing channel, whatever fails. *)
Lemma initialize_connects st w r :
  (initialize (mkState None None None st) w r).2 = [OutState ServerConnected].
Proof. done. Qed.

Lemma connected_order s o : is_Some (upstreamChannel_ s) ->
  exists s' out, postOrder s o = Ok (s', out) /\ is_Some (upstreamChannel_ s').
Proof.
  intros [t Ht]. unfold postOrder. rewrite Ht. destruct (tx t o) as [t' r].
  destruct (io_ok r); by eexists _, _.
Qed.

Lemma reset_keeps s : is_Some (upstreamChannel_ s) -> is_Some (upstreamChannel_ (reset s).1).
Proof. intros [t Ht]. cbn. by rewrite Ht. Qed.
End Trusted.
End TrustedClient.

(** ** The login handshake *)

Module Handshake.

Module Cl := NetworkClient.
Module Sv := NetworkSessionManager.

Section Handshake.
Context (full : Z -> bool) (checkCredentials : string -> string -> Z + StatusCode) (name password : string).

(** A client and the server, joined by two connections: the client's
    channels and the server's ends of them.  [toServer] is what the client
    has written and the server has not yet received; what the server has
    written and the client has not yet received are the entries of the
    server's channels past [seen]. *)
Record Sys := mkSys {
  client : Cl.State;
  server : Sv.State;
  upConn : Z;
  downConn : Z;
  toServer : list (Z * SessionBus.In);
  seenUp : nat;
  seenDown : nat;
  orders : list ServerOrder
}.

(** What the client writes, on the server's connection ids. *)
Definition written (up down : Z) (out : list Cl.Out) : list (Z * SessionBus.In) :=
  flat_map (fun o =>
    match o with
    | Cl.OutUp _ (Cl.UpLogin r) => [(up, SessionBus.InLogin r)]
    | Cl.OutUp _ (Cl.UpOrder o) => [(up, SessionBus.InOrder o)]
    | Cl.OutDown _ r => [(down, SessionBus.InTokenBind r)]
    | _ => []
    end) out.

(** The server's bus routes what a session posts to its subscribers. *)
Definition route (s : Sv.State) (m : SessionBus.Out) : res (Sv.State * list ServerOrder) :=
  match m with
  | SessionBus.OutLogin conn r => let! s := Sv.postLogin full s false (Authenticator.post checkCredentials conn r) in Ok (s, [])
  | SessionBus.OutTokenBind conn r => Ok (Sv.postTokenBind s false conn (tbr_token r), [])
  | SessionBus.OutOrder o => Ok (s, [o])
  | SessionBus.OutChannelStatus c conn st => let! s := Sv.postChannelStatus s c conn st in Ok (s, [])
  end.

Fixpoint route_all (s : Sv.State) (ms : list SessionBus.Out) : res (Sv.State * list ServerOrder) :=
  match ms with
  | [] => Ok (s, [])
  | m :: ms => let! (s, o) := route s m in let! (s, o') := route_all s ms in Ok (s, o ++ o')
  end.

(** A message arrives at the server: the channel's session bus, then the
    server bus.  A channel that is gone or closed reads nothing. *)
Definition server_receives (s : Sv.State) (conn : Z) (m : SessionBus.In) : res (Sv.State * list ServerOrder) :=
  match Sv.chans s !! conn with
  | Some ch =>
      if Sv.ch_open ch then route_all s (SessionBus.post (SessionBus.mkState conn (Sv.ch_client ch)) m)
      else Ok (s, [])
  | None => Ok (s, [])
  end.

Definition pending (s : Sv.State) (conn : Z) (seen : nat) : option Sv.Written :=
  match Sv.chans s !! conn with Some ch => Sv.ch_written ch !! seen | None => None end.

(** A message arrives at the client; statuses go to the engine. *)
Definition client_receives (c : Cl.State) (w : Sv.Written) : res (Cl.State * list Cl.Out) :=
  match w with
  | Sv.WLogin r => Cl.postLogin c r
  | Sv.WStatus _ _ => Ok (c, [])
  end.

(** One delivery: the oldest message of a connection to the server, or the
    next one of either connection to the client.  Which comes first is up to
    the network. *)
Inductive Delivery (x : Sys) : res Sys -> Prop :=
| ToServer l1 conn m l2 : toServer x = l1 ++ (conn, m) :: l2 -> (forall m', (conn, m') ∉ l1) ->
    Delivery x (let! (s, o) := server_receives (server x) conn m in
      Ok (mkSys (client x) s (upConn x) (downConn x) (l1 ++ l2) (seenUp x) (seenDown x) (orders x ++ o)))
| ToClientUp w : pending (server x) (upConn x) (seenUp x) = Some w ->
    Delivery x (let! (c, out) := client_receives (client x) w in
      Ok (mkSys c (server x) (upConn x) (downConn x) (toServer x ++ written (upConn x) (downConn x) out)
            (S (seenUp x)) (seenDown x) (orders x)))
| ToClientDown w : pending (server x) (downConn x) (seenDown x) = Some w ->
    Delivery x (let! (c, out) := client_receives (client x) w in
      Ok (mkSys c (server x) (upConn x) (downConn x) (toServer x ++ written (upConn x) (downConn x) out)
            (seenUp x) (S (seenDown x)) (orders x))).

(** However the deliveries are ordered, [P] holds after finitely many, none
    of which faults. *)
Inductive Surely (P : Sys -> Prop) (x : Sys) : Prop :=
| Now : P x -> Surely P x
| Later : (exists r, Delivery x r) -> (forall r, Delivery x r -> exists x', r = Ok x' /\ Surely P x') -> Surely P x.

(** The client connects upstream, then downstream, to a server. *)
Definition connect (c : Cl.State) (s : Sv.State) : res Sys :=
  let up := u32 (Sv.nextConnection s) in
  let! s := Sv.acceptUpstream full s false in
  let down := u32 (Sv.nextConnection s) in
  let! s := Sv.acceptDownstream full s false in
  let '(c, o1) := Cl.onUpstream name password c in
  let '(c, o2) := Cl.onDownstream name password c in
  Ok (mkSys c s up down (written up down (o1 ++ o2)) 0 0 []).

(** *** What each delivery does *)

(** The session found by a token is the one that holds it. *)
Lemma find_token_unique s t c ss : Sv.sessionsMap_ s !! c = Some ss -> Sv.ss_token ss = t ->
  (forall c' ss', Sv.sessionsMap_ s !! c' = Some ss' -> Sv.ss_token ss' = t -> c' = c) ->
  Sv.find_token s t = Some (c, ss).
Proof.
  intros Hc Ht Hu. destruct (Sv.find_token s t) as [[c' ss']|] eqn:E.
  - apply Sv.find_token_Some in E as [E1 E2]. pose proof (Hu _ _ E1 E2) as ->. rewrite Hc in E1. by injection E1 as ->.
  - unfold Sv.find_token in E. apply head_None in E. exfalso.
    assert (Hin : (c, ss) ∈ filter (fun kv => Sv.ss_token kv.2 = t) (map_to_list (Sv.sessionsMap_ s))).
    { apply list_elem_of_filter. split; [done|]. by apply elem_of_map_to_list. }
    rewrite E in Hin. by apply elem_of_nil in Hin.
Qed.

Definition login_ok (u c : Z) : Authenticator.ServerLoginResponse := Authenticator.mkServerLoginResponse u c true "".

Definition welcome (t : Z) : Sv.Written := Sv.WLogin (mkLoginResponse t true "").

Lemma login_accepted s u c : u ∈ Sv.unauthorizedUpstreamMap_ s -> Sv.sessionsMap_ s !! c = None ->
  full (Sv.sessionCells (Sv.cells s)) = false ->
  let t := u32 (Sv.nextToken s) in exists s', Sv.postLogin full s false (login_ok u c) = Ok s' /\
  Sv.sessionsMap_ s' = <[c := Sv.mkSession c t (Some u) None]> (Sv.sessionsMap_ s) /\
  Sv.unauthorizedDownstreamMap_ s' = Sv.unauthorizedDownstreamMap_ s /\
  (forall conn, Sv.chans s' !! conn = if decide (conn = u)
     then (fun ch => Sv.chan_authenticate c (Sv.chan_write (welcome t) ch)) <$> Sv.chans s !! u else Sv.chans s !! conn).
Proof.
  intros Hu Hc Hf t. unfold Sv.postLogin, login_ok. cbn. rewrite bool_decide_eq_true_2, Hc, Hf by done. cbn.
  eexists. split; [reflexivity|]. cbn. split; [done|]. split; [done|]. intros conn. case_decide as E.
  - subst. rewrite !lookup_alter_eq. by destruct (Sv.chans s !! u).
  - by rewrite !lookup_alter_ne.
Qed.

Lemma bind_accepted s d t c ss : d ∈ Sv.unauthorizedDownstreamMap_ s ->
  Sv.find_token s t = Some (c, ss) -> Sv.ss_down ss = None ->
  let s' := Sv.postTokenBind s false d t in
  Sv.sessionsMap_ s' = <[c := Sv.mkSession (Sv.ss_clientId ss) (Sv.ss_token ss) (Sv.ss_up ss) (Some d)]> (Sv.sessionsMap_ s) /\
  (forall conn, Sv.chans s' !! conn = if decide (conn = d)
     then (fun ch => Sv.chan_write (welcome t) (Sv.chan_authenticate (Sv.ss_clientId ss) ch)) <$> Sv.chans s !! d
     else Sv.chans s !! conn).
Proof.
  intros Hd Hf Hn s'. unfold s', Sv.postTokenBind. rewrite bool_decide_eq_true_2 by done.
  change (Sv.find_token (Sv.with_down s _) t) with (Sv.find_token s t). rewrite Hf, Hn. cbn.
  split; [done|]. intros conn. case_decide as E.
  - subst. rewrite !lookup_alter_eq. by destruct (Sv.chans s !! d).
  - by rewrite !lookup_alter_ne.
Qed.

(** An authenticated channel of the server. *)
Definition speaks_for (s : Sv.State) (conn c : Z) (written : list Sv.Written) : Prop :=
  Sv.chans s !! conn = Some (Sv.mkChan (Some c) true written).

(** The system once the client is authenticated as [c]. *)
Definition joined (x : Sys) (c : Z) : Prop :=
  Cl.state_ (client x) = CAuthenticated /\ toServer x = [] /\ seenUp x = 1%nat /\ seenDown x = 1%nat /\
  exists t, Cl.token_ (client x) = Some t /\
    Sv.sessionsMap_ (server x) !! c = Some (Sv.mkSession c t (Some (upConn x)) (Some (downConn x))) /\
    speaks_for (server x) (upConn x) c [welcome t] /\ speaks_for (server x) (downConn x) c [welcome t].

Lemma surely_server P x conn m ch sv os : toServer x = [(conn, m)] ->
  pending (server x) (upConn x) (seenUp x) = None -> pending (server x) (downConn x) (seenDown x) = None ->
  Sv.chans (server x) !! conn = Some ch -> Sv.ch_open ch = true ->
  route_all (server x) (SessionBus.post (SessionBus.mkState conn (Sv.ch_client ch)) m) = Ok (sv, os) ->
  Surely P (mkSys (client x) sv (upConn x) (downConn x) [] (seenUp x) (seenDown x) (orders x ++ os)) -> Surely P x.
Proof.
  intros Et Hu Hd Hc Ho Hr HS. apply Later.
  - eexists. apply (ToServer x [] conn m []); [done|]. intros m' Hin. by apply not_elem_of_nil in Hin.
  - intros r [l1 c' m' l2 E _|w E|w E]; [|congruence..]. rewrite Et in E.
    destruct l1 as [|? [|??]]; [|done..]. injection E as <- <- <-.
    unfold server_receives. rewrite Hc, Ho, Hr. cbn [app]. by eexists.
Qed.

Lemma surely_up P x w c' out : toServer x = [] -> pending (server x) (upConn x) (seenUp x) = Some w ->
  pending (server x) (downConn x) (seenDown x) = None -> client_receives (client x) w = Ok (c', out) ->
  Surely P (mkSys c' (server x) (upConn x) (downConn x) (written (upConn x) (downConn x) out)
              (S (seenUp x)) (seenDown x) (orders x)) -> Surely P x.
Proof.
  intros Et Hp Hn Hc HS. apply Later; [eexists; by apply (ToClientUp x w)|].
  intros r [l1 c m l2 E _|w' E|w' E]; [rewrite Et in E; by destruct l1| |congruence].
  rewrite Hp in E. injection E as <-. rewrite Hc, Et. by eexists.
Qed.

Lemma surely_down P x w c' out : toServer x = [] -> pending (server x) (upConn x) (seenUp x) = None ->
  pending (server x) (downConn x) (seenDown x) = Some w -> client_receives (client x) w = Ok (c', out) ->
  Surely P (mkSys c' (server x) (upConn x) (downConn x) (written (upConn x) (downConn x) out)
              (seenUp x) (S (seenDown x)) (orders x)) -> Surely P x.
Proof.
  intros Et Hn Hp Hc HS. apply Later; [eexists; by apply (ToClientDown x w)|].
  intros r [l1 c m l2 E _|w' E|w' E]; [rewrite Et in E; by destruct l1|congruence|].
  rewrite Hp in E. injection E as <-. rewrite Hc, Et. by eexists.
Qed.

Section Run.
Context (es : list Sv.Event) (s : Sv.State) (c next : Z).
Hypothesis (HI : Sv.Inv es s) (Hlen : Z.of_nat (length es) < 2 ^ 32 - 3).
Hypothesis (Hroom : Z.of_nat (base.size (Sv.sessionsMap_ s)) < Sv.MAX_CONNECTIONS).
Hypothesis (Hup : full (Sv.upCells (Sv.cells s)) = false) (Hdown : full (Sv.downCells (Sv.cells s)) = false).
Hypothesis (Hsess : full (Sv.sessionCells (Sv.cells s)) = false).
Hypothesis (Hnew : Sv.sessionsMap_ s !! c = None) (Hcred : checkCredentials name password = inl c).

Abbreviation u := (Sv.nextConnection s).
Abbreviation d := (Sv.nextConnection s + 1).
Abbreviation t := (Sv.nextToken s).

Lemma next_ranges : 0 <= u < 2 ^ 32 - 3 /\ 0 <= t < 2 ^ 32 - 3.
Proof. pose proof (Sv.nv_conn _ _ HI). pose proof (Sv.nv_token _ _ HI). lia. Qed.

(** The server after it accepted both connections. *)
Lemma accepts : exists s1 s2, Sv.acceptUpstream full s false = Ok s1 /\ Sv.acceptDownstream full s1 false = Ok s2 /\
  Sv.chans s2 = <[d := Sv.fresh_chan]> (<[u := Sv.fresh_chan]> (Sv.chans s)) /\
  u ∈ Sv.unauthorizedUpstreamMap_ s2 /\ d ∈ Sv.unauthorizedDownstreamMap_ s2 /\
  Sv.sessionsMap_ s2 = Sv.sessionsMap_ s /\ Sv.nextToken s2 = t /\
  full (Sv.sessionCells (Sv.cells s2)) = false /\ u32 (Sv.nextConnection s1) = d.
Proof.
  pose proof next_ranges. unfold Sv.acceptUpstream. cbn.
  destruct (Z.leb_spec Sv.MAX_CONNECTIONS (Z.of_nat (base.size (Sv.sessionsMap_ s)))); [lia|]. rewrite Hup.
  eexists _, _. split; [reflexivity|]. unfold Sv.acceptDownstream. cbn.
  destruct (Z.leb_spec Sv.MAX_CONNECTIONS (Z.of_nat (base.size (Sv.sessionsMap_ s)))); [lia|]. rewrite Hdown.
  split; [reflexivity|]. cbn. rewrite u64_small, !u32_small by lia. split_and!; try done; set_solver.
Qed.

(** No session holds the token that is generated next. *)
Lemma token_unused c' ss' : Sv.sessionsMap_ s !! c' = Some ss' -> Sv.ss_token ss' <> t.
Proof.
  intros H E. destruct (Sv.nv_session _ _ HI _ _ H) as (_ & Hi & _). rewrite E in Hi.
  pose proof (Sv.nv_issued _ _ HI _ _ Hi). lia.
Qed.

(** After both deliveries to the server. *)
Lemma bound_server s2 : 
  Sv.chans s2 = <[d := Sv.fresh_chan]> (<[u := Sv.fresh_chan]> (Sv.chans s)) ->
  u ∈ Sv.unauthorizedUpstreamMap_ s2 -> d ∈ Sv.unauthorizedDownstreamMap_ s2 ->
  Sv.sessionsMap_ s2 = Sv.sessionsMap_ s -> Sv.nextToken s2 = t -> full (Sv.sessionCells (Sv.cells s2)) = false ->
  exists s3, Sv.postLogin full s2 false (login_ok u c) = Ok s3 /\
  let s4 := Sv.postTokenBind s3 false d t in
  Sv.sessionsMap_ s4 !! c = Some (Sv.mkSession c t (Some u) (Some d)) /\
  speaks_for s3 u c [welcome t] /\ Sv.chans s3 !! d = Some Sv.fresh_chan /\
  speaks_for s4 u c [welcome t] /\ speaks_for s4 d c [welcome t].
Proof.
  intros Ec Hu Hd Es Et Hf. pose proof next_ranges.
  destruct (login_accepted s2 u c Hu) as (s3 & E3 & Es3 & Ed3 & Ec3); [by rewrite Es|done|].
  exists s3. split; [done|]. intros s4. rewrite Et, Es, u32_small in * by lia.
  destruct (bind_accepted s3 d t c (Sv.mkSession c t (Some u) None)) as (Es4 & Ec4).
  { by rewrite Ed3. }
  { apply find_token_unique; rewrite ?Es3, ?lookup_insert_eq; [done..|].
    intros c' ss' [[<- _]|[_ H']]%lookup_insert_Some Ht; [done|]. by apply token_unused in H'. }
  { done. }
  fold s4 in Es4, Ec4. unfold speaks_for. rewrite Es4, lookup_insert_eq, !Ec4, !Ec3, Ec.
  destruct (decide (u = d)); [lia|]. destruct (decide (d = u)); [lia|].
  rewrite !decide_True by done. rewrite !lookup_insert_eq, lookup_insert_ne, lookup_insert_eq by done. done.
Qed.

Lemma login_checked : Authenticator.post checkCredentials u (mkLoginRequest name password) = login_ok u c.
Proof. unfold Authenticator.post. cbn [lr_name lr_password]. by rewrite Hcred. Qed.

Lemma handshake_runs : exists x0, connect (Cl.init next) s = Ok x0 /\ Surely (fun x => joined x c) x0.
Proof.
  destruct accepts as (s1 & s2 & E1 & E2 & Ec & Hu & Hd & Es & Et & Hf & Ed). pose proof next_ranges.
  destruct (bound_server s2 Ec Hu Hd Es Et Hf) as (s3 & E3 & Hss & Hu3 & Hd3 & Hu4 & Hd4).
  set (s4 := Sv.postTokenBind s3 false d t) in *.
  unfold connect. rewrite E1, Ed, E2, (u32_small u) by lia. cbn. eexists. split; [reflexivity|].
  set (c0 := Cl.mkState _ _ _ _ _ _).
  pose (c1 := Cl.set_state (Cl.set_token c0 (Some t)) CTokenReceived).
  pose (c2 := Cl.set_state (Cl.set_token c1 (Some t)) CAuthenticated).
  assert (Hu2 : Sv.chans s2 !! u = Some Sv.fresh_chan) by (rewrite Ec, lookup_insert_ne, lookup_insert_eq by lia; done).
  assert (Hd2 : Sv.chans s2 !! d = Some Sv.fresh_chan) by (rewrite Ec, lookup_insert_eq; done).
  assert (Hp : forall sv conn n ch, Sv.chans sv !! conn = Some ch -> pending sv conn n = Sv.ch_written ch !! n)
    by (intros ???? E; unfold pending; by rewrite E).
  eapply (surely_server _ _ u _ Sv.fresh_chan s3 []); cbn [client server upConn downConn toServer seenUp seenDown orders app];
    [done|by rewrite (Hp _ _ _ _ Hu2)|by rewrite (Hp _ _ _ _ Hd2)|done|done| |].
  { cbn [SessionBus.post SessionBus.isAuthenticated SessionBus.clientId_ Sv.ch_client Sv.fresh_chan route_all route SessionBus.connId_].
    by rewrite login_checked, E3. }
  eapply (surely_up _ _ (welcome t) c1); cbn [client server upConn downConn toServer seenUp seenDown orders app];
    [done|by rewrite (Hp _ _ _ _ Hu3)|by rewrite (Hp _ _ _ _ Hd3)|reflexivity|].
  cbn [written flat_map app].
  eapply (surely_server _ _ d _ Sv.fresh_chan s4 []); cbn [client server upConn downConn toServer seenUp seenDown orders app];
    [done|by rewrite (Hp _ _ _ _ Hu3)|by rewrite (Hp _ _ _ _ Hd3)|done|done|reflexivity|].
  eapply (surely_down _ _ (welcome t) c2); cbn [client server upConn downConn toServer seenUp seenDown orders app];
    [done|by rewrite (Hp _ _ _ _ Hu4)|by rewrite (Hp _ _ _ _ Hd4)|reflexivity|].
  apply Now. cbn [written flat_map app]. split; [done|]. split; [done|]. split; [done|]. split; [done|].
  exists t. split; [done|]. split; [exact Hss|]. by split.
Qed.

End Run.

(** An authenticated client and server carry orders one way and statuses the
    other. *)
Lemma joined_talks x c : joined x c ->
  (forall o, server_receives (server x) (upConn x) (SessionBus.InOrder o) = Ok (server x, [mkServerOrder c o])) /\
  (forall st, pending (Sv.postStatus (server x) false (mkServerOrderStatus c st)) (downConn x) (seenDown x) =
     Some (Sv.WStatus c st)).
Proof.
  intros (_ & _ & _ & Es & tk & _ & Hss & Hu & Hd). unfold speaks_for in Hu, Hd. split.
  - intros o. unfold server_receives. by rewrite Hu.
  - intros st. unfold Sv.postStatus, pending. cbn [sos_clientId sos_orderStatus]. rewrite Hss. cbn [Sv.ss_down].
    unfold Sv.update. cbn [Sv.with_chans Sv.chans]. by rewrite lookup_alter_eq, Hd, Es.
Qed.

Lemma Surely_mono (P Q : Sys -> Prop) x : (forall x, P x -> Q x) -> Surely P x -> Surely Q x.
Proof.
  intros HPQ. revert x. fix IH 2. intros x [H|He Hall]; [by apply Now, HPQ|]. apply Later; [done|].
  intros r Hr. destruct (Hall r Hr) as (x' & -> & Hx). exists x'. split; [done|]. by apply IH.
Qed.

(** C31: a client with valid credentials connects to a server in any state
    reached by fewer than 2^32 - 3 events, with fewer than [MAX_CONNECTIONS]
    sessions, none of them this client's, and with a free cell in each of the
    three maps.  However the network then orders the deliveries, none faults,
    and after finitely many the client is [Authenticated]: the server's
    session for the client holds the two connections, both channels speak for
    the client and for nobody else, and the client holds the session's token.
    In that state an order written upstream reaches the server under the
    client's id, and a status for the client is written to the connection the
    client reads. *)
Theorem handshake_authenticates es s c next :
  Z.of_nat (length es) < 2 ^ 32 - 3 -> Sv.run full Sv.init es = Ok s ->
  Z.of_nat (base.size (Sv.sessionsMap_ s)) < Sv.MAX_CONNECTIONS -> Sv.sessionsMap_ s !! c = None ->
  full (Sv.upCells (Sv.cells s)) = false -> full (Sv.downCells (Sv.cells s)) = false ->
  full (Sv.sessionCells (Sv.cells s)) = false ->
  checkCredentials name password = inl c ->
  exists x0, connect (Cl.init next) s = Ok x0 /\
    Surely (fun x => joined x c /\
      (forall o, server_receives (server x) (upConn x) (SessionBus.InOrder o) = Ok (server x, [mkServerOrder c o])) /\
      (forall st, pending (Sv.postStatus (server x) false (mkServerOrderStatus c st)) (downConn x) (seenDown x) =
         Some (Sv.WStatus c st))) x0.
Proof.
  intros Hlen Hr Hroom Hnew H1 H2 H3 Hcred. apply (Sv.run_inv full es Sv.init [] s Sv.Inv_no_session) in Hr as HI; [|cbn; lia].
  rewrite app_nil_r in HI. destruct (handshake_runs (rev es) s c next HI) as (x0 & Hx & Hj); rewrite ?length_rev; try done.
  exists x0. split; [exact Hx|]. eapply Surely_mono; [|exact Hj]. intros x Hx'. split; [done|by apply joined_talks].
Qed.

End Handshake.

(** A server that a first client has joined already takes a second one. *)
Definition one_joined : list Sv.Event := [Sv.EvUp; Sv.EvDown; Sv.ok_login 0 9; Sv.EvBind 1 0].

Lemma handshake_authenticates_witness : exists s, Sv.run Sv.sixteen Sv.init one_joined = Ok s /\
  exists x0, connect Sv.sixteen "bob" "secret" (Cl.init 0) s = Ok x0 /\
    Surely Sv.sixteen (fun _ _ => inl 7) (fun x => joined x 7 /\
      (forall o, server_receives Sv.sixteen (fun _ _ => inl 7) (server x) (upConn x) (SessionBus.InOrder o) = Ok (server x, [mkServerOrder 7 o])) /\
      (forall st, pending (Sv.postStatus (server x) false (mkServerOrderStatus 7 st)) (downConn x) (seenDown x) = Some (Sv.WStatus 7 st))) x0.
Proof.
  eexists. split; [vm_compute; reflexivity|].
  apply (handshake_authenticates Sv.sixteen (fun _ _ => inl 7) "bob" "secret" one_joined _ 7 0); vm_compute; reflexivity.
Defined.
End Handshake.
