(* ===== verification/Bus.v ===== *)
(** * The message buses

    Models [Handler] (common/src/utils/handler.hpp), [MessageBus],
    [SystemBus], [BusHub], [BusRestrictor] and [BusLimiter] (common/src/bus).
    An event has a kind, its C++ type; a handler is a function on the state
    of the program it is bound to, which may post further work.  The
    [io_context] of the system bus is a parameter: the class [IoContextOk]
    states what asio documents for one thread that runs it, that posted
    functions run one at a time in the order they were posted. *)

From stdpp Require Import gmap.
From S2P Require Import Prelude.

(** asio's [io_context]: [io_post] is [post], [io_next] takes out the
    function that runs next, [io_tasks] are the functions waiting. *)
Class IoContext (Io Task : Type) := {
  io_post : Io -> Task -> Io;
  io_next : Io -> option (Task * Io);
  io_tasks : Io -> list Task
}.

Class IoContextOk (Io Task : Type) `{IoContext Io Task} : Prop := {
  io_post_ok q t : io_tasks (io_post q t) = io_tasks q ++ [t];
  io_next_none q : io_tasks q = [] -> io_next q = None;
  io_next_some q t ts : io_tasks q = t :: ts -> exists q', io_next q = Some (t, q') /\ io_tasks q' = ts
}.

Section Bus.
Context {Kind : Type} `{Countable Kind}.
Context {Event : Type} (kind : Event -> Kind).

(** ** Handlers *)

(** [Handler<void(const Event &)>]: a context pointer and a function
    pointer, either of which may be null. *)
Record Handler (World : Type) := mkHandler {
  ctx : bool;
  clb : option (Event -> World -> res World)
}.
Arguments mkHandler {World}.
Arguments ctx {World}.
Arguments clb {World}.

Definition bind {World} (f : Event -> World -> res World) : Handler World := mkHandler true (Some f).

(** [explicit operator bool] *)
Definition handler_set {World} (h : Handler World) : bool :=
  ctx h && match clb h with Some _ => true | None => false end.

(** [operator()] calls through the pointer. *)
Definition invoke {World} (h : Handler World) (e : Event) (w : World) : res World :=
  match clb h with Some f => f e w | None => Err NullDeref end.

(** ** The message bus *)

(** A handler per routed kind; [no_handler] where none was set. *)
Abbreviation MessageBus World := (gmap Kind (Handler World)).

Section MessageBus.
Context (Events : list Kind) (typeName : Kind -> string) {World : Type}.

Definition no_handler : Handler World := mkHandler false None.

Definition handlerRef (b : MessageBus World) (k : Kind) : Handler World := default no_handler (b !! k).

Definition Routed (k : Kind) : bool := bool_decide (k ∈ Events).

(** Only one consumer per kind: a second subscription replaces the first. *)
Definition subscribe (b : MessageBus World) (k : Kind) (h : Handler World) : MessageBus World := <[k := h]> b.

Definition post (b : MessageBus World) (e : Event) (w : World) : res World :=
  let h := handlerRef b (kind e) in
  if negb (handler_set h) then Err (Throw "Handler not set") else invoke h e w.

Definition missing (b : MessageBus World) : list Kind := filter (fun k => handler_set (handlerRef b k) = false) Events.

(** The names, each followed by ", ", without the last two characters. *)
Definition missingTypes (b : MessageBus World) : string :=
  let s := foldr (fun k acc => (typeName k +:+ ", " +:+ acc)%string) EmptyString (missing b) in
  String.substring 0 (String.length s - 2) s.

Definition validate (b : MessageBus World) : res unit :=
  match missing b with
  | [] => Ok tt
  | _ => Err (Throw ("MessageBus validation failed. Missing subscribers for: " +:+ missingTypes b)%string)
  end.

(** A bus that was validated routes every event of its kinds to a handler,
    also after further subscriptions of proper handlers. *)
Lemma validate_spec b : validate b = Ok tt <-> forall k, k ∈ Events -> handler_set (handlerRef b k) = true.
Proof.
  unfold validate, missing. destruct (filter _ Events) as [|k l] eqn:E.
  - split; [|done]. intros _ k Hk. destruct (handler_set (handlerRef b k)) eqn:Eh; [done|].
    assert (Hin : k ∈ filter (fun k => handler_set (handlerRef b k) = false) Events) by (by apply list_elem_of_filter).
    rewrite E in Hin. by apply elem_of_nil in Hin.
  - split; [done|]. intros Hall. assert (Hin : k ∈ k :: l) by left. rewrite <- E in Hin.
    apply list_elem_of_filter in Hin as [H1 H2]. by rewrite Hall in H1.
Qed.

Lemma post_validated b e w : validate b = Ok tt -> kind e ∈ Events ->
  exists f, clb (handlerRef b (kind e)) = Some f /\ post b e w = f e w.
Proof.
  intros Hv Hk. pose proof (proj1 (validate_spec b) Hv _ Hk) as Hs. unfold post, invoke. rewrite Hs. cbn [negb].
  unfold handler_set in Hs. destruct (clb (handlerRef b (kind e))) as [f|]; [by exists f|].
  by rewrite andb_false_r in Hs.
Qed.

Lemma subscribe_keeps_valid b k h : validate b = Ok tt -> handler_set h = true -> validate (subscribe b k h) = Ok tt.
Proof.
  rewrite !validate_spec. intros Hv Hh k' Hk'. unfold handlerRef, subscribe.
  destruct (decide (k = k')) as [<-|Hne]; [by rewrite lookup_insert_eq|].
  rewrite lookup_insert_ne by done. by apply Hv.
Qed.

(** An event of a kind nobody subscribed to throws. *)
Lemma post_unset b e w : b !! kind e = None -> post b e w = Err (Throw "Handler not set").
Proof. intros E. unfold post, handlerRef. by rewrite E. Qed.
End MessageBus.

(** ** Restricted access *)

(** [BusRestrictor::post] (common/src/bus/bus_restrictor.hpp) drops what is
    not allowed; [BusLimiter::post] (common/src/bus/bus_limiter.hpp) does not
    compile for it, so its model has no such case. *)
Section Restrict.
Context (Allowed : list Kind) {Bus World : Type} (bus_post : Bus -> Event -> World -> res World).

Definition isAllowed (k : Kind) : bool := bool_decide (k ∈ Allowed).

Definition restrictor_post (b : Bus) (e : Event) (w : World) : res World :=
  if isAllowed (kind e) then bus_post b e w else Ok w.

Definition limiter_post (b : Bus) (e : Event) (allowed : isAllowed (kind e) = true) (w : World) : res World :=
  bus_post b e w.
End Restrict.

(** ** The system bus *)

Section SystemBus.
Context {World : Type}.

(** What is posted to the [io_context]: a subscription, a subscription to a
    value, an event or a function.  What they call may post in its turn: it
    returns what it posts.  The subscribers are static data of the class, one
    set for the program. *)
Inductive Task :=
| TSubscribe (k : Kind) (h : Event -> World -> World * list Task)
| TSubscribeValue (e : Event) (cb : World -> World * list Task)
| TEvent (e : Event)
| TFun (f : World -> World * list Task).

Abbreviation Sink := (Event -> World -> World * list Task).
Abbreviation Callback := (World -> World * list Task).

Context {Io : Type} `{IC : !IoContext Io Task} `{ICO : !IoContextOk Io Task}.

(** [same_value] is the equality of a kind that can key an unordered map. *)
Context (same_value : Event -> Event -> bool).

Record SystemBus := mkSystemBus {
  ioCtx_ : Io;
  eventSubscribers : gmap Kind (list Sink);
  valueSubscribers : list (Event * list Sink);
  world : World
}.

Definition sys_subscribe (b : SystemBus) (k : Kind) (h : Sink) : SystemBus :=
  mkSystemBus (io_post (ioCtx_ b) (TSubscribe k h)) (eventSubscribers b) (valueSubscribers b) (world b).

Definition sys_subscribe_value (b : SystemBus) (e : Event) (cb : Callback) : SystemBus :=
  mkSystemBus (io_post (ioCtx_ b) (TSubscribeValue e cb)) (eventSubscribers b) (valueSubscribers b) (world b).

Definition sys_post (b : SystemBus) (e : Event) : SystemBus :=
  mkSystemBus (io_post (ioCtx_ b) (TEvent e)) (eventSubscribers b) (valueSubscribers b) (world b).

Definition sys_post_fun (b : SystemBus) (f : Callback) : SystemBus :=
  mkSystemBus (io_post (ioCtx_ b) (TFun f)) (eventSubscribers b) (valueSubscribers b) (world b).

(** [getValueSubscribers<T>()[event]]; a callback takes no argument. *)
Definition value_subscribers (b : SystemBus) (e : Event) : list Sink :=
  match find (fun kv => bool_decide (kind kv.1 = kind e) && same_value kv.1 e) (valueSubscribers b) with
  | Some (_, l) => l
  | None => []
  end.

Fixpoint add_value (l : list (Event * list Sink)) (e : Event) (cb : Callback) : list (Event * list Sink) :=
  match l with
  | [] => [(e, [fun _ => cb])]
  | (e', cbs) :: l =>
      if bool_decide (kind e' = kind e) && same_value e' e then (e', cbs ++ [fun _ => cb]) :: l
      else (e', cbs) :: add_value l e cb
  end.

(** The loop over subscribers: each sees the world the ones before left, and
    what they post goes to the end of the queue. *)
Fixpoint call_all (hs : list Sink) (e : Event) (io : Io) (w : World) : Io * World :=
  match hs with
  | [] => (io, w)
  | h :: hs =>
      let '(w, posted) := h e w in
      call_all hs e (foldl io_post io posted) w
  end.

Definition onEvent (b : SystemBus) (e : Event) : SystemBus :=
  let '(io, w) := call_all (default [] (eventSubscribers b !! kind e)) e (ioCtx_ b) (world b) in
  let '(io, w) := call_all (value_subscribers b e) e io w in
  mkSystemBus io (eventSubscribers b) (valueSubscribers b) w.

(** One function of the [io_context] runs. *)
Definition run_one (b : SystemBus) : option SystemBus :=
  match io_next (ioCtx_ b) with
  | None => None
  | Some (t, io) =>
      let b := mkSystemBus io (eventSubscribers b) (valueSubscribers b) (world b) in
      Some (match t with
            | TSubscribe k h =>
                mkSystemBus io (<[k := default [] (eventSubscribers b !! k) ++ [h]]> (eventSubscribers b))
                  (valueSubscribers b) (world b)
            | TSubscribeValue e cb =>
                mkSystemBus io (eventSubscribers b) (add_value (valueSubscribers b) e cb) (world b)
            | TEvent e => onEvent b e
            | TFun f => let '(w, posted) := f (world b) in
                mkSystemBus (foldl io_post io posted) (eventSubscribers b) (valueSubscribers b) w
            end)
  end.

Fixpoint run_n (n : nat) (b : SystemBus) : SystemBus :=
  match n with O => b | S n => match run_one b with Some b => run_n n b | None => b end end.

(** *** Delivery *)

(** The worlds and posts of a list of sinks called one after the other. *)
Fixpoint sinks (hs : list Sink) (e : Event) (w : World) : World * list Task :=
  match hs with
  | [] => (w, [])
  | h :: hs => let '(w, p) := h e w in let '(w, p') := sinks hs e w in (w, p ++ p')
  end.

Lemma post_all_tasks posted io : io_tasks (foldl io_post io posted) = io_tasks io ++ posted.
Proof.
  revert io. induction posted as [|e posted IH]; intros io; cbn; [by rewrite app_nil_r|].
  by rewrite IH, io_post_ok, <- (assoc_L app).
Qed.

Lemma call_all_spec hs e io w : let '(io', w') := call_all hs e io w in
  io_tasks io' = io_tasks io ++ (sinks hs e w).2 /\ w' = (sinks hs e w).1.
Proof.
  revert io w. induction hs as [|h hs IH]; intros io w; cbn; [by rewrite app_nil_r|].
  destruct (h e w) as [w1 p]. specialize (IH (foldl io_post io p) w1).
  destruct (call_all hs e _ w1) as [io' w']. destruct (sinks hs e w1) as [w2 p2]. cbn in *.
  destruct IH as [-> ->]. by rewrite post_all_tasks, <- (assoc_L app).
Qed.

(** The subscribers of [e] in a bus: those of its kind, then those of its
    value. *)
Definition subscribers (b : SystemBus) (e : Event) : list Sink :=
  default [] (eventSubscribers b !! kind e) ++ value_subscribers b e.

Lemma sinks_app a b e w : sinks (a ++ b) e w =
  let '(w1, p1) := sinks a e w in let '(w2, p2) := sinks b e w1 in (w2, p1 ++ p2).
Proof.
  revert w. induction a as [|h a IH]; intros w; cbn; [by destruct (sinks b e w)|].
  destruct (h e w) as [w1 p1]. rewrite IH. destruct (sinks a e w1) as [w2 p2], (sinks b e w2) as [w3 p3]. by rewrite (assoc_L app).
Qed.

Lemma run_event b e ts : io_tasks (ioCtx_ b) = TEvent e :: ts ->
  exists b', run_one b = Some b' /\ world b' = (sinks (subscribers b e) e (world b)).1 /\
    io_tasks (ioCtx_ b') = ts ++ (sinks (subscribers b e) e (world b)).2 /\
    eventSubscribers b' = eventSubscribers b /\ valueSubscribers b' = valueSubscribers b.
Proof.
  intros Hq. destruct (io_next_some _ _ _ Hq) as (io & En & Et). unfold run_one. rewrite En. eexists. split; [done|].
  unfold onEvent, subscribers. cbn [eventSubscribers valueSubscribers ioCtx_ world].
  change (value_subscribers (mkSystemBus io _ _ _) e) with (value_subscribers b e).
  pose proof (call_all_spec (default [] (eventSubscribers b !! kind e)) e io (world b)) as H1.
  destruct (call_all _ e io (world b)) as [io1 w1]. destruct H1 as [H1 ->].
  pose proof (call_all_spec (value_subscribers b e) e io1 (sinks (default [] (eventSubscribers b !! kind e)) e (world b)).1) as H2.
  destruct (call_all _ e io1 _) as [io2 w2]. destruct H2 as [H2 ->]. cbn [world ioCtx_ eventSubscribers valueSubscribers].
  rewrite sinks_app. destruct (sinks (default [] _) e (world b)) as [wa pa]. cbn [fst snd] in *.
  destruct (sinks (value_subscribers b e) e wa) as [wb pb]. cbn [fst snd] in *.
  split; [done|]. split; [|done]. by rewrite H2, H1, Et, <- (assoc_L app).
Qed.

Lemma run_subscribe b k h ts : io_tasks (ioCtx_ b) = TSubscribe k h :: ts ->
  exists b', run_one b = Some b' /\ world b' = world b /\ io_tasks (ioCtx_ b') = ts /\
    (forall e, subscribers b' e =
       if decide (kind e = k) then default [] (eventSubscribers b !! k) ++ [h] ++ value_subscribers b e
       else subscribers b e).
Proof.
  intros Hq. destruct (io_next_some _ _ _ Hq) as (io & En & Et). unfold run_one. rewrite En. eexists. split; [done|].
  cbn [world ioCtx_ eventSubscribers]. split; [done|]. split; [done|]. intros e. unfold subscribers.
  cbn [eventSubscribers]. change (value_subscribers (mkSystemBus io _ _ _) e) with (value_subscribers b e).
  case_decide as E; [subst k; rewrite lookup_insert_eq; cbn [default id from_option]; by rewrite <- (assoc_L app)|]. by rewrite lookup_insert_ne.
Qed.

(** A handler subscribed before an event is posted is called on it: with
    the subscription and then the event posted to an idle bus, running the two
    posted functions calls the earlier subscribers of the kind, then the new
    handler, then the subscribers of the value, once each and in that order,
    and leaves exactly what they posted waiting. *)
Theorem subscribed_handler_is_called b k h e : io_tasks (ioCtx_ b) = [] -> kind e = k ->
  let b' := run_n 2 (sys_post (sys_subscribe b k h) e) in
  let hs := default [] (eventSubscribers b !! k) ++ [h] ++ value_subscribers b e in
  world b' = (sinks hs e (world b)).1 /\ io_tasks (ioCtx_ b') = (sinks hs e (world b)).2.
Proof.
  intros Hq Hk. cbn zeta. set (b0 := sys_post (sys_subscribe b k h) e).
  assert (H0 : io_tasks (ioCtx_ b0) = [TSubscribe k h; TEvent e]).
  { unfold b0, sys_post, sys_subscribe. cbn. by rewrite !io_post_ok, Hq. }
  destruct (run_subscribe b0 k h [TEvent e] H0) as (b1 & E1 & W1 & T1 & S1).
  destruct (run_event b1 e [] T1) as (b2 & E2 & W2 & T2 & _).
  cbn [run_n]. rewrite E1. cbn. rewrite E2, W2, T2, W1. specialize (S1 e). rewrite decide_True in S1 by done.
  change (value_subscribers b0 e) with (value_subscribers b e) in S1. by rewrite S1.
Qed.

End SystemBus.

(** ** The hub *)

(** [BusHub::post]: the kinds the market bus routes go straight to their
    handler, the others to the queue of the system bus. *)
Section BusHub.
Context (Events : list Kind) (typeName : Kind -> string) {World : Type}.
Context {Sys : Type} (sys_bus_post : Sys -> Event -> Sys) (sys_bus_run : Sys -> res Sys)
  (sys_bus_subscribe : Sys -> Kind -> (Event -> World -> res World) -> Sys).

Record BusHub := mkBusHub { systemBus : Sys; marketBus : MessageBus World }.

Definition hub_post (b : BusHub) (e : Event) (w : World) : res (BusHub * World) :=
  if Routed Events (kind e) then let! w := post (marketBus b) e w in Ok (b, w)
  else Ok (mkBusHub (sys_bus_post (systemBus b) e) (marketBus b), w).

Definition hub_subscribe (b : BusHub) (k : Kind) (f : Event -> World -> res World) : BusHub :=
  if Routed Events k then mkBusHub (systemBus b) (subscribe (marketBus b) k (bind f))
  else mkBusHub (sys_bus_subscribe (systemBus b) k f) (marketBus b).

(** [run]: outside benchmarks and unit tests the market bus is validated
    first. *)
Definition hub_run (b : BusHub) : res BusHub :=
  let! _ := validate Events typeName (marketBus b) in
  let! s := sys_bus_run (systemBus b) in Ok (mkBusHub s (marketBus b)).

(** Once [run] got past the validation, posting an event of the program's
    never throws for want of a handler. *)
Lemma hub_post_validated b b' e w : hub_run b = Ok b' ->
  (exists b1, hub_post b e w = Ok (b1, w) /\ Routed Events (kind e) = false) \/
  (exists f, clb (handlerRef (marketBus b) (kind e)) = Some f /\
     hub_post b e w = let! w := f e w in Ok (b, w)).
Proof.
  unfold hub_run. destruct (validate Events typeName (marketBus b)) as [[]|] eqn:Ev; [|done]. intros _.
  unfold hub_post. destruct (Routed Events (kind e)) eqn:Er; [right|left; by eexists].
  unfold Routed in Er. apply bool_decide_eq_true in Er. destruct (post_validated _ _ _ e w Ev Er) as (f & Hf & ->).
  by exists f.
Qed.
End BusHub.
End Bus.

(** A list is an [io_context] of one thread. *)
#[export] Instance list_io {Task} : IoContext (list Task) Task := {|
  io_post q t := q ++ [t];
  io_next q := match q with [] => None | t :: q => Some (t, q) end;
  io_tasks q := q
|}.

#[export] Instance list_io_ok {Task} : IoContextOk (list Task) Task.
Proof. split; [done| |]; cbn; [by intros q ->|]. intros q t ts ->. by exists ts. Qed.

(** A bus on such a context with nothing subscribed: a logging handler for
    the odd events sees the event 3 and posts the event 4. *)
Definition log_handler (e : nat) (w : list nat) : list nat * list (Task (Kind := bool) (Event := nat) (World := list nat)) :=
  (w ++ [e], [TEvent (S e)]).

Lemma subscribed_handler_is_called_witness :
  let b : SystemBus (Kind := bool) (Event := nat) (World := list nat) := mkSystemBus [] ∅ [] [] in
  let b' := run_n Nat.odd Nat.eqb 2 (sys_post (sys_subscribe b true log_handler) 3%nat) in
  world b' = [3%nat] /\ io_tasks (ioCtx_ b') = [TEvent 4%nat].
Proof.
  exact (subscribed_handler_is_called Nat.odd Nat.eqb (mkSystemBus (Io := list _) [] ∅ [] []) true log_handler 3%nat eq_refl eq_refl).
Defined.
