(* ===== verification/Commands.v ===== *)
(** * Console commands

    Models the command types and [CommandParser]s of the server, the client
    and the monitor (server/src/commands, client/src/commands,
    monitor/src/commands) and [ConsoleReader::inputCheck]
    (common/src/utils/console_reader.hpp).  A parser looks a line up in a
    table and posts the command it finds; what a parser posts on its bus is
    the list it returns. *)

From stdpp Require Import list strings.
From Stdlib Require Import Ascii.
From S2P Require Import Prelude.

(** ** Tables *)

Section Table.
Context {Command : Type} `{EqDecision Command}.

(** [commands.find(cmd)]; the initializers of the program name every string
    once. *)
Definition lookup_command (tbl : list (string * Command)) (cmd : string) : option Command :=
  snd <$> find (fun e => bool_decide (e.1 = cmd)) tbl.

(** [find_if] by the command *)
Definition lookup_name (tbl : list (string * Command)) (c : Command) : option string :=
  fst <$> find (fun e => bool_decide (e.2 = c)) tbl.

Definition table_ok (tbl : list (string * Command)) : bool :=
  bool_decide (NoDup tbl.*1) && bool_decide (NoDup tbl.*2).

Lemma lookup_command_elem tbl cmd c : NoDup tbl.*1 -> lookup_command tbl cmd = Some c <-> (cmd, c) ∈ tbl.
Proof.
  unfold lookup_command. induction tbl as [|[k v] tbl IH]; cbn; [intros _; split; [done|by intros ?%elem_of_nil]|].
  intros [Hni Hnd]%NoDup_cons. rewrite elem_of_cons. case_bool_decide as E; cbn in *.
  - subst k. split; [intros [= ->]; by left|]. intros [[= ->]|Hin]; [done|].
    destruct Hni. apply list_elem_of_fmap. by exists (cmd, c).
  - rewrite IH by done. split; [by right|]. intros [[= -> ->]|Hin]; done.
Qed.

Lemma lookup_name_elem tbl cmd c : NoDup tbl.*2 -> lookup_name tbl c = Some cmd <-> (cmd, c) ∈ tbl.
Proof.
  unfold lookup_name. induction tbl as [|[k v] tbl IH]; cbn; [intros _; split; [done|by intros ?%elem_of_nil]|].
  intros [Hni Hnd]%NoDup_cons. rewrite elem_of_cons. case_bool_decide as E; cbn in *.
  - subst v. split; [intros [= ->]; by left|]. intros [[= ->]|Hin]; [done|].
    destruct Hni. apply list_elem_of_fmap. by exists (cmd, c).
  - rewrite IH by done. split; [by right|]. intros [[= -> ->]|Hin]; done.
Qed.

Lemma lookup_command_name tbl cmd c : table_ok tbl = true ->
  lookup_command tbl cmd = Some c <-> lookup_name tbl c = Some cmd.
Proof.
  unfold table_ok. intros [H1%bool_decide_eq_true H2%bool_decide_eq_true]%andb_prop.
  by rewrite lookup_command_elem, lookup_name_elem.
Qed.

(** [parse]: whether the line is a command, and what was posted. *)
Definition parse_table (tbl : list (string * Command)) (cmd : string) : bool * list Command :=
  match lookup_command tbl cmd with
  | None => (false, [])
  | Some c => (true, [c])
  end.

Definition deserialize_table (tbl : list (string * Command)) (data : list ascii) : bool * list Command :=
  parse_table tbl (String.string_of_list_ascii data).

Definition serialize_table (tbl : list (string * Command)) (c : Command) : list ascii :=
  match lookup_name tbl c with
  | None => []
  | Some s => String.list_ascii_of_string s
  end.

Lemma elem_of_parse tbl cmd c : table_ok tbl = true ->
  c ∈ (parse_table tbl cmd).2 <-> lookup_name tbl c = Some cmd.
Proof.
  intros Hok. rewrite <- lookup_command_name by done. unfold parse_table.
  destruct (lookup_command tbl cmd) as [c'|]; cbn; [|split; [by intros ?%elem_of_nil|done]].
  rewrite list_elem_of_singleton. split; [by intros ->|by intros [= ->]].
Qed.

Lemma parse_bool tbl cmd : (parse_table tbl cmd).1 = negb (bool_decide ((parse_table tbl cmd).2 = [])).
Proof. unfold parse_table. by destruct (lookup_command tbl cmd). Qed.

Lemma serialize_deserialize tbl c : table_ok tbl = true -> is_Some (lookup_name tbl c) ->
  deserialize_table tbl (serialize_table tbl c) = (true, [c]).
Proof.
  intros Hok [s Hs]. unfold deserialize_table, serialize_table. rewrite Hs, String.string_of_list_ascii_of_string.
  unfold parse_table. by rewrite (proj2 (lookup_command_name tbl s c Hok) Hs).
Qed.
End Table.

(** [ConsoleReader::inputCheck]: [input] is the line read when the standard
    input is ready. *)
Definition inputCheck {Out} (parser : string -> bool * list Out) (input : option string) : list Out :=
  match input with
  | None => []
  | Some line => if bool_decide (line = EmptyString) then [] else (parser line).2
  end.

(** ** The server's and the client's commands *)

Module ServerCommand.
Inductive Command := PriceFeed_Start | PriceFeed_Stop | Telemetry_Start | Telemetry_Stop | Shutdown.

#[global] Instance Command_eq_dec : EqDecision Command.
Proof. solve_decision. Defined.

Definition toString (command : Command) : string :=
  match command with
  | PriceFeed_Start => "price feed start"
  | PriceFeed_Stop => "price feed stop"
  | Telemetry_Start => "telemetry start"
  | Telemetry_Stop => "telemetry stop"
  | Shutdown => "shutdown"
  end.

Definition commands : list (string * Command) :=
  [("p+", PriceFeed_Start); ("p-", PriceFeed_Stop); ("t+", Telemetry_Start); ("t-", Telemetry_Stop);
   ("q", Shutdown)].

Definition parse (cmd : string) : bool * list Command := parse_table commands cmd.
Definition deserialize (data : list ascii) : bool * list Command := deserialize_table commands data.
Definition serialize (c : Command) : list ascii := serialize_table commands c.

Lemma server_commands_ok : table_ok commands = true.
Proof. reflexivity. Qed.

Lemma server_command_roundtrip c : deserialize (serialize c) = (true, [c]).
Proof. apply serialize_deserialize; [done|]. destruct c; cbn; eauto. Qed.
End ServerCommand.

Module ClientCommand.
Inductive Command := Start | Stop | Telemetry_Start | Telemetry_Stop | Shutdown.

#[global] Instance Command_eq_dec : EqDecision Command.
Proof. solve_decision. Defined.

Definition toString (command : Command) : string :=
  match command with
  | Start => "start"
  | Stop => "stop"
  | Telemetry_Start => "telemetry start"
  | Telemetry_Stop => "telemetry stop"
  | Shutdown => "shutdown"
  end.

Definition commands : list (string * Command) :=
  [("s+", Start); ("s-", Stop); ("t+", Telemetry_Start); ("t-", Telemetry_Stop); ("q", Shutdown)].

Definition parse (cmd : string) : bool * list Command := parse_table commands cmd.
Definition deserialize (data : list ascii) : bool * list Command := deserialize_table commands data.
Definition serialize (c : Command) : list ascii := serialize_table commands c.

Lemma client_commands_ok : table_ok commands = true.
Proof. reflexivity. Qed.

Lemma client_command_roundtrip c : deserialize (serialize c) = (true, [c]).
Proof. apply serialize_deserialize; [done|]. destruct c; cbn; eauto. Qed.
End ClientCommand.

(** ** The monitor's commands *)

Module MonitorCommand.
Inductive Command := Shutdown.

#[global] Instance Command_eq_dec : EqDecision Command.
Proof. solve_decision. Defined.

Definition toString (command : Command) : string := match command with Shutdown => "shutdown" end.

Definition commands : list (string * Command) := [("q", Shutdown)].

(** The parser posts commands of the three programs on one bus. *)
Inductive Posted :=
| PostClient (c : ClientCommand.Command)
| PostServer (c : ServerCommand.Command)
| PostMonitor (c : Command).

Definition parse (cmd : string) : bool * list Posted :=
  let '(r1, p1) := parse_table ClientCommand.commands cmd in
  let '(r2, p2) := parse_table ServerCommand.commands cmd in
  let ret := r1 || r2 in
  let posted := map PostClient p1 ++ map PostServer p2 in
  match lookup_command commands cmd with
  | None => (ret, posted)
  | Some c => (true, posted ++ [PostMonitor c])
  end.

Definition deserialize (data : list ascii) : bool * list Posted := parse (String.string_of_list_ascii data).

Definition serialize (c : Posted) : list ascii :=
  match c with
  | PostMonitor c => serialize_table commands c
  | PostServer c => serialize_table ServerCommand.commands c
  | PostClient c => serialize_table ClientCommand.commands c
  end.

Definition name_of (c : Posted) : option string :=
  match c with
  | PostMonitor c => lookup_name commands c
  | PostServer c => lookup_name ServerCommand.commands c
  | PostClient c => lookup_name ClientCommand.commands c
  end.

Lemma name_serialize c s : name_of c = Some s <-> serialize c = String.list_ascii_of_string s.
Proof.
  assert (Hn : is_Some (name_of c)) by (destruct c as [[]|[]|[]]; cbn; eauto).
  assert (Hs : serialize c = match name_of c with None => [] | Some s => String.list_ascii_of_string s end) by (by destruct c).
  rewrite Hs. destruct Hn as [n ->]. split; [by intros [= ->]|]. intros E.
  by rewrite <- (String.string_of_list_ascii_of_string n), E, String.string_of_list_ascii_of_string.
Qed.

Lemma elem_of_posted c cmd : c ∈ (parse cmd).2 <-> name_of c = Some cmd.
Proof.
  pose proof (fun c => elem_of_parse ClientCommand.commands cmd c ClientCommand.client_commands_ok) as Hc.
  pose proof (fun c => elem_of_parse ServerCommand.commands cmd c ServerCommand.server_commands_ok) as Hs.
  pose proof (fun c => lookup_command_name commands cmd c eq_refl) as Hm.
  assert (Hp : (parse cmd).2 = map PostClient (parse_table ClientCommand.commands cmd).2 ++
    map PostServer (parse_table ServerCommand.commands cmd).2 ++
    option_list (PostMonitor <$> lookup_command commands cmd)).
  { unfold parse. destruct (parse_table ClientCommand.commands cmd), (parse_table ServerCommand.commands cmd).
    destruct (lookup_command commands cmd); cbn; by rewrite ?app_nil_r, <- ?(assoc_L app). }
  rewrite Hp, !elem_of_app. destruct c as [c|c|c]; cbn [name_of].
  - rewrite <- Hc. rewrite !list_elem_of_fmap. split.
    + intros [(y & [= ->] & ?)|[(y & ? & _)|Hin]]; [done..|].
      destruct (lookup_command commands cmd); cbn in Hin; [apply list_elem_of_singleton in Hin|apply elem_of_nil in Hin]; done.
    + intros H. left. by exists c.
  - rewrite <- Hs. rewrite !list_elem_of_fmap. split.
    + intros [(y & ? & _)|[(y & [= ->] & ?)|Hin]]; [done..|].
      destruct (lookup_command commands cmd); cbn in Hin; [apply list_elem_of_singleton in Hin|apply elem_of_nil in Hin]; done.
    + intros H. right. left. by exists c.
  - rewrite <- Hm. rewrite !list_elem_of_fmap. split.
    + intros [(y & ? & _)|[(y & ? & _)|Hin]]; [done..|].
      destruct (lookup_command commands cmd); cbn in Hin; [|by apply elem_of_nil in Hin].
      by repeat match goal with x : Command |- _ => destruct x end.
    + intros ->. right. right. by left.
Qed.

(** The monitor posts for a received message exactly the commands, of the
    three programs, that serialize to its bytes, and returns true when there
    is one; in particular every serialized command is read back. *)
Theorem monitor_parse_exact (data : list ascii) :
  (forall c, c ∈ (deserialize data).2 <-> serialize c = data) /\
  ((deserialize data).1 = true <-> exists c, serialize c = data).
Proof.
  assert (Hin : forall c, c ∈ (deserialize data).2 <-> serialize c = data).
  { intros c. unfold deserialize. rewrite elem_of_posted, name_serialize.
    by rewrite String.list_ascii_of_string_of_list_ascii. }
  split; [done|]. setoid_rewrite <- Hin. unfold deserialize, parse.
  pose proof (parse_bool ClientCommand.commands (String.string_of_list_ascii data)) as Hc.
  pose proof (parse_bool ServerCommand.commands (String.string_of_list_ascii data)) as Hs.
  destruct (parse_table ClientCommand.commands _) as [r1 p1], (parse_table ServerCommand.commands _) as [r2 p2].
  cbn in Hc, Hs. subst r1 r2. destruct (lookup_command commands _) as [c|]; cbn.
  - split; [|done]. intros _. exists (PostMonitor c). rewrite !elem_of_app. right. by left.
  - destruct p1 as [|c1 p1]; cbn; [|by split; [exists (PostClient c1); left|]].
    destruct p2 as [|c2 p2]; cbn; [|by split; [exists (PostServer c2); left|]].
    split; [done|by intros [c ?%elem_of_nil]].
Qed.
End MonitorCommand.
