(* ===== verification/ControlCenter.v ===== *)
(** * The control centers

    Models [ComponentReady] and the [ControlCenter]s of the server, the
    client and the monitor (server/src/control_center.hpp,
    client/src/control_center.hpp, monitor/src/control_center.hpp and the
    events.hpp beside them), and the client over shared memory as a whole:
    its control center, its [TrustedConnectionManager] and its
    [TradeEngine], joined by the system bus. *)

From stdpp Require Import gmap list.
From S2P Require Import Prelude Types.
From S2P Require Import Channel ShmTransport TradeEngine ClientConnection Commands.
From S2P Require Import Fifo.

(** ** Readiness *)

(** What [post(CRef<ComponentReady>)] does when the mask is complete. *)
Inductive ReadyCall := IpcStart | LogStarted.

Section Ready.
Context {Component : Type} (id : Component -> Z) (INTERNAL_READY ALL_READY : Z).

Definition ready_post (readyMask : Z) (c : Component) : Z * list ReadyCall :=
  let mask := Z.lor readyMask (id c) in
  (mask, if mask =? INTERNAL_READY then [IpcStart] else if mask =? ALL_READY then [LogStarted] else []).

Fixpoint ready_run (readyMask : Z) (es : list Component) : Z * list ReadyCall :=
  match es with
  | [] => (readyMask, [])
  | e :: es =>
      let '(m, c) := ready_post readyMask e in
      let '(m, cs) := ready_run m es in (m, c ++ cs)
  end.

Lemma ready_run_app m es es' : ready_run m (es ++ es') =
  let '(m1, c1) := ready_run m es in let '(m2, c2) := ready_run m1 es' in (m2, c1 ++ c2).
Proof.
  revert m. induction es as [|e es IH]; intros m; cbn [ready_run app].
  - by destruct (ready_run m es').
  - destruct (ready_post m e) as [m0 c0]. rewrite IH. destruct (ready_run m0 es) as [m1 c1].
    destruct (ready_run m1 es') as [m2 c2]. by rewrite (assoc_L app).
Qed.
End Ready.

Definition mask_of {Component} (id : Component -> Z) (es : list Component) : Z :=
  foldl (fun m e => Z.lor m (id e)) 0 es.

(** What the numbers of events.hpp have to satisfy: one bit per component,
    the internal ones without that of the network. *)
Class ReadySpec {Component : Type} (bit : Component -> Z) (id : Component -> Z) (INTERNAL_READY ALL_READY : Z)
    (internal : list Component) (ipc : Component) : Prop := {
  ready_bit_nonneg c : 0 <= bit c;
  ready_bit_inj c c' : bit c = bit c' -> c = c';
  ready_id c : id c = Z.shiftl 1 (bit c);
  ready_internal : INTERNAL_READY = mask_of id internal;
  ready_all : ALL_READY = Z.lor INTERNAL_READY (id ipc);
  ready_ipc : ipc ∉ internal;
  ready_NoDup : NoDup internal;
  ready_some : internal <> []
}.

Section ReadyOnce.
Context {Component : Type} `{EqDecision Component} {bit id : Component -> Z} {INTERNAL_READY ALL_READY : Z}
  {internal : list Component} {ipc : Component} (RS : ReadySpec bit id INTERNAL_READY ALL_READY internal ipc).

Notation run := (ready_run id INTERNAL_READY ALL_READY 0).

Lemma mask_of_snoc es e : mask_of id (es ++ [e]) = Z.lor (mask_of id es) (id e).
Proof. unfold mask_of. by rewrite foldl_app. Qed.

Lemma mask_of_bit es c : Z.testbit (mask_of id es) (bit c) = bool_decide (c ∈ es).
Proof.
  induction es as [|e es IH] using rev_ind; [by rewrite (bool_decide_false _ (not_elem_of_nil _)), Z.testbit_0_l|].
  rewrite mask_of_snoc, Z.lor_spec, IH, (ready_id (ReadySpec := RS)), testbit_bit by apply RS.
  destruct (decide (c = e)) as [->|Hne].
  - rewrite (bool_decide_true (bit e = bit e)), (bool_decide_true (e ∈ es ++ [e])) by set_solver. by rewrite orb_true_r.
  - rewrite (bool_decide_false (bit c = bit e)) by (by intros ?%(ready_bit_inj (ReadySpec := RS))).
    rewrite orb_false_r. apply bool_decide_ext. set_solver.
Qed.

Lemma mask_of_eq es es' : mask_of id es = mask_of id es' -> forall c, c ∈ es <-> c ∈ es'.
Proof.
  intros E c. pose proof (mask_of_bit es c) as H1. rewrite E, mask_of_bit in H1.
  destruct (decide (c ∈ es)), (decide (c ∈ es')); repeat case_bool_decide; done.
Qed.

Lemma mask_of_perm es es' : es ≡ₚ es' -> mask_of id es = mask_of id es'.
Proof.
  intros P. unfold mask_of. generalize 0. induction P as [|x l l' _ IH|x y l|l l' l'' _ IH _ IH']; intros m; cbn.
  - done.
  - apply IH.
  - f_equal. by rewrite <- !Z.lor_assoc, (Z.lor_comm (id y)).
  - by rewrite IH.
Qed.

Lemma ready_mask es : (run es).1 = mask_of id es.
Proof.
  induction es as [|e es IH] using rev_ind; [done|].
  rewrite ready_run_app, mask_of_snoc. destruct (run es) as [m c]. cbn in *. by subst m.
Qed.

Lemma ready_snoc es e : (run (es ++ [e])).2 = (run es).2 ++ (ready_post id INTERNAL_READY ALL_READY (mask_of id es) e).2.
Proof.
  rewrite ready_run_app. pose proof (ready_mask es) as E. destruct (run es) as [m c]. cbn in *. subst m. by rewrite app_nil_r.
Qed.

Lemma ready_internal_only es : NoDup es -> es ⊆ internal ->
  (run es).2 = if bool_decide (internal ⊆ es) then [IpcStart] else [].
Proof.
  induction es as [|e es IH] using rev_ind; intros Hnd Hsub.
  { rewrite bool_decide_false; [done|]. intros Hs. apply (ready_some (ReadySpec := RS)).
    destruct internal as [|x l]; [done|]. by specialize (Hs x (list_elem_of_here _ _)) as ?%elem_of_nil. }
  pose proof Hnd as (Hnd' & Hdis & _)%NoDup_app. assert (He : e ∉ es) by (intros H; apply (Hdis e H); by left).
  rewrite ready_snoc, IH by (done || set_solver). rewrite bool_decide_false by set_solver. clear IH.
  unfold ready_post. cbn [app snd]. rewrite <- mask_of_snoc, (ready_all (ReadySpec := RS)), (ready_internal (ReadySpec := RS)), <- mask_of_snoc.
  assert (Hall : mask_of id (es ++ [e]) <> mask_of id (internal ++ [ipc])).
  { intros E. apply (ready_ipc (ReadySpec := RS)), Hsub, (mask_of_eq _ _ E). set_solver. }
  apply Z.eqb_neq in Hall as ->. case_bool_decide as Hi.
  - rewrite (mask_of_perm (es ++ [e]) internal), Z.eqb_refl; [done|].
    apply NoDup_Permutation; [done|apply RS|]. intros x. split; [apply Hsub|apply Hi].
  - destruct (Z.eqb_spec (mask_of id (es ++ [e])) (mask_of id internal)) as [E|]; [|done]. destruct Hi. intros x. apply (mask_of_eq _ _ E).
Qed.

Lemma ready_then_ipc es : es ≡ₚ internal -> run (es ++ [ipc]) = (ALL_READY, [IpcStart; LogStarted]).
Proof.
  intros P. rewrite (surjective_pairing (run _)), ready_mask, ready_snoc, ready_internal_only.
  - rewrite bool_decide_true by (intros x; by rewrite P). unfold ready_post. cbn [fst snd].
    rewrite <- mask_of_snoc, (ready_all (ReadySpec := RS)), (ready_internal (ReadySpec := RS)), <- mask_of_snoc.
    rewrite (mask_of_perm (es ++ [ipc]) (internal ++ [ipc])) by (by rewrite P). rewrite Z.eqb_refl.
    destruct (Z.eqb_spec (mask_of id (internal ++ [ipc])) (mask_of id internal)) as [E|]; [|done]. destruct (ready_ipc (ReadySpec := RS)). apply (mask_of_eq _ _ E). set_solver.
  - rewrite P. apply RS.
  - intros x. by rewrite P.
Qed.
End ReadyOnce.

(** Once each internal component has reported, in whatever order, and not
    before, the network is started, once; its own report completes the
    start. *)
Definition ready_exact {Component} `{EqDecision Component} (id : Component -> Z) (INTERNAL_READY ALL_READY : Z)
    (internal : list Component) (ipc : Component) : Prop :=
  (forall es, NoDup es -> es ⊆ internal ->
     (ready_run id INTERNAL_READY ALL_READY 0 es).2 = if bool_decide (internal ⊆ es) then [IpcStart] else []) /\
  (forall es, es ≡ₚ internal ->
     ready_run id INTERNAL_READY ALL_READY 0 (es ++ [ipc]) = (ALL_READY, [IpcStart; LogStarted])).

Lemma ReadySpec_exact {Component} `{EqDecision Component} (bit id : Component -> Z) INTERNAL_READY ALL_READY internal ipc :
  ReadySpec bit id INTERNAL_READY ALL_READY internal ipc -> ready_exact id INTERNAL_READY ALL_READY internal ipc.
Proof. intros RS. split; [by eapply ready_internal_only|by eapply ready_then_ipc]. Qed.

Module ServerEvents.
Inductive Component := Coordinator | Gateway | Ipc | Time.

#[global] Instance Component_eq_dec : EqDecision Component.
Proof. solve_decision. Defined.

Definition id (c : Component) : Z :=
  match c with
  | Coordinator => Z.shiftl 1 0
  | Gateway => Z.shiftl 1 1
  | Ipc => Z.shiftl 1 2
  | Time => Z.shiftl 1 3
  end.

Definition INTERNAL_READY : Z := Z.lor (Z.lor (id Coordinator) (id Gateway)) (id Time).
Definition ALL_READY : Z := Z.lor INTERNAL_READY (id Ipc).

Definition toString (c : Component) : string :=
  match c with Coordinator => "Coordinator" | Gateway => "Gateway" | Ipc => "Ipc" | Time => "Time" end.

#[global] Instance server_ready_spec : ReadySpec (fun c => match c with Coordinator => 0 | Gateway => 1 | Ipc => 2 | Time => 3 end)
  id INTERNAL_READY ALL_READY [Coordinator; Gateway; Time] Ipc.
Proof. split; [by intros []|by intros [] []|by intros []|done|done|set_solver|by apply (bool_decide_unpack _)|done]. Qed.
End ServerEvents.

Module ClientEvents.
Inductive Component := Engine | Ipc | Time.

#[global] Instance Component_eq_dec : EqDecision Component.
Proof. solve_decision. Defined.

Definition id (c : Component) : Z :=
  match c with Engine => Z.shiftl 1 0 | Ipc => Z.shiftl 1 1 | Time => Z.shiftl 1 2 end.

Definition INTERNAL_READY : Z := Z.lor (id Engine) (id Time).
Definition ALL_READY : Z := Z.lor INTERNAL_READY (id Ipc).

Definition toString (c : Component) : string :=
  match c with Engine => "Engine" | Ipc => "Ipc" | Time => "Time" end.

#[global] Instance client_ready_spec : ReadySpec (fun c => match c with Engine => 0 | Ipc => 1 | Time => 2 end)
  id INTERNAL_READY ALL_READY [Engine; Time] Ipc.
Proof. split; [by intros []|by intros [] []|by intros []|done|done|set_solver|by apply (bool_decide_unpack _)|done]. Qed.
End ClientEvents.

Module MonitorEvents.
Inductive Component := Ipc | Time.

#[global] Instance Component_eq_dec : EqDecision Component.
Proof. solve_decision. Defined.

Definition id (c : Component) : Z := match c with Ipc => Z.shiftl 1 0 | Time => Z.shiftl 1 1 end.

Definition INTERNAL_READY : Z := id Time.
Definition ALL_READY : Z := Z.lor INTERNAL_READY (id Ipc).

Definition toString (c : Component) : string := match c with Ipc => "Ipc" | Time => "Time" end.

#[global] Instance monitor_ready_spec : ReadySpec (fun c => match c with Ipc => 0 | Time => 1 end)
  id INTERNAL_READY ALL_READY [Time] Ipc.
Proof. split; [by intros []|by intros [] []|by intros []|done|done|set_solver|by apply (bool_decide_unpack _)|done]. Qed.
End MonitorEvents.

(** In each of the three programs the control center starts the network
    exactly when the last of the internal components reports ready, in
    whatever order they do, never earlier, and logs the start when the
    network reports. *)
Theorem network_starts_when_all_ready :
  ready_exact ServerEvents.id ServerEvents.INTERNAL_READY ServerEvents.ALL_READY
    [ServerEvents.Coordinator; ServerEvents.Gateway; ServerEvents.Time] ServerEvents.Ipc /\
  ready_exact ClientEvents.id ClientEvents.INTERNAL_READY ClientEvents.ALL_READY
    [ClientEvents.Engine; ClientEvents.Time] ClientEvents.Ipc /\
  ready_exact MonitorEvents.id MonitorEvents.INTERNAL_READY MonitorEvents.ALL_READY
    [MonitorEvents.Time] MonitorEvents.Ipc.
Proof. split_and!; apply (ReadySpec_exact _ _ _ _ _ _ _). Qed.

(** ** Sequences of calls *)

(** How a call ends: the calls that join a thread ([ShmReactor::stop],
    [TradeEngine::stop]) may never return. *)
Inductive Outcome := Returns | Throws | Hangs.

(** The body of a [try] block: [exec] is what a call does; a call that
    throws leaves the state as it was and ends the block, and one that does
    not return leaves the thread in the block.  The outcome tells how the
    block was left. *)
Fixpoint attempt {S Call} (exec : S -> Call -> S) (how : Call -> Outcome) (s : S) (calls : list Call) : S * Outcome :=
  match calls with
  | [] => (s, Returns)
  | c :: calls => match how c with Returns => attempt exec how (exec s c) calls | o => (s, o) end
  end.

Lemma attempt_inv {S Call} (exec : S -> Call -> S) (how : Call -> Outcome) (P : S -> Prop) s calls :
  (forall s c, P s -> c ∈ calls -> P (exec s c)) -> P s -> P (attempt exec how s calls).1.
Proof.
  revert s. induction calls as [|c calls IH]; intros s Hstep Hs; cbn; [done|].
  destruct (how c); [|done..]. apply IH; [intros s' c' Hs' Hc'; apply Hstep; [done|by right]|apply Hstep; [done|left]].
Qed.

Lemma attempt_all {S Call} (exec : S -> Call -> S) (how : Call -> Outcome) s calls :
  (forall c, c ∈ calls -> how c = Returns) -> attempt exec how s calls = (foldl exec s calls, Returns).
Proof.
  revert s. induction calls as [|c calls IH]; intros s Ht; cbn; [done|].
  rewrite (Ht c) by left. apply IH. intros c' Hc'. apply Ht. by right.
Qed.

(** ** The server *)

Module ServerControl.
Import ServerEvents.

Inductive Call :=
| GatewayStart | CoordinatorStart | BusRun
| RequestStop | IpcStop | CoordinatorStop | GatewayStop | SessionsClose | BusStop
| StartIpc | Started.

Section ServerControl.
Context (how : Call -> Outcome).

(** The calls that were made, in order, and the ready mask. *)
Record State := mkState { readyMask_ : Z; made : list Call }.

Definition init : State := mkState 0 [].

Definition exec (s : State) (c : Call) : State := mkState (readyMask_ s) (made s ++ [c]).

Definition stop (s : State) : State :=
  (attempt exec how s [RequestStop; IpcStop; CoordinatorStop; GatewayStop; SessionsClose; BusStop]).1.

Definition start (s : State) (tickers : nat) : res State :=
  if (tickers =? 0)%nat then Err (Throw "No ticker data loaded from db")
  else
    let '(s, o) := attempt exec how s [GatewayStart; CoordinatorStart; BusRun] in
    Ok (match o with Throws => stop s | _ => s end).

(** [post(CRef<ComponentReady>)] *)
Definition postReady (s : State) (e : Component) : State :=
  let '(m, c) := ready_post id INTERNAL_READY ALL_READY (readyMask_ s) e in
  (attempt exec how (mkState m (made s)) (map (fun c => match c with IpcStart => StartIpc | LogStarted => Started end) c)).1.

(** [post(CRef<InternalError>)] *)
Definition postError (s : State) : State := stop s.

(** The commands the server's control center is subscribed to. *)
Definition postCommand (s : State) (c : ServerCommand.Command) : State :=
  match c with ServerCommand.Shutdown => stop s | _ => s end.

(** When every call returns, stopping stops every part after the stop token
    was set and before the bus; a part that throws, or waits for a thread that
    does not end, leaves the later ones running. *)
Lemma server_stop_order s : (forall c, how c = Returns) ->
  made (stop s) = made s ++ [RequestStop; IpcStop; CoordinatorStop; GatewayStop; SessionsClose; BusStop].
Proof. intros Ht. unfold stop. rewrite attempt_all by done. cbn. by rewrite <- !(assoc_L app). Qed.

Lemma server_stop_cut s c : how RequestStop = Returns -> how c <> Returns -> c ∈ [IpcStop; CoordinatorStop; GatewayStop; SessionsClose; BusStop] ->
  exists l, made (stop s) = made s ++ RequestStop :: l /\ BusStop ∉ l.
Proof.
  intros H1 Hc Hin. unfold stop. cbn [attempt]. rewrite H1.
  destruct (how IpcStop) eqn:E1; [destruct (how CoordinatorStop) eqn:E2; [destruct (how GatewayStop) eqn:E3;
    [destruct (how SessionsClose) eqn:E4; [destruct (how BusStop) eqn:E5|..]|..]|..]|..].
  all: try (eexists; split; [cbn; rewrite <- ?(assoc_L app); reflexivity|set_solver]).
Qed.
End ServerControl.
End ServerControl.

(** ** The monitor *)

Module MonitorControl.
Import MonitorEvents.

Inductive Call := TelemetryStart | BusRun | RequestStop | ReactorStop | TelemetryClose | BusStop | RunReactor | Started.

Section MonitorControl.
Context (how : Call -> Outcome).

Record State := mkState { readyMask_ : Z; made : list Call }.

Definition exec (s : State) (c : Call) : State := mkState (readyMask_ s) (made s ++ [c]).

(** An exception of [start] is logged and nothing is stopped. *)
Definition start (s : State) : State := (attempt exec how s [TelemetryStart; BusRun]).1.

Definition stop (s : State) : State := (attempt exec how s [RequestStop; ReactorStop; TelemetryClose; BusStop]).1.

Definition postReady (s : State) (e : Component) : State :=
  let '(m, c) := ready_post id INTERNAL_READY ALL_READY (readyMask_ s) e in
  (attempt exec how (mkState m (made s)) (map (fun c => match c with IpcStart => RunReactor | LogStarted => Started end) c)).1.

Definition postCommand (s : State) (c : MonitorCommand.Posted) : State :=
  match c with MonitorCommand.PostMonitor MonitorCommand.Shutdown => stop s | _ => s end.
End MonitorControl.
End MonitorControl.

(** ** The client over shared memory *)

Module ClientControl.
Import ClientEvents.

Inductive Call :=
| EngineStart | TelemetryStart | BusRun
| RequestStop | IpcStop | EngineStop | TelemetryClose | ConnectionClose | BusStop
| OpenUpstream | OpenDownstream | RunReactor   (* the three parts of [ShmClient::start] *)
| Started | TradeStart | TradeStop.

(** What waits in the system bus for the system thread. *)
Inductive SysEvent :=
| EvReady (c : Component)
| EvConnection (s : ServerConnectionState)
| EvError
| EvCommand (c : ClientCommand.Command).

Section ClientControl.
Context `{B : Build} {Q : Type} `{FQ : !Fifo Q Z}.
Context {Transport : Type} (tx : Transport -> Order -> Transport * IoResult) (t_close : Transport -> Transport).
Context (writer reader : Transport) (how : Call -> Outcome).

(** The control center's own state, the connection manager's, the engine's
    and the system bus.  [stopRequested] is the stop token all of them
    look at.  Of the threads, [blocked] says that the system thread sits in
    a call that does not return, and the other two flags that [stop] has
    joined the reactor and the engine's worker. *)
Record Threads := mkThreads { blocked : bool; reactorJoined : bool; engineJoined : bool }.

Record Sys := mkSys {
  readyMask_ : Z;
  state_ : ServerConnectionState;
  stopRequested : bool;
  connection : TrustedClient.State (Transport := Transport);
  engine : TradeEngine.State Q;
  bus : list SysEvent;
  busStopped : bool;
  threads : Threads
}.

Definition init (md : list (Ticker * Z)) (q : Q) (st : OrderStatus) : Sys :=
  mkSys 0 ServerDisconnected false (TrustedClient.mkState None None None st) (TradeEngine.init md q) [] false
    (mkThreads false false false).

Definition set_engine (s : Sys) e := mkSys (readyMask_ s) (state_ s) (stopRequested s) (connection s) e (bus s) (busStopped s) (threads s).
Definition set_connection (s : Sys) c := mkSys (readyMask_ s) (state_ s) (stopRequested s) c (engine s) (bus s) (busStopped s) (threads s).
Definition set_bus (s : Sys) b := mkSys (readyMask_ s) (state_ s) (stopRequested s) (connection s) (engine s) b (busStopped s) (threads s).
Definition set_threads (s : Sys) t := mkSys (readyMask_ s) (state_ s) (stopRequested s) (connection s) (engine s) (bus s) (busStopped s) t.

Definition post (s : Sys) (e : SysEvent) : Sys := set_bus s (bus s ++ [e]).

(** What the connection manager posts of its state goes to the system bus. *)
Fixpoint post_states (s : Sys) (out : list TrustedClient.Out) : Sys :=
  match out with
  | [] => s
  | TrustedClient.OutState st :: out => post_states (post s (EvConnection st)) out
  | TrustedClient.OutStatus _ :: out => post_states s out
  end.

Definition with_connection (s : Sys) (r : TrustedClient.State (Transport := Transport) * list TrustedClient.Out) : Sys :=
  post_states (set_connection s r.1) r.2.

(** What a call of the control center does; the calls left out have no
    effect on this state. *)
Definition exec (s : Sys) (c : Call) : Sys :=
  match c with
  | EngineStart => set_engine s (TradeEngine.start (engine s)).1
  | RequestStop => mkSys (readyMask_ s) (state_ s) true (connection s) (engine s) (bus s) (busStopped s) (threads s)
  | IpcStop => set_threads s (mkThreads (blocked (threads s)) true (engineJoined (threads s)))
  | EngineStop => set_threads s (mkThreads (blocked (threads s)) (reactorJoined (threads s)) true)
  | ConnectionClose => with_connection s (TrustedClient.reset t_close (connection s))
  | BusStop => mkSys (readyMask_ s) (state_ s) (stopRequested s) (connection s) (engine s) (bus s) true (threads s)
  | OpenUpstream => with_connection s (TrustedClient.onUpstream (connection s) writer)
  | OpenDownstream => with_connection s (TrustedClient.onDownstream (connection s) reader)
  | TradeStart => set_engine s (TradeEngine.tradeStart (engine s))
  | TradeStop => set_engine s (TradeEngine.tradeStop (engine s))
  | _ => s
  end.

(** A handler's calls, on the system thread. *)
Definition calls (s : Sys) (l : list Call) : Sys :=
  let '(s, o) := attempt exec how s l in
  match o with
  | Hangs => set_threads s (mkThreads true (reactorJoined (threads s)) (engineJoined (threads s)))
  | _ => s
  end.

(** [start]: an exception is logged, nothing is stopped. *)
Definition start (s : Sys) : Sys := calls s [EngineStart; TelemetryStart; BusRun].

Definition stop (s : Sys) : Sys :=
  calls s [RequestStop; IpcStop; EngineStop; TelemetryClose; ConnectionClose; BusStop].

(** [post(CRef<ComponentReady>)] *)
Definition postReady (s : Sys) (e : Component) : Sys :=
  let '(m, c) := ready_post id INTERNAL_READY ALL_READY (readyMask_ s) e in
  let s := mkSys m (state_ s) (stopRequested s) (connection s) (engine s) (bus s) (busStopped s) (threads s) in
  calls s (flat_map (fun c => match c with IpcStart => [OpenUpstream; OpenDownstream; RunReactor] | LogStarted => [Started] end) c).

(** [post(CRef<ServerConnectionState>)] *)
Definition postConnection (s : Sys) (event : ServerConnectionState) : Sys :=
  let s := mkSys (readyMask_ s) event (stopRequested s) (connection s) (engine s) (bus s) (busStopped s) (threads s) in
  match event with
  | ServerDisconnected => stop s
  | ServerConnected => s
  | ServerFailed => stop s
  end.

Definition tradeStart (s : Sys) : Sys :=
  match state_ s with
  | ServerConnected => calls s [TradeStart]
  | _ => s
  end.

Definition tradeStop (s : Sys) : Sys := calls s [TradeStop].

Definition postCommand (s : Sys) (c : ClientCommand.Command) : Sys :=
  match c with
  | ClientCommand.Start => tradeStart s
  | ClientCommand.Stop => tradeStop s
  | ClientCommand.Shutdown => stop s
  | _ => s
  end.

(** The system thread takes the next event, until the bus is stopped, unless
    it is in a call that does not return. *)
Definition bus_next (s : Sys) : Sys :=
  if busStopped s || blocked (threads s) then s
  else
    match bus s with
    | [] => s
    | e :: es =>
        let s := set_bus s es in
        match e with
        | EvReady c => postReady s c
        | EvConnection st => postConnection s st
        | EvError => stop s
        | EvCommand c => postCommand s c
        end
    end.

(** The engine's orders go through the market bus to the connection
    manager, on the engine's thread. *)
Fixpoint send_orders (s : Sys) (out : list TradeEngine.Out) : res Sys :=
  match out with
  | [] => Ok s
  | TradeEngine.OutOrder o :: out =>
      let! r := TrustedClient.postOrder tx t_close (connection s) o in send_orders (with_connection s r) out
  | _ :: out => send_orders s out
  end.

(** The threads of the client: the system thread, the engine's loop until it
    is joined, the reactor, which reports reads and sends statuses to the
    engine, until it is joined, and whatever posts to the system bus. *)
Inductive step : Sys -> Sys -> Prop :=
| step_bus s : step s (bus_next s)
| step_post s e : (forall st, e <> EvConnection st) -> step s (post s e)
| step_start s : step s (start s)
| step_round s d now e out go s' : engineJoined (threads s) = false ->
    TradeEngine.tradeRound (engine s) (stopRequested s) d now = Ok (e, out, go) ->
    send_orders (set_engine s e) out = Ok s' -> step s s'
| step_read s r : reactorJoined (threads s) = false ->
    step s (with_connection s (TrustedClient.postIo t_close (connection s) r))
| step_status s st cycl coin e out : reactorJoined (threads s) = false ->
    TradeEngine.postStatus (engine s) (stopRequested s) st cycl coin = Ok (e, out) ->
    step s (set_engine s e)
| step_price s p : step s (set_engine s (TradeEngine.postPrice (engine s) p))
| step_connection s st : step s (with_connection s (TrustedClient.postStatus t_close (connection s) st))
| step_datagram s t : step s (set_connection s (TrustedClient.onDatagram (connection s) t)).

Inductive Reach md q st : Sys -> Prop :=
| Reach_init : Reach md q st (init md q st)
| Reach_step s s' : Reach md q st s -> step s s' -> Reach md q st s'.

(** *** Trading needs a connection *)

Definition up (s : Sys) : Prop := is_Some (TrustedClient.upstreamChannel_ (connection s)).

Definition Inv (s : Sys) : Prop :=
  (TradeEngine.trading_ (engine s) = true -> up s) /\
  (state_ s = ServerConnected -> up s) /\
  (EvConnection ServerConnected ∈ bus s -> up s).

Lemma post_states_spec s out :
  connection (post_states s out) = connection s /\ engine (post_states s out) = engine s /\
  state_ (post_states s out) = state_ s /\ stopRequested (post_states s out) = stopRequested s /\
  busStopped (post_states s out) = busStopped s /\
  (forall e, e ∈ bus (post_states s out) <-> e ∈ bus s \/ exists st, e = EvConnection st /\ TrustedClient.OutState st ∈ out).
Proof.
  revert s. induction out as [|o out IH]; intros s; cbn [post_states].
  { split_and!; try done. intros e. split; [by left|]. intros [?|(st & _ & ?%elem_of_nil)]; done. }
  destruct o as [o|st].
  - destruct (IH s) as (-> & -> & -> & -> & -> & Hb). split_and!; try done. intros e. rewrite Hb. set_solver.
  - destruct (IH (post s (EvConnection st))) as (-> & -> & -> & -> & -> & Hb). split_and!; try done.
    intros e. rewrite Hb. cbn. set_solver.
Qed.

(** A step of the connection manager keeps the invariant when it keeps the
    upstream channel, and when it sets the channel before it reports a
    connection. *)
Lemma with_connection_Inv s r : Inv s -> (up s -> is_Some (TrustedClient.upstreamChannel_ r.1)) ->
  (TrustedClient.OutState ServerConnected ∈ r.2 -> is_Some (TrustedClient.upstreamChannel_ r.1)) ->
  Inv (with_connection s r) /\ (up s -> up (with_connection s r)).
Proof.
  intros (H1 & H2 & H3) Hup Hout. unfold with_connection, Inv, up.
  destruct (post_states_spec (set_connection s r.1) r.2) as (-> & -> & -> & _ & _ & Hb). cbn [connection engine state_ set_connection].
  split; [|done]. split_and!; [by auto..|]. intros [Hin|(st & [= <-] & Hin)]%Hb; auto.
Qed.

Lemma reset_Inv s : Inv s -> Inv (with_connection s (TrustedClient.reset t_close (connection s))) /\
  (up s -> up (with_connection s (TrustedClient.reset t_close (connection s)))).
Proof. intros HI. apply with_connection_Inv; [done|apply TrustedClient.reset_keeps|]. cbn. set_solver. Qed.

Lemma onUpstream_Inv s : Inv s -> Inv (with_connection s (TrustedClient.onUpstream (connection s) writer)).
Proof.
  intros HI. assert (Hu : is_Some (TrustedClient.upstreamChannel_ (TrustedClient.onUpstream (connection s) writer).1)).
  { unfold TrustedClient.onUpstream. destruct (TrustedClient.upstreamChannel_ (connection s)) eqn:E; cbn; rewrite ?E; eauto. }
  by apply with_connection_Inv.
Qed.

(** The downstream channel alone reports no connection. *)
Lemma onDownstream_Inv s : Inv s -> Inv (with_connection s (TrustedClient.onDownstream (connection s) reader)).
Proof.
  intros HI. apply with_connection_Inv; [done| |]; unfold up, TrustedClient.onDownstream, TrustedClient.notify;
    destruct (TrustedClient.downstreamChannel_ (connection s)); cbn; try done; [by intros ?%elem_of_nil|].
  destruct (TrustedClient.upstreamChannel_ (connection s)); cbn; [by eauto|by intros ?%elem_of_nil].
Qed.

Lemma engine_Inv s e : Inv s -> (TradeEngine.trading_ e = true -> up s) -> Inv (set_engine s e).
Proof. intros (H1 & H2 & H3) He. by split_and!. Qed.

Lemma exec_Inv s c : c <> TradeStart -> Inv s -> Inv (exec s c).
Proof.
  intros Hc HI. pose proof HI as (H1 & H2 & H3). destruct c; try done; cbn [exec].
  - apply engine_Inv; [done|]. unfold TradeEngine.start. by destruct (TradeEngine.started_ (engine s)).
  - by apply reset_Inv.
  - by apply onUpstream_Inv.
  - by apply onDownstream_Inv.
  - apply engine_Inv; [done|]. unfold TradeEngine.tradeStop. destruct (TradeEngine.trading_ (engine s)) eqn:E; cbn; [done|by rewrite E].
Qed.

Lemma calls_attempt s l : Inv (attempt exec how s l).1 -> Inv (calls s l).
Proof. unfold calls. destruct (attempt exec how s l) as [s' []]; intros HI; [done..|]. by destruct HI as (? & ? & ?). Qed.

Lemma calls_Inv s l : TradeStart ∉ l -> Inv s -> Inv (calls s l).
Proof.
  intros Hc HI. apply calls_attempt. apply attempt_inv; [|done].
  intros s' c HI' Hin. apply exec_Inv; [by intros ->|done].
Qed.

Lemma stop_Inv s : Inv s -> Inv (stop s).
Proof. apply calls_Inv. set_solver. Qed.

Lemma set_state_Inv s st : Inv s -> (st = ServerConnected -> up s) ->
  Inv (mkSys (readyMask_ s) st (stopRequested s) (connection s) (engine s) (bus s) (busStopped s) (threads s)).
Proof. intros (H1 & H2 & H3) Hst. by split_and!. Qed.

Lemma bus_next_Inv s : Inv s -> Inv (bus_next s).
Proof.
  intros HI. pose proof HI as (H1 & H2 & H3). unfold bus_next. destruct (busStopped s || blocked (threads s)); [done|]. destruct (bus s) as [|e es] eqn:Eb; [done|].
  assert (HI' : Inv (set_bus s es)) by (split_and!; [done..|intros Hin; apply H3; by right]).
  destruct e as [c|st| |c].
  - unfold postReady. destruct (ready_post id INTERNAL_READY ALL_READY (readyMask_ (set_bus s es)) c) as [m cs].
    apply calls_Inv; [|exact HI']. intros Hin%list_elem_of_In%in_flat_map. destruct Hin as ([] & _ & Hin); cbn in Hin; by decompose [or] Hin.
  - unfold postConnection. assert (HI2 : Inv (mkSys (readyMask_ s) st (stopRequested s) (connection s) (engine s) es (busStopped s) (threads s))).
    { apply (set_state_Inv (set_bus s es)); [done|]. intros ->. apply H3. by left. }
    destruct st; [by apply stop_Inv|done|by apply stop_Inv].
  - by apply stop_Inv.
  - destruct c; cbn [postCommand]; [|by apply calls_Inv; [set_solver|]|done..|by apply stop_Inv].
    unfold tradeStart. destruct (state_ (set_bus s es)) eqn:E; try done. apply calls_attempt. cbn [attempt].
    destruct (how TradeStart); [|done..]. apply engine_Inv; [done|]. intros _. by apply H2.
Qed.

Lemma send_orders_ok s out : Inv s -> up s -> exists s', send_orders s out = Ok s' /\ Inv s' /\ up s'.
Proof.
  revert s. induction out as [|o out IH]; intros s HI Hu; cbn [send_orders]; [by exists s|].
  destruct o as [o| | | | | |]; try by apply IH.
  destruct (TrustedClient.connected_order tx t_close (connection s) o Hu) as (c' & outs & E & Hu'). rewrite E.
  destruct (with_connection_Inv s (c', outs) HI) as [HI' Hu2]; [done|done|]. apply IH; [done|]. by apply Hu2.
Qed.

Lemma tradeRound_trading (e e' : TradeEngine.State Q) sr d now out go : TradeEngine.tradeRound e sr d now = Ok (e', out, go) ->
  TradeEngine.trading_ e' = TradeEngine.trading_ e /\ (TradeEngine.trading_ e = false -> out = []).
Proof.
  unfold TradeEngine.tradeRound, TradeEngine.sendCancel, TradeEngine.sendNew. destruct sr; [by intros [= <- <- <-]|].
  destruct (TradeEngine.trading_ e) eqn:Et; cbn [negb]; [|by intros [= <- <- <-]].
  intros E. split; [|done]. repeat (case_match; simplify_eq/=; try done).
Qed.

Lemma postStatus_trading (e e' : TradeEngine.State Q) sr st cycl coin out : TradeEngine.postStatus e sr st cycl coin = Ok (e', out) ->
  TradeEngine.trading_ e' = TradeEngine.trading_ e.
Proof.
  unfold TradeEngine.postStatus, TradeEngine.release. intros E. repeat (case_match; simplify_eq/=; try done).
Qed.

Lemma step_Inv s s' : step s s' -> Inv s -> Inv s'.
Proof.
  intros H HI. pose proof HI as (H1 & H2 & H3).
  destruct H as [s|s e He|s|s d now e out go s' _ E Es|s r _|s st cycl coin e out _ E|s p|s st|s t].
  - by apply bus_next_Inv.
  - split_and!; [done..|]. cbn. intros [Hin|Hin]%elem_of_app; [auto|].
    apply list_elem_of_singleton in Hin. by destruct (He ServerConnected).
  - apply calls_Inv; [set_solver|done].
  - destruct (tradeRound_trading _ _ _ _ _ _ _ E) as [Et Eo].
    assert (HI' : Inv (set_engine s e)) by (apply engine_Inv; [done|by rewrite Et]).
    destruct (TradeEngine.trading_ (engine s)) eqn:Etr.
    + destruct (send_orders_ok _ out HI' (H1 eq_refl)) as (s1 & E1 & HI1 & _). rewrite E1 in Es. by injection Es as <-.
    + rewrite (Eo eq_refl) in Es. by injection Es as <-.
  - unfold TrustedClient.postIo. case_bool_decide; [|by apply reset_Inv].
    apply with_connection_Inv; [done|done|]. cbn. intros Hin%list_elem_of_singleton. done.
  - apply engine_Inv; [done|]. by rewrite (postStatus_trading _ _ _ _ _ _ _ E).
  - by apply engine_Inv.
  - unfold TrustedClient.postStatus. destruct st; try by apply reset_Inv.
    all: apply with_connection_Inv; [done|done|]; cbn; by intros ?%elem_of_nil.
  - split_and!; unfold up in *; unfold TrustedClient.onDatagram; cbn; destruct (TrustedClient.pricesChannel_ (connection s)); auto.
Qed.

Lemma Reach_Inv md q st s : Reach md q st s -> Inv s.
Proof.
  induction 1 as [|s s' _ IH Hs]; [|by eapply step_Inv]. split_and!; cbn; [done..|]. by intros ?%elem_of_nil.
Qed.

(** C32: over shared memory the engine trades only while the connection
    manager has its upstream channel, whatever its threads do, in whatever
    order, and whatever part throws or never returns; so the unchecked dereference of that
    channel never fails on an order of the trade loop. *)
Theorem client_orders_find_a_channel md q st s : Reach md q st s ->
  (TradeEngine.trading_ (engine s) = true -> is_Some (TrustedClient.upstreamChannel_ (connection s))) /\
  (forall d now e out go, TradeEngine.tradeRound (engine s) (stopRequested s) d now = Ok (e, out, go) ->
     exists s', send_orders (set_engine s e) out = Ok s').
Proof.
  intros HR%Reach_Inv. pose proof HR as (H1 & _). split; [done|]. intros d now e out go E.
  destruct (tradeRound_trading _ _ _ _ _ _ _ E) as [Et Eo]. destruct (TradeEngine.trading_ (engine s)) eqn:Etr.
  - destruct (send_orders_ok (set_engine s e) out) as (s' & E' & _); [apply engine_Inv; [done|by rewrite Et]|by apply H1|by exists s'].
  - rewrite (Eo eq_refl). by eexists.
Qed.

(** The start-up: the internal components report, in either order, the
    network is started and connects, and the start command is given once
    the control center was told. *)
Definition start_up md q st (es : list Component) : Sys :=
  let s := bus_next (bus_next (foldl post (start (init md q st)) (map EvReady es))) in
  bus_next (bus_next (post s (EvCommand ClientCommand.Start))).

Lemma calls_quiet s l : (forall c, how c = Returns) -> calls s l = foldl exec s l.
Proof. intros Ht. unfold calls. by rewrite attempt_all. Qed.

Lemma internal_ready s es : (forall c, how c = Returns) -> es ≡ₚ [Engine; Time] ->
  readyMask_ s = 0 -> bus s = [] -> busStopped s = false -> blocked (threads s) = false ->
  bus_next (bus_next (foldl post s (map EvReady es))) =
  foldl exec (mkSys INTERNAL_READY (state_ s) (stopRequested s) (connection s) (engine s) [] false (threads s))
    [OpenUpstream; OpenDownstream; RunReactor].
Proof.
  intros Ht P Hm Hb Hs Hk. destruct s as [m st sr c e b bs [bl rj ej]]. cbn in Hm, Hb, Hs, Hk. subst m b bs bl.
  apply Permutation_sym, Permutation_length_2_inv in P as [-> | ->].
  all: transitivity (calls (mkSys INTERNAL_READY st sr c e [] false (mkThreads false rj ej)) [OpenUpstream; OpenDownstream; RunReactor]).
  all: try (rewrite calls_quiet by done; reflexivity).
  all: reflexivity.
Qed.

Lemma start_up_spec md q st es : (forall c, how c = Returns) -> es ≡ₚ [Engine; Time] ->
  start_up md q st es = mkSys INTERNAL_READY ServerConnected false
    (TrustedClient.mkState (Some writer) (Some reader) None st)
    (TradeEngine.tradeStart (TradeEngine.start (TradeEngine.init md q)).1) [] false (mkThreads false false false).
Proof.
  intros Ht P. unfold start_up, start. rewrite calls_quiet by done. rewrite internal_ready by done.
  transitivity (calls (mkSys INTERNAL_READY ServerConnected false
    (TrustedClient.mkState (Some writer) (Some reader) None st) (TradeEngine.start (TradeEngine.init md q)).1 [] false
    (mkThreads false false false)) [TradeStart]);
    [reflexivity|]. by rewrite calls_quiet.
Qed.

Lemma shutdown_spec s : (forall c, how c = Returns) -> busStopped s = false -> blocked (threads s) = false -> bus s = [] ->
  bus_next (post s (EvCommand ClientCommand.Shutdown)) =
  foldl exec s [RequestStop; IpcStop; EngineStop; TelemetryClose; ConnectionClose; BusStop].
Proof.
  intros Ht Hs Hk Hb. unfold bus_next. cbn [busStopped bus threads post set_bus]. rewrite Hs, Hk, Hb. cbn [app orb postCommand]. unfold stop.
  rewrite calls_quiet by done. f_equal. destruct s. cbn in Hs, Hb. by subst.
Qed.

Lemma reach_posts md q st s es : Reach md q st s -> Reach md q st (foldl post s (map EvReady es)).
Proof.
  revert s. induction es as [|e es IH]; intros s HR; cbn; [done|]. apply IH. eapply Reach_step; [exact HR|]. by apply step_post.
Qed.

Lemma reach_start_up md q st es : Reach md q st (start_up md q st es).
Proof.
  unfold start_up. do 2 (eapply Reach_step; [|apply step_bus]). eapply Reach_step; [|by apply step_post].
  do 2 (eapply Reach_step; [|apply step_bus]). apply reach_posts. eapply Reach_step; [apply Reach_init|apply step_start].
Qed.

(** When every call returns, the client comes up trading with its channels,
    and a shutdown command then requests the stop, joins both threads and
    stops the bus, after which no event is handled any more. *)
Theorem client_comes_up_and_stops md q st es : es ≡ₚ [Engine; Time] -> (forall c, how c = Returns) ->
  let s := start_up md q st es in
  let s' := bus_next (post s (EvCommand ClientCommand.Shutdown)) in
  (TradeEngine.trading_ (engine s) = true /\ TradeEngine.started_ (engine s) = true /\
   TrustedClient.upstreamChannel_ (connection s) = Some writer /\ TrustedClient.downstreamChannel_ (connection s) = Some reader /\
   state_ s = ServerConnected /\ stopRequested s = false /\ bus s = []) /\
  (stopRequested s' = true /\ busStopped s' = true /\ reactorJoined (threads s') = true /\ engineJoined (threads s') = true /\
   TrustedClient.upstreamChannel_ (connection s') = Some (t_close writer) /\
   forall es', bus_next (foldl post s' es') = foldl post s' es').
Proof.
  intros P Ht s s'. unfold s', s. rewrite start_up_spec by done. split; [done|].
  assert (Hstop : forall es' x, busStopped x = true -> bus_next (foldl post x es') = foldl post x es').
  { induction es' as [|e es' IH]; intros x Hx; cbn; [|by apply IH]. unfold bus_next. by rewrite Hx. }
  rewrite shutdown_spec by done.
  split_and!; [done..|]. intros es'. by apply Hstop.
Qed.
(** A join that does not return ([shm_wait_misses_notify] is how the
    reactor's comes about) leaves the system thread in it: the stop is
    requested, and nothing after the join is ever done. *)
Theorem hung_join_blocks_stop s : how RequestStop = Returns -> how IpcStop = Hangs -> blocked (threads s) = false ->
  busStopped s = false -> bus s = [] ->
  let s' := bus_next (post s (EvCommand ClientCommand.Shutdown)) in
  stopRequested s' = true /\ connection s' = connection s /\ engineJoined (threads s') = engineJoined (threads s) /\
  busStopped s' = false /\ forall es', bus_next (foldl post s' es') = foldl post s' es'.
Proof.
  intros H1 H2 Hk Hs Hb. unfold bus_next at 1. cbn [busStopped bus threads post set_bus]. rewrite Hs, Hk, Hb. cbn [app orb postCommand].
  unfold stop, calls. cbn [attempt]. rewrite H1, H2. split_and!; [done..|]. intros es'.
  assert (Hblk : forall es' x, blocked (threads x) = true -> bus_next (foldl post x es') = foldl post x es').
  { clear. induction es' as [|e es' IH]; intros x Hx; cbn; [|by apply IH]. unfold bus_next. by rewrite Hx, orb_true_r. }
  by apply Hblk.
Qed.
End ClientControl.
End ClientControl.

(** ** Examples *)

Module ControlExamples.
Import ClientControl.

#[local] Instance example_build : Build := build_cicd.
#[local] Instance example_fifo : Fifo SequencedSPSC.Spsc.Queue Z := spsc_fifo 1024.

(** Transports that accept every write. *)
Definition example_tx (t : nat) (o : Order) : nat * IoResult := (S t, mkIoResult 1 IoOk).
Definition example_market : list (Ticker * Z) := [(makeTicker (String.list_ascii_of_string "AAPL"), 100)].
Definition example_status : OrderStatus := mkOrderStatus 0 0 0 0 Rejected.

Abbreviation example_start := (start_up (fun t => t) 0%nat 7%nat (fun _ => Returns) example_market
  (SequencedSPSC.Spsc.init 1024) example_status [ClientEvents.Time; ClientEvents.Engine]).

Lemma client_orders_find_a_channel_witness : exists s,
  Reach example_tx (fun t => t) 0%nat 7%nat (fun _ => Returns) example_market (SequencedSPSC.Spsc.init 1024) example_status s /\
  TradeEngine.trading_ (engine s) = true /\ is_Some (TrustedClient.upstreamChannel_ (connection s)).
Proof.
  exists example_start. pose proof (reach_start_up example_tx (fun t => t) 0%nat 7%nat (fun _ => Returns) example_market
    (SequencedSPSC.Spsc.init 1024) example_status [ClientEvents.Time; ClientEvents.Engine]) as HR.
  assert (Ht : TradeEngine.trading_ (engine example_start) = true) by (rewrite start_up_spec; [done|done|apply Permutation_swap]).
  split; [exact HR|]. split; [exact Ht|].
  exact (proj1 (client_orders_find_a_channel example_tx (fun t => t) 0%nat 7%nat (fun _ => Returns) _ _ _ _ HR) Ht).
Defined.

Lemma client_comes_up_and_stops_witness : TradeEngine.trading_ (engine example_start) = true /\ bus example_start = [].
Proof.
  destruct (client_comes_up_and_stops (fun t : nat => t) 0%nat 7%nat (fun _ => Returns) example_market
    (SequencedSPSC.Spsc.init 1024) example_status [ClientEvents.Time; ClientEvents.Engine]
    (Permutation_swap _ _ _) (fun _ => eq_refl)) as [(H1 & _ & _ & _ & _ & _ & H2) _].
  exact (conj H1 H2).
Defined.

End ControlExamples.
