(* ===== verification/Wiring.v ===== *)
(** * The wiring of the programs

    Instantiates the buses of [Bus.v] as server/src/traits.hpp,
    client/src/traits.hpp and monitor/src/traits.hpp do, with the
    subscriptions the constructors of each program make, in the order they
    make them.  The kind of an event is its type; a subscription names the
    kind and the object whose [post] it binds, and what that [post] does is a
    parameter. *)

From stdpp Require Import gmap list.
From S2P Require Import Prelude Bus.

(** ** A program as a list of subscriptions *)

Section Program.
Context {Kind Component : Type} `{Countable Kind} `{!EqDecision Component}.
Context {Event : Type} (kind : Event -> Kind) (typeName : Kind -> string) {World : Type}.
Context (body : Component -> Kind -> Event -> World -> res World).
Context {Sys : Type} (sys_post : Sys -> Event -> Sys) (sys_run : Sys -> res Sys)
  (sys_subscribe : Sys -> Kind -> (Event -> World -> res World) -> Sys).

Abbreviation Hub := (BusHub (Kind := Kind) (Event := Event) (World := World) (Sys := Sys)).

(** [bus.subscribe(CRefHandler<K>::bind<SelfT, &SelfT::post>(this))]: the
    kind, and the object whose [post] of that kind is bound. *)
Abbreviation Subscription := (Kind * Component)%type.

(** The constructors run one after the other and subscribe. *)
Definition construct (Events : list Kind) (subs : list Subscription) (s : Sys) : Hub :=
  foldl (fun b x => hub_subscribe Events sys_subscribe b x.1 (body x.2 x.1)) (mkBusHub s ∅) subs.

(** A later subscription replaces an earlier one of the same kind. *)
Fixpoint last_sub (subs : list Subscription) (k : Kind) : option Component :=
  match subs with
  | [] => None
  | (k', c) :: subs =>
      match last_sub subs k with
      | Some c => Some c
      | None => if bool_decide (k = k') then Some c else None
      end
  end.

Lemma construct_from Events subs (b : Hub) k : k ∈ Events ->
  marketBus (foldl (fun b x => hub_subscribe Events sys_subscribe b x.1 (body x.2 x.1)) b subs) !! k =
  match last_sub subs k with Some c => Some (bind (body c k)) | None => marketBus b !! k end.
Proof.
  intros Hk. revert b. induction subs as [|[k' c] subs IH]; intros b; cbn [foldl last_sub]; [done|].
  rewrite IH. destruct (last_sub subs k); [done|]. unfold hub_subscribe, Routed. cbn [fst snd].
  destruct (decide (k = k')) as [<-|Hne]; [rewrite (bool_decide_true (k = k)) by done|rewrite (bool_decide_false (k = k')) by done].
  - rewrite bool_decide_true by done. cbn. unfold subscribe. by rewrite lookup_insert_eq.
  - destruct (bool_decide (k' ∈ Events)); cbn; [|done]. unfold subscribe. by rewrite lookup_insert_ne.
Qed.

Lemma construct_lookup Events subs s k : k ∈ Events ->
  marketBus (construct Events subs s) !! k = (fun c => bind (body c k)) <$> last_sub subs k.
Proof. intros Hk. unfold construct. rewrite construct_from by done. by destruct (last_sub subs k). Qed.

(** The program passes the validation, and each event of its market bus runs
    the [post] of the component [owner] names. *)
Definition routes_to (owner : Kind -> Component) (Events : list Kind) (subs : list Subscription) : Prop :=
  forall s, let b := construct Events subs s in
  hub_run Events typeName sys_run b = (let! s := sys_run (systemBus b) in Ok (mkBusHub s (marketBus b))) /\
  forall e w, kind e ∈ Events ->
    hub_post kind Events sys_post b e w = let! w := body (owner (kind e)) (kind e) e w in Ok (b, w).

Lemma subscribed_routes owner Events subs :
  Forall (fun k => last_sub subs k = Some (owner k)) Events -> routes_to owner Events subs.
Proof.
  rewrite Forall_forall. intros Hall s b.
  assert (Hl : forall k, k ∈ Events -> marketBus b !! k = Some (bind (body (owner k) k)))
    by (intros k Hk; unfold b; by rewrite construct_lookup, Hall).
  split.
  - unfold hub_run. rewrite (proj2 (validate_spec Events typeName (marketBus b))); [done|].
    intros k Hk. unfold handlerRef. by rewrite Hl.
  - intros e w Hk. unfold hub_post, Routed. rewrite bool_decide_true by done. unfold post, handlerRef. by rewrite Hl.
Qed.

(** A kind nobody subscribes to keeps the program from running. *)
Lemma unsubscribed_fails Events subs s k : k ∈ Events -> last_sub subs k = None ->
  exists msg, hub_run Events typeName sys_run (construct Events subs s) = Err (Throw msg).
Proof.
  intros Hk Hs. unfold hub_run. destruct (validate Events typeName _) as [[]|f] eqn:E.
  - pose proof (proj1 (validate_spec _ _ _) E k Hk) as Hv. unfold handlerRef in Hv.
    by rewrite construct_lookup, Hs in Hv.
  - unfold validate in E. destruct (missing _ _); [done|]. injection E as <-. by eexists.
Qed.
End Program.

(** ** The server *)

(** The types the server's parts post. *)
Inductive ServerKind :=
| KServerOrder | KServerOrderStatus | KTickerPrice | KInternalOrderEvent | KInternalOrderStatus
| KServerLoginRequest | KServerLoginResponse | KServerTokenBindRequest
| KChannelStatusEvent | KConnectionStatusEvent | KComponentReady | KInternalError.

#[export] Instance ServerKind_eq_dec : EqDecision ServerKind.
Proof. solve_decision. Defined.

Definition ServerKinds : list ServerKind :=
  [KServerOrder; KServerOrderStatus; KTickerPrice; KInternalOrderEvent; KInternalOrderStatus;
   KServerLoginRequest; KServerLoginResponse; KServerTokenBindRequest; KChannelStatusEvent; KConnectionStatusEvent;
   KComponentReady; KInternalError].

#[export] Program Instance ServerKind_finite : finite.Finite ServerKind := {| finite.enum := ServerKinds |}.
Next Obligation. apply (bool_decide_unpack _). by vm_compute. Qed.
Next Obligation. intros []; by apply (bool_decide_unpack _). Qed.

Definition ServerMessageBus : list ServerKind :=
  [KServerOrder; KServerOrderStatus; KTickerPrice; KInternalOrderEvent; KInternalOrderStatus].

Definition ServerUpstreamBus : list ServerKind :=
  [KServerOrder; KServerLoginRequest; KChannelStatusEvent; KConnectionStatusEvent].

Definition ServerDownstreamBus : list ServerKind :=
  [KServerOrderStatus; KServerTokenBindRequest; KChannelStatusEvent; KConnectionStatusEvent].

Definition ServerDatagramBus : list ServerKind := [KTickerPrice; KChannelStatusEvent; KConnectionStatusEvent].

(** The objects that subscribe. *)
Inductive ServerPart := SessionManager | Authenticator | Coordinator | GatewayRunner | OrderGateway | ServerControl.

#[export] Instance ServerPart_eq_dec : EqDecision ServerPart.
Proof. solve_decision. Defined.

(** The session manager of the build: over shared memory or over the
    network. *)
Definition SessionManager_subscriptions (shm : bool) : list (ServerKind * ServerPart) :=
  if shm then [(KServerOrderStatus, SessionManager); (KChannelStatusEvent, SessionManager)]
  else [(KServerOrderStatus, SessionManager); (KServerLoginResponse, SessionManager);
        (KChannelStatusEvent, SessionManager); (KServerTokenBindRequest, SessionManager)].

(** The gateway's worker is fed from the bus ([LfqRunner] subscribes in its
    constructor), then the gateway itself. *)
Definition OrderGateway_subscriptions : list (ServerKind * ServerPart) :=
  [(KInternalOrderStatus, GatewayRunner); (KServerOrder, OrderGateway)].

(** The members of [ControlCenter] in their order, then its own body. *)
Definition server_subscriptions (shm : bool) : list (ServerKind * ServerPart) :=
  SessionManager_subscriptions shm ++ [(KServerLoginRequest, Authenticator)] ++
  [(KInternalOrderEvent, Coordinator)] ++ OrderGateway_subscriptions ++
  [(KComponentReady, ServerControl); (KTickerPrice, ServerControl); (KInternalError, ServerControl)].

(** ** The client *)

Inductive ClientKind :=
| KOrder | KOrderStatus | KPrice | KTelemetryMsg | KLoginResponse | KClientChannelStatus | KClientConnectionStatus
| KClientReady | KServerConnectionState | KClientError.

#[export] Instance ClientKind_eq_dec : EqDecision ClientKind.
Proof. solve_decision. Defined.

#[export] Program Instance ClientKind_finite : finite.Finite ClientKind := {| finite.enum :=
  [KOrder; KOrderStatus; KPrice; KTelemetryMsg; KLoginResponse; KClientChannelStatus; KClientConnectionStatus;
   KClientReady; KServerConnectionState; KClientError] |}.
Next Obligation. apply (bool_decide_unpack _). by vm_compute. Qed.
Next Obligation. intros []; by apply (bool_decide_unpack _). Qed.

Definition ClientMessageBus : list ClientKind := [KOrder; KOrderStatus; KPrice; KTelemetryMsg].

Definition ClientUpstreamBus : list ClientKind := [KOrder; KLoginResponse; KClientChannelStatus; KClientConnectionStatus].
Definition ClientDownstreamBus : list ClientKind :=
  [KOrderStatus; KLoginResponse; KClientChannelStatus; KClientConnectionStatus].
Definition ClientDatagramBus : list ClientKind := [KPrice; KClientChannelStatus; KClientConnectionStatus].

Inductive ClientPart := ConnectionManager | TradeEngine | ClientControl | TelemetryAdapter.

#[export] Instance ClientPart_eq_dec : EqDecision ClientPart.
Proof. solve_decision. Defined.

Definition ConnectionManager_subscriptions (shm : bool) : list (ClientKind * ClientPart) :=
  if shm then [(KOrder, ConnectionManager); (KClientConnectionStatus, ConnectionManager)]
  else [(KOrder, ConnectionManager); (KLoginResponse, ConnectionManager); (KClientConnectionStatus, ConnectionManager)].

(** [TelemetryAdapter::start] of the producer, or of the dummy adapter of
    the [CICD] build. *)
Definition ClientTelemetry_subscriptions (cicd : bool) : list (ClientKind * ClientPart) :=
  if cicd then [] else [(KTelemetryMsg, TelemetryAdapter)].

(** [ControlCenter] starts the telemetry before the bus. *)
Definition client_subscriptions (shm cicd : bool) : list (ClientKind * ClientPart) :=
  ConnectionManager_subscriptions shm ++ [(KOrderStatus, TradeEngine); (KPrice, TradeEngine)] ++
  [(KClientReady, ClientControl); (KServerConnectionState, ClientControl); (KClientError, ClientControl)] ++
  ClientTelemetry_subscriptions cicd.

(** ** The monitor *)

Inductive MonitorKind := KMonitorTelemetry | KMonitorReady.

#[export] Instance MonitorKind_eq_dec : EqDecision MonitorKind.
Proof. solve_decision. Defined.

#[export] Program Instance MonitorKind_finite : finite.Finite MonitorKind := {| finite.enum := [KMonitorTelemetry; KMonitorReady] |}.
Next Obligation. apply (bool_decide_unpack _). by vm_compute. Qed.
Next Obligation. intros []; by apply (bool_decide_unpack _). Qed.

Definition MonitorBus : list MonitorKind := [KMonitorTelemetry].

Inductive MonitorPart := LatencyTracker | MonitorControl.

#[export] Instance MonitorPart_eq_dec : EqDecision MonitorPart.
Proof. solve_decision. Defined.

Definition monitor_subscriptions : list (MonitorKind * MonitorPart) :=
  [(KMonitorTelemetry, LatencyTracker); (KMonitorReady, MonitorControl)].

(** ** What the wiring promises *)

(** Who is to handle what; system events are not asked for here. *)
Definition server_owner (k : ServerKind) : ServerPart :=
  match k with
  | KServerOrder => OrderGateway
  | KServerOrderStatus => SessionManager
  | KInternalOrderEvent => Coordinator
  | KInternalOrderStatus => GatewayRunner
  | _ => ServerControl
  end.
Definition client_owner (k : ClientKind) : ClientPart :=
  match k with KOrder => ConnectionManager | KTelemetryMsg => TelemetryAdapter | _ => TradeEngine end.
Definition monitor_owner (k : MonitorKind) : MonitorPart :=
  match k with KMonitorTelemetry => LatencyTracker | KMonitorReady => MonitorControl end.

Section Wired.
Context {SEvent CEvent MEvent : Type} (skind : SEvent -> ServerKind) (ckind : CEvent -> ClientKind) (mkind : MEvent -> MonitorKind).
Context (sname : ServerKind -> string) (cname : ClientKind -> string) (mname : MonitorKind -> string).
Context {World : Type} (sbody : ServerPart -> ServerKind -> SEvent -> World -> res World)
  (cbody : ClientPart -> ClientKind -> CEvent -> World -> res World) (mbody : MonitorPart -> MonitorKind -> MEvent -> World -> res World).
Context {Sys : Type} (spost : Sys -> SEvent -> Sys) (cpost : Sys -> CEvent -> Sys) (mpost : Sys -> MEvent -> Sys).
Context (sys_run : Sys -> res Sys) (ssub : Sys -> ServerKind -> (SEvent -> World -> res World) -> Sys)
  (csub : Sys -> ClientKind -> (CEvent -> World -> res World) -> Sys)
  (msub : Sys -> MonitorKind -> (MEvent -> World -> res World) -> Sys).

(** In the server and the client, over shared memory and over the network,
    and in the monitor, the validation at start passes and each posted market
    event runs, directly, the [post] of the component that is to handle it. *)
Theorem programs_route_every_event :
  (forall shm, routes_to skind sname sbody spost sys_run ssub server_owner ServerMessageBus (server_subscriptions shm)) /\
  (forall shm, routes_to ckind cname cbody cpost sys_run csub client_owner ClientMessageBus (client_subscriptions shm false)) /\
  routes_to mkind mname mbody mpost sys_run msub monitor_owner MonitorBus monitor_subscriptions.
Proof.
  split_and!; [intros []|intros []|]; apply subscribed_routes; by apply (bool_decide_unpack _).
Qed.

(** The [CICD] build of the client has no subscriber for the telemetry it
    posts: its bus never runs. *)
Theorem cicd_client_fails_validation shm s : exists msg,
  hub_run ClientMessageBus cname sys_run (construct cbody csub ClientMessageBus (client_subscriptions shm true) s) = Err (Throw msg).
Proof. apply (unsubscribed_fails _ _ _ _ _ _ _ KTelemetryMsg); destruct shm; (apply (bool_decide_unpack _); by vm_compute) || done. Qed.

(** What comes in on one channel does not reach the parts another channel
    serves: a status on the client's upstream channel is dropped. *)
Lemma client_upstream_drops_statuses (bpost : unit -> CEvent -> World -> res World) e w : ckind e = KOrderStatus ->
  restrictor_post ckind ClientUpstreamBus bpost tt e w = Ok w.
Proof. intros E. unfold restrictor_post, isAllowed. by rewrite E. Qed.
End Wired.
