(* ===== verification/Config.v ===== *)
(** * Configurations

    Models [utils::split] (common/src/utils/parse_utils.hpp), [Config]
    (common/src/config/config.hpp) and the constructors of [ServerConfig],
    [ClientConfig] and [MonitorConfig] (server/src/config, client/src/config,
    monitor/src/config), with the check the two programs' [main] makes.  The
    property tree of Boost is a parameter: the text at a path, and its
    conversions to unsigned integers, of which only the range is used. *)

From Stdlib Require Import Ascii.
From stdpp Require Import list strings.
From S2P Require Import Prelude.

(** ** [std::stoi] and [split] *)

Definition is_space (c : ascii) : bool :=
  let n := Z.of_nat (nat_of_ascii c) in ((9 <=? n) && (n <=? 13)) || (n =? 32).

Definition digit (c : ascii) : option Z :=
  let n := Z.of_nat (nat_of_ascii c) in if (48 <=? n) && (n <=? 57) then Some (n - 48) else None.

(** The longest prefix of digits; [None] when there is none. *)
Fixpoint digits (acc : option Z) (l : list ascii) : option Z :=
  match l with
  | [] => acc
  | c :: l => match digit c with Some d => digits (Some (default 0 acc * 10 + d)) l | None => acc end
  end.

Fixpoint skip_space (l : list ascii) : list ascii :=
  match l with c :: l' => if is_space c then skip_space l' else l | [] => [] end.

Definition minus : ascii := "-"%char.
Definition plus : ascii := "+"%char.

Definition stoi (l : list ascii) : res Z :=
  let l := skip_space l in
  let '(neg, l) := match l with
                   | c :: l' => if bool_decide (c = minus) then (true, l') else if bool_decide (c = plus) then (false, l') else (false, l)
                   | [] => (false, l)
                   end in
  match digits None l with
  | None => Err (Throw "stoi")
  | Some n =>
      let n := if neg : bool then - n else n in
      if (- 2 ^ 31 <=? n) && (n <? 2 ^ 31) then Ok n else Err (Throw "stoi")
  end.

Definition comma : ascii := ","%char.

(** The tokens [std::getline] reads up to each comma; no token follows a
    comma at the end. *)
Fixpoint tokens (cur : list ascii) (l : list ascii) : list (list ascii) :=
  match l with
  | [] => match cur with [] => [] | _ => [cur] end
  | c :: l => if bool_decide (c = comma) then cur :: tokens [] l else tokens (cur ++ [c]) l
  end.

Fixpoint convert (ts : list (list ascii)) : res (list Z) :=
  match ts with
  | [] => Ok []
  | t :: ts => let! n := stoi t in let! ns := convert ts in Ok (u16 n :: ns)
  end.

(** [split<CoreId>]: the number is cut to the 16 bits of a core id. *)
Definition split (input : string) : res (list Z) := convert (tokens [] (String.list_ascii_of_string input)).

(** ** The property tree *)

Class Ptree (Tree : Type) := {
  text : Tree -> string -> option string;
  to_unsigned : Z -> string -> option Z
}.

Class PtreeOk (Tree : Type) `{Ptree Tree} : Prop := {
  to_unsigned_range bits s n : to_unsigned bits s = Some n -> 0 <= n < 2 ^ bits
}.

Section Config.
Context {Tree : Type} `{PT : Ptree Tree}.

Definition get_string (t : Tree) (name : string) : res string :=
  match text t name with Some s => Ok s | None => Err (Throw name) end.

Definition get_unsigned (bits : Z) (t : Tree) (name : string) : res Z :=
  match text t name with
  | None => Err (Throw name)
  | Some s => match to_unsigned bits s with Some n => Ok n | None => Err (Throw name) end
  end.

Definition get_optional_unsigned (bits : Z) (t : Tree) (name : string) : option Z := text t name ≫= to_unsigned bits.

(** [Config::Config]: the tree of an existing file. *)
Definition Config (file : option Tree) (fileName : string) : res Tree :=
  match file with Some t => Ok t | None => Err (Throw ("Config file not found: " +:+ fileName)%string) end.

Definition invalid_cores {A} : res A := Err (Throw "Invalid cores configuration").

(** [guard b k] throws when [b]. *)
Definition guard {A} (b : bool) (k : res A) : res A := if b then invalid_cores else k.

(** [o.has_value() && o == n] and [find(l, *o) != l.end()]. *)
Definition is_core (o : option Z) (n : Z) : bool := bool_decide (o = Some n).
Definition among (o : option Z) (l : list Z) : bool := match o with Some n => bool_decide (n ∈ l) | None => false end.

(** *** The server's *)

Record ServerConfig := mkServerConfig {
  s_url : string; s_portTcpUp : Z; s_portTcpDown : Z; s_portUdp : Z;
  s_coreSystem : option Z; s_coreNetwork : option Z; s_coreGateway : option Z; s_coresApp : list Z;
  s_priceFeedRate : Z; s_monitorRate : Z; s_telemetryRate : Z;
  s_logOutput : string
}.

Definition server_cores (data : Tree) : res (option Z * option Z * option Z * list Z) :=
  let coreSystem := get_optional_unsigned 16 data "cpu.core_system" in
  guard (is_core coreSystem 0)
    (let coreNetwork := get_optional_unsigned 16 data "cpu.core_network" in
     guard (match coreNetwork with Some core => is_core coreSystem core || (core =? 0) | None => false end)
       (let coreGateway := get_optional_unsigned 16 data "cpu.core_gateway" in
        guard (match coreGateway with
               | Some core => is_core coreSystem core || is_core coreNetwork core || (core =? 0)
               | None => false
               end)
          (match text data "cpu.cores_app" with
           | None => Ok (coreSystem, coreNetwork, coreGateway, [])
           | Some cores =>
               let! coresApp := split cores in
               guard (among coreSystem coresApp || among coreNetwork coresApp)
                 (Ok (coreSystem, coreNetwork, coreGateway, coresApp))
           end))).

(** Ports are read as 64-bit numbers and cut to 16 bits. *)
Definition read_server_config (data : Tree) : res ServerConfig :=
  let! url := get_string data "network.url" in
  let! up := get_unsigned 64 data "network.port_tcp_up" in
  let! down := get_unsigned 64 data "network.port_tcp_down" in
  let! udp := get_unsigned 64 data "network.port_udp" in
  let! (sys, net, gw, app) := server_cores data in
  let! feed := get_unsigned 32 data "rates.price_feed_rate_us" in
  let! mon := get_unsigned 32 data "rates.monitor_rate_ms" in
  let! tel := get_unsigned 32 data "rates.telemetry_ms" in
  let! log := get_string data "log.output" in
  Ok (mkServerConfig url (u16 up) (u16 down) (u16 udp) sys net gw app feed mon tel log).

(** [main] over shared memory *)
Definition main_check (shm : bool) (coresApp : list Z) : res unit :=
  if shm && (1 <? length coresApp)%nat then Err (Throw "Multi-worker currently not supported for shm") else Ok tt.

(** *** The client's *)

Record ClientConfig := mkClientConfig {
  c_url : string; c_portTcpUp : Z; c_portTcpDown : Z; c_portUdp : Z;
  c_coreSystem : option Z; c_coreNetwork : option Z; c_coresApp : list Z;
  c_tradeRate : Z; c_monitorRate : Z; c_telemetryTate : Z;
  c_name : string; c_password : string; c_logOutput : string
}.

(** Cores are read as 64-bit numbers, checked as such, and cut to 16 bits
    where they are stored. *)
Definition client_cores (data : Tree) : res (option Z * option Z * list Z) :=
  let core := get_optional_unsigned 64 data "cpu.core_system" in
  let coreSystem := u16 <$> core in
  guard (is_core core 0)
    (let core := get_optional_unsigned 64 data "cpu.core_network" in
     let coreNetwork := u16 <$> core in
     guard (match core with Some core => is_core coreSystem core || (core =? 0) | None => false end)
       (match text data "cpu.cores_app" with
        | None => Ok (coreSystem, coreNetwork, [])
        | Some cores =>
            let! coresApp := split cores in
            guard (among coreSystem coresApp || among coreNetwork coresApp) (Ok (coreSystem, coreNetwork, coresApp))
        end)).

Definition read_client_config (data : Tree) : res ClientConfig :=
  let! url := get_string data "network.url" in
  let! up := get_unsigned 64 data "network.port_tcp_up" in
  let! down := get_unsigned 64 data "network.port_tcp_down" in
  let! udp := get_unsigned 64 data "network.port_udp" in
  let! (sys, net, app) := client_cores data in
  let! rate := get_unsigned 64 data "rates.trade_rate_us" in
  let! mon := get_unsigned 64 data "rates.monitor_rate_ms" in
  let! tel := get_unsigned 64 data "rates.telemetry_ms" in
  let! name := get_string data "credentials.name" in
  let! password := get_string data "credentials.password" in
  let! log := get_string data "log.output" in
  Ok (mkClientConfig url (u16 up) (u16 down) (u16 udp) sys net app (u32 rate) (u32 mon) (u32 tel) name password log).

(** *** The monitor's *)

Record MonitorConfig := mkMonitorConfig { m_coreSystem : option Z; m_logOutput : string }.

Definition read_monitor_config (data : Tree) : res MonitorConfig :=
  let coreSystem := u16 <$> get_optional_unsigned 64 data "cpu.core_system" in
  let! log := get_string data "log.output" in Ok (mkMonitorConfig coreSystem log).

(** ** Which cores a configuration that is accepted gives *)

Lemma guard_Ok {A} b (k : res A) x : guard b k = Ok x -> b = false /\ k = Ok x.
Proof. unfold guard. destruct b; [done|by split]. Qed.

Lemma among_false o l n : among o l = false -> o = Some n -> n ∉ l.
Proof. intros H ->. by apply bool_decide_eq_false in H. Qed.

Lemma among_nil o : among o [] = false.
Proof. destruct o; [|done]. apply bool_decide_false, not_elem_of_nil. Qed.

(** A server configuration that is accepted pins the system, network
    and gateway threads to existing cores other than core 0, no two of them
    to the same, and gives neither the system's nor the network's core to a
    worker. *)
Theorem server_cores_apart `{!PtreeOk Tree} data sys net gw app : server_cores data = Ok (sys, net, gw, app) ->
  (forall n, sys = Some n \/ net = Some n \/ gw = Some n -> 0 < n < 2 ^ 16) /\
  (forall n, sys = Some n -> net <> Some n /\ gw <> Some n /\ n ∉ app) /\
  (forall n, net = Some n -> gw <> Some n /\ n ∉ app).
Proof.
  unfold server_cores. set (osys := get_optional_unsigned 16 data "cpu.core_system").
  set (onet := get_optional_unsigned 16 data "cpu.core_network"). set (ogw := get_optional_unsigned 16 data "cpu.core_gateway").
  assert (Hr : forall name n, get_optional_unsigned 16 data name = Some n -> 0 <= n < 2 ^ 16).
  { intros name n (s & _ & Hs)%bind_Some. by eapply to_unsigned_range. }
  intros [G1 H]%guard_Ok. apply guard_Ok in H as [G2 H]. apply guard_Ok in H as [G3 H].
  assert (Happ : (sys, net, gw) = (osys, onet, ogw) /\ (among osys app || among onet app) = false).
  { destruct (text data "cpu.cores_app") as [s|]; [|by injection H as <- <- <- <-; rewrite !among_nil].
    destruct (split s) as [l|]; [|done]. apply guard_Ok in H as [G4 H]. injection H as <- <- <- <-. done. }
  destruct Happ as [[= -> -> ->] [G4 G5]%orb_false_iff]. clear H. unfold is_core in *.
  apply bool_decide_eq_false in G1.
  split_and!.
  - intros n Hn. assert (Hn0 : n <> 0).
    { intros ->. destruct Hn as [->|[E|E]]; [done| |]; rewrite E in *; cbn in *; rewrite orb_true_r in *; done. }
    assert (0 <= n < 2 ^ 16) by (destruct Hn as [E|[E|E]]; by eapply Hr). lia.
  - intros n E. split_and!; [| |exact (among_false _ _ _ G4 E)].
    + intros E'. rewrite E' in G2. apply orb_false_iff in G2 as [G2 _]. by apply bool_decide_eq_false in G2.
    + intros E'. rewrite E' in G3. rewrite !orb_false_iff in G3. destruct G3 as [[G3 _] _]. by apply bool_decide_eq_false in G3.
  - intros n E. split; [|exact (among_false _ _ _ G5 E)].
    intros E'. rewrite E' in G3. rewrite !orb_false_iff in G3. destruct G3 as [[_ G3] _]. by apply bool_decide_eq_false in G3.
Qed.

(** The client's check has the same effect only for cores below 2^16: see
    [client_core_wraps]. *)
Lemma client_cores_apart `{!PtreeOk Tree} data sys net app : client_cores data = Ok (sys, net, app) ->
  (forall name n, get_optional_unsigned 64 data name = Some n -> n < 2 ^ 16) ->
  (forall n, sys = Some n \/ net = Some n -> 0 < n < 2 ^ 16) /\ (forall n, sys = Some n -> net <> Some n).
Proof.
  unfold client_cores. set (osys := get_optional_unsigned 64 data "cpu.core_system").
  set (onet := get_optional_unsigned 64 data "cpu.core_network"). intros H Hsmall.
  assert (Hr : forall name n, get_optional_unsigned 64 data name = Some n -> 0 <= n < 2 ^ 16 /\ u16 n = n).
  { intros name n E. assert (0 <= n < 2 ^ 16) as Hn by (split; [|by eapply Hsmall]; revert E; intros (s & _ & Hs)%bind_Some;
      apply to_unsigned_range in Hs; lia). split; [done|]. unfold u16. by rewrite Z.mod_small. }
  assert (Es : u16 <$> osys = osys) by (destruct osys as [n|] eqn:E; cbn; [by rewrite (proj2 (Hr _ _ E))|done]).
  assert (En : u16 <$> onet = onet) by (destruct onet as [n|] eqn:E; cbn; [by rewrite (proj2 (Hr _ _ E))|done]).
  rewrite Es, En in H. apply guard_Ok in H as [G1 H]. apply guard_Ok in H as [G2 H].
  assert (Happ : (sys, net) = (osys, onet)).
  { destruct (text data "cpu.cores_app") as [s|]; [|by injection H as <- <- <-].
    destruct (split s) as [l|]; [|done]. apply guard_Ok in H as [G4 H]. by injection H as <- <- <-. }
  injection Happ as -> ->. unfold is_core in *. apply bool_decide_eq_false in G1. split.
  - intros n Hn. assert (Hn0 : n <> 0).
    { intros ->. destruct Hn as [->|E]; [done|]. rewrite E in *; cbn in *; rewrite orb_true_r in *; done. }
    assert (0 <= n < 2 ^ 16) by (destruct Hn as [E|E]; by eapply Hr). lia.
  - intros n E E'. rewrite E' in G2. apply orb_false_iff in G2 as [G2 _]. by apply bool_decide_eq_false in G2.
Qed.
End Config.

(** ** Lists of cores *)

Lemma tokens_app cur t l : comma ∉ t -> tokens cur (t ++ l) = tokens (cur ++ t) l.
Proof.
  revert cur. induction t as [|c t IH]; intros cur Hc; cbn [tokens app]; [by rewrite app_nil_r|].
  apply not_elem_of_cons in Hc as [Hne Hc]. rewrite bool_decide_false by done. rewrite IH by done. by rewrite <- (assoc_L app).
Qed.

Fixpoint join (ts : list (list ascii)) : list ascii :=
  match ts with [] => [] | [t] => t | t :: ts => t ++ comma :: join ts end.

Lemma tokens_join ts : Forall (fun t => t <> [] /\ comma ∉ t) ts -> tokens [] (join ts) = ts.
Proof.
  induction 1 as [|t ts [Hne Hc] Hts IH]; [done|]. destruct ts as [|t' ts].
  - cbn [join]. rewrite <- (app_nil_r t) at 1. rewrite tokens_app by done. by destruct t.
  - change (join (t :: t' :: ts)) with (t ++ comma :: join (t' :: ts)). rewrite tokens_app by done.
    cbn [tokens app]. by rewrite IH.
Qed.

(** The value of a string of digits. *)
Definition value (t : list ascii) : Z := foldl (fun n c => n * 10 + default 0 (digit c)) 0 t.

Definition is_number (t : list ascii) : Prop := t <> [] /\ Forall (fun c => is_Some (digit c)) t /\ value t < 2 ^ 31.

Lemma digits_value acc t : Forall (fun c => is_Some (digit c)) t -> (acc <> None \/ t <> []) ->
  digits acc t = Some (foldl (fun n c => n * 10 + default 0 (digit c)) (default 0 acc) t).
Proof.
  revert acc. induction t as [|c t IH]; intros acc Ht Hacc; cbn [digits foldl].
  { destruct acc; [done|]. by destruct Hacc. }
  apply Forall_cons in Ht as [[d Hd] Ht]. rewrite Hd. cbn [default id from_option]. by rewrite IH by auto.
Qed.

Lemma digit_code c : is_Some (digit c) -> 48 <= Z.of_nat (nat_of_ascii c) <= 57.
Proof.
  unfold digit. destruct ((48 <=? _) && _) eqn:E; [|by intros []]. intros _. apply andb_prop in E as [?%Z.leb_le ?%Z.leb_le]. lia.
Qed.

Lemma value_nonneg t : 0 <= value t.
Proof.
  unfold value. assert (H : forall n, 0 <= n -> 0 <= foldl (fun n c => n * 10 + default 0 (digit c)) n t); [|by apply H].
  induction t as [|c t IH]; intros n Hn; cbn; [done|]. apply IH. destruct (digit c) as [d|] eqn:E; cbn; [|lia].
  unfold digit in E. destruct ((48 <=? _) && _) eqn:E'; [|done]. injection E as <-. apply andb_prop in E' as [?%Z.leb_le _]. lia.
Qed.

Lemma stoi_number t : is_number t -> stoi t = Ok (value t).
Proof.
  intros (Hne & Hd & Hv). destruct t as [|c t]; [done|]. pose proof (Forall_inv Hd) as Hc%digit_code.
  assert (Hs : skip_space (c :: t) = c :: t).
  { cbn. unfold is_space. replace ((9 <=? _) && _ || _) with false; [done|].
    symmetry. rewrite orb_false_iff, andb_false_iff, !Z.leb_gt, Z.eqb_neq. lia. }
  unfold stoi. rewrite Hs. rewrite !bool_decide_false by (intros ->; destruct Hc as [Hc _]; by apply Hc).
  rewrite digits_value by auto. cbn [default id from_option]. change (foldl _ 0 (c :: t)) with (value (c :: t)).
  pose proof (value_nonneg (c :: t)). rewrite (proj2 (Z.leb_le _ _)) by lia. by rewrite (proj2 (Z.ltb_lt _ _)) by lia.
Qed.

(** A list of decimal numbers joined by commas is read back, each cut to
    the 16 bits of a core id. *)
Theorem split_join ts : Forall is_number ts ->
  split (String.string_of_list_ascii (join ts)) = Ok (map (fun t => u16 (value t)) ts).
Proof.
  intros Hts. unfold split. rewrite String.list_ascii_of_string_of_list_ascii, tokens_join.
  - induction Hts as [|t ts Ht _ IH]; [done|]. cbn [convert map]. by rewrite (stoi_number t Ht), IH.
  - eapply Forall_impl; [exact Hts|]. intros t (Hne & Hd & _). split; [done|]. intros Hc.
    rewrite Forall_forall in Hd. by destruct (Hd _ Hc).
Qed.

(** ** Examples *)

Definition decimal (bits : Z) (s : string) : option Z :=
  let l := String.list_ascii_of_string s in
  if bool_decide (l <> []) && forallb (fun c => bool_decide (is_Some (digit c))) l && (value l <? 2 ^ bits) then Some (value l) else None.

#[local] Instance ini : Ptree (list (string * string)) := {|
  text t name := snd <$> find (fun e => bool_decide (e.1 = name)) t;
  to_unsigned := decimal
|}.

#[local] Instance ini_ok : PtreeOk (list (string * string)).
Proof.
  split. intros bits s n. cbn. unfold decimal. destruct (_ && (_ <? _)) eqn:E; [|done]. intros [= <-].
  apply andb_prop in E as [_ E%Z.ltb_lt]. pose proof (value_nonneg (String.list_ascii_of_string s)). lia.
Qed.

Definition cores_ini (sys net gw app : string) : list (string * string) :=
  [("cpu.core_system", sys); ("cpu.core_network", net); ("cpu.core_gateway", gw); ("cpu.cores_app", app)]%string.

Lemma server_cores_apart_witness : exists app, server_cores (cores_ini "2" "3" "4" "5,6") = Ok (Some 2, Some 3, Some 4, app) /\ 2 ∉ app.
Proof.
  exists [5; 6]. split; [reflexivity|].
  exact (proj2 (proj2 (proj1 (proj2 (server_cores_apart (cores_ini "2" "3" "4" "5,6") (Some 2) (Some 3) (Some 4) [5; 6] eq_refl)) 2 eq_refl))).
Defined.

Lemma split_join_witness : split "5,6" = Ok [5; 6].
Proof.
  refine (split_join [["5"%char]; ["6"%char]] _).
  repeat constructor; by try eexists.
Defined.

(** The gateway's core may also be a worker's; the client stores 65536 as
    core 0, which its check is to refuse. *)
Lemma gateway_core_shared : server_cores (cores_ini "2" "3" "4" "4,5") = Ok (Some 2, Some 3, Some 4, [4; 5]).
Proof. reflexivity. Qed.

Lemma client_core_wraps : client_cores (cores_ini "65536" "65539" "" "3x,1") = Err (Throw "Invalid cores configuration") /\
  client_cores (cores_ini "65536" "65539" "" "1,2") = Ok (Some 0, Some 3, [1; 2]).
Proof. split; reflexivity. Qed.
