(* ===== verification/FlatOrderBook.v ===== *)
(** * The flat order book

    Models [FlatOrderBook] (server/src/execution/orderbook/
    flat_order_book.hpp), the alternative to the price-level book that
    traits.hpp leaves out: one heap of orders per side.  [std::push_heap] and
    [std::pop_heap] are a class with the behaviour the standard gives them;
    nothing else is assumed of the order of equal prices. *)

From stdpp Require Import list sorting.
From S2P Require Import Prelude Types SlotId.

(** ** Heaps *)

Section Heap.
Context {A : Type}.

(** [std::is_heap]: no element is ahead of its parent. *)
Definition is_heap (comp : A -> A -> bool) (l : list A) : Prop :=
  forall i x y, (0 < i)%nat -> l !! i = Some x -> l !! ((i - 1) / 2)%nat = Some y -> comp y x = false.

(** A comparison by a number, as the two of the program. *)
Definition by_key (comp : A -> A -> bool) (key : A -> Z) : Prop := forall x y, comp x y = (key x <? key y).

Lemma heap_front comp key x l : by_key comp key -> is_heap comp (x :: l) -> Forall (fun y => key y <= key x) (x :: l).
Proof.
  intros Hk Hh. apply Forall_lookup. intros i. induction i as [i IH] using lt_wf_ind. intros y Hy.
  destruct i as [|i]; [by injection Hy as ->|].
  assert (Hi : ((S i - 1) / 2 < S i)%nat) by (apply Nat.Div0.div_lt_upper_bound; lia).
  destruct (lookup_lt_is_Some_2 (x :: l) ((S i - 1) / 2)) as [p Hp]; [apply lookup_lt_Some in Hy; lia|].
  specialize (IH _ Hi p Hp). specialize (Hh (S i) y p ltac:(lia) Hy Hp). rewrite Hk, Z.ltb_ge in Hh. lia.
Qed.

(** The front of a heap may be replaced by an element with the same key. *)
Lemma heap_set_front comp key x x' l : by_key comp key -> key x' = key x -> is_heap comp (x :: l) -> is_heap comp (x' :: l).
Proof.
  intros Hk Hx Hh [|i] y z Hi Hy Hz; [lia|]. rewrite Hk. cbn [lookup list_lookup] in Hy.
  destruct ((S i - 1) / 2)%nat as [|j] eqn:Ej.
  - injection Hz as <-. specialize (Hh (S i) y x ltac:(lia) Hy). rewrite Ej, Hk in Hh. rewrite Hx. by apply Hh.
  - specialize (Hh (S i) y z ltac:(lia) Hy). rewrite Ej, Hk in Hh. by apply Hh.
Qed.

Lemma heap_nil comp : is_heap comp [].
Proof. intros i x y _ H. by rewrite lookup_nil in H. Qed.
End Heap.

(** [push_heap] takes the range with the new element last; [pop_heap] moves
    the front to the end. *)
Class HeapOps (A : Type) := {
  push_heap : (A -> A -> bool) -> list A -> list A;
  pop_heap : (A -> A -> bool) -> list A -> list A
}.

Class HeapOk (A : Type) `{HeapOps A} : Prop := {
  push_heap_ok comp key l x : by_key comp key -> is_heap comp l ->
    push_heap comp (l ++ [x]) ≡ₚ l ++ [x] /\ is_heap comp (push_heap comp (l ++ [x]));
  pop_heap_ok comp key x l : by_key comp key -> is_heap comp (x :: l) ->
    exists l', pop_heap comp (x :: l) = l' ++ [x] /\ l' ≡ₚ l /\ is_heap comp l'
}.

Module FlatOrderBook.
Section Book.
Context `{B : Build} `{HO : !HeapOps InternalOrder}.

Definition compareBids (left right : InternalOrder) : bool := io_price left <? io_price right.
Definition compareAsks (left right : InternalOrder) : bool := io_price right <? io_price left.

(** The first [bidCount_] and [askCount_] elements of the arrays. *)
Record State := mkState { bids_ : list InternalOrder; asks_ : list InternalOrder }.

Definition init : State := mkState [] [].

Definition partialFill (o : InternalOrder) (fill : Z) : InternalOrder :=
  mkInternalOrder (io_id o) (io_bookOId o) (if io_quantity o <? fill then 0 else io_quantity o - fill) (io_price o).

(** The status of order [best] after a match, when it is the added one. *)
Definition status (oid : Z) (best : InternalOrder) (matchQty matchPrice : Z) : list InternalOrderStatus :=
  if oid =? io_id best
  then [mkInternalOrderStatus (io_id best) SlotId.invalid matchQty matchPrice (if io_quantity best =? 0 then Full else Partial)]
  else [].

(** [pop_heap] and [count--] when the front is filled. *)
Definition pop_filled (comp : InternalOrder -> InternalOrder -> bool) (l : list InternalOrder) : list InternalOrder :=
  match l with
  | best :: _ => if io_quantity best =? 0 then removelast (pop_heap comp l) else l
  | [] => []
  end.

Fixpoint match_ (fuel : nat) (s : State) (oid : Z) : res (State * list InternalOrderStatus) :=
  match bids_ s, asks_ s with
  | bestBid :: bids, bestAsk :: asks =>
      if io_price bestBid <? io_price bestAsk then Ok (s, [])
      else
        match fuel with
        | O => Err OutOfFuel
        | S fuel =>
            let matchQty := Z.min (io_quantity bestBid) (io_quantity bestAsk) in
            let matchPrice := io_price bestAsk in
            let bestBid := partialFill bestBid matchQty in
            let bestAsk := partialFill bestAsk matchQty in
            let posts := status oid bestBid matchQty matchPrice ++ status oid bestAsk matchQty matchPrice in
            let! (s, posts') := match_ fuel (mkState (pop_filled compareBids (bestBid :: bids))
                                               (pop_filled compareAsks (bestAsk :: asks))) oid in
            Ok (s, posts ++ posts')
        end
  | _, _ => Ok (s, [])
  end.

(** Each match takes an order off a heap. *)
Definition add (s : State) (ioe : InternalOrderEvent) : res (State * list InternalOrderStatus * bool) :=
  let o := ioe_order ioe in
  let buy := bool_decide (ioe_action ioe = Buy) in
  let side := if buy then bids_ s else asks_ s in
  if MAX_BOOK_ORDERS <=? Z.of_nat (length side) then
    Ok (s, [mkInternalOrderStatus (io_id o) SlotId.invalid 0 0 Rejected], false)
  else
    let s := if buy then mkState (push_heap compareBids (bids_ s ++ [o])) (asks_ s)
             else mkState (bids_ s) (push_heap compareAsks (asks_ s ++ [o])) in
    let! (s, posts) := match_ (length (bids_ s) + length (asks_ s)) s (io_id o) in Ok (s, posts, true).

(** ** Correctness *)

Context `{HOk : !HeapOk InternalOrder}.

Definition quantity (l : list InternalOrder) : Z := sumZ (map io_quantity l).
Definition filled (posts : list InternalOrderStatus) : Z := sumZ (map ios_fillQty posts).

Definition crossed (b a : InternalOrder) : Prop := io_price a <= io_price b.

Definition sides_ok (s : State) : Prop :=
  is_heap compareBids (bids_ s) /\ is_heap compareAsks (asks_ s) /\
  Forall (fun o => 0 <= io_quantity o) (bids_ s) /\ Forall (fun o => 0 <= io_quantity o) (asks_ s).

(** Between two calls nothing can be matched. *)
Definition Inv (s : State) : Prop :=
  sides_ok s /\ forall b a, b ∈ bids_ s -> a ∈ asks_ s -> ~ crossed b a.

(** While order [oid] is matched it is one of any two that cross, and it is
    on one side only. *)
Definition matching (oid : Z) (s : State) : Prop :=
  sides_ok s /\
  (forall b a, b ∈ bids_ s -> a ∈ asks_ s -> crossed b a -> io_id b = oid \/ io_id a = oid) /\
  ((forall b, b ∈ bids_ s -> io_id b <> oid) \/ (forall a, a ∈ asks_ s -> io_id a <> oid)).

Lemma bids_key : by_key compareBids io_price.
Proof. done. Qed.

Lemma asks_key : by_key compareAsks (fun o => - io_price o).
Proof. intros x y. unfold compareAsks. apply Bool.eq_iff_eq_true. rewrite !Z.ltb_lt. lia. Qed.

Lemma filled_nil x : x = x + filled [].
Proof. unfold filled. cbn. lia. Qed.

Lemma filled_app a b : filled (a ++ b) = filled a + filled b.
Proof. unfold filled. by rewrite map_app, sumZ_app. Qed.

Lemma quantity_cons x l : quantity (x :: l) = io_quantity x + quantity l.
Proof. done. Qed.

Lemma quantity_perm a b : a ≡ₚ b -> quantity a = quantity b.
Proof. unfold quantity, sumZ. induction 1; cbn in *; lia. Qed.

(** What filling and popping does to a side. *)
Lemma pop_filled_ok comp key best l fill : by_key comp key -> (forall o f, key (partialFill o f) = key o) ->
  is_heap comp (best :: l) -> Forall (fun o => 0 <= io_quantity o) (best :: l) -> 0 <= fill <= io_quantity best ->
  let l' := pop_filled comp (partialFill best fill :: l) in
  is_heap comp l' /\ Forall (fun o => 0 <= io_quantity o) l' /\ quantity l' = quantity (best :: l) - fill /\
  (forall x, x ∈ l' -> x ∈ l \/ x = partialFill best fill) /\
  length l' = (if io_quantity best =? fill then length l else S (length l)).
Proof.
  intros Hk Hkey Hh Hq Hf. cbn zeta. apply Forall_cons in Hq as [Hb Hq].
  assert (Hh' : is_heap comp (partialFill best fill :: l)) by (eapply heap_set_front; [done|apply Hkey|done]).
  assert (Hv : io_quantity (partialFill best fill) = io_quantity best - fill).
  { cbn. destruct (Z.ltb_spec (io_quantity best) fill); lia. }
  unfold pop_filled. rewrite Hv.
  destruct (Z.eqb_spec (io_quantity best - fill) 0) as [E|E], (Z.eqb_spec (io_quantity best) fill); try lia.
  - destruct (pop_heap_ok comp key _ l Hk Hh') as (l' & -> & P & Hl'). rewrite removelast_last.
    split_and!; [done|by rewrite P|rewrite (quantity_perm _ _ P), quantity_cons; lia|intros x; rewrite P; auto|by rewrite P].
  - split_and!; [done|constructor; [rewrite Hv; lia|done]| |intros x [->|Hx]%elem_of_cons; auto|done].
    rewrite !quantity_cons, Hv. lia.
Qed.

Lemma flat_match_ok fuel s oid : matching oid s -> (length (bids_ s) + length (asks_ s) <= fuel)%nat ->
  exists s' posts, match_ fuel s oid = Ok (s', posts) /\ Inv s' /\
    quantity (bids_ s) = quantity (bids_ s') + filled posts /\ quantity (asks_ s) = quantity (asks_ s') + filled posts /\
    Forall (fun p => ios_id p = oid /\ 0 <= ios_fillQty p) posts.
Proof.
  revert s. induction fuel as [|fuel IH]; intros [bids asks] HM Hfuel; cbn [bids_ asks_] in *.
  { destruct bids, asks; cbn in Hfuel; try lia. eexists _, []. split; [done|]. destruct HM as [HS _].
    split_and!; [split; [done|]|apply filled_nil|apply filled_nil|constructor]. intros b a ?%elem_of_nil. done. }
  pose proof HM as ((Hhb & Hha & Hqb & Hqa) & Hcross & Hone). cbn [bids_ asks_] in *.
  destruct bids as [|b bids]; [eexists _, []; split; [by destruct asks|]; split_and!;
    [split; [apply HM|]; intros b a ?%elem_of_nil; done|apply filled_nil|apply filled_nil|constructor]|].
  destruct asks as [|a asks]; [eexists _, []; split; [done|]; split_and!;
    [split; [apply HM|]; intros ? ? _ ?%elem_of_nil; done|apply filled_nil|apply filled_nil|constructor]|].
  cbn [match_ bids_ asks_]. pose proof (heap_front _ _ _ _ bids_key Hhb) as Hmb. pose proof (heap_front _ _ _ _ asks_key Hha) as Hma.
  destruct (Z.ltb_spec (io_price b) (io_price a)) as [Hlt|Hge].
  { eexists _, []. split; [done|]. split_and!; [|apply filled_nil|apply filled_nil|constructor]. split; [apply HM|]. intros b' a' Hb' Ha' Hc.
    rewrite Forall_forall in Hmb, Hma. specialize (Hmb b' Hb'). specialize (Hma a' Ha'). unfold crossed in Hc. cbn in *. lia. }
  set (q := Z.min (io_quantity b) (io_quantity a)).
  pose proof (Forall_inv Hqb) as Hb0. pose proof (Forall_inv Hqa) as Ha0. cbn in Hb0, Ha0.
  assert (Hq : 0 <= q <= io_quantity b /\ 0 <= q <= io_quantity a) by lia.
  destruct (pop_filled_ok _ _ b bids q bids_key (fun _ _ => eq_refl) Hhb Hqb (proj1 Hq)) as (H1 & H2 & H3 & H4 & H5).
  destruct (pop_filled_ok _ _ a asks q asks_key (fun _ _ => eq_refl) Hha Hqa (proj2 Hq)) as (G1 & G2 & G3 & G4 & G5).
  set (bids' := pop_filled compareBids _) in *. set (asks' := pop_filled compareAsks _) in *. clearbody bids' asks'.
  assert (Hb' : forall x, x ∈ bids' -> exists y, y ∈ b :: bids /\ io_id x = io_id y /\ io_price x = io_price y).
  { intros x Hx. destruct (H4 x Hx) as [Hin| ->]; [exists x; split_and!; [by right|done..]|exists b; split_and!; [by left|done..]]. }
  assert (Ha' : forall x, x ∈ asks' -> exists y, y ∈ a :: asks /\ io_id x = io_id y /\ io_price x = io_price y).
  { intros x Hx. destruct (G4 x Hx) as [Hin| ->]; [exists x; split_and!; [by right|done..]|exists a; split_and!; [by left|done..]]. }
  destruct (IH (mkState bids' asks')) as (s' & posts & E & HI & Eb & Ea & Hp).
  - split; [by split_and!|]. cbn [bids_ asks_]. split.
    + intros x y (x' & Hx' & -> & Px)%Hb' (y' & Hy' & -> & Py)%Ha' Hc. apply Hcross; [done..|]. unfold crossed in *. lia.
    + destruct Hone as [Hn|Hn]; [left; intros x (x' & Hx' & -> & _)%Hb'; by apply Hn|right; intros x (x' & Hx' & -> & _)%Ha'; by apply Hn].
  - cbn [bids_ asks_]. rewrite H5, G5. cbn in Hfuel. destruct (Z.eqb_spec (io_quantity b) q), (Z.eqb_spec (io_quantity a) q); lia.
  - rewrite E. eexists _, _. split; [reflexivity|]. split; [done|]. cbn [bids_ asks_] in Eb, Ea.
    assert (Hst : filled (status oid (partialFill b q) q (io_price a) ++ status oid (partialFill a q) q (io_price a)) = q /\
      Forall (fun p => ios_id p = oid /\ 0 <= ios_fillQty p)
        (status oid (partialFill b q) q (io_price a) ++ status oid (partialFill a q) q (io_price a))).
    { unfold status. cbn [io_id partialFill].
      destruct (Z.eqb_spec oid (io_id b)) as [Eb'|Nb], (Z.eqb_spec oid (io_id a)) as [Ea'|Na].
      - exfalso. destruct Hone as [Hn|Hn]; [apply (Hn b); [by left|done]|apply (Hn a); [by left|done]].
      - split; [cbn; lia|]. constructor; [|constructor]. cbn. split; [done|lia].
      - split; [cbn; lia|]. constructor; [|constructor]. cbn. split; [done|lia].
      - exfalso. destruct (Hcross b a); [by left|by left|unfold crossed; lia|by apply Nb|by apply Na]. }
    destruct Hst as [Hf Hall]. rewrite filled_app, Hf. split_and!; [lia|lia|]. by apply Forall_app.
Qed.

Lemma push_side comp key l o : by_key comp key -> is_heap comp l -> Forall (fun o => 0 <= io_quantity o) l -> 0 <= io_quantity o ->
  let l' := push_heap comp (l ++ [o]) in
  is_heap comp l' /\ Forall (fun o => 0 <= io_quantity o) l' /\ quantity l' = quantity l + io_quantity o /\
  (forall x, x ∈ l' <-> x ∈ l \/ x = o).
Proof.
  intros Hk Hh Hq Ho. destruct (push_heap_ok comp key l o Hk Hh) as [P Hh']. cbn zeta. split_and!; [done| | |].
  - rewrite P. apply Forall_app. split; [done|by constructor].
  - rewrite (quantity_perm _ _ P). unfold quantity. rewrite map_app, sumZ_app. cbn. lia.
  - intros x. rewrite P, elem_of_app, list_elem_of_singleton. done.
Qed.

(** One call of [add] for a buy or a sell order under an identifier that
    does not rest in the book, on a book with room: the matching loop ends
    with the fuel given, the book stays a pair of heaps that do not cross,
    every status is for the added order, and the quantities of the statuses
    are what both sides lost. *)
Theorem flat_add_matches s ioe : Inv s -> 0 <= io_quantity (ioe_order ioe) ->
  (forall x, x ∈ bids_ s \/ x ∈ asks_ s -> io_id x <> io_id (ioe_order ioe)) ->
  let o := ioe_order ioe in
  let buy := bool_decide (ioe_action ioe = Buy) in
  Z.of_nat (length (if buy then bids_ s else asks_ s)) < MAX_BOOK_ORDERS ->
  exists s' posts, add s ioe = Ok (s', posts, true) /\ Inv s' /\
    quantity (bids_ s') + filled posts = quantity (bids_ s) + (if buy then io_quantity o else 0) /\
    quantity (asks_ s') + filled posts = quantity (asks_ s) + (if buy then 0 else io_quantity o) /\
    Forall (fun p => ios_id p = io_id o /\ 0 <= ios_fillQty p) posts.
Proof.
  intros [(Hhb & Hha & Hqb & Hqa) Hun] Ho Hid o buy Hroom. unfold add. fold o buy.
  rewrite (proj2 (Z.leb_gt _ _)) by done. destruct buy.
  - destruct (push_side _ _ (bids_ s) o bids_key Hhb Hqb Ho) as (H1 & H2 & H3 & H4).
    destruct (flat_match_ok (length (push_heap compareBids (bids_ s ++ [o])) + length (asks_ s))
      (mkState (push_heap compareBids (bids_ s ++ [o])) (asks_ s)) (io_id o)) as (s' & posts & E & HI & Eb & Ea & Hp).
    + split; [by split_and!|]. cbn [bids_ asks_]. split; [|right; intros a Ha; apply Hid; by right].
      intros b a [Hb| ->]%H4 Ha Hc; [by destruct (Hun b a Hb Ha)|by left].
    + done.
    + cbn [bids_ asks_] in *. rewrite E. eexists _, _. split_and!; [done|done|lia|lia|done].
  - destruct (push_side _ _ (asks_ s) o asks_key Hha Hqa Ho) as (H1 & H2 & H3 & H4).
    destruct (flat_match_ok (length (bids_ s) + length (push_heap compareAsks (asks_ s ++ [o])))
      (mkState (bids_ s) (push_heap compareAsks (asks_ s ++ [o]))) (io_id o)) as (s' & posts & E & HI & Eb & Ea & Hp).
    + split; [by split_and!|]. cbn [bids_ asks_]. split; [|left; intros b Hb; apply Hid; by left].
      intros b a Hb [Ha| ->]%H4 Hc; [by destruct (Hun b a Hb Ha)|by right].
    + done.
    + cbn [bids_ asks_] in *. rewrite E. eexists _, _. split_and!; [done|done|lia|lia|done].
Qed.

(** [sendAck] and [clear], for benchmarks and tests. *)
Definition sendAck (ioe : InternalOrderEvent) : InternalOrderStatus :=
  mkInternalOrderStatus (io_id (ioe_order ioe)) SlotId.invalid 0 0 Accepted.
Definition clear (s : State) : State := mkState [] [].

(** The move constructor takes the arrays of the other book but not its
    counts. *)
Definition moved (other : State) : State := mkState [] [].

Lemma flat_move_loses_orders other ioe : add (moved other) ioe = add init ioe.
Proof. done. Qed.

(** Cancels and modifications are taken for sell orders. *)
Lemma flat_cancel_sells s o t : add s (mkInternalOrderEvent o t Cancel) = add s (mkInternalOrderEvent o t Sell).
Proof. done. Qed.
End Book.
End FlatOrderBook.

(** ** Examples *)

Module FlatExamples.
Import FlatOrderBook.

Section SortedHeap.
Context {A : Type}.

(** A sorted list is a heap. *)
Definition before (comp : A -> A -> bool) (x y : A) : Prop := comp x y = false.

#[local] Instance before_dec comp x y : Decision (before comp x y).
Proof. unfold before. apply _. Defined.

#[local] Instance sorted_heap : HeapOps A := {|
  push_heap comp l := merge_sort (before comp) l;
  pop_heap comp l := match l with x :: l => merge_sort (before comp) l ++ [x] | [] => [] end
|}.

Lemma sorted_is_heap comp l : StronglySorted (before comp) l -> is_heap comp l.
Proof.
  intros Hs i x y Hi Hx Hy. assert (Hj : ((i - 1) / 2 < i)%nat) by (apply Nat.Div0.div_lt_upper_bound; lia).
  revert Hy Hj. generalize ((i - 1) / 2)%nat as j. intros j Hy Hj.
  rewrite <- (take_drop (S j) l) in Hs. apply (StronglySorted_app_1_elem_of _ _ _ y x) in Hs; [done| |].
  - apply list_elem_of_lookup. exists j. rewrite lookup_take_lt by lia. done.
  - apply list_elem_of_lookup. exists (i - S j)%nat. rewrite lookup_drop. by replace (S j + (i - S j))%nat with i by lia.
Qed.

Lemma sort_is_heap comp key l : by_key comp key -> is_heap comp (merge_sort (before comp) l).
Proof.
  intros Hk. apply sorted_is_heap, StronglySorted_merge_sort.
  - intros x y z. unfold before. rewrite !Hk, !Z.ltb_ge. lia.
  - intros x y. unfold before. rewrite !Hk, !Z.ltb_ge. lia.
Qed.

#[local] Instance sorted_heap_ok : HeapOk A.
Proof.
  split.
  - intros comp key l x Hk _. split; [apply merge_sort_Permutation|by eapply sort_is_heap].
  - intros comp key x l Hk _. exists (merge_sort (before comp) l). split; [done|].
    split; [apply merge_sort_Permutation|by eapply sort_is_heap].
Qed.
End SortedHeap.

#[local] Existing Instance sorted_heap.
#[local] Existing Instance sorted_heap_ok.
#[local] Existing Instance build_cicd.

Definition buy (id qty price : Z) : InternalOrderEvent :=
  mkInternalOrderEvent (mkInternalOrder id SlotId.invalid qty price) [] Buy.
Definition sell (id qty price : Z) : InternalOrderEvent :=
  mkInternalOrderEvent (mkInternalOrder id SlotId.invalid qty price) [] Sell.

(** Two sell orders rest; a buy order takes all of the better one and part
    of the other. *)
Definition two_asks : State := mkState [] [mkInternalOrder 2 SlotId.invalid 3 100; mkInternalOrder 1 SlotId.invalid 5 101].

Lemma two_asks_Inv : Inv two_asks.
Proof.
  split; [split_and!|by intros b a ?%elem_of_nil].
  - apply heap_nil.
  - apply sorted_is_heap. repeat constructor.
  - constructor.
  - repeat constructor; done.
Qed.

Lemma flat_add_matches_witness : exists s' posts, add two_asks (buy 3 4 101) = Ok (s', posts, true) /\
  filled posts = 4 /\ quantity (asks_ s') = 4.
Proof.
  destruct (flat_add_matches two_asks (buy 3 4 101) two_asks_Inv) as (s' & posts & E & HI & Hb & Ha & Hp); [done| |done|].
  - intros x [?%elem_of_nil|Hx]; [done|]. cbn in Hx. apply elem_of_cons in Hx as [->|Hx]; [done|].
    by apply list_elem_of_singleton in Hx as ->.
  - exists s', posts. split; [exact E|]. vm_compute in E. injection E as <- <-. split; reflexivity.
Defined.
End FlatExamples.
