(* ===== verification/TurboSPSC.v ===== *)
(** * The batching single-producer single-consumer queue

    Models [TurboSPSC] (common/src/containers/turbo_spsc.hpp), a byte ring
    that the benchmarks compare with [SequencedSPSC]: each side caches the
    other's index and the consumer publishes its own only when the batch it
    has cached is used up.  One load, store or copied byte per step; the
    indices count bytes without wrapping (2^64 bytes). *)

From stdpp Require Import gmap list.
From S2P Require Import Prelude HugeArray.

Module TurboSPSC.
Section Turbo.
Context (Capacity : Z).

Definition BUFFER_SIZE : Z := Capacity * 64.

(** [head_], [tail_] and the buffer are shared; [headCache_] is the
    producer's, [tailCache_] and [readCursor_] are the consumer's. *)
Record Queue := mkQueue {
  head_ : Z; tailCache_ : Z; readCursor_ : Z;
  tail_ : Z; headCache_ : Z;
  buffer_ : gmap Z Z
}.

Definition init : Queue := mkQueue 0 0 0 0 0 HugeArray.alloc.

Definition set_head (q : Queue) h := mkQueue h (tailCache_ q) (readCursor_ q) (tail_ q) (headCache_ q) (buffer_ q).
Definition set_tailCache (q : Queue) t := mkQueue (head_ q) t (readCursor_ q) (tail_ q) (headCache_ q) (buffer_ q).
Definition set_readCursor (q : Queue) r := mkQueue (head_ q) (tailCache_ q) r (tail_ q) (headCache_ q) (buffer_ q).
Definition set_tail (q : Queue) t := mkQueue (head_ q) (tailCache_ q) (readCursor_ q) t (headCache_ q) (buffer_ q).
Definition set_headCache (q : Queue) h := mkQueue (head_ q) (tailCache_ q) (readCursor_ q) (tail_ q) h (buffer_ q).
Definition set_buffer (q : Queue) b := mkQueue (head_ q) (tailCache_ q) (readCursor_ q) (tail_ q) (headCache_ q) b.

Definition pos (x : Z) : Z := Z.land x (BUFFER_SIZE - 1).

(** Where the producer is in [write(msg)], [msg] being the bytes of the
    message. *)
Inductive Producer :=
| PCheck (msg : list Z) | PReload (msg : list Z) | PCopy (msg : list Z) (i : nat) | PPublish (msg : list Z) | PDone (ok : bool).

Definition room (q : Queue) (msg : list Z) : bool := negb (headCache_ q + BUFFER_SIZE <? tail_ q + Z.of_nat (length msg)).

Definition pstep (q : Queue) (p : Producer) : res (Queue * Producer) :=
  match p with
  | PCheck msg => Ok (q, if room q msg then PCopy msg 0 else PReload msg)
  | PReload msg =>
      let q := set_headCache q (head_ q) in Ok (q, if room q msg then PCopy msg 0 else PDone false)
  | PCopy msg i =>
      match msg !! i with
      | None => Ok (q, PPublish msg)
      | Some b =>
          let! buf := HugeArray.set BUFFER_SIZE (buffer_ q) (pos (tail_ q) + Z.of_nat i) b in
          Ok (set_buffer q buf, PCopy msg (S i))
      end
  | PPublish msg => Ok (set_tail q (tail_ q + Z.of_nat (length msg)), PDone true)
  | PDone ok => Ok (q, PDone ok)
  end.

(** Where the consumer is in [read], for messages of [size] bytes. *)
Inductive Consumer := CCheck | CFlush | CLoad | CCopy (acc : list Z) | CDone (msg : option (list Z)).

Definition cstep (size : nat) (q : Queue) (c : Consumer) : res (Queue * Consumer) :=
  match c with
  | CCheck => Ok (q, if readCursor_ q =? tailCache_ q then CFlush else CCopy [])
  | CFlush => Ok (set_head q (readCursor_ q), CLoad)
  | CLoad =>
      let q := set_tailCache q (tail_ q) in Ok (q, if readCursor_ q =? tailCache_ q then CDone None else CCopy [])
  | CCopy acc =>
      if (length acc =? size)%nat then Ok (set_readCursor q (readCursor_ q + Z.of_nat size), CDone (Some acc))
      else
        let! b := HugeArray.get BUFFER_SIZE (buffer_ q) (pos (readCursor_ q) + Z.of_nat (length acc)) in
        Ok (q, CCopy (acc ++ [b]))
  | CDone m => Ok (q, CDone m)
  end.

(** ** Runs *)

(** One producer and one consumer of messages of one size; [sent] are the
    messages published, [received] those returned. *)
Record Sys := mkSys { queue : Queue; producer : Producer; consumer : Consumer; sent : list (list Z); received : list (list Z) }.

Context (size : nat).

Inductive step : Sys -> Sys -> Prop :=
| step_write q ok c s r msg : length msg = size -> step (mkSys q (PDone ok) c s r) (mkSys q (PCheck msg) c s r)
| step_read q p m s r : step (mkSys q p (CDone m) s r) (mkSys q p CCheck s r)
| step_p q p c s r q' p' : pstep q p = Ok (q', p') ->
    step (mkSys q p c s r) (mkSys q' p' c (match p with PPublish msg => s ++ [msg] | _ => s end) r)
| step_c q p c s r q' c' : cstep size q c = Ok (q', c') ->
    step (mkSys q p c s r)
      (mkSys q' p c' s (match c, c' with CCopy _, CDone (Some m) => r ++ [m] | _, _ => r end)).

Definition start : Sys := mkSys init (PDone true) (CDone None) [] [].

Inductive Reach : Sys -> Prop :=
| Reach_start : Reach start
| Reach_step s s' : Reach s -> step s s' -> Reach s'.

(** ** The queue is a FIFO when the size of a message divides the buffer *)

Context (k : Z).
Hypothesis Hpow : 0 <= k /\ Capacity = 2 ^ k.
Hypothesis Hsize : (0 < size)%nat /\ (Z.of_nat size | BUFFER_SIZE).

Notation sz := (Z.of_nat size).

Lemma buffer_pow : BUFFER_SIZE = 2 ^ (k + 6).
Proof. unfold BUFFER_SIZE. destruct Hpow as [Hk ->]. by rewrite Z.pow_add_r by lia. Qed.

Lemma buffer_pos : 0 < BUFFER_SIZE.
Proof. rewrite buffer_pow. destruct Hpow. apply Z.pow_pos_nonneg; lia. Qed.

Lemma pos_mod x : pos x = x mod BUFFER_SIZE.
Proof. unfold pos. rewrite buffer_pow, Z.sub_1_r, <- Z.ones_equiv. destruct Hpow. by rewrite Z.land_ones by lia. Qed.

(** A message that starts at a multiple of its size does not wrap. *)
Lemma pos_room x : (sz | x) -> 0 <= pos x /\ pos x + sz <= BUFFER_SIZE.
Proof.
  intros [a Ha]. destruct Hsize as [Hs [n Hn]]. pose proof buffer_pos. rewrite pos_mod.
  pose proof (Z.mod_pos_bound x BUFFER_SIZE ltac:(done)) as Hb. split; [lia|].
  assert (Hd : (sz | x mod BUFFER_SIZE)).
  { rewrite Z.mod_eq by lia. apply Z.divide_sub_r; [by exists a|]. apply Z.divide_mul_l. by exists n. }
  destruct Hd as [m Hm]. assert (m < n) by nia. nia.
Qed.

Lemma pos_add x j : (sz | x) -> 0 <= j < sz -> pos x + j = (x + j) mod BUFFER_SIZE.
Proof.
  intros Hx Hj. destruct (pos_room x Hx) as [H1 H2]. rewrite pos_mod in *. rewrite <- Z.add_mod_idemp_l by (pose proof buffer_pos; lia).
  symmetry. apply Z.mod_small. lia.
Qed.

Lemma mod_ne x y : x < y < x + BUFFER_SIZE -> x mod BUFFER_SIZE <> y mod BUFFER_SIZE.
Proof.
  intros H E. pose proof buffer_pos. assert (Hd : (BUFFER_SIZE | y - x)).
  { apply Z.mod_divide; [lia|]. by rewrite Zminus_mod, E, Z.sub_diag, Z.mod_0_l by lia. }
  apply Z.divide_pos_le in Hd; lia.
Qed.

Definition byte_at (q : Queue) (x : Z) : Z := HugeArray.at_ (buffer_ q) (x mod BUFFER_SIZE).

(** The messages between [readCursor_] and [tail_]. *)
Definition holds (q : Queue) (rest : list (list Z)) : Prop :=
  tail_ q - readCursor_ q = sz * Z.of_nat (length rest) /\
  Forall (fun m => length m = size) rest /\
  forall i m j b, rest !! i = Some m -> m !! j = Some b ->
    byte_at q (readCursor_ q + sz * Z.of_nat i + Z.of_nat j) = b.

Definition indices_ok (q : Queue) : Prop :=
  (sz | readCursor_ q) /\ (sz | tail_ q) /\ (sz | tailCache_ q) /\
  head_ q <= readCursor_ q <= tailCache_ q /\ tailCache_ q <= tail_ q /\ headCache_ q <= head_ q /\
  tail_ q <= headCache_ q + BUFFER_SIZE.

Definition producer_ok (q : Queue) (p : Producer) : Prop :=
  match p with
  | PCheck msg | PReload msg => length msg = size
  | PCopy msg i => length msg = size /\ tail_ q + sz <= headCache_ q + BUFFER_SIZE /\ (i <= size)%nat /\
      forall j b, (j < i)%nat -> msg !! j = Some b -> byte_at q (tail_ q + Z.of_nat j) = b
  | PPublish msg => length msg = size /\ tail_ q + sz <= headCache_ q + BUFFER_SIZE /\
      forall j b, msg !! j = Some b -> byte_at q (tail_ q + Z.of_nat j) = b
  | PDone _ => True
  end.

Definition consumer_ok (q : Queue) (c : Consumer) (rest : list (list Z)) : Prop :=
  match c with
  | CFlush | CLoad => readCursor_ q = tailCache_ q
  | CCopy acc => readCursor_ q <> tailCache_ q /\ (length acc <= size)%nat /\
      exists m, rest !! 0%nat = Some m /\ acc = take (length acc) m
  | _ => True
  end.

Definition Inv (s : Sys) : Prop :=
  exists rest, sent s = received s ++ rest /\ holds (queue s) rest /\ indices_ok (queue s) /\
    producer_ok (queue s) (producer s) /\ consumer_ok (queue s) (consumer s) rest.

(** When the cursor is behind the cached tail there is a message. *)
Lemma pending q rest : holds q rest -> indices_ok q -> readCursor_ q <> tailCache_ q -> exists m, rest !! 0%nat = Some m.
Proof.
  intros (Hn & _) (_ & _ & _ & H1 & H2 & _) Hne. destruct rest as [|m rest]; [cbn in Hn; lia|]. by exists m.
Qed.

(** A byte copied at the tail touches neither what is pending nor what was
    copied before it. *)
Lemma byte_set q x y b : x < y < x + BUFFER_SIZE \/ y < x < y + BUFFER_SIZE ->
  HugeArray.at_ (<[y mod BUFFER_SIZE := b]> (buffer_ q)) (x mod BUFFER_SIZE) = byte_at q x.
Proof.
  intros H. rewrite HugeArray.at_set_ne; [done|]. destruct H as [H|H]; [|by apply mod_ne].
  intros E. by apply (mod_ne x y H).
Qed.

(** *** The producer keeps the invariant and does not fault *)

Lemma producer_step q p c s r : Inv (mkSys q p c s r) -> exists q' p', pstep q p = Ok (q', p') /\
  Inv (mkSys q' p' c (match p with PPublish msg => s ++ [msg] | _ => s end) r).
Proof.
  intros (rest & Hs & Hh & Hi & Hp & Hc). cbn [sent received queue producer consumer] in *.
  pose proof Hi as (D1 & D2 & D3 & I1 & I2 & I3 & I4). pose proof buffer_pos.
  destruct p as [msg|msg|msg i|msg|ok]; cbn [pstep producer_ok] in *.
  - eexists _, _. split; [done|]. exists rest. cbn [sent received queue producer consumer]. split_and!; try done.
    unfold room. rewrite Hp. destruct (Z.ltb_spec (headCache_ q + BUFFER_SIZE) (tail_ q + sz)); cbn; [done|].
    split_and!; [done|lia|lia|intros; lia].
  - eexists _, _. split; [done|]. exists rest. cbn [sent received queue producer consumer].
    split_and!; try done; [split_and!; cbn; try done; lia|].
    unfold room. rewrite Hp. cbn. destruct (Z.ltb_spec (head_ q + BUFFER_SIZE) (tail_ q + sz)); cbn; [done|].
    split_and!; [done|lia|lia|intros; lia].
  - destruct Hp as (Hl & Hroom & Hle & Hdone). destruct (msg !! i) as [b|] eqn:Eb.
    + pose proof (lookup_lt_Some _ _ _ Eb) as Hlt. destruct (pos_room (tail_ q) D2) as [P1 P2].
      rewrite HugeArray.set_ok by lia. eexists _, _. split; [done|]. exists rest. cbn [sent received queue producer consumer].
      rewrite (pos_add (tail_ q) (Z.of_nat i)) by (done || lia).
      assert (Hold : forall x, tail_ q + Z.of_nat i - BUFFER_SIZE < x < tail_ q + Z.of_nat i ->
        HugeArray.at_ (<[(tail_ q + Z.of_nat i) mod BUFFER_SIZE := b]> (buffer_ q)) (x mod BUFFER_SIZE) = byte_at q x).
      { intros x Hx. apply byte_set. lia. }
      split_and!; try done.
      * destruct Hh as (Hn & Hf & Hb). split_and!; [done|done|]. intros i' m j b' Hm Hj. unfold byte_at. cbn [buffer_ set_buffer readCursor_].
        rewrite Hold; [by apply (Hb _ m)|]. apply lookup_lt_Some in Hm as Hi'. rewrite Forall_lookup in Hf. specialize (Hf _ _ Hm).
        apply lookup_lt_Some in Hj. rewrite Hf in Hj. nia.
      * split_and!; [done|done|lia|]. intros j b' Hj Hb'. unfold byte_at. cbn [buffer_ set_buffer tail_].
        destruct (decide (j = i)) as [->|Hne]; [rewrite HugeArray.at_set_eq; congruence|]. rewrite Hold by lia. apply Hdone; [lia|done].
    + eexists _, _. split; [done|]. exists rest. split_and!; try done. cbn. split_and!; [done|done|]. intros j b Hj. apply Hdone; [|done].
      apply lookup_ge_None in Eb. apply lookup_lt_Some in Hj. lia.
  - destruct Hp as (Hl & Hroom & Hdone). eexists _, _. split; [done|]. exists (rest ++ [msg]).
    cbn [sent received queue producer consumer]. rewrite Hl. destruct Hh as (Hn & Hf & Hb).
    split_and!; [by rewrite Hs, (assoc_L app)| | |done|].
    + split_and!; [cbn; rewrite length_app; cbn; lia|by apply Forall_app; split; [|constructor]|].
      intros i m j b Hm Hj. change (byte_at (set_tail q (tail_ q + sz))) with (byte_at q). cbn [readCursor_ set_tail].
      apply lookup_app_Some in Hm as [Hm|[Hge Hm]]; [by apply (Hb _ m)|].
      apply list_lookup_singleton_Some in Hm as [Hm <-]. rewrite <- (Hdone j b Hj). f_equal. nia.
    + split_and!; cbn; try done; try lia. by apply Z.divide_add_r.
    + destruct c as [| | |acc|]; try done. destruct Hc as (C1 & C2 & m & Hm & Ha). cbn. split_and!; [done|done|].
      exists m. split; [|done]. by apply lookup_app_l_Some.
  - eexists _, _. split; [done|]. exists rest. by split_and!.
Qed.

(** *** The consumer *)

Lemma consumer_step q p c s r : Inv (mkSys q p c s r) -> exists q' c', cstep size q c = Ok (q', c') /\
  Inv (mkSys q' p c' s (match c, c' with CCopy _, CDone (Some m) => r ++ [m] | _, _ => r end)).
Proof.
  intros (rest & Hs & Hh & Hi & Hp & Hc). cbn [sent received queue producer consumer] in *.
  pose proof Hi as (D1 & D2 & D3 & I1 & I2 & I3 & I4). pose proof buffer_pos.
  destruct c as [| | |acc|m]; cbn [cstep consumer_ok] in *.
  - eexists _, _. split; [done|]. exists rest. split_and!; try done.
    destruct (Z.eqb_spec (readCursor_ q) (tailCache_ q)) as [E|E]; [done|]. destruct (pending q rest Hh Hi E) as [m Hm].
    cbn. split_and!; [done|lia|by exists m].
  - eexists _, _. split; [done|]. exists rest. split_and!; try done.
    split_and!; cbn; try done; lia.
  - assert (Hi' : indices_ok (set_tailCache q (tail_ q))) by (split_and!; cbn; try done; lia).
    eexists _, _. split; [done|]. exists rest. cbn [sent received queue producer consumer].
    destruct (Z.eqb_spec (readCursor_ (set_tailCache q (tail_ q))) (tailCache_ (set_tailCache q (tail_ q)))) as [E|E]; [by split_and!|].
    split_and!; try done. destruct (pending (set_tailCache q (tail_ q)) rest Hh Hi' E) as [m Hm]. cbn. split_and!; [done|lia|by exists m].
  - destruct Hc as (C1 & C2 & m & Hm & Ha). destruct Hh as (Hn & Hf & Hb). pose proof Hf as Hf'. rewrite Forall_lookup in Hf'. specialize (Hf' _ _ Hm).
    destruct rest as [|m' rest]; [done|]. injection Hm as ->.
    destruct (Nat.eqb_spec (length acc) size) as [E|E].
    + eexists _, _. split; [done|]. exists rest. cbn [sent received queue producer consumer].
      rewrite Ha, E, take_ge by lia. split_and!; [by rewrite Hs, <- (assoc_L app)| | |done|done].
      * cbn in Hn. split_and!; [cbn; lia|by apply Forall_cons in Hf as [_ Hf]|]. intros i m' j b Hm' Hj.
        rewrite <- (Hb (S i) m' j b Hm' Hj). unfold byte_at. cbn [buffer_ set_readCursor readCursor_]. f_equal. f_equal. lia.
      * destruct D1 as [a Ea], D3 as [t Et]. assert (a < t) by nia. assert (readCursor_ q + sz <= tailCache_ q) by nia.
        split_and!; cbn; try done; try lia; [exists (a + 1); lia|by exists t].
    + destruct (pos_room (readCursor_ q) D1) as [P1 P2]. rewrite HugeArray.get_ok by lia. eexists _, _. split; [done|]. exists (m :: rest).
      split_and!; try done. cbn. rewrite length_app. cbn [length]. split_and!; [done|lia|]. exists m. split; [done|].
      destruct (lookup_lt_is_Some_2 m (length acc)) as [b Eb]; [lia|].
      rewrite Nat.add_1_r, (take_S_r _ _ b) by done. f_equal; [done|]. f_equal.
      rewrite <- (Hb 0%nat m (length acc) b eq_refl Eb). rewrite pos_add by (done || lia). unfold byte_at. f_equal. f_equal. lia.
  - eexists _, _. split; [done|]. exists rest. by split_and!.
Qed.

Lemma turbo_Inv s : Reach s -> Inv s.
Proof.
  induction 1 as [|s s' _ IH Hst].
  { exists []. split_and!; try done; cbn.
    - split_and!; [cbn; lia|constructor|intros i m j b Hm; by rewrite lookup_nil in Hm].
    - pose proof buffer_pos. split_and!; cbn; try apply Z.divide_0_r; lia. }
  destruct Hst as [q ok c s r msg Hl|q p m s r|q p c s r q' p' E|q p c s r q' c' E].
  - destruct IH as (rest & Hs & Hh & Hi & _ & Hc). by exists rest.
  - destruct IH as (rest & Hs & Hh & Hi & Hp & _). by exists rest.
  - destruct (producer_step q p c s r IH) as (q1 & p1 & E1 & HI). rewrite E in E1. by injection E1 as <- <-.
  - destruct (consumer_step q p c s r IH) as (q1 & c1 & E1 & HI). rewrite E in E1. by injection E1 as <- <-.
Qed.

(** In every interleaving of the byte-level accesses of one producer and
    one consumer, with messages whose size divides the buffer, no access
    leaves the buffer and what the consumer received is what was published,
    in order and untorn, the rest being in the buffer. *)
Theorem turbo_fifo s : Reach s ->
  (exists rest, sent s = received s ++ rest /\ 
    tail_ (queue s) - readCursor_ (queue s) = sz * Z.of_nat (length rest) /\ sz * Z.of_nat (length rest) <= BUFFER_SIZE) /\
  is_ok (pstep (queue s) (producer s)) /\ is_ok (cstep size (queue s) (consumer s)).
Proof.
  intros HI%turbo_Inv. pose proof HI as (rest & Hs & (Hn & _) & (_ & _ & _ & I1 & I2 & I3 & I4) & _). destruct s as [q p c s r]. split_and!.
  - exists rest. split; [done|]. cbn in *. split; [done|lia].
  - destruct (producer_step q p c s r HI) as (q1 & p1 & E1 & _). cbn. by rewrite E1.
  - destruct (consumer_step q p c s r HI) as (q1 & c1 & E1 & _). cbn. by rewrite E1.
Qed.
End Turbo.

(** One message of two bytes through a ring of 64. *)
Lemma turbo_published : exists s, Reach 1 2 s /\ sent s = [[7; 8]].
Proof.
  pose proof (Reach_start 1 2) as H. unfold start in H.
  eapply Reach_step in H; [|apply (step_write 1 2 _ _ _ _ _ [7; 8]); reflexivity].
  do 6 (eapply Reach_step in H; [|eapply step_p; reflexivity]).
  eexists. split; [exact H|reflexivity].
Qed.

Lemma turbo_fifo_witness : exists s, sent s = [[7; 8]] /\ exists rest, sent s = received s ++ rest.
Proof.
  destruct turbo_published as (s & HR & E). exists s. split; [exact E|].
  assert (Hs : (0 < 2)%nat /\ (Z.of_nat 2 | BUFFER_SIZE 1)) by (split; [lia|by exists 32]).
  destruct (turbo_fifo 1 2 0 (conj (Z.le_refl 0) eq_refl) Hs s HR) as [(rest & Er & _) _].
  exists rest. exact Er.
Defined.

(** A message whose size does not divide the buffer is written past its
    end: with 64 bytes and messages of 48, the second write. *)
Definition write_bytes (q : Queue) (msg : list Z) : res (Queue * Producer) :=
  foldl (fun r _ => let! (q, p) := r in pstep 1 q p) (Ok (q, PCheck msg)) (seq 0 (length msg + 3)).

Lemma turbo_overflows :
  exists q, write_bytes init (replicate 48 7) = Ok (q, PDone true) /\
    write_bytes (set_headCache (set_head q 48) 48) (replicate 48 7) = Err OutOfBounds.
Proof. eexists. split; [vm_compute; reflexivity|]. by vm_compute. Qed.
End TurboSPSC.
