(* ===== verification/StreamBus.v ===== *)
(** * The stream bus

    Models [StreamBus] (common/src/bus/stream_bus.hpp), which the program
    keeps but does not use: a queue per type of event, posted to by any
    thread and drained by the bus thread, which sleeps on a futex when there
    is nothing to do.  A posting thread, the bus thread and a stopping thread
    run one shared access per step, in any interleaving; a queue of
    [VyukovMPMC.v] is a list of bounded length. *)

From stdpp Require Import gmap list.
From S2P Require Import Prelude LfqRunner.
Import LfqRunner.SpinWait.

Module StreamBus.
Section Bus.
Context {Kind : Type} `{Countable Kind} {Event : Type} (kind : Event -> Kind).
Context (Events : list Kind) (QueueCapacity : nat).

Record State := mkState {
  running_ : bool;
  sleeping_ : bool;
  futex_ : Z;
  queues_ : gmap Kind (list Event);
  handlers_ : gset Kind;
  handled : list Event
}.

(** [handlers_] are the types with a handler; [handled] are the events the
    handlers were called on. *)
Definition init : State := mkState false false 0 ∅ ∅ [].

Definition set_running (s : State) r := mkState r (sleeping_ s) (futex_ s) (queues_ s) (handlers_ s) (handled s).
Definition set_sleeping (s : State) b := mkState (running_ s) b (futex_ s) (queues_ s) (handlers_ s) (handled s).
Definition set_futex (s : State) f := mkState (running_ s) (sleeping_ s) f (queues_ s) (handlers_ s) (handled s).
Definition set_queue (s : State) k q := mkState (running_ s) (sleeping_ s) (futex_ s) (<[k := q]> (queues_ s)) (handlers_ s) (handled s).
Definition add_handled (s : State) e := mkState (running_ s) (sleeping_ s) (futex_ s) (queues_ s) (handlers_ s) (handled s ++ [e]).

Definition queue (s : State) (k : Kind) : list Event := default [] (queues_ s !! k).

Definition subscribe (s : State) (k : Kind) : res State :=
  if running_ s then Err (Throw "StreamBus subscribe called after start")
  else if bool_decide (k ∈ handlers_ s) then Ok s
  else Ok (mkState (running_ s) (sleeping_ s) (futex_ s) (queues_ s) ({[k]} ∪ handlers_ s) (handled s)).

(** The bus thread: [run]'s loop, [process] for the types still to be looked
    at (the flag tells whether something was popped), [waitForData]. *)
Inductive Consumer :=
| CStart
| CCheck (w : SpinWait)
| CProcess (ks : list Kind) (hit : bool) (w : SpinWait)
| CWaitLoad
| CWaitStore (v : Z)
| CWaitFutex (v : Z)
| CBlocked
| CWoken
| CExit.

Definition cstep (s : State) (c : Consumer) : State * Consumer :=
  match c with
  | CStart => (set_running s true, CCheck make_default)
  | CCheck w => (s, if running_ s then CProcess Events false w else CExit)
  | CProcess [] hit w =>
      (s, if hit then CCheck (reset w)
          else let '(w, more) := incr w in if more then CCheck w else CWaitLoad)
  | CProcess (k :: ks) hit w =>
      if bool_decide (k ∈ handlers_ s) then
        match queue s k with
        | [] => (s, CProcess ks hit w)
        | e :: q => (add_handled (set_queue s k q) e, CProcess (k :: ks) true w)
        end
      else (s, CProcess ks hit w)
  | CWaitLoad => (s, CWaitStore (futex_ s))
  | CWaitStore v => (set_sleeping s true, CWaitFutex v)
  | CWaitFutex v => (s, if futex_ s =? v then CBlocked else CWoken)
  | CBlocked => (s, CBlocked)
  | CWoken => (set_sleeping s false, CCheck make_default)
  | CExit => (s, CExit)
  end.

(** [futexWake] wakes the bus thread if it is blocked. *)
Definition futexWake (c : Consumer) : Consumer := match c with CBlocked => CWoken | _ => c end.

(** A thread in [post(event)]: its spinning pushes and [notify]. *)
Inductive Poster := PCheck (e : Event) | PPush (e : Event) (w : SpinWait) | PNotify | PAdd | PWake | PDone (ok : bool).

Definition pstep (s : State) (p : Poster) (c : Consumer) : State * Poster * Consumer :=
  match p with
  | PCheck e => (s, if running_ s then PPush e make_default else PDone false, c)
  | PPush e w =>
      let q := queue s (kind e) in
      if (length q <? QueueCapacity)%nat then (set_queue s (kind e) (q ++ [e]), PNotify, c)
      else let '(w, more) := incr w in (s, if more then PPush e w else PDone false, c)
  | PNotify => (s, if sleeping_ s then PAdd else PDone true, c)
  | PAdd => (set_futex s (u32 (futex_ s + 1)), PWake, c)
  | PWake => (s, PDone true, futexWake c)
  | PDone ok => (s, PDone ok, c)
  end.

(** A thread in [stop()]. *)
Inductive Stopper := SIdle | SStore | SAdd | SWake | SDone.

Definition xstep (s : State) (x : Stopper) (c : Consumer) : State * Stopper * Consumer :=
  match x with
  | SIdle => (s, SIdle, c)
  | SStore => (set_running s false, SAdd, c)
  | SAdd => (set_futex s (u32 (futex_ s + 1)), SWake, c)
  | SWake => (s, SDone, futexWake c)
  | SDone => (s, SDone, c)
  end.

(** [posted] are the events pushed, in order. *)
Record Sys := mkSys { bus : State; consumer : Consumer; poster : Poster; stopper : Stopper; posted : list Event }.

Inductive step : Sys -> Sys -> Prop :=
| step_c s c p x h s' c' : cstep s c = (s', c') -> step (mkSys s c p x h) (mkSys s' c' p x h)
| step_p s c p x h s' p' c' : pstep s p c = (s', p', c') ->
    step (mkSys s c p x h) (mkSys s' c' p' x (match p, p' with PPush e _, PNotify => h ++ [e] | _, _ => h end))
| step_x s c p x h s' x' c' : xstep s x c = (s', x', c') -> step (mkSys s c p x h) (mkSys s' c' p x' h)
| step_post s c ok x h e : step (mkSys s c (PDone ok) x h) (mkSys s c (PCheck e) x h)
| step_stop s c p h : step (mkSys s c p SIdle h) (mkSys s c p SStore h).

(** A bus with its handlers set, whose thread was created. *)
Inductive Reach (hs : gset Kind) : Sys -> Prop :=
| Reach_start : Reach hs (mkSys (mkState false false 0 ∅ hs []) CStart (PDone true) SIdle [])
| Reach_step s s' : Reach hs s -> step s s' -> Reach hs s'.

(** ** Events are handled in the order they were posted *)

Definition of_kind (k : Kind) (l : list Event) : list Event := filter (fun e => kind e = k) l.

Definition Inv (s : Sys) : Prop :=
  (forall k, of_kind k (posted s) = of_kind k (handled (bus s)) ++ queue (bus s) k) /\
  (forall k, (length (queue (bus s) k) <= QueueCapacity)%nat).

Lemma queue_set s k q k' : queue (set_queue s k q) k' = if decide (k = k') then q else queue s k'.
Proof. unfold queue. cbn. destruct (decide (k = k')) as [<-|Hne]; [by rewrite lookup_insert_eq|by rewrite lookup_insert_ne]. Qed.

Lemma of_kind_snoc k l e : of_kind k (l ++ [e]) = of_kind k l ++ (if decide (kind e = k) then [e] else []).
Proof. unfold of_kind. rewrite filter_app. f_equal. Qed.

Lemma stream_Inv_frame s c p x h s' c' p' x' : Inv (mkSys s c p x h) -> queues_ s' = queues_ s -> handled s' = handled s ->
  Inv (mkSys s' c' p' x' h).
Proof. intros [H1 H2] Eq Eh. unfold Inv, queue in *. cbn in *. rewrite Eq, Eh. by split. Qed.

Lemma queue_kind s k e q : (forall k e, e ∈ queue s k -> kind e = k) -> queue s k = e :: q -> kind e = k.
Proof. intros Hk Eq. apply (Hk k e). rewrite Eq. by left. Qed.

Lemma stream_step_Inv s s' : step s s' -> Inv s -> Inv s'.
Proof.
  intros Hst HI. destruct Hst as [s c p x h s' c' E|s c p x h s' p' c' E|s c p x h s' x' c' E|s c ok x h e|s c p h].
  - destruct c as [|w|[|k ks] hit w| |v|v| | |]; cbn [cstep] in E; try (injection E as <- <-; by eapply stream_Inv_frame).
    case_bool_decide; [|injection E as <- <-; by eapply stream_Inv_frame].
    destruct (queue s k) as [|e q] eqn:Eq; injection E as <- <-; [by eapply stream_Inv_frame|].
    destruct HI as [H1 H2]. cbn [posted bus] in H1, H2.
    assert (Hk : kind e = k).
    { assert (He : e ∈ of_kind k h) by (rewrite H1, Eq; set_solver). by apply list_elem_of_filter in He as [He _]. }
    split; intros k'; cbn [bus posted handled add_handled]; change (queue (add_handled (set_queue s k q) e)) with (queue (set_queue s k q)); rewrite queue_set.
    + change (handled (set_queue s k q)) with (handled s). rewrite of_kind_snoc, H1, Hk.
      destruct (decide (k = k')) as [<-|Hne]; [by rewrite Eq, <- (assoc_L app)|by rewrite app_nil_r].
    + destruct (decide (k = k')) as [<-|Hne]; [|done]. specialize (H2 k). rewrite Eq in H2. cbn in H2. lia.
  - destruct p as [e|e w| | | |ok]; cbn [pstep] in E; try (injection E as <- <- <-; by eapply stream_Inv_frame).
    destruct (Nat.ltb_spec (length (queue s (kind e))) QueueCapacity) as [Hlt|Hge].
    + injection E as <- <- <-. destruct HI as [H1 H2]. split; intros k; cbn [bus posted]; rewrite queue_set.
      * change (handled (set_queue s (kind e) (queue s (kind e) ++ [e]))) with (handled s). cbn [posted bus] in H1. rewrite of_kind_snoc, H1.
        destruct (decide (kind e = k)) as [<-|Hne]; [by rewrite <- (assoc_L app)|by rewrite app_nil_r].
      * destruct (decide (kind e = k)) as [<-|Hne]; [rewrite length_app; cbn; lia|apply H2].
    + destruct (incr w) as [w' []]; injection E as <- <- <-; by eapply stream_Inv_frame.
  - destruct x; cbn [xstep] in E; injection E as <- <- <-; by eapply stream_Inv_frame.
  - by eapply stream_Inv_frame.
  - by eapply stream_Inv_frame.
Qed.

(** Of each type of event the bus handles those posted, each once and in
    the order they were pushed, and what is not yet handled is in the queue
    of the type, which never exceeds its capacity. *)
Theorem stream_bus_in_order hs s : Reach hs s ->
  forall k, of_kind k (posted s) = of_kind k (handled (bus s)) ++ queue (bus s) k /\
    (length (queue (bus s) k) <= QueueCapacity)%nat.
Proof.
  intros HR. assert (HI : Inv s).
  { induction HR as [|s s' _ IH Hst]; [|by eapply stream_step_Inv]. split; intros k; unfold queue; cbn; rewrite lookup_empty; cbn; [done|lia]. }
  intros k. destruct HI as [H1 H2]. by split.
Qed.

(** ** Wake-ups are lost *)

(** A bus without events whose thread is at [c]. *)
Definition idle (hs : gset Kind) (c : Consumer) : Sys := mkSys (mkState true false 0 ∅ hs []) c (PDone true) SIdle [].

Lemma reach_idle_step hs c c' : Reach hs (idle hs c) -> cstep (bus (idle hs c)) c = (bus (idle hs c), c') -> Reach hs (idle hs c').
Proof. intros HR E. eapply Reach_step; [exact HR|]. by apply step_c. Qed.

Lemma reach_processed hs ks w : Reach hs (idle hs (CProcess ks false w)) -> Reach hs (idle hs (CProcess [] false w)).
Proof.
  induction ks as [|k ks IHk]; intros HR; [done|]. apply IHk. eapply reach_idle_step; [exact HR|]. cbn [cstep].
  case_bool_decide; [|done]. unfold queue. cbn. by rewrite lookup_empty.
Qed.

(** The thread finds nothing and comes to [waitForData]. *)
Lemma reach_spinning hs n : (n < Z.to_nat SPIN_RETRIES_YIELD)%nat ->
  Reach hs (idle hs (CCheck (mkSpinWait SPIN_RETRIES_YIELD (Z.of_nat n)))).
Proof.
  induction n as [|n IH]; intros Hn.
  { eapply Reach_step; [apply Reach_start|]. by apply step_c. }
  eapply reach_idle_step; [apply (reach_processed hs Events (mkSpinWait SPIN_RETRIES_YIELD (Z.of_nat n)))|].
  - eapply reach_idle_step; [apply IH; lia|done].
  - cbn [cstep]. unfold incr. cbn [cap_ cycles_].
    rewrite (proj2 (Z.leb_gt SPIN_RETRIES_YIELD (Z.of_nat n))) by lia.
    rewrite (proj2 (Z.ltb_lt (Z.of_nat n + 1) SPIN_RETRIES_YIELD)) by lia.
    replace (Z.of_nat (S n)) with (Z.of_nat n + 1) by lia.
    by destruct (Z.of_nat n + 1 <? SPIN_RETRIES_HOT), (Z.of_nat n + 1 <? SPIN_RETRIES_WARM).
Qed.

Lemma reach_wait hs : Reach hs (idle hs CWaitLoad).
Proof.
  set (w := mkSpinWait SPIN_RETRIES_YIELD (SPIN_RETRIES_YIELD - 1)).
  apply (reach_idle_step hs (CProcess [] false w)); [|reflexivity]. apply (reach_processed hs Events).
  apply (reach_idle_step hs (CCheck w)); [|reflexivity]. unfold w.
  replace (SPIN_RETRIES_YIELD - 1) with (Z.of_nat (Z.to_nat (SPIN_RETRIES_YIELD - 1))) by (rewrite Z2Nat.id; done).
  apply reach_spinning. apply Z2Nat.inj_lt; done.
Qed.

Lemma post_unseen hs e : (0 < QueueCapacity)%nat ->
  exists s, Reach hs (mkSys s CBlocked (PDone true) SIdle [e]) /\ queue s (kind e) = [e].
Proof.
  intros Hcap. pose proof (reach_wait hs) as HR. unfold idle in HR.
  assert (Hq : queue (mkState true false 0 ∅ hs []) (kind e) = []) by (unfold queue; cbn [queues_]; by rewrite lookup_empty).
  eapply Reach_step in HR; [|apply (step_post _ _ true _ _ e)].
  eapply Reach_step in HR; [|by apply step_p]. cbn [running_] in HR.
  eapply Reach_step in HR; [|apply step_p; cbn [pstep]; rewrite Hq; cbn [length];
    rewrite (proj2 (Nat.ltb_lt 0 QueueCapacity)) by done; reflexivity].
  eapply Reach_step in HR; [|by apply step_p]. do 3 (eapply Reach_step in HR; [|by apply step_c]).
  eexists. split; [exact HR|]. unfold queue. cbn. by rewrite lookup_insert_eq.
Qed.

(** [waitForData] does not look at the queues or the running flag again
    after it announced that it sleeps, so an event posted, or a stop made,
    between the last look and the announcement is missed: the bus thread
    sleeps with the event in its queue, or after the stop, until somebody
    else posts. *)
Theorem stream_bus_loses_wakeups hs e : (0 < QueueCapacity)%nat ->
  (exists s, Reach hs (mkSys s CBlocked (PDone true) SIdle [e]) /\ queue s (kind e) = [e]) /\
  (exists s, Reach hs (mkSys s CBlocked (PDone true) SDone []) /\ running_ s = false).
Proof.
  intros Hcap. split; [by apply post_unseen|]. pose proof (reach_wait hs) as HR. unfold idle in HR.
  eapply Reach_step in HR; [|apply step_stop]. do 3 (eapply Reach_step in HR; [|by apply step_x]).
  do 3 (eapply Reach_step in HR; [|by apply step_c]). eexists. split; [exact HR|done].
Qed.
End Bus.

Lemma stream_bus_in_order_witness :
  of_kind Nat.odd true [3; 2]%nat = [3]%nat /\ exists s, Reach Nat.odd [true] 4 {[true]} s /\ queue (bus s) true = [3]%nat /\
    of_kind Nat.odd true (posted s) = of_kind Nat.odd true (handled (bus s)) ++ queue (bus s) true.
Proof.
  split; [reflexivity|].
  destruct (post_unseen Nat.odd [true] 4 {[true]} 3%nat (proj1 (Nat.ltb_lt 0 4) eq_refl)) as (s & HR & Hq).
  eexists. split; [exact HR|]. split; [exact Hq|].
  exact (proj1 (stream_bus_in_order Nat.odd [true] 4 {[true]} _ HR true)).
Defined.

Lemma stream_bus_loses_wakeups_witness :
  exists s, Reach Nat.odd [true] 4 {[true]} (mkSys s CBlocked (PDone true) SIdle [3%nat]) /\ queue s true = [3%nat].
Proof. exact (proj1 (stream_bus_loses_wakeups Nat.odd [true] 4 {[true]} 3%nat (proj1 (Nat.ltb_lt 0 4) eq_refl))). Defined.
End StreamBus.
