(* ===== verification/IpcServer.v ===== *)
(** * The network threads of the server and the client

    Models [BoostIpcServer] (server/src/ipc/boost/boost_network_server.hpp),
    [BoostIpcClient] (client/src/ipc/boost/boost_network_client.hpp),
    [ShmServer] (server/src/ipc/shm/shm_server.hpp) and [ShmClient]
    (client/src/ipc/shm/shm_client.hpp): when they run, which calls they make
    on their sockets, what they hand to the session and connection managers,
    and what they tell the control center.  Sockets are numbered; what the
    calls into asio answer is an input. *)

From stdpp Require Import list.
From S2P Require Import Prelude Types.

(** ** Calls on sockets *)

Module Sockets.

Inductive SocketOption := SendBufferSize (n : Z) | ReceiveBufferSize (n : Z) | NoDelay | ReuseAddress | Broadcast.

Inductive Call := Open | SetOption (o : SocketOption) | Bind (port : Z) | Listen | Connect (port : Z).

(** What asio answers to a call: nothing, or the exception it throws.  A
    sequence of calls ends with the first exception. *)
Definition Answer := Call -> option string.

Fixpoint attempt (answer : Answer) (l : list Call) : option string :=
  match l with
  | [] => None
  | c :: l => match answer c with Some what => Some what | None => attempt answer l end
  end.

Lemma attempt_None answer l : attempt answer l = None <-> Forall (fun c => answer c = None) l.
Proof.
  induction l as [|c l IH]; cbn; [by split|]. rewrite Forall_cons.
  destruct (answer c); [split; [done|by intros [? _]]|]. rewrite IH. tauto.
Qed.

Lemma attempt_ok l : attempt (fun _ => None) l = None.
Proof. by apply attempt_None, Forall_true. Qed.

Lemma attempt_Some answer l what : attempt answer l = Some what -> exists c, c ∈ l /\ answer c = Some what.
Proof.
  induction l as [|c l IH]; cbn; [done|]. destruct (answer c) eqn:E.
  - intros [= ->]. exists c. split; [left|done].
  - intros (c' & ? & ?)%IH. exists c'. split; [by right|done].
Qed.
End Sockets.
Export Sockets.

(** ** The server over the network *)

Module BoostServer.

Definition configureSocket : list Call :=
  [SetOption (SendBufferSize (1024 * 1024 * 4)); SetOption (ReceiveBufferSize (1024 * 1024 * 4))].
Definition configureTcpSocket : list Call := configureSocket ++ [SetOption NoDelay].
Definition configureUdpSocket : list Call := configureSocket ++ [SetOption ReuseAddress].

(** [startUpstream] and [startDownstream] on their acceptors. *)
Definition listen (port : Z) : list Call := [Open; SetOption ReuseAddress; Bind port; Listen].

(** [createDatagram] up to the handler. *)
Definition datagram_calls (port : Z) : list Call := [Open; SetOption Broadcast] ++ configureUdpSocket ++ [Connect port].

(** An acceptor: closed, with an accept pending, or open with none. *)
Inductive Acceptor := NotOpen | Accepting | Ended.

(** What the network thread hands on. *)
Inductive Out :=
| OutUpstream (socket : Z)
| OutDownstream (socket : Z)
| OutDatagram (socket : Z)
| OutError (e : InternalError).

(** [thread] tells whether [workerThread_] was created; [ioStopped] whether
    the io context no longer runs its handlers. *)
Record State := mkState {
  running_ : bool;
  thread : bool;
  upstreamAcceptor_ : Acceptor;
  downstreamAcceptor_ : Acceptor;
  ioStopped : bool
}.

Definition init : State := mkState false false NotOpen NotOpen false.

(** [start] on the system thread; the flag is set by the new thread. *)
Definition start (s : State) : State :=
  if running_ s then s else mkState (running_ s) true (upstreamAcceptor_ s) (downstreamAcceptor_ s) (ioStopped s).

(** The ports of the configuration. *)
Record Ports := mkPorts { portTcpUp : Z; portTcpDown : Z; portUdp : Z }.

(** The answers to the calls on the two acceptors and on the datagram
    socket, which is numbered. *)
Record Setup := mkSetup { up_answer : Answer; down_answer : Answer; datagram : Z; datagram_answer : Answer }.

Definition failed (s : State) (what : string) : State * list Out :=
  (mkState (running_ s) (thread s) (upstreamAcceptor_ s) (downstreamAcceptor_ s) true,
   [OutError (mkInternalError SError what)]).

Definition startUpstream (s : State) : State := mkState (running_ s) (thread s) Accepting (downstreamAcceptor_ s) (ioStopped s).
Definition startDownstream (s : State) : State := mkState (running_ s) (thread s) (upstreamAcceptor_ s) Accepting (ioStopped s).

(** An exception is logged; the server goes on without a datagram socket. *)
Definition createDatagram (ports : Ports) (socket : Z) (answer : Answer) : list Out :=
  match attempt answer (datagram_calls (portUdp ports)) with None => [OutDatagram socket] | Some _ => [] end.

(** The network thread from its start to the end of the posted function. *)
Definition thread_run (s : State) (ports : Ports) (a : Setup) : State * list Out :=
  let s := mkState true (thread s) (upstreamAcceptor_ s) (downstreamAcceptor_ s) (ioStopped s) in
  match attempt (up_answer a) (listen (portTcpUp ports)) with
  | Some what => failed s what
  | None =>
      let s := startUpstream s in
      match attempt (down_answer a) (listen (portTcpDown ports)) with
      | Some what => failed s what
      | None => (startDownstream s, createDatagram ports (datagram a) (datagram_answer a))
      end
  end.

(** The completion of an accept: an error code, after which no further accept
    is started, or a socket, which is configured and handed over.  An option
    that is refused throws out of [ioCtx_.run()]. *)
Definition acceptUpstream (s : State) (r : Z + string) (answer : Answer) : State * list Out :=
  match r with
  | inr _ => (mkState (running_ s) (thread s) Ended (downstreamAcceptor_ s) (ioStopped s), [])
  | inl socket => match attempt answer configureTcpSocket with Some what => failed s what | None => (s, [OutUpstream socket]) end
  end.

Definition acceptDownstream (s : State) (r : Z + string) (answer : Answer) : State * list Out :=
  match r with
  | inr _ => (mkState (running_ s) (thread s) (upstreamAcceptor_ s) Ended (ioStopped s), [])
  | inl socket => match attempt answer configureTcpSocket with Some what => failed s what | None => (s, [OutDownstream socket]) end
  end.



(** The callback of [getHook]: whether what is posted through it runs. *)
Definition getHook (s : State) : bool := negb (ioStopped s).

(** [stop]; the flag tells whether the thread is joined. *)
Definition stop (s : State) : State * bool :=
  if running_ s then (mkState false false (upstreamAcceptor_ s) (downstreamAcceptor_ s) true, true) else (s, false).


(** *** What an accept loop hands over *)











(** A stop before the new thread has set its flag does nothing. *)
Lemma early_stop_is_lost s : running_ s = false -> stop (start s) = (start s, false).
Proof. intros Hr. unfold stop, start. rewrite Hr. cbn. by rewrite ?Hr. Qed.



End BoostServer.

(** ** The client over the network *)

Module BoostClient.

Inductive Out := OutUpstream (socket : Z) | OutDownstream (socket : Z) | OutDatagram (socket : Z) | OutError (e : InternalError).

(** [configureSocket] of a TCP or of another socket. *)
Definition configureSocket (tcp : bool) : list Call :=
  [SetOption (SendBufferSize (1024 * 1024 * 4)); SetOption (ReceiveBufferSize (1024 * 1024 * 4))] ++
  (if tcp then [SetOption NoDelay] else []).
Definition configureTcpSocket : list Call := configureSocket true ++ [SetOption NoDelay].

(** [createPrices] up to the handler. *)
Definition prices_calls (port : Z) : list Call := [Open; SetOption ReuseAddress] ++ configureSocket false ++ [Bind port].

(** [pending] has the connects that are under way: true for the upstream
    connection. *)
Record State := mkState { ioStopped : bool; pending : list bool }.

Definition init : State := mkState false [].

(** An exception is logged; the client goes on without prices. *)
Definition createPrices (port socket : Z) (answer : Answer) : list Out :=
  match attempt answer (prices_calls port) with None => [OutDatagram socket] | Some _ => [] end.

(** The network thread to the end of the posted function.  [make_address]
    throws on a bad address, before the first connect. *)
Definition thread_run (s : State) (bad_address : option string) (portUdp socket : Z) (answer : Answer) : State * list Out :=
  if ioStopped s then (s, [])
  else
    match bad_address with
    | Some what => (mkState true [], [OutError (mkInternalError SError what)])
    | None => (mkState false [true; false], createPrices portUdp socket answer)
    end.

(** The completion of a connect, which may come in either order: an error is
    logged and nothing else. *)
Definition asyncConnect (s : State) (up : bool) (r : Z + string) (answer : Answer) : State * list Out :=
  if ioStopped s || negb (bool_decide (up ∈ pending s)) then (s, [])
  else
    let s := mkState (ioStopped s) (filter (fun b => b <> up) (pending s)) in
    match r with
    | inl socket =>
        match attempt answer configureTcpSocket with
        | Some what => (mkState true (pending s), [OutError (mkInternalError SError what)])
        | None => (s, [if up then OutUpstream socket else OutDownstream socket])
        end
    | inr _ => (s, [])
    end.

Definition stop (s : State) : State := mkState true (pending s).

(** A server that refuses both connections leaves the client as it is: the
    control center is told nothing, and no further attempt is made. *)
Lemma refused_connection_is_silent s port socket answer e1 e2 a1 a2 up :
  ioStopped s = false -> let '(s1, o) := thread_run s None port socket answer in
  let '(s2, o1) := asyncConnect s1 up (inr e1) a1 in let '(s3, o2) := asyncConnect s2 (negb up) (inr e2) a2 in
  o = createPrices port socket answer /\ o1 = [] /\ o2 = [] /\ s3 = mkState false [].
Proof. intros H. unfold thread_run. rewrite H. by destruct up. Qed.

(** A server that can be reached on both ports gets the client connected in
    whichever order the connects complete, once each, however often the
    completions are delivered. *)
Lemma connects_in_either_order s port prices answer up zu zd a1 a2 : ioStopped s = false ->
  attempt a1 configureTcpSocket = None -> attempt a2 configureTcpSocket = None ->
  let '(s1, _) := thread_run s None port prices answer in
  let '(s2, o1) := asyncConnect s1 up (inl (if up then zu else zd)) a1 in
  let '(s3, o2) := asyncConnect s2 (negb up) (inl (if up then zd else zu)) a2 in
  s3 = mkState false [] /\
  (if up then o1 = [OutUpstream zu] /\ o2 = [OutDownstream zd] else o1 = [OutDownstream zd] /\ o2 = [OutUpstream zu]).
Proof. intros H H1 H2. unfold thread_run. rewrite H. destruct up; unfold asyncConnect; rewrite H1, H2; vm_compute; done. Qed.
End BoostClient.

(** Both ends of a TCP connection and both ends of the price feed agree on the
    options of their sockets: the two programs accept the same ones, whatever
    the order and repetition in which they set them. *)
Lemma stream_sockets_alike answer :
  attempt answer BoostServer.configureTcpSocket = None <-> attempt answer BoostClient.configureTcpSocket = None.
Proof. rewrite !attempt_None. unfold BoostServer.configureTcpSocket, BoostClient.configureTcpSocket. cbn. rewrite !Forall_cons, !Forall_nil. tauto. Qed.

(** ** The server over shared memory *)

Module ShmServer.
Section Shm.
Context {Session Transport : Type} (acceptUpstream acceptDownstream : Session -> Transport -> Session).

(** [initialize] with both callbacks set: the reader's end of the upstream
    queue and the writer's end of the downstream one. *)
Definition initialize (s : Session) (reader writer : Transport) : Session :=
  acceptDownstream (acceptUpstream s reader) writer.

(** [start]; the flag tells whether the reactor is run, which reports
    [ComponentReady{Ipc}] when it starts. *)
Definition start (reactorRunning : bool) (s : Session) (reader writer : Transport) : Session * bool :=
  if reactorRunning then (s, false) else (initialize s reader writer, true).
End Shm.

(** The names of the queues of the configuration, and which end each program
    takes of them; a handler that is not set takes none. *)
Inductive End := Reader (name : string) | Writer (name : string).

Definition ends (get : string -> string) (upstreamClb downstreamClb : bool) : list End :=
  (if upstreamClb then [Reader (get "shm.shm_upstream"%string)] else []) ++
  (if downstreamClb then [Writer (get "shm.shm_downstream"%string)] else []).
End ShmServer.

(** ** The client over shared memory *)

Module ShmClient.
Import ShmServer.

(** [initialize] of the client takes the other ends. *)
Definition ends (get : string -> string) (upstreamClb downstreamClb : bool) : list End :=
  (if upstreamClb then [Writer (get "shm.shm_upstream"%string)] else []) ++
  (if downstreamClb then [Reader (get "shm.shm_downstream"%string)] else []).

Definition opposite (e : End) : End := match e with Reader n => Writer n | Writer n => Reader n end.

(** With the same names in both configurations each queue has its reader in
    one program and its writer in the other. *)
Lemma shm_ends_meet get up down : ends get up down = map opposite (ShmServer.ends get up down).
Proof. by destruct up, down. Qed.
End ShmClient.
