(* ===== verification/PriceFeed.v ===== *)
(** * The price feed

    Models [PriceFeed] (server/src/price_feed.hpp): the fluctuations of the
    tickers' prices and the timer that broadcasts them.  [double] is a
    parameter with the operations the code uses; the random draws and the
    clock are inputs. *)

From stdpp Require Import list.
From S2P Require Import Prelude Types.

Section PriceFeed.
Context {Double : Type} (dmul dadd : Double -> Double -> Double) (of_int : Z -> Double) (to_price : Double -> Z).

(** ** Fluctuations *)

Definition MIN_DURATION_US : Z := 100000.
Definition MAX_DURATION_US : Z := 5000000.

Record Fluctuation := mkFluctuation {
  base : TickerPrice;
  price : Double;
  rate : Double;
  drift : Double;
  duration : Z;
  lastUpdate : Z
}.

(** The draws of [randomize]: a factor around the drift and a duration. *)
Record Draw := mkDraw { d_factor : Double -> Double; d_duration : Z }.

Definition randomize (f : Fluctuation) (d : Draw) (now : Z) : Fluctuation :=
  mkFluctuation (base f) (price f) (dmul (price f) (d_factor d (drift f))) (drift f) (d_duration d) now.

Definition make (b : TickerPrice) (zero drift : Double) (d : Draw) (now : Z) : Fluctuation :=
  randomize (mkFluctuation b (of_int (tp_price b)) zero drift 0 0) d now.

(** [std::round] and the cast to [Price] *)
Definition getPrice (f : Fluctuation) : Z := to_price (price f).

(** [update]; the flag is its result.  The difference of the 64-bit time
    stamps wraps. *)
Definition update (f : Fluctuation) (timeStamp : Z) (d : Draw) : Fluctuation * bool :=
  let timeDelta := u64 (timeStamp - lastUpdate f) in
  let '(timeDelta, duration') := if timeDelta <? duration f then (timeDelta, duration f - timeDelta) else (duration f, 0) in
  let f := mkFluctuation (base f) (dadd (price f) (dmul (rate f) (of_int timeDelta))) (rate f) (drift f) duration' (lastUpdate f) in
  let f := if duration' =? 0 then randomize f d timeStamp
           else mkFluctuation (base f) (price f) (rate f) (drift f) (duration f) timeStamp in
  (f, negb (tp_price (base f) =? getPrice f)).

(** A trend lasts its duration: it is followed for the time that has passed
    until that much has passed in all, and for the rest of it then; after
    that a new one is drawn. *)
Lemma update_before f t d : lastUpdate f <= t < lastUpdate f + duration f -> 0 <= lastUpdate f -> t < 2 ^ 64 ->
  (update f t d).1 = mkFluctuation (base f) (dadd (price f) (dmul (rate f) (of_int (t - lastUpdate f)))) (rate f) (drift f)
    (lastUpdate f + duration f - t) t.
Proof.
  intros H1 H2 H3. unfold update. rewrite u64_small by lia. rewrite (proj2 (Z.ltb_lt _ _)) by lia.
  cbn [duration base price rate drift lastUpdate]. rewrite (proj2 (Z.eqb_neq _ _)) by lia. cbn. f_equal. lia.
Qed.

Lemma update_after f t d : lastUpdate f + duration f <= t -> 0 <= lastUpdate f -> 0 <= duration f -> t < 2 ^ 64 ->
  (update f t d).1 = randomize (mkFluctuation (base f) (dadd (price f) (dmul (rate f) (of_int (duration f)))) (rate f) (drift f)
    0 (lastUpdate f)) d t.
Proof.
  intros H1 H2 H3 H4. unfold update. rewrite u64_small by lia. by rewrite (proj2 (Z.ltb_ge _ _)) by lia.
Qed.

(** The durations are drawn in microseconds while the time stamps count
    nanoseconds: the longest trend is over five milliseconds after it was
    drawn, where five seconds are meant. *)
Lemma longest_trend_is_5ms f t d : 0 <= duration f <= MAX_DURATION_US -> 0 <= lastUpdate f ->
  lastUpdate f + 5 * 1000000 (* ns in 5 ms *) <= t < 2 ^ 64 ->
  duration (update f t d).1 = d_duration d /\ lastUpdate (update f t d).1 = t.
Proof. intros H1 H2 H3. unfold MAX_DURATION_US in H1. by rewrite update_after by lia. Qed.

(** ** The feed *)

(** [timer] tells whether the timer is armed, [expired] counts the expired
    waits whose handlers have yet to run: cancelling the timer does not reach
    them. *)
Record State := mkState {
  fluctuations_ : list Fluctuation;
  updating_ : bool;
  timer : bool;
  expired : nat
}.

(** The constructor: the answer of the database. *)
Definition construct (r : list TickerPrice + StatusCode) (mk : TickerPrice -> Fluctuation) : res State :=
  match r with
  | inr _ => Err (Throw "Failed to load tickers")
  | inl tickers => Ok (mkState (map mk tickers) false false 0)
  end.

Definition schedulePriceUpdate (s : State) : State :=
  if updating_ s then mkState (fluctuations_ s) (updating_ s) true (expired s) else s.

Definition start (s : State) : State := schedulePriceUpdate (mkState (fluctuations_ s) true (timer s) (expired s)).

Definition stop (s : State) : State := mkState (fluctuations_ s) false false (expired s).

(** One draw per fluctuation. *)
Fixpoint updatePrices (fs : list Fluctuation) (timeStamp : Z) (ds : nat -> Draw) : list Fluctuation * list TickerPrice :=
  match fs with
  | [] => ([], [])
  | f :: fs =>
      let '(f, changed) := update f timeStamp (ds 0%nat) in
      let '(fs, posts) := updatePrices fs timeStamp (fun n => ds (S n)) in
      (f :: fs, (if changed : bool then [mkTickerPrice (tp_ticker (base f)) (getPrice f)] else []) ++ posts)
  end.

(** The wait expires. *)
Definition expire (s : State) : State :=
  if timer s then mkState (fluctuations_ s) (updating_ s) false (S (expired s)) else s.

(** The handler of an expired wait. *)
Definition onTimer (s : State) (timeStamp : Z) (ds : nat -> Draw) : State * list TickerPrice :=
  match expired s with
  | O => (s, [])
  | S n =>
      let '(fs, posts) := updatePrices (fluctuations_ s) timeStamp ds in
      (schedulePriceUpdate (mkState fs (updating_ s) (timer s) n), posts)
  end.

(** ** What is broadcast *)

Lemma updatePrices_spec fs t ds : let '(fs', posts) := updatePrices fs t ds in
  map base fs' = map base fs /\
  forall p, p ∈ posts <-> exists f, f ∈ fs' /\ getPrice f <> tp_price (base f) /\ p = mkTickerPrice (tp_ticker (base f)) (getPrice f).
Proof.
  revert ds. induction fs as [|f fs IH]; intros ds; cbn [updatePrices].
  { split; [done|]. intros p. split; [by intros ?%elem_of_nil|]. by intros (f & ?%elem_of_nil & _). }
  assert (Hb : base (update f t (ds 0%nat)).1 = base f).
  { unfold update. destruct (if _ <? duration f then _ else _) as [td du]. cbn. by destruct (du =? 0). }
  assert (Hc : (update f t (ds 0%nat)).2 = negb (tp_price (base f) =? getPrice (update f t (ds 0%nat)).1)).
  { rewrite <- Hb at 1. unfold update. by destruct (if _ <? duration f then _ else _) as [td du]. }
  destruct (update f t (ds 0%nat)) as [f' changed]. cbn [fst snd] in *. subst changed.
  specialize (IH (fun n => ds (S n))). destruct (updatePrices fs t _) as [fs' posts]. destruct IH as [IH1 IH2].
  split; [cbn; by rewrite IH1, Hb|]. intros p. rewrite elem_of_app, IH2. rewrite Hb.
  destruct (Z.eqb_spec (tp_price (base f)) (getPrice f')) as [E|E]; cbn [negb].
  - split.
    + intros [?%elem_of_nil|(g & Hg & Hne & ->)]; [done|]. exists g. split_and!; [by right|done..].
    + intros (g & [->|Hg]%elem_of_cons & Hne & ->); [by rewrite Hb, E in Hne|]. right. by exists g.
  - split.
    + intros [->%list_elem_of_singleton|(g & Hg & Hne & ->)]; [exists f'; rewrite Hb; split_and!; [by left|congruence|done]|].
      exists g. split_and!; [by right|done..].
    + intros (g & [->|Hg]%elem_of_cons & Hne & ->); [left; rewrite Hb; by left|]. right. by exists g.
Qed.

(** Events of the feed's thread. *)
Inductive Event := EStart | EStop | EExpire | ETimer (t : Z) (ds : nat -> Draw).

Definition handle (s : State) (e : Event) : State * list TickerPrice :=
  match e with
  | EStart => (start s, [])
  | EStop => (stop s, [])
  | EExpire => (expire s, [])
  | ETimer t ds => onTimer s t ds
  end.

Fixpoint run (s : State) (es : list Event) : State * list (list TickerPrice) :=
  match es with
  | [] => (s, [])
  | e :: es => let '(s, p) := handle s e in let '(s, ps) := run s es in (s, p :: ps)
  end.

Definition Inv (s : State) : Prop := timer s = true -> updating_ s = true.

Lemma handle_Inv s e : Inv s -> Inv (handle s e).1.
Proof.
  intros HI. destruct e; cbn [handle].
  - done.
  - done.
  - unfold expire. by destruct (timer s) eqn:E.
  - unfold onTimer. destruct (expired s); [done|]. destruct (updatePrices _ _ _) as [fs posts]. cbn.
    unfold schedulePriceUpdate. destruct (updating_ s) eqn:E; [done|]. intros H. cbn in *. rewrite HI in E; done.
Qed.

Lemma run_Inv s es : Inv s -> Inv (run s es).1.
Proof.
  revert s. induction es as [|e es IH]; intros s HI; cbn [run]; [done|]. pose proof (handle_Inv s e HI) as H1.
  destruct (handle s e) as [s1 p]. specialize (IH s1 H1). by destruct (run s1 es).
Qed.

Definition broadcasts (ps : list (list TickerPrice)) : nat := length (filter (fun p => p <> []) ps).

(** In every run of the feed, each price broadcast is the current price
    of a ticker that differs from its base price, and after a stop, without
    a further start, there are at most as many broadcasts as waits had
    expired when it was stopped, whatever the timer does. *)
Theorem price_feed_stops s es es' : Inv s -> EStart ∉ es' ->
  let s1 := (handle (run s es).1 EStop).1 in
  (broadcasts (run s1 es').2 <= expired s1)%nat /\ timer (run s1 es').1 = false /\
  forall t ds p, p ∈ (onTimer s1 t ds).2 -> exists f, f ∈ fluctuations_ (onTimer s1 t ds).1 /\
    getPrice f <> tp_price (base f) /\ p = mkTickerPrice (tp_ticker (base f)) (getPrice f).
Proof.
  intros HI Hes. apply (run_Inv s es) in HI. destruct (run s es) as [s0 ps]. cbn [fst] in HI. cbn zeta.
  assert (Hoff : forall es' s, EStart ∉ es' -> updating_ s = false -> timer s = false ->
    (broadcasts (run s es').2 <= expired s)%nat /\ timer (run s es').1 = false).
  { clear. induction es' as [|e es' IH]; intros s Hes Hu Ht; cbn [run]; [cbn; split; [lia|done]|].
    apply not_elem_of_cons in Hes as [Hne Hes]. destruct e as [| | |t ds]; [done| | |]; cbn [handle].
    - destruct (IH (stop s) Hes eq_refl eq_refl) as [I1 I2]. destruct (run (stop s) es') as [s2 ps]. by split.
    - assert (E : expire s = s) by (unfold expire; by rewrite Ht). rewrite E.
      destruct (IH s Hes Hu Ht) as [I1 I2]. destruct (run s es') as [s2 ps]. by split.
    - unfold onTimer. destruct (expired s) as [|n] eqn:En.
      + destruct (IH s Hes Hu Ht) as [I1 I2]. destruct (run s es') as [s2 ps]. rewrite En in I1. by split.
      + destruct (updatePrices (fluctuations_ s) t ds) as [fs posts]. unfold schedulePriceUpdate. cbn [updating_]. rewrite Hu.
        destruct (IH (mkState fs false (timer s) n) Hes eq_refl Ht) as [I1 I2]. cbn [expired] in I1.
        destruct (run (mkState fs false (timer s) n) es') as [s2 ps]. split; [|done]. unfold broadcasts in *. cbn [snd] in *.
        rewrite filter_cons. destruct (decide (posts <> [])); cbn [length]; lia. }
  destruct (Hoff es' (stop s0) Hes eq_refl eq_refl) as [H1 H2]. split; [exact H1|]. split; [exact H2|].
  intros t ds p. unfold onTimer. destruct (expired _); [by intros ?%elem_of_nil|]. cbn [handle fst].
  pose proof (updatePrices_spec (fluctuations_ (stop s0)) t ds) as Hspec. destruct (updatePrices _ t ds) as [fs posts].
  destruct Hspec as [_ Hspec]. cbn. by rewrite Hspec.
Qed.
End PriceFeed.

(** ** Example: integers for doubles *)

Definition example_draw : Draw (Double := Z) := mkDraw (fun _ => 0) 1000000.
Definition example_feed : State (Double := Z) :=
  mkState [mkFluctuation (mkTickerPrice [] 100) 100 1 0 500 0] false false 0.

(** A wait expires, the feed is stopped, and the wait's handler still
    broadcasts the price after 7 ns. *)
Lemma price_feed_stops_witness :
  let s1 := stop (run Z.mul Z.add id id example_feed [EStart; EExpire]).1 in
  (run Z.mul Z.add id id s1 [ETimer 7 (fun _ => example_draw); ETimer 9 (fun _ => example_draw)]).2 = [[mkTickerPrice [] 107]; []] /\
  (broadcasts (run Z.mul Z.add id id s1 [ETimer 7 (fun _ => example_draw); ETimer 9 (fun _ => example_draw)]).2 <= 1)%nat.
Proof.
  split; [reflexivity|].
  assert (Hi : Inv example_feed) by done.
  assert (Hn : EStart ∉ [ETimer 7 (fun _ => example_draw); ETimer 9 (fun _ => example_draw)]).
  { intros [?|[?|?%elem_of_nil]%elem_of_cons]%elem_of_cons; done. }
  exact (proj1 (price_feed_stops Z.mul Z.add id id example_feed [EStart; EExpire] _ Hi Hn)).
Defined.
