(* ===== verification/Logging.v ===== *)
(** * Logging

    Models [SpdLogger] and the log macros
    (common/src/logging/spdlog/spd_logger.cpp, spd_logger.hpp): the levels,
    the file names in log lines, which loggers [initialize] sets up and
    which lines reach which of them.  spdlog is used by its documented
    behaviour: a logger passes a line on to its sink when the line's level
    is at least the logger's. *)

From Stdlib Require Import Ascii.
From stdpp Require Import list strings.
From S2P Require Import Prelude.

(** ** Levels *)

(** [level::level_enum] *)
Inductive LogLevel := Trace | Debug | Info | Warn | Error | Critical | Off.

#[export] Instance LogLevel_eq_dec : EqDecision LogLevel.
Proof. solve_decision. Defined.

Definition level_number (l : LogLevel) : Z :=
  match l with Trace => 0 | Debug => 1 | Info => 2 | Warn => 3 | Error => 4 | Critical => 5 | Off => 6 end.

Module Logging.

(** [std::tolower] in the C locale *)
Definition tolower (c : ascii) : ascii :=
  let n := Z.of_N (N_of_ascii c) in
  if (65 <=? n) && (n <=? 90) then ascii_of_N (Z.to_N (n + 32)) else c.

Definition lower (s : string) : string :=
  String.string_of_list_ascii (map tolower (String.list_ascii_of_string s)).

Definition fromString (levelStr : string) : LogLevel :=
  let levelStr := lower levelStr in
  if bool_decide (levelStr = "trace") then Trace
  else if bool_decide (levelStr = "debug") then Debug
  else if bool_decide (levelStr = "info") then Info
  else if bool_decide (levelStr = "warn") then Warn
  else if bool_decide (levelStr = "error") then Error
  else if bool_decide (levelStr = "crit") then Critical
  else if bool_decide (levelStr = "off") then Off
  else Info.

(** The name of a level in the configuration. *)
Definition level_name (l : LogLevel) : string :=
  match l with
  | Trace => "trace" | Debug => "debug" | Info => "info" | Warn => "warn" | Error => "error"
  | Critical => "crit" | Off => "off"
  end.

(** ** simpleFileName *)

(** The loop: [path] is what is left of it, [file] where the last name
    began. *)
Fixpoint last_name (path file : list ascii) : list ascii :=
  match path with
  | [] => file
  | c :: path => last_name path (if bool_decide (c = "/"%char) then path else file)
  end.

Definition simpleFileName (path : list ascii) : list ascii := last_name path path.

(** ** Loggers *)

Inductive Sink := Console | File (name : string) | Stdout.

Record Logger := mkLogger { sink : Sink; level : LogLevel }.

(** The two static loggers and spdlog's default one. *)
Record State := mkState {
  consoleLogger : option Logger;
  fileLogger : option Logger;
  default_logger : option Logger
}.

(** A line that reached a sink. *)
Record Line := mkLine { l_sink : Sink; l_level : LogLevel; l_msg : string }.

Definition log (lg : option Logger) (l : LogLevel) (msg : string) : list Line :=
  match lg with
  | Some lg => if level_number (level lg) <=? level_number l then [mkLine (sink lg) l msg] else []
  | None => []
  end.

Section Macros.
(** [SPDLOG_ACTIVE_LEVEL] *)
Context (ACTIVE_LEVEL : LogLevel).

(** [LOG_TRACE] to [LOG_ERROR] are empty below the active level. *)
Definition LOG (s : State) (l : LogLevel) (msg : string) : list Line :=
  if level_number ACTIVE_LEVEL <=? level_number l then log (default_logger s) l msg else [].

(** [LOG_TRACE_SYSTEM] to [LOG_ERROR_SYSTEM] *)
Definition LOG_SYSTEM (s : State) (l : LogLevel) (msg : string) : list Line :=
  LOG s l msg ++ log (consoleLogger s) l msg.

(** [initialize]; [opens] tells whether the log file can be opened, which
    throws otherwise. *)
Definition initialize (s : State) (log_level log_output : string) (opens : bool) : res (State * list Line) :=
  match fileLogger s with
  | Some _ => Ok (s, LOG_SYSTEM s Error "SpdLogger is already initialized")
  | None =>
      let console := mkLogger Console (fromString log_level) in
      if bool_decide (log_output = "") then Ok (mkState (Some console) (Some console) (Some console), [])
      else if opens then
        let file := mkLogger (File log_output) ACTIVE_LEVEL in Ok (mkState (Some console) (Some file) (Some file), [])
      else Err (Throw "Failed opening file")
  end.

(** ** Properties *)

(** How many times a message is printed on a sink. *)
Definition printed (on : Sink -> bool) (ls : list Line) : nat := length (filter (fun x => on (l_sink x) = true) ls).
Definition on_console (s : Sink) : bool := match s with Console => true | _ => false end.
Definition on_file (s : Sink) : bool := match s with File _ => true | _ => false end.

(** With a log file configured, a system message at or above the
    configured level is printed on the console exactly once, and one below
    it never; the file gets every message from the active level of the
    build up exactly once, and the console gets no message that is not a
    system message. *)
Theorem system_log_once s s' out lvl name l msg :
  fileLogger s = None -> name <> "" -> initialize s lvl name true = Ok (s', out) ->
  printed on_console (LOG_SYSTEM s' l msg) = (if level_number (fromString lvl) <=? level_number l then 1%nat else 0%nat) /\
  printed on_file (LOG_SYSTEM s' l msg) = (if level_number ACTIVE_LEVEL <=? level_number l then 1%nat else 0%nat) /\
  printed on_console (LOG s' l msg) = 0%nat.
Proof.
  intros Hf Hn E. unfold initialize in E. rewrite Hf, bool_decide_false in E by done. injection E as <- <-.
  unfold LOG_SYSTEM, LOG, log, printed. cbn [default_logger consoleLogger level sink].
  destruct (level_number ACTIVE_LEVEL <=? level_number l), (level_number (fromString lvl) <=? level_number l); done.
Qed.

(** Without a log file both loggers are the console: a system message of at
    least the active and the configured level is printed there twice. *)
Theorem system_log_doubled s lvl l msg : fileLogger s = None ->
  level_number ACTIVE_LEVEL <= level_number l -> level_number (fromString lvl) <= level_number l ->
  exists s', initialize s lvl "" true = Ok (s', []) /\ printed on_console (LOG_SYSTEM s' l msg) = 2%nat.
Proof.
  intros Hf H1 H2. unfold initialize. rewrite Hf. cbn. eexists. split; [done|].
  unfold LOG_SYSTEM, LOG, log, printed. cbn [default_logger consoleLogger level sink].
  by rewrite (proj2 (Z.leb_le _ _) H1), (proj2 (Z.leb_le _ _) H2).
Qed.
End Macros.

Lemma system_log_once_witness : exists s', initialize Error (mkState None None None) "INFO" "log.txt" true = Ok (s', []) /\
  printed on_console (LOG_SYSTEM Error s' Warn "x") = 1%nat.
Proof.
  eexists. split; [reflexivity|].
  apply (system_log_once Error (mkState None None None) _ [] "INFO" "log.txt" Warn "x"); [reflexivity|discriminate|reflexivity].
Defined.

Lemma system_log_doubled_witness : exists s', initialize Error (mkState None None None) "info" "" true = Ok (s', []) /\
  printed on_console (LOG_SYSTEM Error s' Error "x") = 2%nat.
Proof. apply (system_log_doubled Error (mkState None None None) "info" Error "x"); [reflexivity|cbn; lia|vm_compute; discriminate]. Defined.

(** Every name of a level is read back, in any case. *)
Lemma fromString_level_name l : fromString (level_name l) = l.
Proof. by destruct l. Qed.

Lemma lower_idem s : lower (lower s) = lower s.
Proof.
  unfold lower. rewrite String.list_ascii_of_string_of_list_ascii, map_map. f_equal. apply map_ext. intros c.
  unfold tolower. set (n := Z.of_N (N_of_ascii c)).
  destruct ((65 <=? n) && (n <=? 90)) eqn:E; [|unfold n in E; by rewrite E].
  apply andb_true_iff in E as [?%Z.leb_le ?%Z.leb_le].
  rewrite N_ascii_embedding by lia. rewrite Z2N.id by lia.
  destruct (Z.leb_spec 65 (n + 32)), (Z.leb_spec (n + 32) 90); cbn; try done; lia.
Qed.

Lemma fromString_any_case s : fromString (lower s) = fromString s.
Proof. unfold fromString. by rewrite lower_idem. Qed.

Definition ends_dir (pre : list ascii) : Prop := pre = [] \/ exists d, pre = d ++ ["/"%char].

Lemma last_name_spec path pre mid : ends_dir pre -> "/"%char ∉ mid ->
  exists dir, pre ++ mid ++ path = dir ++ last_name path (mid ++ path) /\ ends_dir dir /\
    "/"%char ∉ last_name path (mid ++ path).
Proof.
  revert pre mid. induction path as [|c path IH]; intros pre mid Hp Hm; cbn [last_name].
  { exists pre. rewrite app_nil_r. done. }
  case_bool_decide as Hc.
  - subst c. destruct (IH (pre ++ mid ++ ["/"%char]) []) as (dir & E & H).
    + right. exists (pre ++ mid). by rewrite (assoc_L app).
    + by apply not_elem_of_nil.
    + exists dir. cbn [app] in E, H. rewrite <- E. split; [by rewrite <- !(assoc_L app)|done].
  - destruct (IH pre (mid ++ [c]) Hp) as (dir & E & H).
    + rewrite elem_of_app, list_elem_of_singleton. intros [?|?]; congruence.
    + rewrite <- !(assoc_L app) in E, H. cbn in E, H. by exists dir.
Qed.

(** The name in a log line is what follows the last slash of the path. *)
Theorem simple_file_name_exact path : exists dir, path = dir ++ simpleFileName path /\ ends_dir dir /\
  "/"%char ∉ simpleFileName path.
Proof. apply (last_name_spec path [] []); [by left|by apply not_elem_of_nil]. Qed.
End Logging.
