(* ===== verification/Kafka.v ===== *)
(** * The Kafka adapter

    Models [KafkaAdapter], its callbacks and its event
    (common/src/adapters/kafka/kafka_adapter.hpp, kafka_callbacks.hpp,
    kafka_event.hpp).  librdkafka is a parameter: the result of each of its
    calls is an input ([Calls], the answers of [consume], of [produce] and
    of [outq_len]).  The steady timer of asio is the pending wait and the
    queue of its completions. *)

From stdpp Require Import gmap list strings.
From S2P Require Import Prelude Types Logging.

(** ** KafkaEvent *)

Inductive KafkaStatus := KError.

Record KafkaEvent := mkKafkaEvent { k_status : KafkaStatus; k_details : string }.

Definition toString_KafkaStatus (s : KafkaStatus) : string := match s with KError => "error" end.
Definition toString_KafkaEvent (e : KafkaEvent) : string :=
  ("KafkaEvent " +:+ toString_KafkaStatus (k_status e) +:+ " " +:+ k_details e)%string.

(** ** KafkaEventCallback and KafkaDeliveryCallback: which line they log *)

Inductive Severity := EMERG | ALERT | CRITICAL | ERROR | WARNING | NOTICE | INFO | DEBUG | OTHER_SEVERITY.
Inductive RdEvent :=
| EVENT_ERROR (err : string)
| EVENT_LOG (severity : Severity) (str : string)
| EVENT_STATS
| EVENT_THROTTLE
| OTHER_EVENT.

Definition severity_level (s : Severity) : option LogLevel :=
  match s with
  | EMERG | ALERT | CRITICAL => Some Error
  | ERROR => Some Error
  | WARNING | NOTICE => Some Warn
  | INFO => Some Info
  | DEBUG => Some Debug
  | OTHER_SEVERITY => None
  end.

Definition event_cb (e : RdEvent) : option (LogLevel * string) :=
  match e with
  | EVENT_ERROR err => Some (Error, err)
  | EVENT_LOG s str => (fun l => (l, str)) <$> severity_level s
  | EVENT_STATS | EVENT_THROTTLE | OTHER_EVENT => None
  end.

Definition dr_cb (err : option string) : option (LogLevel * string) :=
  match err with
  | Some errstr => Some (Error, ("Kafka delivery failed: " +:+ errstr)%string)
  | None => None
  end.

Module KafkaAdapter.
Section KafkaAdapter.
Context {Event Payload : Type} (serialize : Event -> Payload).

(** ** librdkafka *)

(** An object made by the library, named by its address; a [Topic] belongs
    to the producer it was made for. *)
Abbreviation Handle := nat.
Record Topic := mkTopic { t_name : string; t_producer : Handle }.

Inductive Setting :=
| Str (name value : string)
| EventCb
| DeliveryCb.

(** The results of the calls one [start] makes.  A text is the error that
    the call reports. *)
Record Calls := mkCalls {
  c_consumer_set : Setting -> option string;
  c_consumer : Handle + string;
  c_producer_set : Setting -> option string;
  c_producer : Handle + string;
  c_subscribe : option string;
  c_topic : string -> option string
}.

(** ** State *)

Record Config := mkConfig {
  broker_ : string;
  consumerGroup_ : string;
  pollRate_ : Z;              (* microseconds *)
  consumeTopics_ : list string;
  produceTopics_ : list string
}.

(** The completion an [async_wait] handler is called with. *)
Inductive Code := Expired | Aborted | Failed (message : string).

Record Adapter := mkAdapter {
  producer_ : option Handle;
  consumer_ : option Handle;
  produceTopicMap_ : gmap string Topic;
  waiting : bool;              (* timer_ has a wait in progress *)
  completions : list Code;     (* handlers ready to run *)
  started_ : bool;
  error_ : string;
  posted : list KafkaEvent;    (* on the bus *)
  consumed : list Payload;     (* deserialized to the bus *)
  produced : list (Handle * Topic * Payload)
}.

Definition construct : Adapter := mkAdapter None None ∅ false [] false "" [] [] [].

Definition set_producer (a : Adapter) x := mkAdapter x (consumer_ a) (produceTopicMap_ a) (waiting a) (completions a) (started_ a) (error_ a) (posted a) (consumed a) (produced a).
Definition set_consumer (a : Adapter) x := mkAdapter (producer_ a) x (produceTopicMap_ a) (waiting a) (completions a) (started_ a) (error_ a) (posted a) (consumed a) (produced a).
Definition set_topics (a : Adapter) x := mkAdapter (producer_ a) (consumer_ a) x (waiting a) (completions a) (started_ a) (error_ a) (posted a) (consumed a) (produced a).
Definition set_timer (a : Adapter) w c := mkAdapter (producer_ a) (consumer_ a) (produceTopicMap_ a) w c (started_ a) (error_ a) (posted a) (consumed a) (produced a).
Definition set_started (a : Adapter) x := mkAdapter (producer_ a) (consumer_ a) (produceTopicMap_ a) (waiting a) (completions a) x (error_ a) (posted a) (consumed a) (produced a).
Definition set_error (a : Adapter) x := mkAdapter (producer_ a) (consumer_ a) (produceTopicMap_ a) (waiting a) (completions a) (started_ a) x (posted a) (consumed a) (produced a).
Definition add_posted (a : Adapter) e := mkAdapter (producer_ a) (consumer_ a) (produceTopicMap_ a) (waiting a) (completions a) (started_ a) (error_ a) (posted a ++ [e]) (consumed a) (produced a).
Definition add_consumed (a : Adapter) m := mkAdapter (producer_ a) (consumer_ a) (produceTopicMap_ a) (waiting a) (completions a) (started_ a) (error_ a) (posted a) (consumed a ++ [m]) (produced a).
Definition add_produced (a : Adapter) m := mkAdapter (producer_ a) (consumer_ a) (produceTopicMap_ a) (waiting a) (completions a) (started_ a) (error_ a) (posted a) (consumed a) (produced a ++ [m]).

(** ** Operations *)

Definition error (a : Adapter) : bool := negb (bool_decide (error_ a = "")).

(** [onFatalError(error = "")] *)
Definition onFatalError (a : Adapter) (error : string) : Adapter :=
  let a := if bool_decide (error = "") then a else set_error a error in
  add_posted a (mkKafkaEvent KError (error_ a)).

(** [conf->set(...) != CONF_OK || ...]: the first failing call writes its
    text to [error_] and ends the chain. *)
Fixpoint conf_set (set : Setting -> option string) (l : list Setting) (a : Adapter) : Adapter * bool :=
  match l with
  | [] => (a, true)
  | s :: l => match set s with Some e => (set_error a e, false) | None => conf_set set l a end
  end.

Section Config.
Context (cfg : Config).

Definition consumer_settings : list Setting :=
  [Str "bootstrap.servers" (broker_ cfg); EventCb; Str "group.id" (consumerGroup_ cfg);
   Str "fetch.wait.max.ms" "10"; Str "fetch.min.bytes" "1"; Str "session.timeout.ms" "6000";
   Str "heartbeat.interval.ms" "2000"].

Definition producer_settings : list Setting := [Str "bootstrap.servers" (broker_ cfg); DeliveryCb; EventCb].

Definition createConsumer (a : Adapter) (c : Calls) : Adapter * bool :=
  match consumer_ a with
  | Some _ => (a, false)
  | None =>
      let '(a, ok) := conf_set (c_consumer_set c) consumer_settings a in
      if ok then
        match c_consumer c with
        | inl h => (set_consumer a (Some h), true)
        | inr e => (onFatalError (set_error a e) "", false)
        end
      else (onFatalError a "", false)
  end.

Definition createProducer (a : Adapter) (c : Calls) : Adapter * bool :=
  match producer_ a with
  | Some _ => (a, false)
  | None =>
      let '(a, ok) := conf_set (c_producer_set c) producer_settings a in
      if ok then
        match c_producer c with
        | inl h => (set_producer a (Some h), true)
        | inr e => (onFatalError (set_error a e) "", false)
        end
      else (onFatalError a "", false)
  end.

Definition startConsume (a : Adapter) (c : Calls) : Adapter * bool :=
  match consumer_ a with
  | None => (a, false)
  | Some _ => match c_subscribe c with Some e => (onFatalError a e, false) | None => (a, true) end
  end.

(** The loop of [startProduce]; [insert] keeps the entry of a key the map
    has. *)
Fixpoint createTopics (c : Calls) (p : Handle) (topics : list string) (a : Adapter) : Adapter * bool :=
  match topics with
  | [] => (a, true)
  | topic :: topics =>
      match c_topic c topic with
      | Some e =>
          (onFatalError (set_error a e) ("Failed to create topic " +:+ topic +:+ ": " +:+ e)%string, false)
      | None =>
          let a := if produceTopicMap_ a !! topic then a
                   else set_topics a (<[topic := mkTopic topic p]> (produceTopicMap_ a)) in
          createTopics c p topics a
      end
  end.

Definition startProduce (a : Adapter) (c : Calls) : Adapter * bool :=
  match producer_ a with
  | None => (a, false)
  | Some p => createTopics c p (produceTopics_ cfg) a
  end.

(** [timer_.cancel()], and the cancelling part of [expires_after] *)
Definition cancel_timer (a : Adapter) : Adapter :=
  if waiting a then set_timer a false (completions a ++ [Aborted]) else a.

Definition schedulePoll (a : Adapter) : Adapter :=
  if started_ a then let a := cancel_timer a in set_timer a true (completions a) else a.

Definition start (a : Adapter) (c : Calls) : Adapter * bool :=
  if started_ a then (a, false)
  else
    let '(a, ok) := createConsumer a c in
    if negb ok then (a, false)
    else
      let '(a, ok) := createProducer a c in
      if negb ok then (set_consumer a None, false)
      else
        let '(a, ok) := startConsume a c in
        let '(a, ok) := if ok then startProduce a c else (a, false) in
        if negb ok then (set_producer (set_consumer a None) None, false)
        else (schedulePoll (set_started a true), true).
End Config.

(** The flush loop of [stop], on the successive answers of [outq_len]: how
    many times it flushes, if it comes to an end on them. *)
Fixpoint flushes (outq : list nat) : res nat :=
  match outq with
  | [] => Err OutOfFuel
  | O :: _ => Ok O
  | S _ :: outq => let! n := flushes outq in Ok (S n)
  end.

Definition stop (a : Adapter) (outq : list nat) : res Adapter :=
  let a := cancel_timer (set_started a false) in
  let! _ := match producer_ a with None => Ok O | Some _ => flushes outq end in
  Ok (set_topics a ∅).

(** [produce]; [result] is the error of [producer_->produce] *)
Definition produce (a : Adapter) (event : Event) (topic : string) (result : option string) : res Adapter :=
  match produceTopicMap_ a !! topic with
  | None => Ok a
  | Some t =>
      let serializedMsg := serialize event in
      match producer_ a with
      | None => Err NullDeref
      | Some p =>
          match result with
          | None => Ok (add_produced a (p, t, serializedMsg))
          | Some err => Ok (onFatalError a err)
          end
      end
  end.

(** What [consume(0)] answers.  The handlers that a deserialized message
    reaches on the bus may call the adapter. *)
Inductive Reaction :=
| Ignore
| Stop (outq : list nat)
| Produce (event : Event) (topic : string) (result : option string).

Inductive Message :=
| Data (p : Payload) (r : Reaction)
| TimedOut
| Fault (err : Z).

Definition react (a : Adapter) (r : Reaction) : res Adapter :=
  match r with
  | Ignore => Ok a
  | Stop outq => stop a outq
  | Produce e t result => produce a e t result
  end.

Definition CONSUME_CHUNK : nat := 100.

(** The loop of [pollConsume], on the messages the consumer holds; with
    none left [consume(0)] times out.  Returns what is left too. *)
Fixpoint poll_loop (n : nat) (a : Adapter) (msgs : list Message) : res (Adapter * list Message) :=
  match n with
  | O => Ok (a, msgs)
  | S n =>
      if started_ a then
        match consumer_ a with
        | None => Err NullDeref
        | Some _ =>
            match msgs with
            | Data p r :: msgs => let! a := react (add_consumed a p) r in poll_loop n a msgs
            | Fault _ :: msgs => Ok (a, msgs)
            | TimedOut :: msgs => Ok (a, msgs)
            | [] => Ok (a, [])
            end
        end
      else Ok (a, msgs)
  end.

Definition pollConsume (a : Adapter) (msgs : list Message) : res (Adapter * list Message) :=
  poll_loop CONSUME_CHUNK a msgs.

(** The wait of the timer ends. *)
Definition expire (a : Adapter) : Adapter :=
  if waiting a then set_timer a false (completions a ++ [Expired]) else a.
Definition fail_wait (a : Adapter) (message : string) : Adapter :=
  if waiting a then set_timer a false (completions a ++ [Failed message]) else a.

(** The handler of [async_wait] *)
Definition onTimer (a : Adapter) (msgs : list Message) : res (Adapter * list Message) :=
  match completions a with
  | [] => Ok (a, msgs)
  | code :: rest =>
      let a := set_timer a (waiting a) rest in
      match code with
      | Failed message => Ok (onFatalError a message, msgs)
      | Aborted => Ok (a, msgs)
      | Expired =>
          let! (a, msgs) := pollConsume a msgs in
          match producer_ a with
          | None => Err NullDeref
          | Some _ => Ok (schedulePoll a, msgs)
          end
      end
  end.

(** ** Runs *)

Inductive Op :=
| OStart (c : Calls)
| OStop (outq : list nat)
| OProduce (event : Event) (topic : string) (result : option string)
| OExpire
| OFail (message : string)
| OTimer (msgs : list Message).

Context (cfg : Config).

Definition exec (a : Adapter) (o : Op) : res Adapter :=
  match o with
  | OStart c => Ok (start cfg a c).1
  | OStop outq => stop a outq
  | OProduce e t result => produce a e t result
  | OExpire => Ok (expire a)
  | OFail message => Ok (fail_wait a message)
  | OTimer msgs => let! (a, _) := onTimer a msgs in Ok a
  end.

Fixpoint run (a : Adapter) (os : list Op) : res Adapter :=
  match os with
  | [] => Ok a
  | o :: os => let! a := exec a o in run a os
  end.

(** ** What holds in every state *)

Definition live (a : Adapter) : Prop := is_Some (consumer_ a) /\ is_Some (producer_ a).

(** The consumer and the producer exist together, and whatever can come to
    poll has both; a topic handle in the map or in use is one of the
    producer. *)
Record Inv (a : Adapter) : Prop := {
  inv_none : consumer_ a = None -> producer_ a = None;
  inv_none' : producer_ a = None -> consumer_ a = None;
  inv_started : started_ a = true -> live a;
  inv_waiting : waiting a = true -> live a;
  inv_expired : Expired ∈ completions a -> live a
}.

Record Owned (a : Adapter) : Prop := {
  own_none : producer_ a = None -> produceTopicMap_ a = ∅;
  own_topics t h : produceTopicMap_ a !! t = Some h -> t_name h = t /\ producer_ a = Some (t_producer h);
  own_complete : started_ a = true -> forall t, t ∈ produceTopics_ cfg -> is_Some (produceTopicMap_ a !! t);
  own_produced : Forall (fun x => t_producer x.1.2 = x.1.1) (produced a)
}.

(** No topic is refused. *)
Definition topics_ok (c : Calls) : Prop := Forall (fun t => c_topic c t = None) (produceTopics_ cfg).

Definition op_ok (o : Op) : Prop := match o with OStart c => topics_ok c | _ => True end.

Lemma Inv_construct : Inv construct.
Proof. split; try done. by intros ?%elem_of_nil. Qed.

Lemma Owned_construct : Owned construct.
Proof. split; [done| |done|constructor]. intros t h. cbn. by rewrite lookup_empty. Qed.

(** The fields that the calls into the library leave alone. *)
Definition same_handles (a a' : Adapter) : Prop :=
  producer_ a' = producer_ a /\ consumer_ a' = consumer_ a /\ waiting a' = waiting a /\
  completions a' = completions a /\ started_ a' = started_ a /\ produced a' = produced a /\
  consumed a' = consumed a.

Lemma same_refl a : same_handles a a.
Proof. done. Qed.

Lemma same_trans a b c : same_handles a b -> same_handles b c -> same_handles a c.
Proof. unfold same_handles. intuition congruence. Qed.

Lemma fatal_same a e : same_handles a (onFatalError a e) /\ produceTopicMap_ (onFatalError a e) = produceTopicMap_ a.
Proof. unfold onFatalError. by case_bool_decide. Qed.

Lemma fatal_same_error a e e' : same_handles a (onFatalError (set_error a e) e') /\
  produceTopicMap_ (onFatalError (set_error a e) e') = produceTopicMap_ a.
Proof. unfold onFatalError. by case_bool_decide. Qed.

Lemma conf_set_same set l a : same_handles a (conf_set set l a).1 /\ produceTopicMap_ (conf_set set l a).1 = produceTopicMap_ a.
Proof. induction l as [|s l IH]; [done|]. cbn. by destruct (set s). Qed.

Lemma conf_set_ok set l a : (conf_set set l a).2 = true <-> Forall (fun s => set s = None) l.
Proof.
  induction l as [|s l IH]; cbn; [by split; [constructor|]|]. rewrite Forall_cons, <- IH.
  destruct (set s); cbn; split; [done|by intros [? _]|done|by intros [_ ?]].
Qed.

Lemma conf_set_id set l a : (conf_set set l a).2 = true -> (conf_set set l a).1 = a.
Proof. induction l as [|s l IH]; cbn; [done|]. by destruct (set s). Qed.

Lemma createTopics_same c p ts a : same_handles a (createTopics c p ts a).1.
Proof.
  revert a. induction ts as [|t ts IH]; intros a; cbn [createTopics]; [done|]. destruct (c_topic c t).
  - eapply same_trans, fatal_same. done.
  - eapply same_trans, IH. by destruct (produceTopicMap_ a !! t).
Qed.

Lemma createTopics_ok c p ts a : (createTopics c p ts a).2 = true <-> Forall (fun t => c_topic c t = None) ts.
Proof.
  revert a. induction ts as [|t ts IH]; intros a; cbn [createTopics]; [by split; [constructor|]|].
  rewrite Forall_cons. destruct (c_topic c t); [by split; [|intros [? _]]|]. rewrite IH. tauto.
Qed.

(** The topics that were not in the map come to belong to [p]. *)
Lemma createTopics_map c p ts a t : Forall (fun t => c_topic c t = None) ts ->
  produceTopicMap_ (createTopics c p ts a).1 !! t =
    match produceTopicMap_ a !! t with
    | Some h => Some h
    | None => if bool_decide (t ∈ ts) then Some (mkTopic t p) else None
    end.
Proof.
  intros H. revert a. induction ts as [|u ts IH]; intros a; cbn [createTopics fst].
  { rewrite bool_decide_false by apply not_elem_of_nil. by destruct (produceTopicMap_ a !! t). }
  apply Forall_cons in H as [Hu H]. rewrite Hu, IH by done. clear IH.
  destruct (produceTopicMap_ a !! u) as [hu|] eqn:Eu.
  - destruct (produceTopicMap_ a !! t) eqn:Et; [done|]. assert (t <> u) by congruence. repeat case_bool_decide; set_solver.
  - cbn. destruct (decide (u = t)) as [->|Hne].
    + rewrite lookup_insert_eq, Eu, bool_decide_true by set_solver. done.
    + rewrite lookup_insert_ne by done. destruct (produceTopicMap_ a !! t); [done|].
      repeat case_bool_decide; set_solver.
Qed.

Lemma cancel_timer_spec a : waiting (cancel_timer a) = false /\
  (Expired ∈ completions (cancel_timer a) <-> Expired ∈ completions a) /\
  producer_ (cancel_timer a) = producer_ a /\ consumer_ (cancel_timer a) = consumer_ a /\
  started_ (cancel_timer a) = started_ a /\ produceTopicMap_ (cancel_timer a) = produceTopicMap_ a /\
  produced (cancel_timer a) = produced a /\ consumed (cancel_timer a) = consumed a.
Proof.
  unfold cancel_timer. destruct (waiting a) eqn:E; [|done]. cbn. repeat split; try done.
  - intros H%elem_of_app. destruct H as [H|H]; [done|]. by apply list_elem_of_singleton in H.
  - intros H. set_solver.
Qed.

(** *** [start] *)

(** What has to succeed. *)
Definition all_succeed (c : Calls) : Prop :=
  Forall (fun s => c_consumer_set c s = None) (consumer_settings cfg) /\
  Forall (fun s => c_producer_set c s = None) (producer_settings cfg) /\
  (exists h, c_consumer c = inl h) /\ (exists h, c_producer c = inl h) /\
  c_subscribe c = None /\ topics_ok c.

(** The outcomes of [start]: it refuses; it fails, and the two objects are
    gone; or it is polling with the objects it was given. *)
Inductive Started (a : Adapter) (c : Calls) : Adapter * bool -> Prop :=
| st_refused a' : (started_ a = true \/ is_Some (consumer_ a)) -> a' = a -> Started a c (a', false)
| st_failed a' : consumer_ a = None -> ~ all_succeed c -> consumer_ a' = None -> producer_ a' = None ->
    waiting a' = waiting a -> completions a' = completions a -> started_ a' = false ->
    produced a' = produced a -> consumed a' = consumed a ->
    (topics_ok c -> produceTopicMap_ a' = produceTopicMap_ a) -> Started a c (a', false)
| st_ok a' h p : consumer_ a = None -> all_succeed c -> c_consumer c = inl h -> c_producer c = inl p ->
    consumer_ a' = Some h -> producer_ a' = Some p -> started_ a' = true -> waiting a' = true ->
    completions a' = completions (cancel_timer a) -> produced a' = produced a -> consumed a' = consumed a ->
    (forall t, produceTopicMap_ a' !! t =
      match produceTopicMap_ a !! t with
      | Some h => Some h
      | None => if bool_decide (t ∈ produceTopics_ cfg) then Some (mkTopic t p) else None
      end) -> Started a c (a', true).

Lemma create_fails (a : Adapter) set l : Forall (fun s => set s = None) l \/ (conf_set set l a).2 = false.
Proof. destruct (conf_set set l a).2 eqn:E; [left; by apply conf_set_ok in E|by right]. Qed.

Lemma createConsumer_spec a c : consumer_ a = None ->
  let r := createConsumer cfg a c in
  produceTopicMap_ r.1 = produceTopicMap_ a /\ producer_ r.1 = producer_ a /\ waiting r.1 = waiting a /\
  completions r.1 = completions a /\ started_ r.1 = started_ a /\ produced r.1 = produced a /\ consumed r.1 = consumed a /\
  if r.2 then Forall (fun s => c_consumer_set c s = None) (consumer_settings cfg) /\
              exists h, c_consumer c = inl h /\ consumer_ r.1 = Some h
  else consumer_ r.1 = None /\ ~ all_succeed c.
Proof.
  intros E. unfold createConsumer. rewrite E.
  destruct (conf_set_same (c_consumer_set c) (consumer_settings cfg) a) as [(H1 & H2 & H3 & H4 & H5 & H6 & H7) H8].
  pose proof (conf_set_ok (c_consumer_set c) (consumer_settings cfg) a) as Hok.
  destruct (conf_set _ _ a) as [a1 []]; cbn [fst snd] in *.
  - destruct (c_consumer c) as [h|e] eqn:Ec; cbn [fst snd].
    + repeat (split; [done|]). split; [by apply Hok|by exists h].
    + destruct (fatal_same_error a1 e "") as [(G1 & G2 & G3 & G4 & G5 & G6 & G7) G8].
      repeat split; try congruence. intros (_ & _ & [h Hh] & _). congruence.
  - destruct (fatal_same a1 "") as [(G1 & G2 & G3 & G4 & G5 & G6 & G7) G8].
    repeat split; try congruence. intros (H & _). by apply Hok in H.
Qed.

Lemma createProducer_spec a c : producer_ a = None ->
  let r := createProducer cfg a c in
  produceTopicMap_ r.1 = produceTopicMap_ a /\ consumer_ r.1 = consumer_ a /\ waiting r.1 = waiting a /\
  completions r.1 = completions a /\ started_ r.1 = started_ a /\ produced r.1 = produced a /\ consumed r.1 = consumed a /\
  if r.2 then Forall (fun s => c_producer_set c s = None) (producer_settings cfg) /\
              exists h, c_producer c = inl h /\ producer_ r.1 = Some h
  else producer_ r.1 = None /\ ~ all_succeed c.
Proof.
  intros E. unfold createProducer. rewrite E.
  destruct (conf_set_same (c_producer_set c) (producer_settings cfg) a) as [(H1 & H2 & H3 & H4 & H5 & H6 & H7) H8].
  pose proof (conf_set_ok (c_producer_set c) (producer_settings cfg) a) as Hok.
  destruct (conf_set _ _ a) as [a1 []]; cbn [fst snd] in *.
  - destruct (c_producer c) as [h|e] eqn:Ec; cbn [fst snd].
    + repeat (split; [done|]). split; [by apply Hok|by exists h].
    + destruct (fatal_same_error a1 e "") as [(G1 & G2 & G3 & G4 & G5 & G6 & G7) G8].
      repeat split; try congruence. intros (_ & _ & _ & [h Hh] & _). congruence.
  - destruct (fatal_same a1 "") as [(G1 & G2 & G3 & G4 & G5 & G6 & G7) G8].
    repeat split; try congruence. intros (_ & H & _). by apply Hok in H.
Qed.

Lemma start_spec a c : Inv a -> Started a c (start cfg a c).
Proof.
  intros I. unfold start. destruct (started_ a) eqn:Es; [apply st_refused; [by left|done]|].
  destruct (consumer_ a) eqn:Ec.
  { unfold createConsumer. rewrite Ec. cbn. apply st_refused; [right|]; by rewrite ?Ec. }
  pose proof (inv_none a I Ec) as Ep.
  pose proof (createConsumer_spec a c Ec) as H. cbv zeta in H. destruct (createConsumer cfg a c) as [a1 ok1]. cbn [fst snd] in H.
  destruct H as (M1 & P1 & W1 & C1 & S1 & R1 & N1 & H). destruct ok1; cbn [negb].
  2:{ destruct H as [H1 H2]. apply st_failed; first [done | congruence | intros _; congruence]. }
  destruct H as (HC & h & Eh & Hh). pose proof (createProducer_spec a1 c ltac:(congruence)) as H. cbv zeta in H.
  destruct (createProducer cfg a1 c) as [a2 ok2]. cbn [fst snd] in H.
  destruct H as (M2 & P2 & W2 & C2 & S2 & R2 & N2 & H). destruct ok2; cbn [negb].
  2:{ destruct H as [H1 H2]. apply st_failed; cbn; first [done | congruence | intros _; congruence]. }
  destruct H as (HP & p & Epp & Hp). unfold startConsume. rewrite P2, Hh. destruct (c_subscribe c) as [e|] eqn:Esub; cbn [negb].
  { destruct (fatal_same a2 e) as [(G1 & G2 & G3 & G4 & G5 & G6 & G7) G8].
    set (b := onFatalError a2 e) in *. clearbody b.
    apply st_failed; cbn; try congruence. intros (_ & _ & _ & _ & ? & _). congruence. }
  unfold startProduce. rewrite Hp.
  pose proof (createTopics_same c p (produceTopics_ cfg) a2) as (G1 & G2 & G3 & G4 & G5 & G6 & G7).
  pose proof (createTopics_ok c p (produceTopics_ cfg) a2) as Hok.
  pose proof (fun t => createTopics_map c p (produceTopics_ cfg) a2 t) as Hmap.
  destruct (createTopics c p (produceTopics_ cfg) a2) as [a3 []]; cbn [fst snd negb] in *.
  2:{ assert (~ topics_ok c) by (intros H; by apply Hok in H).
      apply st_failed; cbn; try congruence. intros (_ & _ & _ & _ & _ & ?). done. }
  assert (HT : topics_ok c) by by apply Hok.
  pose proof (cancel_timer_spec (set_started a3 true)) as (T1 & T2 & T3 & T4 & T5 & T6 & T7 & T8).
  assert (E : completions (cancel_timer (set_started a3 true)) = completions (cancel_timer a)).
  { unfold cancel_timer. cbn [waiting set_started completions]. rewrite G3, W2, W1.
    destruct (waiting a); cbn; congruence. }
  unfold schedulePoll. cbn [started_ set_started].
  set (b := cancel_timer (set_started a3 true)) in *. clearbody b. cbn in T3, T4, T5, T6, T7, T8.
  apply (st_ok a c _ h p); try done; cbn; try congruence.
  - split; [done|]. split; [done|]. split; [by exists h|]. split; [by exists p|]. done.
  - intros t. by rewrite T6, (Hmap t HT), M2, M1.
Qed.

(** *** The invariants *)

Definition drains (r : Reaction) : Prop := match r with Stop outq => O ∈ outq | _ => True end.
Definition msg_drains (m : Message) : Prop := match m with Data _ r => drains r | _ => True end.
Definition op_drains (o : Op) : Prop :=
  match o with OStop outq => O ∈ outq | OTimer msgs => Forall msg_drains msgs | _ => True end.

Lemma flushes_total outq : O ∈ outq -> exists n, flushes outq = Ok n.
Proof.
  induction outq as [|[|k] outq IH]; [by intros ?%elem_of_nil|by exists O|].
  intros [|H]%elem_of_cons; [done|]. destruct (IH H) as [n E]. exists (S n). cbn. by rewrite E.
Qed.

(** A step that leaves the objects and the topics alone. *)
Lemma kafka_Inv_frame a a' : Inv a -> producer_ a' = producer_ a -> consumer_ a' = consumer_ a ->
  (started_ a' = true -> started_ a = true) -> (waiting a' = true -> live a) ->
  (Expired ∈ completions a' -> live a) -> Inv a'.
Proof.
  intros [I1 I2 I3 I4 I5] Ep Ec Es Ew Ex. split; unfold live in *; rewrite ?Ep, ?Ec; auto.
Qed.

Lemma Owned_frame a a' : Owned a -> producer_ a' = producer_ a -> produceTopicMap_ a' = produceTopicMap_ a ->
  produced a' = produced a -> (started_ a' = true -> started_ a = true) -> Owned a'.
Proof. intros [O1 O2 O3 O4] Ep Em Er Es. split; rewrite ?Ep, ?Em, ?Er; auto. Qed.

Lemma kafka_Inv_start a c : Inv a -> Inv (start cfg a c).1.
Proof.
  intros I. pose proof (start_spec a c I) as H. revert H. generalize (start cfg a c). intros r H.
  destruct H as [a' H ->|a' E _ Hc Hp Hw Hx Hs _ _ _|a' h p _ _ _ _ Hc Hp Hs Hw Hx _ _ _]; cbn [fst]; [done| |].
  - assert (Hn : ~ live a) by (intros [[h Eh] _]; congruence).
    split; rewrite ?Hs, ?Hw, ?Hx; try done; intros H'; destruct Hn; [by apply (inv_waiting a I)|by apply (inv_expired a I)].
  - split; unfold live; rewrite ?Hc, ?Hp; eauto; done.
Qed.

Lemma Owned_start a c : Inv a -> Owned a -> topics_ok c -> Owned (start cfg a c).1.
Proof.
  intros I O HT. pose proof (start_spec a c I) as H. revert H. generalize (start cfg a c). intros r H.
  destruct H as [a' H ->|a' E _ Hc Hp Hw Hx Hs Hr _ Hm|a' h p E _ _ _ Hc Hp Hs Hw Hx Hr _ Hm]; cbn [fst]; [done| |].
  - pose proof (own_none a O (inv_none a I E)) as Em. specialize (Hm HT).
    split; rewrite ?Hr; [congruence| |congruence|apply O]. intros t h. by rewrite Hm, Em, lookup_empty.
  - pose proof (own_none a O (inv_none a I E)) as Em. split; rewrite ?Hr; [congruence| | |apply O].
    + intros t x. rewrite Hm, Em, lookup_empty. case_bool_decide; [|done]. intros [= <-]. by rewrite Hp.
    + intros _ t Ht. by rewrite Hm, Em, lookup_empty, bool_decide_true.
Qed.

Lemma stop_spec a outq : Inv a -> Owned a -> O ∈ outq -> exists a', stop a outq = Ok a' /\ Inv a' /\ Owned a' /\
  producer_ a' = producer_ a /\ consumer_ a' = consumer_ a /\ started_ a' = false /\ produceTopicMap_ a' = ∅ /\
  consumed a' = consumed a.
Proof.
  intros I O Hq. unfold stop.
  destruct (cancel_timer_spec (set_started a false)) as (T1 & T2 & T3 & T4 & T5 & T6 & T7 & T8).
  set (b := cancel_timer (set_started a false)) in *. clearbody b. cbn in T2, T3, T4, T5, T6, T7, T8.
  assert (exists n, match producer_ b with None => Ok 0%nat | Some _ => flushes outq end = Ok n) as [n ->].
  { destruct (producer_ b); [by apply flushes_total|by exists 0%nat]. }
  assert (Ib : Inv b) by (apply (kafka_Inv_frame a); try congruence; rewrite T2; apply (inv_expired a I)).
  exists (set_topics b ∅). split; [done|]. split; [by apply (kafka_Inv_frame b); try apply Ib|]. split; [|by rewrite <- T8].
  split; cbn; [done|by intros ? ?; rewrite lookup_empty|congruence|]. rewrite T7. apply O.
Qed.

Lemma produce_spec a e t result : Inv a -> Owned a -> exists a', produce a e t result = Ok a' /\ Inv a' /\ Owned a' /\
  producer_ a' = producer_ a /\ consumer_ a' = consumer_ a /\ started_ a' = started_ a /\ consumed a' = consumed a.
Proof.
  intros I O. unfold produce. destruct (produceTopicMap_ a !! t) as [h|] eqn:Et; [|by exists a].
  destruct (own_topics a O t h Et) as [_ Ep]. rewrite Ep. destruct result as [err|].
  - destruct (fatal_same a err) as [(G1 & G2 & G3 & G4 & G5 & G6 & G7) G8]. eexists. split; [done|].
    split; [apply (kafka_Inv_frame a); try congruence; rewrite ?G3, ?G4; [apply (inv_waiting a I)|apply (inv_expired a I)]|]. split; [apply (Owned_frame a); congruence|].
    repeat split; congruence.
  - eexists. split; [done|]. split; [by apply (kafka_Inv_frame a); try apply I|]. split; [|done].
    split; cbn; [congruence|apply O|apply O|]. rewrite Forall_app, Forall_singleton. split; [apply O|done].
Qed.

Lemma react_spec a r : Inv a -> Owned a -> drains r -> exists a', react a r = Ok a' /\ Inv a' /\ Owned a' /\
  producer_ a' = producer_ a /\ consumer_ a' = consumer_ a /\ consumed a' = consumed a /\
  started_ a' = match r with Stop _ => false | _ => started_ a end.
Proof.
  intros I O Hd. destruct r as [|outq|e t result]; cbn [react].
  - by exists a.
  - destruct (stop_spec a outq I O Hd) as (a' & E & H). exists a'. intuition.
  - destruct (produce_spec a e t result I O) as (a' & E & H). exists a'. intuition.
Qed.

(** *** [pollConsume] *)

Definition payload (m : Message) : option Payload := match m with Data p _ => Some p | _ => None end.
Definition stops (m : Message) : bool := match m with Data _ (Stop _) => true | _ => false end.

(** What a poll that is allowed [n] messages does with [msgs]: it takes the
    first [k], all of them data, none but the last stopping the adapter,
    and it ends there because of the limit, of the stop, or of the error or
    the time-out that comes next. *)
Record Polled (n k : nat) (msgs rest : list Message) : Prop := {
  polled_limit : (k <= n)%nat;
  polled_some : (k <= length msgs)%nat;
  polled_data i m : (i < k)%nat -> msgs !! i = Some m -> is_Some (payload m);
  polled_running i m : (S i < k)%nat -> msgs !! i = Some m -> stops m = false;
  polled_end : (k = n /\ rest = drop k msgs) \/
    (exists i m, k = S i /\ msgs !! i = Some m /\ stops m = true /\ rest = drop k msgs) \/
    ((forall m, msgs !! k = Some m -> payload m = None) /\ rest = drop (S k) msgs)
}.

Lemma poll_loop_spec n a msgs : Inv a -> Owned a -> started_ a = true -> Forall msg_drains msgs ->
  exists a' k rest, poll_loop n a msgs = Ok (a', rest) /\ Polled n k msgs rest /\
    consumed a' = consumed a ++ omap payload (take k msgs) /\
    Inv a' /\ Owned a' /\ producer_ a' = producer_ a /\ consumer_ a' = consumer_ a.
Proof.
  revert a msgs. induction n as [|n IH]; intros a msgs I O Hs Hd; cbn [poll_loop].
  { exists a, 0%nat, msgs. rewrite take_0, app_nil_r. repeat (split; [done|]). split; [|done].
    split; [lia|lia|lia|lia|left; done]. }
  rewrite Hs. destruct (inv_started a I Hs) as [[h Eh] _]. rewrite Eh.
  assert (Hend : forall rest, msgs = [] /\ rest = [] \/ (exists m l, msgs = m :: l /\ payload m = None /\ rest = l) ->
    exists a' k rest', Ok (a, rest) = Ok (a', rest') /\ Polled (S n) k msgs rest' /\
    consumed a' = consumed a ++ omap payload (take k msgs) /\
    Inv a' /\ Owned a' /\ producer_ a' = producer_ a /\ consumer_ a' = Some h).
  { intros rest H. exists a, 0%nat, rest. rewrite take_0, app_nil_r. split; [done|]. split; [|done].
    split; [lia|lia|lia|lia|right; right]. destruct H as [[-> ->]|(m & l & -> & Hm & ->)]; [done|].
    split; [|done]. by intros ? [= <-]. }
  destruct msgs as [|[p r| |e] msgs]; [apply Hend; by left| |apply Hend; right; eauto|apply Hend; right; eauto].
  apply Forall_cons in Hd as [Hr Hd]. cbn in Hr.
  destruct (react_spec (add_consumed a p) r) as (a1 & E1 & I1 & O1 & P1 & C1 & N1 & S1);
    [by apply (kafka_Inv_frame a); try apply I|by apply (Owned_frame a)|done|]. rewrite E1.
  cbn in P1, C1, N1, S1. destruct (stops (Data p r)) eqn:Est.
  - assert (started_ a1 = false) as Hf by (destruct r; done).
    exists a1, 1%nat, msgs. assert (poll_loop n a1 msgs = Ok (a1, msgs)) as -> by (destruct n; cbn; by rewrite ?Hf).
    split; [done|]. split; [|by repeat (split; [done || congruence|]); congruence].
    split; [lia|cbn; lia| | |].
    + intros [|i] m Hi; [intros [= <-]; eauto|lia].
    + intros; lia.
    + right. left. exists 0%nat, (Data p r). done.
  - assert (started_ a1 = true) as Ht by (rewrite S1; destruct r; done).
    destruct (IH a1 msgs I1 O1 Ht Hd) as (a2 & k & rest & E2 & Pd & N2 & I2 & O2 & P2 & C2).
    exists a2, (S k), rest. rewrite E2. split; [done|]. destruct Pd as [D1 D2 D3 D4 D5].
    split; [|split; [rewrite N2, N1; cbn; by rewrite <- (assoc_L app)|repeat (split; [done || congruence|]); congruence]].
    split; [lia|cbn; lia| | |].
    + intros [|i] m Hi; cbn; [intros [= <-]; eauto|]. apply D3. lia.
    + intros [|i] m Hi; cbn; [intros [= <-]; done|]. apply D4. lia.
    + destruct D5 as [[-> ->]|[(i & m & -> & Hm & Hst & ->)|[Hm ->]]]; [by left| |by right; right].
      right. left. by exists (S i), m.
Qed.

Lemma exec_ok a o : Inv a -> Owned a -> op_ok o -> op_drains o -> exists a', exec a o = Ok a' /\ Inv a' /\ Owned a'.
Proof.
  intros I O Hok Hd. destruct o as [c|outq|e t result| |message|msgs]; cbn [exec].
  - eexists. split; [done|]. split; [by apply kafka_Inv_start|by apply Owned_start].
  - destruct (stop_spec a outq I O Hd) as (a' & E & H1 & H2 & _). eauto.
  - destruct (produce_spec a e t result I O) as (a' & E & H1 & H2 & _). eauto.
  - exists (expire a). split; [done|]. unfold expire. destruct (waiting a) eqn:Ew; [|done].
    split; [|by apply (Owned_frame a)]. apply (kafka_Inv_frame a); try done. intros _. by apply (inv_waiting a I).
  - exists (fail_wait a message). split; [done|]. unfold fail_wait. destruct (waiting a) eqn:Ew; [|done].
    split; [|by apply (Owned_frame a)]. apply (kafka_Inv_frame a); try done. intros _. by apply (inv_waiting a I).
  - unfold onTimer. destruct (completions a) as [|code rest] eqn:Ex; [by exists a|].
    set (b := set_timer a (waiting a) rest).
    assert (Ib : Inv b).
    { apply (kafka_Inv_frame a); try done; [apply (inv_waiting a I)|]. cbn. intros H. apply (inv_expired a I). rewrite Ex. by right. }
    assert (Ob : Owned b) by by apply (Owned_frame a).
    destruct code as [| |message].
    + assert (Hl : live a) by (apply (inv_expired a I); rewrite Ex; by left).
      assert (exists a1 rest', pollConsume b msgs = Ok (a1, rest') /\ Inv a1 /\ Owned a1 /\ producer_ a1 = producer_ a)
        as (a1 & rest' & -> & I1 & O1 & P1).
      { unfold pollConsume. destruct (started_ b) eqn:Es.
        - destruct (poll_loop_spec CONSUME_CHUNK b msgs Ib Ob Es Hd) as (a1 & k & rest' & E & _ & _ & H1 & H2 & H3 & _). eauto 6.
        - exists b, msgs. cbn [poll_loop CONSUME_CHUNK]. by rewrite Es. }
      rewrite P1. destruct Hl as [Hlc [h Eh]]. rewrite Eh. eexists. split; [done|].
      unfold schedulePoll. destruct (started_ a1) eqn:Es1; [|done].
      destruct (cancel_timer_spec a1) as (T1 & T2 & T3 & T4 & T5 & T6 & T7 & T8).
      set (d := cancel_timer a1) in *. clearbody d. split; [|by apply (Owned_frame a1); cbn; try congruence].
      apply (kafka_Inv_frame a1); cbn; try congruence; intros H; [by apply (inv_started a1 I1)|by apply (inv_expired a1 I1), T2].
    + by exists b.
    + destruct (fatal_same b message) as [(G1 & G2 & G3 & G4 & G5 & G6 & G7) G8].
      eexists. split; [done|]. split; [|apply (Owned_frame b); congruence].
      apply (kafka_Inv_frame b); try congruence; rewrite ?G3, ?G4; [apply (inv_waiting b Ib)|apply (inv_expired b Ib)].
Qed.

Lemma kafka_run_ok a os : Inv a -> Owned a -> Forall op_ok os -> Forall op_drains os ->
  exists a', run a os = Ok a' /\ Inv a' /\ Owned a'.
Proof.
  intros I O Hok Hd. revert a I O. induction os as [|o os IH]; intros a I O; [by exists a|].
  apply Forall_cons in Hok as [H1 Hok]. apply Forall_cons in Hd as [H2 Hd]. cbn [run].
  destruct (exec_ok a o I O H1 H2) as (a1 & -> & I1 & O1). by apply IH.
Qed.

(** ** Properties *)

(** C34: whatever the calls of librdkafka answer, as long as no topic is
    refused and the queue of the producer drains when it is flushed, every
    sequence of starts, stops, messages to produce and completions of the
    timer runs to its end: nothing is dereferenced that does not exist, in
    the pending timer handler of a stopped adapter too.  Every message is
    produced to a topic of the very producer that sends it, and while the
    adapter is started both objects exist and every configured topic has
    its handle. *)
Theorem kafka_uses_live_handles os : Forall op_ok os -> Forall op_drains os -> exists a, run construct os = Ok a /\
  Forall (fun x => t_producer x.1.2 = x.1.1) (produced a) /\
  (started_ a = true -> is_Some (consumer_ a) /\ exists p, producer_ a = Some p /\
    forall t, t ∈ produceTopics_ cfg -> produceTopicMap_ a !! t = Some (mkTopic t p)).
Proof.
  intros Hok Hd. destruct (kafka_run_ok construct os Inv_construct Owned_construct Hok Hd) as (a & E & I & O).
  exists a. split; [done|]. split; [apply O|]. intros Hs. destruct (inv_started a I Hs) as [Hc [p Ep]].
  split; [done|]. exists p. split; [done|]. intros t Ht. destruct (own_complete a O Hs t Ht) as [[n q] Et].
  destruct (own_topics a O t _ Et) as [En Eq]. cbn in *. congruence.
Qed.

(** A start of an adapter that has no consumer succeeds exactly when
    every call it makes of librdkafka does, and then polls; otherwise it
    gives back both objects. *)
Theorem kafka_start_all_or_nothing os a c : Forall op_ok os -> Forall op_drains os -> run construct os = Ok a ->
  consumer_ a = None ->
  let r := start cfg a c in
  (r.2 = true <-> all_succeed c) /\
  started_ r.1 = r.2 /\ (r.2 = true -> waiting r.1 = true) /\
  (r.2 = false -> consumer_ r.1 = None /\ producer_ r.1 = None /\ waiting r.1 = false).
Proof.
  intros Hok Hd E Ec. destruct (kafka_run_ok construct os Inv_construct Owned_construct Hok Hd) as (a' & E' & I & O).
  rewrite E in E'. injection E' as <-. pose proof (start_spec a c I) as H. cbv zeta. revert H. generalize (start cfg a c).
  intros r H. destruct H as [a' [H|[h H]] ->|a' _ Hn H1 H2 H3 _ H4 _ _ _|a' h p _ Ha _ _ H1 H2 H3 H4 _ _ _ _]; cbn [fst snd].
  - destruct (inv_started a I H) as [[h Eh] _]. congruence.
  - congruence.
  - rewrite H3. split; [done|]. split; [done|]. split; [done|]. intros _. split; [done|]. split; [done|].
    destruct (waiting a) eqn:Ew; [|done]. destruct (inv_waiting a I Ew) as [[h Eh] _]. congruence.
  - done.
Qed.

(** A poll of a started adapter passes on the messages the consumer
    holds, in order and without a gap, at most [CONSUME_CHUNK] of them, up
    to the first error or the first handler that stops the adapter; what it
    has not taken is left for the next poll. *)
Theorem kafka_poll_in_order os a msgs : Forall op_ok os -> Forall op_drains os -> run construct os = Ok a ->
  started_ a = true -> Forall msg_drains msgs ->
  exists a' k rest, pollConsume a msgs = Ok (a', rest) /\ Polled CONSUME_CHUNK k msgs rest /\
    consumed a' = consumed a ++ omap payload (take k msgs).
Proof.
  intros Hok Hd E Hs Hm. destruct (kafka_run_ok construct os Inv_construct Owned_construct Hok Hd) as (a' & E' & I & O).
  rewrite E in E'. injection E' as <-.
  destruct (poll_loop_spec CONSUME_CHUNK a msgs I O Hs Hm) as (a' & k & rest & H1 & H2 & H3 & _). eauto 6.
Qed.

(** A stopped adapter keeps its consumer: it cannot be started again. *)
Theorem kafka_restart_refused os a c a' outq c' : Forall op_ok os -> Forall op_drains os -> run construct os = Ok a ->
  (start cfg a c).2 = true -> topics_ok c -> O ∈ outq -> stop (start cfg a c).1 outq = Ok a' ->
  start cfg a' c' = (a', false).
Proof.
  intros Hok Hd E Hs Ht Hq E2. destruct (kafka_run_ok construct os Inv_construct Owned_construct Hok Hd) as (a0 & E' & I & O).
  rewrite E in E'. injection E' as <-.
  destruct (stop_spec _ outq (kafka_Inv_start a c I) (Owned_start a c I O Ht) Hq) as (b & Eb & _ & _ & _ & Hc & Hst & _).
  rewrite E2 in Eb. injection Eb as <-.
  assert (is_Some (consumer_ (start cfg a c).1)) as [h Eh].
  { pose proof (start_spec a c I) as H. revert Hs H. generalize (start cfg a c). intros r Hs H.
    destruct H as [| |b h p _ _ _ _ H]; [done|done|]. by exists h. }
  unfold start. rewrite Hst. unfold createConsumer. by rewrite Hc, Eh.
Qed.
End KafkaAdapter.

(** ** A concrete adapter *)

Definition example_config : Config := mkConfig "localhost:9092" "hft" 100 ["commands"] ["orders"; "prices"].

Definition good (h : nat) : Calls :=
  mkCalls (fun _ => None) (inl h) (fun _ => None) (inl (S h)) None (fun _ => None).
(** The second topic is refused. *)
Definition no_prices (h : nat) : Calls :=
  mkCalls (fun _ => None) (inl h) (fun _ => None) (inl (S h)) None
    (fun t => if bool_decide (t = "prices") then Some "no such topic" else None).

Definition example_run : list (Op (Event := Z) (Payload := Z)) :=
  [OStart (mkCalls (fun _ => None) (inl 1%nat) (fun _ => None) (inr "no broker") None (fun _ => None)); OStart (good 1); OProduce 5 "orders" None; OExpire;
   OTimer [Data 7 Ignore; Data 8 (Produce 9 "prices" None); TimedOut]; OStop [2; 1; 0]%nat;
   OProduce 6 "orders" None; OTimer []].

Lemma example_run_ok : Forall (op_ok example_config) example_run /\ Forall op_drains example_run.
Proof. split; repeat constructor; set_solver. Qed.

Lemma kafka_uses_live_handles_witness : exists a, run (fun z : Z => z) example_config construct example_run = Ok a /\
  produced a = [(2%nat, mkTopic "orders" 2, 5); (2%nat, mkTopic "prices" 2, 9)] /\ consumed a = [7; 8] /\
  Forall (fun x => t_producer x.1.2 = x.1.1) (produced a).
Proof.
  destruct (kafka_uses_live_handles (fun z : Z => z) example_config example_run (proj1 example_run_ok) (proj2 example_run_ok))
    as (a & E & H & _). exists a. split; [done|]. split; [|split; [|done]]; vm_compute in E; by injection E as <-.
Defined.

Lemma kafka_start_all_or_nothing_witness :
  (start (Payload := Z) example_config construct (no_prices 1)).2 = false /\
  started_ (start (Payload := Z) example_config construct (no_prices 1)).1 = false.
Proof.
  split; [reflexivity|].
  pose proof (kafka_start_all_or_nothing (fun z : Z => z) example_config [] construct (no_prices 1) ltac:(constructor) ltac:(constructor) eq_refl eq_refl) as (_ & H & _).
  rewrite H. reflexivity.
Defined.

Definition example_messages : list (Message (Event := Z) (Payload := Z)) := [Data 7 Ignore; Fault 3; Data 8 Ignore].

Lemma kafka_poll_in_order_witness : exists a' k rest,
  pollConsume (fun z : Z => z) (start example_config construct (good 1)).1 example_messages = Ok (a', rest) /\
  Polled CONSUME_CHUNK k example_messages rest /\
  consumed a' = [] ++ omap payload (take k example_messages).
Proof.
  apply (kafka_poll_in_order (fun z : Z => z) example_config [OStart (good 1)]);
    [repeat constructor|repeat constructor|reflexivity|reflexivity|repeat constructor].
Defined.

Definition stopped_example : Adapter (Payload := Z) :=
  match stop (start (Payload := Z) example_config construct (good 1)).1 [0%nat] with Ok a => a | Err _ => construct end.

Lemma kafka_restart_refused_witness : start example_config stopped_example (good 5) = (stopped_example, false).
Proof.
  pose proof (kafka_restart_refused (fun z : Z => z) example_config [] construct (good 1) stopped_example [0%nat] (good 5)
    ltac:(constructor) ltac:(constructor) eq_refl) as H.
  apply H; [vm_compute; reflexivity|repeat constructor|constructor|vm_compute; reflexivity].
Defined.

(** When a topic is refused the producer is deleted, but the handles of the
    topics before it stay in the map: producing to one dereferences a null
    producer, and after the next start it uses the handle of the deleted
    producer. *)
Theorem kafka_refused_topic_leaves_handles :
  run (fun z : Z => z) example_config construct [OStart (no_prices 1); OProduce 5 "orders" None] = Err NullDeref /\
  exists a, run (fun z : Z => z) example_config construct [OStart (no_prices 1); OStart (good 3); OProduce 5 "orders" None] = Ok a /\
    produced a = [(4%nat, mkTopic "orders" 2, 5)].
Proof. split; [by vm_compute|]. eexists. split; [by vm_compute|done]. Qed.

End KafkaAdapter.
