(* ===== verification/Postgres.v ===== *)
(** * The Postgres adapter

    Models [PostgresAdapter], [TableReader] and [TableWriter]
    (common/src/adapters/postgres) and the way the server uses the adapter:
    its authenticator, its storage and its price feed share one adapter.
    libpqxx is a parameter: the results and exceptions of its calls are
    inputs, and so are its conversions of cells. *)

From Stdlib Require Import Ascii.
From stdpp Require Import gmap list strings pretty.
From S2P Require Import Prelude Types.
From S2P Require Import Session Coordinator PriceFeed.

(** ** Exceptions *)

(** [pqxx::sql_error], and any other [std::exception]. *)
Inductive Exn := sql_error (what : string) | other_exception (what : string).

(** How a call ends: a value, an exception, or an access outside a row. *)
Inductive Run (A : Type) := Ret (a : A) | Raise (e : Exn) | Outside.
Arguments Ret {A} a.
Arguments Raise {A} e.
Arguments Outside {A}.

Definition bind {A B} (r : Run A) (k : A -> Run B) : Run B :=
  match r with Ret a => k a | Raise e => Raise e | Outside => Outside end.

Declare Scope pq_scope.
Notation "x <- r ; k" := (bind r (fun x => k)) (at level 85, r at level 84, right associativity) : pq_scope.
Open Scope pq_scope.

Definition what (e : Exn) : string := match e with sql_error w | other_exception w => w end.

Section Postgres.
(** A cell of a result and its conversions to [String], [size_t] and
    [ClientId]. *)
Context {Cell : Type} (as_String : Cell -> Run string) (as_size : Cell -> Run Z) (as_ClientId : Cell -> Run Z).

Record Result := mkResult { columns : list string; rows : list (list Cell) }.

(** [row[i]], which does not check its index, and [row[name]], which throws
    for a name the result does not have. *)
Definition cell (row : list Cell) (i : nat) : Run Cell :=
  match row !! i with Some c => Ret c | None => Outside end.

Definition cell_named (r : Result) (row : list Cell) (name : string) : Run Cell :=
  match list_find (fun c => c = name) (columns r) with
  | Some (i, _) => cell row i
  | None => Raise (other_exception ("Unknown column in field subscript: '" +:+ name +:+ "'.")%string)
  end.

(** ** checkCredentials *)

(** The transaction, the time-out and the query by name. *)
Record ClientAnswers := mkClientAnswers {
  ca_begin : Run unit;
  ca_timeout : Run unit;
  ca_query : string -> Run Result
}.

Definition checkCredentials_try (a : ClientAnswers) (name password : string) : Run (Z + StatusCode) :=
  _ <- ca_begin a; _ <- ca_timeout a; result <- ca_query a name;
  match rows result with
  | [] => Ret (inr AuthUserNotFound)
  | row :: _ =>
      c0 <- cell row 0; clientId <- as_ClientId c0;
      c1 <- cell row 1; realPassword <- as_String c1;
      Ret (if bool_decide (password = realPassword) then inl clientId else inr AuthInvalidPassword)
  end.

(** Only [pqxx::sql_error] is caught. *)
Definition checkCredentials (a : ClientAnswers) (name password : string) : res (Z + StatusCode) :=
  match checkCredentials_try a name password with
  | Ret r => Ok r
  | Raise (sql_error _) => Ok (inr DbError)
  | Raise (other_exception w) => Err (Throw w)
  | Outside => Err OutOfBounds
  end.

(** ** readTickers *)

Record TickerAnswers := mkTickerAnswers {
  ta_begin : Run unit;
  ta_timeout : Run unit;
  ta_count : Run Result;
  ta_reserve : Z -> Run unit;
  ta_select : Run Result;
  ta_commit : Run unit
}.

Definition toTicker (s : string) : Ticker := makeTicker (String.list_ascii_of_string s).

Definition read_row (r : Result) (row : list Cell) : Run TickerPrice :=
  c <- cell_named r row "ticker"; ticker <- as_String c;
  c <- cell_named r row "price"; price <- as_size c;
  Ret (mkTickerPrice (toTicker ticker) (u32 price)).

(** The loop over the rows: what it appended, and how it ended. *)
Fixpoint read_rows (r : Result) (rows : list (list Cell)) : list TickerPrice * Run unit :=
  match rows with
  | [] => ([], Ret ())
  | row :: rows =>
      match read_row r row with
      | Ret t => let '(ts, o) := read_rows r rows in (t :: ts, o)
      | Raise e => ([], Raise e)
      | Outside => ([], Outside)
      end
  end.

Definition no_tickers (countResult : Result) : Run bool :=
  match rows countResult with
  | [] => Ret true
  | row :: _ => c <- cell row 0; n <- as_size c; Ret (n =? 0)
  end.

Definition count_of (countResult : Result) : Run Z :=
  match rows countResult with
  | [] => Outside
  | row :: _ => c <- cell row 0; as_size c
  end.

(** The body of the [try]: the function's static vector afterwards, and how
    it ended. *)
Definition readTickers_try (tickers : list TickerPrice) (a : TickerAnswers) (cache : bool) : list TickerPrice * Run unit :=
  let tickers := if cache then tickers else [] in
  if cache && negb (bool_decide (tickers = [])) then (tickers, Ret ())
  else
    let head :=
      _ <- ta_begin a; _ <- ta_timeout a; countResult <- ta_count a;
      none <- no_tickers countResult;
      if none then Ret None
      else n <- count_of countResult; _ <- ta_reserve a n; r <- ta_select a; Ret (Some r) in
    match head with
    | Raise e => (tickers, Raise e)
    | Outside => (tickers, Outside)
    | Ret None => (tickers, Ret ())
    | Ret (Some r) =>
        let '(ts, o) := read_rows r (rows r) in
        (tickers ++ ts, _ <- o; ta_commit a)
    end.

(** The returned span is the static vector. *)
Definition readTickers (tickers : list TickerPrice) (a : TickerAnswers) (cache : bool)
    : list TickerPrice * res (list TickerPrice + StatusCode) :=
  let '(tickers, o) := readTickers_try tickers a cache in
  (tickers, match o with Ret _ => Ok (inl tickers) | Raise _ => Ok (inr DbError) | Outside => Err OutOfBounds end).

(** ** The connection string *)

Section Connection.
Context (env config : string -> string).

(** [x.empty() ? config_.get<String>(key) : x] *)
Definition from_env (var key : string) : string :=
  let x := env var in if bool_decide (x = "") then config key else x.

Definition getConnectionString : string :=
  ("host=" +:+ from_env "POSTGRES_HOST" "db.host" +:+
   " port=" +:+ from_env "POSTGRES_PORT" "db.port" +:+
   " user=" +:+ from_env "POSTGRES_USER" "db.user" +:+
   " password=" +:+ from_env "POSTGRES_PASSWORD" "db.password" +:+
   " dbname=" +:+ from_env "POSTGRES_DB" "db.dbname" +:+ " connect_timeout=1")%string.
End Connection.

(** The constructor: [open] is what connecting gives. *)
Definition construct (connect : Run bool) : res unit :=
  match connect with
  | Ret true => Ok ()
  | Ret false => Err (Throw "Failed to open db")
  | Raise e => Err (Throw (what e))
  | Outside => Err OutOfBounds
  end.

(** ** TableReader *)

Record TableReader := mkTableReader { result_ : Result; cursor_ : Z }.

Definition query (table : string) : string := ("SELECT * FROM " +:+ table +:+ ";")%string.
Definition open_reader (exec : string -> Run Result) (table : string) : Run TableReader :=
  r <- exec (query table); Ret (mkTableReader r (-1)).

Definition size (t : TableReader) : Z := Z.of_nat (length (rows (result_ t))).
Definition empty (t : TableReader) : bool := bool_decide (rows (result_ t) = []).

Definition next (t : TableReader) : TableReader * bool :=
  let t := mkTableReader (result_ t) (cursor_ t + 1) in (t, cursor_ t <? size t).

Definition get {A} (as_ : Cell -> Run A) (t : TableReader) (col : nat) : Run A :=
  if (cursor_ t <? 0) || (size t <=? cursor_ t) then Raise (other_exception "Row index out of range")
  else
    match rows (result_ t) !! Z.to_nat (cursor_ t) with
    | None => Outside
    | Some row =>
        if (length row <=? col)%nat then Raise (other_exception "Column index out of range")
        else c <- cell row col; as_ c
    end.

(** [while (reader.next()) out.push_back(reader.get<T>(col))] *)
Fixpoint read_column {A} (fuel : nat) (as_ : Cell -> Run A) (t : TableReader) (col : nat) : res (Run (list A)) :=
  match fuel with
  | O => Err OutOfFuel
  | S fuel =>
      let '(t, more) := next t in
      if more then
        match get as_ t col with
        | Ret x => let! l := read_column fuel as_ t col in Ok (l <- l; Ret (x :: l))
        | Raise e => Ok (Raise e)
        | Outside => Ok Outside
        end
      else Ok (Ret [])
  end.

(** ** TableWriter *)

Record TableWriter {Row : Type} := mkTableWriter { written : list Row; completed : bool; committed : bool }.
#[global] Arguments TableWriter : clear implicits.

Definition open_writer {Row} : TableWriter Row := mkTableWriter Row [] false false.
Definition write {Row} (t : TableWriter Row) (row : Row) : TableWriter Row :=
  mkTableWriter Row (written t ++ [row]) (completed t) (committed t).
Definition commit {Row} (t : TableWriter Row) : TableWriter Row := mkTableWriter Row (written t) true true.

(** ** Properties *)

(** The table of clients as the query of [checkCredentials] sees it. *)
Definition Clients := string -> list (list Cell).

Definition healthy (a : ClientAnswers) (clients : Clients) : Prop :=
  ca_begin a = Ret () /\ ca_timeout a = Ret () /\
  forall name, exists cols, ca_query a name = Ret (mkResult cols (clients name)).

(** The row of a client: an identifier and a password, neither of them
    NULL. *)
Definition client_row (row : list Cell) (id : Z) (password : string) : Prop :=
  exists c0 c1 more, row = c0 :: c1 :: more /\ as_ClientId c0 = Ret id /\ as_String c1 = Ret password.

Lemma checkCredentials_row a clients name password id stored rest row : healthy a clients ->
  clients name = row :: rest -> client_row row id stored ->
  checkCredentials a name password = Ok (if bool_decide (password = stored) then inl id else inr AuthInvalidPassword).
Proof.
  intros (Hb & Ht & Hq) Hc (c0 & c1 & more & -> & E0 & E1). destruct (Hq name) as [cols Eq].
  unfold checkCredentials, checkCredentials_try. rewrite Hb, Ht, Eq. cbn. rewrite Hc. cbn. rewrite E0. cbn. by rewrite E1.
Qed.

(** Over a database whose calls succeed and whose client rows are well
    formed, checking credentials returns, and it authenticates a name and a
    password as a client exactly when the first row of that name holds both:
    an unknown name and a wrong password are told apart. *)
Theorem credentials_exact a clients name password :
  healthy a clients -> (forall n row, row ∈ clients n -> exists id p, client_row row id p) ->
  exists r, checkCredentials a name password = Ok r /\
  (forall id, r = inl id <-> exists row rest, clients name = row :: rest /\ client_row row id password) /\
  (r = inr AuthUserNotFound <-> clients name = []) /\
  (r = inr AuthInvalidPassword <->
    exists row rest id p, clients name = row :: rest /\ client_row row id p /\ p <> password).
Proof.
  intros H Hrows. destruct (clients name) as [|row rest] eqn:E.
  - exists (inr AuthUserNotFound). split.
    { destruct H as (Hb & Ht & Hq). destruct (Hq name) as [cols Eq].
      unfold checkCredentials, checkCredentials_try. rewrite Hb, Ht, Eq. cbn. by rewrite E. }
    split; [intros id; split; [done|by intros (? & ? & ? & _)]|]. split; [done|].
    split; [done|by intros (? & ? & ? & ? & ? & _)].
  - destruct (Hrows name row) as (id & p & Hr); [rewrite E; by left|].
    rewrite (checkCredentials_row a clients name password id p rest row H E Hr).
    assert (Hu : forall id' p', client_row row id' p' -> id' = id /\ p' = p).
    { intros id' p' (c0 & c1 & m & -> & E0 & E1). destruct Hr as (d0 & d1 & n & [= <- <- <-] & F0 & F1).
      rewrite E0 in F0. rewrite E1 in F1. by injection F0 as ->; injection F1 as ->. }
    eexists. split; [done|]. case_bool_decide as Hp.
    + subst p. split; [intros id'; split|split; (split; [done|])].
      * intros [= <-]. eauto.
      * intros (? & ? & [= <- <-] & Hr'). by destruct (Hu _ _ Hr') as [-> _].
      * done.
      * intros (? & ? & id' & p' & [= <- <-] & Hr' & Hne). by destruct (Hu _ _ Hr').
    + split; [|split; [done|split; [|done]]].
      * intros id'. split; [done|]. intros (? & ? & [= <- <-] & Hr'). by destruct (Hu _ _ Hr').
      * intros _. exists row, rest, id, p. by split; [|split; [|congruence]].
Qed.

(** What a whole table reads as. *)
Definition table_of (r : Result) (ts : list TickerPrice) : Prop :=
  Forall2 (fun row t => read_row r row = Ret t) (rows r) ts.

Lemma read_rows_table r rs ts : Forall2 (fun row t => read_row r row = Ret t) rs ts -> read_rows r rs = (ts, Ret ()).
Proof. induction 1 as [|row t rs ts H _ IH]; [done|]. cbn. by rewrite H, IH. Qed.

Lemma read_rows_prefix r rs : exists k, Forall2 (fun row t => read_row r row = Ret t) (take k rs) (read_rows r rs).1 /\
  ((read_rows r rs).2 = Ret () -> take k rs = rs).
Proof.
  induction rs as [|row rs [k [IH1 IH2]]]; [by exists 0%nat; split; [constructor|]|]. cbn.
  destruct (read_row r row) as [t|e|] eqn:E; [|exists 0%nat; split; [constructor|done]|exists 0%nat; split; [constructor|done]].
  destruct (read_rows r rs) as [ts o]. exists (S k). cbn in *. split; [by constructor|].
  intros H. f_equal. by apply IH2.
Qed.

(** A read that queries and reports success returns the whole table it
    selected, every row of it once and in its order, with the price cut to
    32 bits; reads of the cache after it return the same list whatever the
    database answers. *)
Lemma tickers_read_whole tickers a cache tickers' ts :
  (cache = true -> tickers = []) -> readTickers tickers a cache = (tickers', Ok (inl ts)) ->
  tickers' = ts /\
  (ts = [] \/ exists r, ta_select a = Ret r /\ table_of r ts) /\
  (ts <> [] -> forall b, readTickers tickers' b true = (tickers', Ok (inl ts))).
Proof.
  intros Hc E. unfold readTickers in E.
  assert (E' : readTickers_try tickers a cache = (tickers', Ret ()) /\ tickers' = ts).
  { destruct (readTickers_try tickers a cache) as [t [[]|e|]]; [|done|done]. by injection E as <- <-. }
  clear E. destruct E' as [E ->]. split; [done|]. split.
  - revert E. unfold readTickers_try. assert ((if cache then tickers else []) = []) as -> by (destruct cache; auto).
    rewrite andb_false_r. cbn [app].
    destruct (ta_begin a) as [[]|?|]; cbn [bind]; [|done|done]. destruct (ta_timeout a) as [[]|?|]; cbn [bind]; [|done|done].
    destruct (ta_count a) as [cr|?|]; cbn [bind]; [|done|done]. destruct (no_tickers cr) as [[]|?|]; cbn [bind]; [|..|done|done].
    { intros [= <-]. by left. }
    destruct (count_of cr) as [n|?|]; cbn [bind]; [|done|done]. destruct (ta_reserve a n) as [[]|?|]; cbn [bind]; [|done|done].
    destruct (ta_select a) as [r|?|]; cbn [bind]; [|done|done].
    destruct (read_rows_prefix r (rows r)) as (k & H1 & H2). destruct (read_rows r (rows r)) as [l o].
    intros [= <- Ho]. right. exists r. split; [done|]. unfold table_of. cbn in *.
    rewrite H2 in H1; [done|]. destruct o as [[]|?|]; done.
  - intros Hne b. unfold readTickers, readTickers_try. rewrite bool_decide_false by done. done.
Qed.

(** *** The server's two readers *)

(** The constructor of [ControlCenter]: the storage reads the tickers and
    loads the market data, then the price feed reads them through the same
    adapter.  [static] is the static vector at the start of the program. *)
Definition server_start `{B : Build} (static : list TickerPrice) (a1 a2 : TickerAnswers) (coresApp : list Z)
    {Double : Type} (mk : TickerPrice -> @Fluctuation Double) : res ((gmap Ticker Market.TickerData) * @PriceFeed.State Double) :=
  let '(static, r) := readTickers static a1 true in
  let! r := r in
  let! data := Market.loadMarketData r coresApp in
  let '(static, r) := readTickers static a2 true in
  let! r := r in
  let! feed := PriceFeed.construct r mk in
  Ok (data, feed).

(** C35: the market data and the price feed of a server that came up from a
    table with tickers are about the same tickers: the feed has one
    fluctuation for every row the storage read, in that order, and each of
    them has a book and a worker, although the price feed's own read may
    not reach the database any more. *)
Theorem server_and_feed_agree `{B : Build} a1 a2 coresApp {Double : Type} (mk : TickerPrice -> @Fluctuation Double) ts :
  Z.of_nat (length coresApp) < 2 ^ 16 -> (forall t, base (mk t) = t) ->
  (readTickers [] a1 true).2 = Ok (inl ts) -> ts <> [] ->
  exists data feed, server_start [] a1 a2 coresApp mk = Ok (data, feed) /\
    map base (fluctuations_ feed) = ts /\
    (exists r, ta_select a1 = Ret r /\ table_of r ts) /\
    forall f, f ∈ fluctuations_ feed -> exists td, data !! tp_ticker (base f) = Some td /\
      0 <= Market.workerId td < Market.appCores coresApp.
Proof.
  intros Hlen Hmk E Hne. unfold server_start. destruct (readTickers [] a1 true) as [st r] eqn:E1. cbn in E. subst r.
  destruct (tickers_read_whole [] a1 true st ts (fun _ => eq_refl) E1) as (-> & Ht & Hcache).
  rewrite (Hcache Hne a2). destruct (Market.loadMarketData (inl ts) coresApp) as [data|f] eqn:Ed; [|done].
  eexists data, _. split; [done|]. cbn. split; [|split].
  - induction ts as [|t l]; [done|]. clear -Hmk. cbn. rewrite Hmk. f_equal. induction l as [|u l IH]; [done|]. cbn. by rewrite Hmk, IH.
  - by destruct Ht.
  - intros f Hf. apply list_elem_of_fmap in Hf as (t & -> & Ht'). rewrite Hmk.
    destruct (Market.load_facts ts coresApp data Hlen Ed) as (l & -> & Hl & Hr & _).
    rewrite <- Hl in Ht'. apply list_elem_of_fmap in Ht' as (x & -> & Hx).
    destruct (Market.emplace_all_in ∅ l x Hx) as [td Htd]. exists td. split; [done|].
    apply Market.emplace_all_lookup in Htd as [Htd|(y & Hy & _ & ->)]; [by rewrite lookup_empty in Htd|]. by apply Hr.
Qed.

(** *** TableReader *)

Lemma read_column_from {A} (as_ : Cell -> Run A) (f : list Cell -> A) (col : nat) r n k :
  Forall (fun row => exists c, row !! col = Some c /\ as_ c = Ret (f row)) (rows r) ->
  (length (rows r) < n + k)%nat -> (k <= length (rows r))%nat ->
  read_column n as_ (mkTableReader r (Z.of_nat k - 1)) col = Ok (Ret (map f (drop k (rows r)))).
Proof.
  intros H. revert k. induction n as [|n IH]; intros k Hn Hk; [lia|]. cbn [read_column].
  unfold next, size. cbn [result_ cursor_]. replace (Z.of_nat k - 1 + 1) with (Z.of_nat k) by lia.
  destruct (Z.ltb_spec (Z.of_nat k) (Z.of_nat (length (rows r)))) as [Hlt|Hge].
  - destruct (lookup_lt_is_Some_2 (rows r) k ltac:(lia)) as [row Erow].
    destruct (Forall_lookup_1 _ _ _ _ H Erow) as (c & Ec & Ea).
    assert (get as_ (mkTableReader r (Z.of_nat k)) col = Ret (f row)) as ->.
    { unfold get, size. cbn [result_ cursor_]. rewrite (proj2 (Z.ltb_ge _ _)), (proj2 (Z.leb_gt _ _)) by lia.
      cbn [orb]. rewrite Nat2Z.id, Erow. apply lookup_lt_Some in Ec as Hcol.
      rewrite (proj2 (Nat.leb_gt _ _)) by lia. unfold cell. by rewrite Ec. }
    specialize (IH (S k) ltac:(lia) ltac:(lia)). replace (Z.of_nat (S k) - 1) with (Z.of_nat k) in IH by lia.
    rewrite IH. rewrite (drop_S _ _ _ Erow). done.
  - by rewrite drop_ge by lia.
Qed.

(** Stepping a new reader with [next] until it says no reads the
    column of every row of the table, once each and in order, and ends
    after one step more than there are rows; [get] outside a row is
    refused before the first step, after the last, and past the last
    column, never an access out of bounds. *)
Theorem reader_reads_every_row exec table r {A : Type} (as_ : Cell -> Run A) (f : list Cell -> A) col :
  exec (query table) = Ret r -> Forall (fun row => exists c, row !! col = Some c /\ as_ c = Ret (f row)) (rows r) ->
  exists t, open_reader exec table = Ret t /\
  (forall fuel, (length (rows r) < fuel)%nat -> read_column fuel as_ t col = Ok (Ret (map f (rows r)))) /\
  get as_ t col = Raise (other_exception "Row index out of range") /\
  (forall k, (k <= length (rows r))%nat -> get as_ (mkTableReader r (Z.of_nat k)) (match rows r !! k with Some row => length row | None => O end)
     = Raise (other_exception (if (k <? length (rows r))%nat then "Column index out of range" else "Row index out of range"))).
Proof.
  intros E H. exists (mkTableReader r (-1)). unfold open_reader. rewrite E. split; [done|]. split; [|split; [done|]].
  - intros fuel Hf. by apply (read_column_from as_ f col r fuel 0 H); lia.
  - intros k Hk. unfold get, size. cbn [result_ cursor_]. rewrite (proj2 (Z.ltb_ge _ _)) by lia. cbn [orb].
    destruct (Nat.ltb_spec k (length (rows r))) as [Hlt|Hge].
    + rewrite (proj2 (Z.leb_gt _ _)) by lia. rewrite Nat2Z.id. destruct (lookup_lt_is_Some_2 (rows r) k Hlt) as [row ->].
      by rewrite Nat.leb_refl.
    + by rewrite (proj2 (Z.leb_le _ _)) by lia.
Qed.
End Postgres.

(** ** A concrete database *)

(** Cells are the text the server sends, or NULL; numbers are decimal. *)
Definition text (c : option string) : Run string :=
  match c with Some s => Ret s | None => Raise (other_exception "Attempt to convert SQL null to string.") end.
Definition number (c : option string) : Run Z :=
  match c with
  | Some s =>
      match foldl (fun acc a => n <- acc; let d := Z.of_N (N_of_ascii a) - 48 in
                               if (0 <=? d) && (d <=? 9) then Ret (10 * n + d)
                               else Raise (other_exception "Could not convert to a number"))
                  (Ret 0) (String.list_ascii_of_string s) with
      | Ret n => Ret n
      | e => e
      end
  | None => Raise (other_exception "Attempt to convert SQL null to a number.")
  end.

Definition example_clients : Clients (Cell := option string) := fun name =>
  if bool_decide (name = "client0") then [[Some "7"; Some "secret"]] else [].
Definition example_login : ClientAnswers (Cell := option string) :=
  mkClientAnswers (Ret ()) (Ret ()) (fun name => Ret (mkResult ["client_id"; "password"] (example_clients name))).

Lemma credentials_exact_witness : exists r, checkCredentials text number example_login "client0" "secret" = Ok r /\
  (r = inl 7 <-> exists row rest, example_clients "client0" = row :: rest /\ client_row text number row 7 "secret").
Proof.
  destruct (credentials_exact text number example_login example_clients "client0" "secret") as (r & E & H & _).
  - split; [done|]. split; [done|]. intros name. by eexists.
  - intros n row. unfold example_clients. case_bool_decide; [|by intros ?%elem_of_nil].
    intros ->%list_elem_of_singleton. exists 7, "secret". by eexists _, _, _.
  - exists r. split; [done|]. apply H.
Defined.

Definition tickers_result (rs : list (list (option string))) : Result (Cell := option string) :=
  mkResult ["ticker"; "price"] rs.
Definition example_tickers (rs : list (list (option string))) (commit : Run unit) : TickerAnswers (Cell := option string) :=
  mkTickerAnswers (Ret ()) (Ret ()) (Ret (mkResult ["count"] [[Some (pretty (length rs))]])) (fun _ => Ret ())
    (Ret (tickers_result rs)) commit.
Definition down : TickerAnswers (Cell := option string) :=
  mkTickerAnswers (Raise (other_exception "Lost connection to the database server.")) (Ret ()) Outside (fun _ => Ret ()) Outside (Ret ()).

Definition three : list (list (option string)) := [[Some "AAPL"; Some "190"]; [Some "GOOGL"; Some "4294967297"]; [Some "V"; Some "3"]].
Definition three_tickers : list TickerPrice :=
  [mkTickerPrice (toTicker "AAPL") 190; mkTickerPrice (toTicker "GOOG") 1; mkTickerPrice (toTicker "V") 3].

Lemma example_reads : readTickers text number [] (example_tickers three (Ret ())) true = (three_tickers, Ok (inl three_tickers)).
Proof. by vm_compute. Qed.

(** The cache answers when the database is down. *)
Example tickers_from_cache : readTickers text number three_tickers down true = (three_tickers, Ok (inl three_tickers)).
Proof.
  apply (tickers_read_whole text number [] (example_tickers three (Ret ())) true three_tickers three_tickers (fun _ => eq_refl));
    [vm_compute; reflexivity|discriminate].
Defined.

Definition still (t : TickerPrice) : @Fluctuation Z := mkFluctuation t 0 0 0 0 0.

Lemma server_and_feed_agree_witness : exists data feed,
  server_start (B := build_default) text number [] (example_tickers three (Ret ())) down [1; 2] still = Ok (data, feed) /\
  map base (fluctuations_ feed) = three_tickers.
Proof.
  destruct (server_and_feed_agree (B := build_default) text number (example_tickers three (Ret ())) down [1; 2] still three_tickers)
    as (data & feed & E & H & _); [cbn; lia|done|by vm_compute|done|]. by exists data, feed.
Defined.

Lemma reader_reads_every_row_witness :
  read_column 4 text (mkTableReader (tickers_result three) (-1)) 0 = Ok (Ret ["AAPL"; "GOOGL"; "V"]).
Proof.
  destruct (reader_reads_every_row (fun _ => Ret (tickers_result three)) "tickers" (tickers_result three) text
    (fun row => match row with Some s :: _ => s | _ => "" end) 0 eq_refl) as (t & E & H & _).
  - repeat constructor; by eexists.
  - injection E as <-. by rewrite H by (cbn; lia).
Defined.

(** A row that cannot be converted ends the read with an error, but the
    rows before it stay in the cache: the next read reports them as the
    whole table.  So does a read whose commit failed. *)
Theorem partial_tickers_served :
  let a := example_tickers [[Some "AAPL"; Some "190"]; [Some "GOOG"; None]] (Ret ()) in
  (readTickers text number [] a true).2 = Ok (inr DbError) /\
  (readTickers text number (readTickers text number [] a true).1 (example_tickers three (Ret ())) true).2 =
    Ok (inl [mkTickerPrice (toTicker "AAPL") 190]).
Proof. by vm_compute. Qed.

(** Only [sql_error] is caught when credentials are checked: a client
    without a password, or a lost connection, is an exception in the thread
    of the system bus. *)
Theorem null_password_escapes :
  let row := fun _ : string => Ret (mkResult ["client_id"; "password"] [[Some "7"; None]]) in
  checkCredentials text number (mkClientAnswers (Ret ()) (Ret ()) row) "client0" "" =
    Err (Throw "Attempt to convert SQL null to string.") /\
  checkCredentials text number (mkClientAnswers (Ret ()) (Raise (sql_error "timeout")) row) "client0" "" = Ok (inr DbError).
Proof. by vm_compute. Qed.

(** The environment overrides the configuration, key by key. *)
Example connection_from_both :
  getConnectionString (fun v => if bool_decide (v = "POSTGRES_HOST") then "db" else "")
    (fun k => if bool_decide (k = "db.port") then "5432" else "hft")
  = "host=db port=5432 user=hft password=hft dbname=hft connect_timeout=1".
Proof. by vm_compute. Qed.
