(* ===== verification/FutexWaiter.v ===== *)
(** * Futex waiters

    Models [FutexWaiter] (common/src/utils/futex_waiter.hpp) and the rest of
    common/src/utils/sync_utils.hpp: the timeout of [futexWait],
    [hybridWait] and [waitForAny].  Threads take one access of the shared
    words at a time, in any order; FUTEX_WAIT compares the word and sleeps
    in one step, FUTEX_WAKE wakes a sleeper whatever the word holds. *)

From stdpp Require Import list.
From S2P Require Import Prelude LfqRunner.

Module FutexWaiter.

(** The waiting thread: [prepareWait] (two accesses), its caller's look at
    what it waits for, then [cancelWait] or [wait]. *)
Inductive WPC :=
| WIdle
| WStore (val : Z)      (* waitFlag.store(true) *)
| WCheck (val : Z)      (* the caller's check *)
| WCancel               (* cancelWait *)
| WWait (val : Z)       (* futexWait(futex, val) *)
| WBlocked (val : Z)
| WClear.               (* waitFlag.store(false) *)

(** A notifying thread: its caller has published, then [notify]. *)
Inductive NPC := NIdle | NLoad | NAdd | NWake.

Record State := mkState {
  futex : Z;
  waitFlag : bool;
  published : bool;      (* something the waiter has not taken yet *)
  waiter : WPC;
  notifiers : list NPC;
  adds : Z               (* fetch_adds so far *)
}.

Definition init (n : nat) : State := mkState 0 false false WIdle (replicate n NIdle) 0.

Definition set_waiter (s : State) (w : WPC) : State :=
  mkState (futex s) (waitFlag s) (published s) w (notifiers s) (adds s).
Definition set_flag (s : State) (b : bool) (w : WPC) : State :=
  mkState (futex s) b (published s) w (notifiers s) (adds s).

(** [check] finds what was published and takes it. *)
Definition wstep (s : State) : State :=
  match waiter s with
  | WIdle => set_waiter s (WStore (futex s))
  | WStore val => set_flag s true (WCheck val)
  | WCheck val =>
      if published s then mkState (futex s) (waitFlag s) false WCancel (notifiers s) (adds s)
      else set_waiter s (WWait val)
  | WCancel => set_flag s false WIdle
  | WWait val => if futex s =? val then set_waiter s (WBlocked val) else set_waiter s WClear
  | WBlocked _ => s
  | WClear => set_flag s false WIdle
  end.

Definition wake (w : WPC) : WPC := match w with WBlocked _ => WClear | w => w end.

Definition nstep (i : nat) (s : State) : State :=
  let set p := <[i := p]> (notifiers s) in
  match notifiers s !! i with
  | None => s
  | Some NIdle => mkState (futex s) (waitFlag s) true (waiter s) (set NLoad) (adds s)
  | Some NLoad => mkState (futex s) (waitFlag s) (published s) (waiter s) (set (if waitFlag s then NAdd else NIdle)) (adds s)
  | Some NAdd => mkState (u32 (futex s + 1)) (waitFlag s) (published s) (waiter s) (set NWake) (adds s + 1)
  | Some NWake => mkState (futex s) (waitFlag s) (published s) (wake (waiter s)) (set NIdle) (adds s)
  end.

Inductive step (s : State) : State -> Prop :=
| step_waiter : step s (wstep s)
| step_notifier i : step s (nstep i s).

Inductive Reach (n : nat) : State -> Prop :=
| reach_init : Reach n (init n)
| reach_step s s' : Reach n s -> step s s' -> Reach n s'.

(** ** Invariant *)

Definition busy (p : NPC) : bool := match p with NLoad | NAdd => true | _ => false end.
Definition coming (s : State) : Prop := exists i p, notifiers s !! i = Some p /\ busy p = true.
Definition waking (s : State) : Prop := exists i p, notifiers s !! i = Some p /\ p <> NIdle.

Record Inv (s : State) : Prop := {
  inv_futex : adds s < 2 ^ 32 -> futex s = adds s;
  inv_adds : 0 <= adds s;
  inv_val : adds s < 2 ^ 32 ->
    match waiter s with WStore v | WCheck v | WWait v | WBlocked v => 0 <= v <= adds s | _ => True end;
  inv_flag : match waiter s with WCheck _ | WCancel | WWait _ | WBlocked _ | WClear => waitFlag s = true | _ => True end;
  inv_wait : adds s < 2 ^ 32 -> published s = true ->
    match waiter s with
    | WWait v => futex s <> v \/ coming s
    | WBlocked v => waking s
    | _ => True
    end
}.

Lemma coming_waking s : coming s -> waking s.
Proof. intros (i & p & H & Hp). exists i, p. split; [done|]. by destruct p. Qed.

Lemma Inv_wstep s : Inv s -> Inv (wstep s).
Proof.
  intros [F A V G W]. unfold wstep. destruct (waiter s) as [|v|v| |v|v|] eqn:E.
  - split; cbn; auto. intros H. rewrite F by done. lia.
  - split; cbn; auto.
  - destruct (published s) eqn:Ep; split; cbn; auto; congruence.
  - split; cbn; auto.
  - destruct (Z.eqb_spec (futex s) v) as [Hv|Hv]; split; cbn; auto.
    intros H Hp. destruct (W H Hp) as [?|Hc]; [done|]. by apply coming_waking.
  - by split; rewrite ?E.
  - split; cbn; auto.
Qed.

Lemma lookup_other (l : list NPC) i j p q : l !! i = Some p -> i <> j -> <[j := q]> l !! i = Some p.
Proof. intros H Hne. by rewrite list_lookup_insert_ne. Qed.

Lemma Inv_nstep i s : Inv s -> Inv (nstep i s).
Proof.
  intros [F A V G W]. unfold nstep. destruct (notifiers s !! i) as [p|] eqn:Ei; [|done].
  pose proof (lookup_lt_Some _ _ _ Ei) as Hlt.
  destruct p; split; cbn; auto.
  - intros H _. specialize (V H). destruct (waiter s) as [|v|v| |v|v|]; auto.
    + right. exists i, NLoad. split; [by apply list_lookup_insert_eq|done].
    + exists i, NLoad. split; [by apply list_lookup_insert_eq|done].
  - intros H Hp. specialize (W H Hp). destruct (waiter s) as [|v|v| |v|v|] eqn:Ew; auto; rewrite G.
    + right. exists i, NAdd. split; [by apply list_lookup_insert_eq|done].
    + exists i, NAdd. split; [by apply list_lookup_insert_eq|done].
  - intros H. rewrite F by lia. apply u32_small. lia.
  - lia.
  - intros H. specialize (V ltac:(lia)). destruct (waiter s); auto; lia.
  - intros H Hp. specialize (V ltac:(lia)). rewrite F by lia. rewrite u32_small by lia.
    destruct (waiter s) as [|v|v| |v|v|]; auto; [left; lia|].
    exists i, NWake. split; [by apply list_lookup_insert_eq|done].
  - intros H. specialize (V H). by destruct (waiter s).
  - destruct (waiter s); auto.
  - intros H Hp. specialize (W H Hp). destruct (waiter s) as [|v|v| |v|v|]; cbn; auto.
    destruct W as [W|(j & p & Hj & Hb)]; [by left|]. right. exists j, p. split; [|done].
    apply lookup_other; [done|]. intros ->. rewrite Ei in Hj. by injection Hj as <-.
Qed.

Lemma waiter_Reach_Inv n s : Reach n s -> Inv s.
Proof.
  induction 1 as [|s s' _ IH [|i]]; [by split|by apply Inv_wstep|by apply Inv_nstep].
Qed.

Lemma nstep_frame i s p : notifiers s !! i = Some p -> p <> NIdle ->
  waiter (nstep i s) = match p with NWake => wake (waiter s) | _ => waiter s end /\ waitFlag (nstep i s) = waitFlag s /\
  notifiers (nstep i s) !! i = Some (match p with NLoad => if waitFlag s then NAdd else NIdle | NAdd => NWake | _ => NIdle end).
Proof.
  intros E Hp. unfold nstep. rewrite E. pose proof (lookup_lt_Some _ _ _ E).
  destruct p; cbn; rewrite ?list_lookup_insert_eq by done; done.
Qed.

(** A thread that looks for work between [prepareWait] and [wait] does
    not sleep through a notification: whenever it is blocked and something
    has been published, one of the notifying threads is still inside
    [notify], and that thread alone wakes it within three steps. *)
Theorem futex_waiter_wakes n s v : Reach n s -> adds s < 2 ^ 32 -> waiter s = WBlocked v -> published s = true ->
  exists i k, (k <= 3)%nat /\ waiter (Nat.iter k (nstep i) s) = WClear.
Proof.
  intros R Ha Hw Hp. pose proof (waiter_Reach_Inv n s R) as [_ _ _ G W]. rewrite Hw in G. specialize (W Ha Hp). rewrite Hw in W.
  destruct W as (i & p & Ei & Hi). exists i.
  assert (H1 : forall s, notifiers s !! i = Some NWake -> waiter s = WBlocked v -> waiter (nstep i s) = WClear).
  { intros s1 E1 W1. destruct (nstep_frame i s1 NWake E1) as [-> _]; [done|]. by rewrite W1. }
  assert (H2 : forall s, notifiers s !! i = Some NAdd -> waiter s = WBlocked v -> waiter (nstep i (nstep i s)) = WClear).
  { intros s1 E1 W1. destruct (nstep_frame i s1 NAdd E1) as (Hw1 & _ & Hn); [done|]. apply H1; congruence. }
  destruct p; [done|exists 3%nat|exists 2%nat|exists 1%nat]; (split; [lia|]); cbn; [|by apply H2|by apply H1].
  destruct (nstep_frame i s NLoad Ei) as (Hw1 & _ & Hn); [done|]. rewrite G in Hn. apply H2; congruence.
Qed.

(** A waiter asleep, and a notifier that has just published. *)
Definition asleep : State := Nat.iter 4 wstep (init 1).
Lemma futex_waiter_wakes_witness : exists i k, (k <= 3)%nat /\ waiter (Nat.iter k (nstep i) (nstep 0 asleep)) = WClear.
Proof.
  apply (futex_waiter_wakes 1 (nstep 0 asleep) 0); [|cbn; lia|reflexivity|reflexivity].
  eapply reach_step; [|apply step_notifier]. unfold asleep. cbn [Nat.iter nat_rect].
  do 4 (eapply reach_step; [|apply step_waiter]). apply reach_init.
Defined.

(** Without the check the notification can fall between the load of the
    word and the flag: the thread sleeps with no one left to wake it. *)
Definition wstep_unchecked (s : State) : State :=
  match waiter s with WCheck val => set_waiter s (WWait val) | _ => wstep s end.

Example unchecked_waiter_misses : let s := Nat.iter 3 wstep_unchecked (Nat.iter 2 (nstep 0) (wstep (init 1))) in
  waiter s = WBlocked 0 /\ published s = true /\ notifiers s = [NIdle].
Proof. by vm_compute. Qed.
End FutexWaiter.

Module SyncUtils.

(** ** futexWait *)

(** The timespec passed to the kernel; none waits without limit. *)
Definition timespec (timeoutNs : Z) : option (Z * Z) :=
  if timeoutNs =? 0 then None else Some (timeoutNs / 1000000000, timeoutNs mod 1000000000).

Lemma timespec_exact t sec nsec : 0 <= t < 2 ^ 64 -> timespec t = Some (sec, nsec) ->
  sec * 1000000000 + nsec = t /\ 0 <= nsec < 1000000000 /\ 0 <= sec < 2 ^ 63.
Proof.
  unfold timespec. intros H. case_test; [done|]. intros [= <- <-].
  pose proof (Z.div_mod t 1000000000). pose proof (Z.mod_pos_bound t 1000000000 ltac:(lia)).
  split; [lia|]. split; [done|]. split; [apply Z.div_pos; lia|]. apply Z.div_lt_upper_bound; lia.
Qed.

(** ** hybridWait *)

(** The spinning part, on the values its loads see: of the futex and of the
    flag.  How many cycles it took, and whether it went on to sleep. *)
Fixpoint hybrid_spin (loads : nat -> Z * bool) (i : nat) (fuel : nat) (val : Z) (w : SpinWait.SpinWait) : res (Z * bool) :=
  match fuel with
  | O => Err OutOfFuel
  | S fuel =>
      let '(w, more) := SpinWait.incr w in
      if more then
        let '(ftx, stopFlag) := loads i in
        if negb (ftx =? val) || negb stopFlag then Ok (SpinWait.cycles w, false)
        else hybrid_spin loads (S i) fuel val w
      else Ok (SpinWait.cycles w, true)
  end.

Definition hybridWait (loads : nat -> Z * bool) (fuel : nat) (val : Z) : res (Z * bool) :=
  hybrid_spin loads 0 fuel val SpinWait.make_default.

Lemma hybrid_spin_ends loads i n val w : 0 <= SpinWait.cycles_ w <= SpinWait.SPIN_RETRIES_YIELD ->
  SpinWait.SPIN_RETRIES_YIELD - SpinWait.cycles_ w < Z.of_nat n -> exists r, hybrid_spin loads i n val w = Ok r.
Proof.
  revert i w. induction n as [|n IH]; intros i w Hw Hn; [lia|]. cbn [hybrid_spin].
  destruct (SpinWait.incr w) as [w' []] eqn:E; [|by eexists].
  apply SpinWait.incr_true in E as (_ & E & _ & E2). destruct (loads i) as [ftx fl].
  destruct (_ || _); [by eexists|]. apply IH; lia.
Qed.

(** [hybridWait] gives up spinning, whatever it sees. *)
Lemma hybridWait_ends loads n val : SpinWait.SPIN_RETRIES_YIELD < Z.of_nat n -> exists r, hybridWait loads n val = Ok r.
Proof. intros H. apply hybrid_spin_ends; cbn; [done|]. fold SpinWait.SPIN_RETRIES_YIELD. lia. Qed.

(** The flag called [stopFlag] ends the wait when it is false. *)
Example hybrid_wait_flag_is_inverted : hybridWait (fun _ => (5, false)) 10 5 = Ok (1, false) /\
  hybrid_spin (fun i => (if (i =? 2)%nat then 6 else 5, true)) 0 10 5 SpinWait.make_default = Ok (3, false).
Proof. by vm_compute. Qed.

(** ** waitForAny *)

Record futex_waitv := mkWaitv { val : Z; address : Z; flags : Z }.
Definition FUTEX_32 : Z := 2.

(** [futexes] holds the addresses of the futexes, [base] is where the
    vector holds its first element; an element has 8 bytes. *)
Definition waitv (memory : Z -> Z) (base : Z) (futexes : list Z) : list futex_waitv :=
  imap (fun i f => mkWaitv (memory f) (base + 8 * Z.of_nat i) FUTEX_32) futexes.

Definition waitForAny (futex_waitv_call : list futex_waitv -> Z) (memory : Z -> Z) (base : Z) (futexes : list Z) : Z :=
  let res := futex_waitv_call (waitv memory base futexes) in if 0 <=? res then res else -1.

(** The kernel is given the slots of the vector, not the futexes: no entry
    names the futex it is for, unless that lies in the vector itself. *)
Theorem wait_for_any_waits_elsewhere memory base futexes i f :
  futexes !! i = Some f -> f <> base + 8 * Z.of_nat i ->
  exists e, waitv memory base futexes !! i = Some e /\ val e = memory f /\ address e <> f.
Proof.
  intros E Hne. eexists. split; [by unfold waitv; rewrite list_lookup_imap, E|]. cbn. split; [done|congruence].
Qed.

Lemma wait_for_any_waits_elsewhere_witness : exists e, waitv (fun _ => 0) 4096 [64; 128] !! 1%nat = Some e /\
  val e = 0 /\ address e <> 128.
Proof. apply (wait_for_any_waits_elsewhere (fun _ => 0) 4096 [64; 128] 1 128); [reflexivity|lia]. Defined.
End SyncUtils.
