(* ===== verification/Memory.v ===== *)
(** * Huge pages and shared memory

    Models the mapping functions of common/src/utils/memory_utils.hpp
    ([allocHuge], [freeHuge], [warmMemory], [mapAnonymousShm],
    [mapFileHuge], [mapSharedMemory]) with the system calls' answers as
    inputs, and the constructor of [ShmUPtr]
    (common/src/transport/shm/shm_ptr.hpp) step by step, for processes that
    attach at the same time.  [ShmQueue.v] has the pointers' lives when one
    attaches after the other. *)

From stdpp Require Import gmap list strings.
From S2P Require Import Prelude HugeArray.

Module MemoryUtils.
Import HugeArray.

(** ** Anonymous memory *)

Inductive Flag := MAP_PRIVATE | MAP_SHARED | MAP_ANONYMOUS | MAP_HUGETLB | MAP_POPULATE.
#[export] Instance Flag_eq_dec : EqDecision Flag.
Proof. solve_decision. Defined.

Section Build.
(** Whether [CICD] is defined. *)
Context (CICD : bool).

Definition ANON_FLAGS : list Flag :=
  if CICD then [MAP_PRIVATE; MAP_ANONYMOUS] else [MAP_PRIVATE; MAP_ANONYMOUS; MAP_HUGETLB; MAP_POPULATE].
Definition SHM_FLAGS : list Flag := [MAP_SHARED; MAP_HUGETLB; MAP_POPULATE].
Definition fallback_flags : list Flag := [MAP_PRIVATE; MAP_ANONYMOUS].

(** errno.h *)
Definition ENOMEM : Z := 12.

(** The mappings of the process, by address, and its 64-bit words, by
    address. *)
Record Space := mkSpace { maps : gmap Z Z; word : Z -> Z }.

(** What [mmap] answers: an address, or the error number. *)
Definition Mmap := Z -> list Flag -> Z + Z.

Definition map_at (m : Space) (addr size : Z) : Space := mkSpace (<[addr := size]> (maps m)) (word m).

(** [memset(addr, 0, size)], for a size that is a multiple of 8. *)
Definition memset0 (m : Space) (addr size : Z) : Space :=
  mkSpace (maps m) (fun a => if (addr <=? a) && (a <? addr + size) then 0 else word m a).

(** [p[i] = p[i]] for every eighth word, then the clearing. *)
Fixpoint touch (m : Space) (p : Z) (n : nat) : Space :=
  match n with
  | O => m
  | S n => let m := touch m p n in
           let a := p + 8 * (8 * Z.of_nat n) in
           mkSpace (maps m) (fun b => if b =? a then word m a else word m b)
  end.

Definition warmMemory (m : Space) (addr size : Z) (write : bool) : Space :=
  let iterations := size / 8 in
  let m := touch m addr (Z.to_nat ((iterations + 7) / 8)) in
  if write then memset0 m addr size else m.

(** [allocHuge<T>(size, lock)]; a failed [mlock] is only logged. *)
Definition allocHuge (m : Space) (mmap : Mmap) (size : Z) : res (Space * Z) :=
  let size := alignHuge size in
  let ptr := mmap size ANON_FLAGS in
  let ptr := match ptr with
             | inr errno => if negb CICD && (errno =? ENOMEM) then mmap size fallback_flags else ptr
             | inl _ => ptr
             end in
  match ptr with
  | inr _ => Err (Throw "mmap failed")
  | inl addr => Ok (warmMemory (map_at m addr size) addr size true, addr)
  end.

(** [munmap] of the first [size] bytes of a mapping. *)
Definition munmap (m : Space) (addr size : Z) : Space :=
  match maps m !! addr with
  | None => m
  | Some n =>
      let rest := delete addr (maps m) in
      mkSpace (if n <=? size then rest else <[addr + size := n - size]> rest) (word m)
  end.

Definition freeHuge (m : Space) (ptr size : Z) : Space :=
  if ptr =? 0 then m
  else munmap m ptr (Z.land (u64 (size + HUGE_PAGE_SIZE - 1)) (not64 (HUGE_PAGE_SIZE - 1))).

Definition mapAnonymousShm (m : Space) (mmap : Mmap) (size : Z) : res (Space * Z * bool) :=
  let size := alignHuge size in
  match mmap size ANON_FLAGS with
  | inr _ => Err (Throw "mmap anonymous failed")
  | inl addr => Ok (map_at m addr size, addr, true)
  end.

Lemma touch_same m p n : maps (touch m p n) = maps m /\ forall a, word (touch m p n) a = word m a.
Proof.
  induction n as [|n [IH1 IH2]]; [done|]. cbn [touch maps word]. split; [done|]. intros a.
  destruct (Z.eqb_spec a (p + 8 * (8 * Z.of_nat n))) as [->|]; apply IH2.
Qed.

(** C37: a huge allocation succeeds exactly when one of its two attempts does,
    the second one only after ENOMEM outside the CICD build; its block
    holds the size asked for, in whole huge pages, all zeros, and touches
    nothing else; freeing it gives back exactly that mapping. *)
Theorem huge_alloc_free m (mmap : Mmap) size : 0 <= size <= 2 ^ 64 - HUGE_PAGE_SIZE ->
  let n := alignHuge size in
  size <= n < size + HUGE_PAGE_SIZE /\ (HUGE_PAGE_SIZE | n) /\
  match allocHuge m mmap size with
  | Ok (m', addr) =>
      (mmap n ANON_FLAGS = inl addr \/
       CICD = false /\ mmap n ANON_FLAGS = inr ENOMEM /\ mmap n fallback_flags = inl addr) /\
      maps m' = <[addr := n]> (maps m) /\
      (forall a, word m' a = if (addr <=? a) && (a <? addr + n) then 0 else word m a) /\
      (addr <> 0 -> maps m !! addr = None -> maps (freeHuge m' addr size) = maps m)
  | Err f => f = Throw "mmap failed" /\ exists e, mmap n ANON_FLAGS = inr e /\
      (CICD = false -> e = ENOMEM -> exists e', mmap n fallback_flags = inr e')
  end.
Proof.
  intros Hs n. destruct (alignHuge_spec size Hs) as [Hd Hn]. split; [done|]. split; [done|]. fold n in Hd, Hn.
  assert (G : forall addr, let m' := warmMemory (map_at m addr n) addr n true in
    maps m' = <[addr := n]> (maps m) /\
    (forall a, word m' a = if (addr <=? a) && (a <? addr + n) then 0 else word m a) /\
    (addr <> 0 -> maps m !! addr = None -> maps (freeHuge m' addr size) = maps m)).
  { intros addr m'. destruct (touch_same (map_at m addr n) addr (Z.to_nat ((n / 8 + 7) / 8))) as [T1 T2].
    assert (E : maps m' = <[addr := n]> (maps m)) by exact T1. split; [done|]. split.
    - intros a. subst m'. unfold warmMemory, memset0. cbn [word]. by rewrite T2.
    - intros Ha Hm. unfold freeHuge. apply Z.eqb_neq in Ha as ->. unfold munmap. rewrite E, lookup_insert_eq.
      fold (alignHuge size). fold n. rewrite Z.leb_refl. cbn. by rewrite delete_insert_eq, delete_id. }
  unfold allocHuge. fold n. destruct (mmap n ANON_FLAGS) as [addr|e] eqn:E1.
  - split; [by left|]. apply G.
  - destruct CICD eqn:EC; cbn [negb andb].
    { split; [done|]. by exists e. }
    destruct (Z.eqb_spec e ENOMEM) as [->|Hne].
    + destruct (mmap n fallback_flags) as [addr|e'] eqn:E2.
      * split; [by right|]. apply G.
      * split; [done|]. exists ENOMEM. eauto.
    + split; [done|]. by exists e.
Qed.
End Build.

Definition no_huge_pages : Mmap := fun size fl => if bool_decide (MAP_HUGETLB ∈ fl) then inr ENOMEM else inl 4096.

Lemma huge_alloc_free_witness : exists m', allocHuge false (mkSpace ∅ (fun _ => 7)) no_huge_pages 100 = Ok (m', 4096) /\
  maps m' = {[4096 := 2097152]} /\ maps (freeHuge m' 4096 100) = ∅.
Proof.
  destruct (huge_alloc_free false (mkSpace ∅ (fun _ => 7)) no_huge_pages 100 ltac:(unfold HUGE_PAGE_SIZE; lia)) as (_ & _ & H).
  destruct (allocHuge false (mkSpace ∅ (fun _ => 7)) no_huge_pages 100) as [[m' addr]|f].
  - destruct H as ([H|(_ & _ & H)] & Hm & _ & Hf); [vm_compute in H; discriminate|].
    vm_compute in H. injection H as <-. exists m'. split; [done|]. split; [rewrite Hm; by vm_compute|]. by apply Hf.
  - destruct H as (_ & e & He & H). vm_compute in He. injection He as <-. destruct (H eq_refl eq_refl) as [e' He]. discriminate He.
Defined.
End MemoryUtils.

(** ** Attaching at the same time *)

Module ShmAttach.
Import HugeArray.
Section ShmAttach.
(** The aligned size of the object. *)
Context (alignedSize : Z).

(** The file behind the name: its length, whether an object was
    constructed in it, and the object's reference count. *)
Record File := mkFile { f_len : Z; f_object : bool; f_refCount : Z }.

(** A process in the constructor of [ShmUPtr]. *)
Inductive PC :=
| PStat
| POpen (existed : bool)
| PTruncate
| PMap (own : bool)
| PWarm (own : bool)
| PBack (v : Z)    (* an opener has read the line of the count and writes it back *)
| PLock (own : bool)
| PNew
| PIncrement
| PAttached
| PThrown          (* the constructor threw *)
| PCrashed.        (* access to a page behind the end of the file *)

#[export] Instance PC_eq_dec : EqDecision PC.
Proof. solve_decision. Defined.

Record State := mkState { file : option File; procs : list PC }.

Definition init (n : nat) : State := mkState None (replicate n PStat).

(** The answer of the system call of a step. *)
Inductive Answer := Succeeds | Fails.

(** [warmMemory] of an opener is [p[i] = p[i]] on every cache line of the live
    object, [write] being false: a read and a plain write of the line that
    holds the count. *)

Definition proc_step (file : option File) (p : PC) (ans : Answer) : option File * PC :=
  match p, ans with
  | PStat, _ => (file, POpen (bool_decide (is_Some file)))
  | POpen _, Fails => (file, PThrown)
  | POpen existed, Succeeds =>
      (Some (match file with Some f => f | None => mkFile 0 false 0 end), if existed then PMap false else PTruncate)
  | PTruncate, Fails => (file, PThrown)
  | PTruncate, Succeeds =>
      ((fun f => mkFile alignedSize (f_object f) (f_refCount f)) <$> file, PMap true)
  | PMap _, Fails => (file, PThrown)
  | PMap own, Succeeds => (file, PWarm own)
  | PWarm own, _ =>
      match file with
      | Some f => if f_len f <? alignedSize then (file, PCrashed)
                  else if own then (Some (mkFile (f_len f) false 0), PLock own)
                  else (file, PBack (f_refCount f))
      | None => (file, PCrashed)
      end
  | PBack v, _ => ((fun f => mkFile (f_len f) (f_object f) v) <$> file, PLock false)
  | PLock _, Fails => (file, PThrown)
  | PLock own, Succeeds => (file, if own then PNew else PIncrement)
  | PNew, _ => ((fun f => mkFile (f_len f) true 0) <$> file, PIncrement)
  | PIncrement, _ => ((fun f => mkFile (f_len f) (f_object f) (u32 (f_refCount f + 1))) <$> file, PAttached)
  | (PAttached | PThrown | PCrashed), _ => (file, p)
  end.

Definition sys_step (s : State) (i : nat) (ans : Answer) : State :=
  match procs s !! i with
  | None => s
  | Some p => let '(f, p) := proc_step (file s) p ans in mkState f (<[i := p]> (procs s))
  end.

Fixpoint run (s : State) (l : list (nat * Answer)) : State :=
  match l with [] => s | (i, a) :: l => run (sys_step s i a) l end.

Definition attached (s : State) : Z := Z.of_nat (length (filter (fun p => p = PAttached) (procs s))).

(** The queue is made, and whoever is on the way found it. *)
Definition opener (p : PC) : Prop :=
  match p with
  | PStat | POpen true | PMap false | PWarm false | PBack _ | PLock false | PIncrement | PAttached | PThrown => True
  | _ => False
  end.

(** What is about to be written back. *)
Definition backs (p : PC) (ok : Z -> Prop) : Prop := match p with PBack v => ok v | _ => True end.

(** The count is [exact], or it may have lost some. *)
Definition counts (exact : bool) (n a : Z) : Prop := if exact then n = a else 0 <= n <= a.

Record Ready (exact : bool) (s : State) : Prop := {
  ready_file : exists f, file s = Some f /\ alignedSize <= f_len f /\ f_object f = true /\
    counts exact (f_refCount f) (attached s);
  ready_procs : Forall opener (procs s);
  ready_backs : Forall (fun p => backs p (fun v => counts exact v (attached s))) (procs s)
}.

(** No process counts itself while another one is between reading and
    writing back. *)
Definition undisturbed (s : State) (i : nat) : bool :=
  match procs s !! i with
  | Some PIncrement => forallb (fun p => match p with PBack _ => false | _ => true end) (procs s)
  | _ => true
  end.

Fixpoint no_overlap (s : State) (l : list (nat * Answer)) : bool :=
  match l with [] => true | (i, a) :: l => undisturbed s i && no_overlap (sys_step s i a) l end.

Lemma filter_insert (l : list PC) i p q : l !! i = Some p -> p <> PAttached ->
  Z.of_nat (length (filter (fun p => p = PAttached) (<[i := q]> l))) =
  Z.of_nat (length (filter (fun p => p = PAttached) l)) + (if bool_decide (q = PAttached) then 1 else 0).
Proof.
  intros E Hp. rewrite insert_take_drop by (by eapply lookup_lt_Some).
  rewrite <- (take_drop_middle l i p E) at 3. rewrite !filter_app, !length_app, !filter_cons.
  rewrite (decide_False (P := p = PAttached)) by done. case_bool_decide; case_decide; try done; cbn [length]; lia.
Qed.

Lemma Forall_backs (l : list PC) (P Q : Z -> Prop) : (forall v, P v -> Q v) ->
  Forall (fun p => backs p P) l -> Forall (fun p => backs p Q) l.
Proof. intros H HF. eapply Forall_impl; [exact HF|]. intros []; cbn; auto. Qed.

(** A step that leaves the object alone and attaches nobody. *)
Lemma Ready_keep exact s i p q f : Ready exact s -> procs s !! i = Some p -> p <> PAttached -> q <> PAttached -> opener q ->
  backs q (fun v => counts exact v (attached s)) ->
  alignedSize <= f_len f -> f_object f = true -> counts exact (f_refCount f) (attached s) ->
  Ready exact (mkState (Some f) (<[i := q]> (procs s))).
Proof.
  intros [_ Hp Hb] E H1 H2 H3 H4 Hl Ho Hc.
  assert (Ea : attached (mkState (Some f) (<[i := q]> (procs s))) = attached s).
  { unfold attached. cbn. rewrite (filter_insert _ i p q E H1), bool_decide_false by done. lia. }
  split; rewrite ?Ea; cbn; [by exists f|by apply Forall_insert|by apply Forall_insert].
Qed.

Lemma attached_room s i : procs s !! i = Some PIncrement -> Z.of_nat (length (procs s)) < 2 ^ 32 ->
  0 <= attached s < 2 ^ 32 - 1.
Proof.
  intros E Hb. unfold attached. pose proof (filter_insert (procs s) i PIncrement PAttached E ltac:(done)) as H.
  rewrite bool_decide_true in H by done.
  pose proof (length_filter (fun p => p = PAttached) (<[i:=PAttached]> (procs s))) as H2. rewrite length_insert in H2. lia.
Qed.

(** A process counts itself. *)
Lemma Ready_increment exact s i f : Z.of_nat (length (procs s)) < 2 ^ 32 -> Ready exact s -> (exact = true -> undisturbed s i = true) ->
  procs s !! i = Some PIncrement -> file s = Some f ->
  Ready exact (mkState (Some (mkFile (f_len f) (f_object f) (u32 (f_refCount f + 1)))) (<[i := PAttached]> (procs s))).
Proof.
  intros Hlen [(f' & Ef & Hl & Ho & Hc) Hp Hb] Hu E Ef'. rewrite Ef in Ef'. injection Ef' as ->.
  pose proof (attached_room s i E Hlen) as Hr.
  assert (Ea : attached (mkState (Some (mkFile (f_len f) (f_object f) (u32 (f_refCount f + 1)))) (<[i := PAttached]> (procs s))) = attached s + 1).
  { unfold attached. cbn. by rewrite (filter_insert _ i PIncrement PAttached E), bool_decide_true. }
  split; rewrite ?Ea; cbn.
  - eexists. split; [done|]. cbn. split; [done|]. split; [done|].
    destruct exact; cbn in *; rewrite u32_small; lia.
  - by apply Forall_insert.
  - apply Forall_insert; [|done]. destruct exact; [|by eapply Forall_backs, Hb; cbn; lia].
    specialize (Hu eq_refl). unfold undisturbed in Hu. rewrite E in Hu. apply Is_true_true_2, forallb_True in Hu.
    eapply Forall_impl; [exact Hu|]. by intros [].
Qed.

Lemma Ready_step exact s i ans : Z.of_nat (length (procs s)) < 2 ^ 32 -> Ready exact s -> (exact = true -> undisturbed s i = true) ->
  Ready exact (sys_step s i ans).
Proof.
  intros Hlen HR Hu. pose proof HR as [(f & Ef & Hl & Ho & Hc) Hp Hb].
  unfold sys_step. destruct (procs s !! i) as [p|] eqn:E; [|done].
  pose proof (Forall_lookup_1 _ _ _ _ Hp E) as Hop. pose proof (Forall_lookup_1 _ _ _ _ Hb E) as Hbk.
  assert (Hkeep : forall q, p <> PAttached -> q <> PAttached -> opener q -> backs q (fun v => counts exact v (attached s)) ->
    Ready exact (mkState (file s) (<[i := q]> (procs s)))) by (intros; rewrite Ef; by eapply Ready_keep).
  destruct p as [|[]| |[]|[]|v|[]| | | | |]; cbn in Hop, Hbk |- *; try done.
  - rewrite Ef, bool_decide_true by eauto. rewrite <- Ef. by apply Hkeep.
  - destruct ans; rewrite ?Ef, <- ?Ef; by apply Hkeep.
  - destruct ans; by apply Hkeep.
  - rewrite Ef, (proj2 (Z.ltb_ge _ _)) by done. rewrite <- Ef. by apply Hkeep.
  - rewrite Ef. cbn. by eapply Ready_keep.
  - destruct ans; by apply Hkeep.
  - rewrite Ef. cbn. by apply Ready_increment.
  - rewrite list_insert_id by done. by destruct s.
  - rewrite list_insert_id by done. by destruct s.
Qed.

Lemma run_length s l : length (procs (run s l)) = length (procs s).
Proof.
  revert s. induction l as [|[i a] l IH]; intros s; [done|]. cbn. rewrite IH. unfold sys_step.
  destruct (procs s !! i); [|done]. destruct (proc_step _ _ _). cbn. by rewrite length_insert.
Qed.

Lemma Ready_run exact s l : Z.of_nat (length (procs s)) < 2 ^ 32 -> Ready exact s -> (exact = true -> no_overlap s l = true) ->
  Ready exact (run s l).
Proof.
  revert s. induction l as [|[i a] l IH]; intros s Hb HR Hn; [done|]. cbn. apply IH.
  - pose proof (run_length s [(i, a)]) as H. cbn in H. by rewrite H.
  - apply Ready_step; [done..|]. intros E. specialize (Hn E). cbn in Hn. by apply andb_prop in Hn as [? _].
  - intros E. specialize (Hn E). cbn in Hn. by apply andb_prop in Hn as [_ ?].
Qed.

Lemma Ready_weaken s : Ready true s -> Ready false s.
Proof.
  assert (Hc : forall n, counts true n (attached s) -> counts false n (attached s)) by (cbn; unfold attached; lia).
  intros [(f & Ef & Hl & Ho & H) Hp Hb]. split; [|done|by eapply Forall_backs, Hb]. exists f. auto.
Qed.

(** C36: once the creator of a shared queue has attached, any number of
    processes attach to it at the same time, in any interleaving and with
    any of their system calls failing: none touches a page the file does
    not have, and the queue is not made again.  Its reference count is never
    more than the number of processes attached, and it is exactly that number
    if no process counts itself between an opener's reading and writing back
    of the count's cache line, which is how an opener warms the memory up
    (otherwise the count loses one: [warm_up_loses_increment]). *)
Theorem attach_after_creator_exact s l : Z.of_nat (length (procs s)) < 2 ^ 32 -> Ready true s ->
  exists f, file (run s l) = Some f /\ f_object f = true /\ 0 <= f_refCount f <= attached (run s l) /\
    (no_overlap s l = true -> f_refCount f = attached (run s l)) /\ PCrashed ∉ procs (run s l).
Proof.
  intros Hb HR. destruct (Ready_run false s l Hb (Ready_weaken _ HR) ltac:(done)) as [(f & E & _ & Ho & Hr) Hp _].
  exists f. split; [done|]. split; [done|]. split; [done|]. split.
  - intros Hn. destruct (Ready_run true s l Hb HR ltac:(done)) as [(f' & E' & _ & _ & Hr') _ _].
    rewrite E in E'. by injection E' as <-.
  - intros Hc. rewrite Forall_forall in Hp. by apply Hp in Hc.
Qed.
End ShmAttach.

Definition solo (i : nat) : list (nat * Answer) := replicate 8 (i, Succeeds).
(** Process 0 has attached, 1 and 2 are about to. *)
Definition created : State := run 4096 (init 3) (solo 0).

(** 1 and 2 attach together; the second one's [mlock] fails. *)
Definition two_openers : list (nat * Answer) :=
  [(1, Succeeds); (2, Succeeds); (2, Succeeds); (1, Succeeds); (2, Succeeds); (1, Succeeds); (1, Succeeds); (2, Succeeds);
   (1, Succeeds); (2, Succeeds); (2, Fails); (1, Succeeds); (1, Succeeds); (1, Succeeds)]%nat.

Lemma attach_after_creator_exact_witness : exists f, file (run 4096 created two_openers) = Some f /\ f_refCount f = 2 /\
  procs (run 4096 created two_openers) = [PAttached; PAttached; PThrown].
Proof.
  destruct (attach_after_creator_exact 4096 created two_openers) as (f & E & _ & _ & Hr & _).
  - cbn. lia.
  - split; [eexists; split; [vm_compute; reflexivity|vm_compute; done]|repeat constructor..].
  - exists f. split; [done|]. split; [|by vm_compute]. rewrite Hr; [by vm_compute|].
    by vm_compute.
Defined.

(** An opener that reads the count's line before another process counts
    itself and writes it back afterwards takes the other one out of the
    count: three processes use the queue, the count is two. *)
Theorem warm_up_loses_increment :
  let s := run 4096 created (replicate 4 (1, Succeeds) ++ replicate 7 (2, Succeeds) ++ replicate 3 (1, Succeeds))%nat in
  procs s = [PAttached; PAttached; PAttached] /\ f_refCount <$> file s = Some 2.
Proof. by vm_compute. Qed.

(** Two processes that look for the file before either has made it both
    take it for their own: the second one clears the queue the first one
    uses, and two users are counted as one.  A process that finds the file
    before its maker has constructed the queue is lost from the count in
    the same way; the first to leave then removes the name. *)
Theorem concurrent_creation_loses_count :
  let both := run 4096 (init 2) ([(0, Succeeds); (1, Succeeds)]%nat ++ replicate 8 (0%nat, Succeeds) ++ replicate 8 (1%nat, Succeeds)) in
  let early := run 4096 (init 2) (replicate 6 (0%nat, Succeeds) ++ replicate 8 (1%nat, Succeeds) ++ replicate 8 (0%nat, Succeeds)) in
  (procs both = [PAttached; PAttached] /\ f_refCount <$> file both = Some 1) /\
  (procs early = [PAttached; PAttached] /\ f_refCount <$> file early = Some 1).
Proof. by vm_compute. Qed.

(** A failed [ftruncate] or [mlock] of the maker leaves the file: the next
    process takes it for a finished queue, and crashes on the empty file or
    uses an object that was never constructed. *)
Theorem failed_creation_poisons_name :
  procs (run 4096 (init 2) ([(0, Succeeds); (0, Succeeds); (0, Fails)]%nat ++ replicate 8 (1%nat, Succeeds))) = [PThrown; PCrashed] /\
  let s := run 4096 (init 2) (replicate 5 (0%nat, Succeeds) ++ [(0%nat, Fails)] ++ replicate 8 (1%nat, Succeeds)) in
  procs s = [PThrown; PAttached] /\ f_object <$> file s = Some false.
Proof. by vm_compute. Qed.
End ShmAttach.
