(* ===== verification/Platform.v ===== *)
(** * asio: context runner and socket transports

    Models [CtxRunner] (common/src/runner/ctx_runner.hpp), the thread around
    an [io_context], and what the Boost transports make of the completions
    of asio (common/src/transport/boost).  asio is a parameter: the handlers
    posted to the context, the completions of the sockets, and the values of
    its error codes. *)

From stdpp Require Import list strings.
From S2P Require Import Prelude Types.

(** ** The runner *)

Module CtxRunner.

(** A handler posted to the context: it returns, throws a [std::exception],
    or throws something else. *)
Inductive Handler := Returns (id : nat) | Throws (what : string) | ThrowsUnknown.

Inductive Thread := NoThread | Running | Finished.

Record State := mkState {
  queue : list Handler;
  ctxStopped : bool;             (* ioCtx.stopped() *)
  running_ : bool;
  thread_ : Thread;
  executed : list nat;
  errors : list InternalError    (* posted to bus_ *)
}.

Definition construct : State := mkState [] false false NoThread [] [].

Definition post (s : State) (h : Handler) : State :=
  mkState (queue s ++ [h]) (ctxStopped s) (running_ s) (thread_ s) (executed s) (errors s).

Definition stop (s : State) : State :=
  mkState (queue s) true false (thread_ s) (executed s) (errors s).

(** The catch clauses of the thread. *)
Definition caught (s : State) (what : string) : State :=
  let s := stop s in
  mkState (queue s) (ctxStopped s) (running_ s) Finished (executed s) (errors s ++ [mkInternalError SError what]).

(** [ioCtx.run()] up to the next handler; the guard keeps it waiting when
    there is none. *)
Definition tstep (s : State) : State :=
  match thread_ s with
  | Running =>
      if ctxStopped s then mkState (queue s) (ctxStopped s) (running_ s) Finished (executed s) (errors s)
      else
        match queue s with
        | [] => s
        | h :: q =>
            let s := mkState q (ctxStopped s) (running_ s) (thread_ s) (executed s) (errors s) in
            match h with
            | Returns id => mkState q (ctxStopped s) (running_ s) (thread_ s) (executed s ++ [id]) (errors s)
            | Throws what => caught s what
            | ThrowsUnknown => caught s "unknown exception in CtxRunner"
            end
        end
  | _ => s
  end.

(** [run]: the assignment to [thread_] joins the thread before; [None] when
    that does not end (it always does: [running_] is only cleared together
    with stopping the context). *)
Definition run (s : State) : option State :=
  if running_ s then Some s
  else
    let joined := match thread_ s with Running => ctxStopped s | _ => true end in
    if joined then Some (mkState (queue s) (ctxStopped s) true Running (executed s) (errors s)) else None.

Inductive Op := OPost (h : Handler) | ORun | OStop | OThread.

Definition exec (s : State) (o : Op) : option State :=
  match o with OPost h => Some (post s h) | ORun => run s | OStop => Some (stop s) | OThread => Some (tstep s) end.

Fixpoint exec_all (s : State) (os : list Op) : option State :=
  match os with [] => Some s | o :: os => match exec s o with Some s => exec_all s os | None => None end end.

(** *** Invariant *)

Definition ids (l : list Handler) : list nat := omap (fun h => match h with Returns i => Some i | _ => None end) l.
Definition posts (os : list Op) : list Handler := omap (fun o => match o with OPost h => Some h | _ => None end) os.
Definition message (h : Handler) : option InternalError :=
  match h with
  | Returns _ => None
  | Throws w => Some (mkInternalError SError w)
  | ThrowsUnknown => Some (mkInternalError SError "unknown exception in CtxRunner")
  end.

(** [done] are the handlers that ran. *)
Record Inv (posted done : list Handler) (s : State) : Prop := {
  inv_posted : posted = done ++ queue s;
  inv_executed : executed s = ids done;
  inv_errors : errors s = omap message done;
  inv_one : (length (errors s) <= 1)%nat;
  inv_stopped : errors s <> [] -> ctxStopped s = true;
  inv_last : forall d h, done = d ++ [h] -> omap message d = [];
  inv_joinable : thread_ s = Running -> ctxStopped s = false -> running_ s = true
}.

Lemma Inv_exec posted done s o : Inv posted done s -> exists s' done',
  exec s o = Some s' /\ Inv (posted ++ posts [o]) done' s'.
Proof.
  intros [P E R L S F J]. destruct o as [h| | |]; cbn [exec posts omap list_omap].
  - eexists _, done. split; [reflexivity|]. split; cbn; try done. by rewrite P, <- (assoc_L app).
  - rewrite app_nil_r. unfold run. destruct (running_ s) eqn:Er; [exists s, done; by split; [|split; auto]|].
    assert (match thread_ s with Running => ctxStopped s | _ => true end = true) as ->.
    { destruct (thread_ s) eqn:Et; [done| |done]. destruct (ctxStopped s) eqn:Es; [done|]. by specialize (J eq_refl eq_refl). }
    eexists _, done. split; [reflexivity|]. by split.
  - rewrite app_nil_r. eexists _, done. split; [reflexivity|]. by split.
  - rewrite app_nil_r. unfold tstep. destruct (thread_ s) eqn:Et; [exists s, done; by split; [|split; rewrite ?Et]| |exists s, done; by split; [|split; rewrite ?Et]].
    destruct (ctxStopped s) eqn:Es; [eexists _, done; split; [reflexivity|]; by split|].
    destruct (queue s) as [|h q] eqn:Eq; [exists s, done; split; [done|]; split; rewrite ?Eq, ?Et, ?Es; auto|].
    assert (Enil : omap message done = []) by (rewrite <- R; destruct (errors s); [done|by specialize (S ltac:(done))]).
    eexists _, (done ++ [h]). split; [reflexivity|].
    assert (P' : posted = (done ++ [h]) ++ q) by (by rewrite P, <- (assoc_L app)).
    assert (F' : forall d h0, done ++ [h] = d ++ [h0] -> omap message d = []) by (by intros d h0 [<- _]%app_inj_tail).
    destruct h as [i|w|]; split; cbn; auto; unfold ids in *;
      rewrite ?omap_app, ?R, ?E, ?Enil; cbn; rewrite ?app_nil_r; auto; try lia.
Qed.

Lemma posts_cons o os : posts (o :: os) = posts [o] ++ posts os.
Proof. unfold posts. cbn. by destruct o. Qed.

Lemma exec_all_Inv os posted done s : Inv posted done s -> exists s' done',
  exec_all s os = Some s' /\ Inv (posted ++ posts os) done' s'.
Proof.
  revert posted done s. induction os as [|o os IH]; intros posted done s I; [exists s, done; by rewrite app_nil_r|].
  destruct (Inv_exec posted done s o I) as (s1 & d1 & E1 & I1). destruct (IH _ _ _ I1) as (s2 & d2 & E2 & I2).
  exists s2, d2. cbn [exec_all]. rewrite E1. split; [done|]. by rewrite posts_cons, (assoc_L app).
Qed.

(** Whatever is posted and however [run], [stop] and the thread
    interleave, [run] never waits for a thread that does not end; the
    handlers that ran are the first ones posted, each once and in order;
    nothing runs after the first that throws, which stops the context and
    is reported on the bus exactly once. *)
Theorem ctx_runner_exact os : exists s done, exec_all construct os = Some s /\
  posts os = done ++ queue s /\ executed s = ids done /\ errors s = omap message done /\
  (length (errors s) <= 1)%nat /\ (errors s <> [] -> ctxStopped s = true) /\
  (forall d h, done = d ++ [h] -> omap message d = []).
Proof.
  destruct (exec_all_Inv os [] [] construct) as (s & done & E & [P X R L S F _]).
  - split; cbn; try done; [lia|]. by intros [] ?.
  - by exists s, done.
Qed.

(** A stopped context stays stopped: after [stop], and after an exception,
    another [run] starts a thread that ends at once; no handler runs any
    more, yet the runner counts as running and refuses further runs. *)
Theorem ctx_runner_never_restarts s os s' : ctxStopped s = true -> exec_all s os = Some s' ->
  executed s' = executed s /\ ctxStopped s' = true.
Proof.
  revert s. induction os as [|o os IH]; intros s Hs; cbn [exec_all]; [by intros [= <-]|].
  assert (H : forall s1, exec s o = Some s1 -> executed s1 = executed s /\ ctxStopped s1 = true).
  { destruct o; cbn; try (by intros s1 [= <-]).
    - intros s1. unfold run. destruct (running_ s); [by intros [= <-]|]. destruct (thread_ s); rewrite ?Hs; by intros [= <-].
    - intros s1 [= <-]. unfold tstep. destruct (thread_ s); [done| |done]. by rewrite Hs. }
  destruct (exec s o) as [s1|]; [|done]. intros E. destruct (H s1 eq_refl) as [H1 H2].
  destruct (IH s1 H2 E) as [-> ?]. done.
Qed.

Lemma ctx_runner_never_restarts_witness : exists s,
  exec_all (stop construct) [ORun; OPost (Returns 1); OThread; OThread; ORun; OThread] = Some s /\
  executed s = [] /\ running_ s = true /\ thread_ s = Finished.
Proof.
  eexists. split; [reflexivity|]. split; [|done].
  apply (ctx_runner_never_restarts (stop construct) [ORun; OPost (Returns 1); OThread; OThread; ORun; OThread]); reflexivity.
Defined.
End CtxRunner.

(** ** The transports *)

Module BoostTransport.
Section BoostTransport.
(** Values of asio's error codes; they are cases of one switch, so they
    differ. *)
Context (operation_aborted eof would_block : Z).

Definition toIoStatus (ec : Z) : IoStatus :=
  if ec =? 0 then IoOk
  else if (ec =? operation_aborted) || (ec =? eof) then Closed
  else if ec =? would_block then WouldBlock
  else IoError.

(** The handler that [asyncRx] and [asyncTx] of both transports pass to
    asio: what it gives to the callback. *)
Definition handler (ec bytes : Z) : IoResult := mkIoResult (u32 bytes) (toIoStatus ec).

Definition syncRx : IoResult := mkIoResult 0 IoOk.
Definition syncTx : IoResult := mkIoResult 0 IoOk.

(** The operation that each transport starts on its socket for a buffer of so
    many bytes. *)
Inductive Operation := ReadSome (n : Z) | WriteAll (n : Z) | Receive (n : Z) | Send (n : Z).

Definition tcp_asyncRx (n : Z) : Operation * (Z -> Z -> IoResult) := (ReadSome n, handler).
Definition tcp_asyncTx (n : Z) : Operation * (Z -> Z -> IoResult) := (WriteAll n, handler).
Definition udp_asyncRx (n : Z) : Operation * (Z -> Z -> IoResult) := (Receive n, handler).
Definition udp_asyncTx (n : Z) : Operation * (Z -> Z -> IoResult) := (Send n, handler).

(** The completions asio documents for them: a composed write reports success
    only once everything is written, a datagram is sent whole. *)
Definition documented (op : Operation) (ec bytes : Z) : Prop :=
  match op with
  | ReadSome n => 0 <= bytes <= n /\ (ec = 0 -> 0 < n -> 0 < bytes)
  | Receive n => 0 <= bytes <= n
  | WriteAll n | Send n => 0 <= bytes <= n /\ (ec = 0 -> bytes = n)
  end.

(** [close]: the descriptor is released also when an error is reported, which
    is logged. *)
Definition close (answer : option string) : bool * list string :=
  (false, match answer with Some message => [message] | None => [] end).

(** Both transports report a successful write only with its whole length, and
    a successful read on a stream always brings bytes, so that a reader of a
    channel makes progress. *)
Lemma transfers_are_whole n ec bytes : 0 < n < 2 ^ 32 ->
  operation_aborted <> 0 -> eof <> 0 ->
  io_ok (handler ec bytes) = true ->
  (forall tx, tx = tcp_asyncTx n \/ tx = udp_asyncTx n -> documented tx.1 ec bytes -> io_bytes (tx.2 ec bytes) = n) /\
  (documented (tcp_asyncRx n).1 ec bytes -> 0 < io_bytes ((tcp_asyncRx n).2 ec bytes) <= n).
Proof.
  intros Hn Ha He Hok. unfold handler, io_ok, toIoStatus in Hok. cbn in Hok.
  assert (Hec : ec = 0).
  { destruct (Z.eqb_spec ec 0); [done|]. exfalso.
    destruct ((ec =? operation_aborted) || (ec =? eof)), (ec =? would_block); done. }
  split.
  - intros tx [-> | ->] [Hb Hall]; cbn; rewrite u32_small by lia; auto.
  - cbn. intros [Hb Hpos]. rewrite u32_small by lia. specialize (Hpos Hec). lia.
Qed.

(** A completion for a buffer below 4 GiB is passed on unchanged: the
    callback sees the bytes transferred, success exactly when asio reports
    it, and a closed connection exactly for an abort or the end of the
    stream. *)
Theorem completion_exact ec bytes size : 0 <= bytes <= size -> size < 2 ^ 32 ->
  operation_aborted <> 0 -> eof <> 0 ->
  io_bytes (handler ec bytes) = bytes /\ (io_ok (handler ec bytes) = true <-> ec = 0) /\
  (io_code (handler ec bytes) = Closed <-> ec = operation_aborted \/ ec = eof).
Proof.
  intros Hb Hs Ha He. unfold handler, io_ok, toIoStatus. cbn. rewrite u32_small by lia. split; [done|].
  destruct (Z.eqb_spec ec 0) as [->|H0]; [split; [done|]; split; [done|by intros [?|?]]|].
  destruct (Z.eqb_spec ec operation_aborted); destruct (Z.eqb_spec ec eof); cbn;
    try (rewrite bool_decide_false by done; split; [done|]; split; auto; done).
  destruct (Z.eqb_spec ec would_block); (rewrite bool_decide_false by done; split; [done|]; split; [done|by intros [?|?]]).
Qed.
End BoostTransport.

(** asio on Linux: ECANCELED, its own end-of-file value, EAGAIN. *)
Lemma completion_exact_witness : io_bytes (handler 125 2 11 2 17) = 17 /\ io_code (handler 125 2 11 2 17) = Closed.
Proof.
  destruct (completion_exact 125 2 11 2 17 128) as (H1 & _ & H2); try lia.
  split; [done|]. apply H2. by right.
Defined.
End BoostTransport.
