(* ===== verification/Wire.v ===== *)
(** * A link between two channels

    Two [Channel]s joined by a TCP connection, in one direction: the sender's
    writes are asynchronous operations that hold a pool buffer each and move
    their bytes to the connection piece by piece, and the receiver's reads
    take what has arrived, cut anywhere.  The theorems here justify the
    queues of messages by which [System.v] and [ClientConnection.v] see a
    connection, and say what that rests on. *)

From S2P Require Import Prelude SlotId Types.
From S2P Require Import SlidingBuffer Framing Channel Serialization.

Module Wire.

Section Wire.
Context {Msg : Type} `{SER : Serializer Msg} (BUFFER_CAPACITY POOL_SIZE : Z).

Abbreviation frame := FixedSizeFramer.frame.
Abbreviation frames := FixedSizeFramer.frames.
Abbreviation unframe := FixedSizeFramer.unframe.

(** [pending] are the outstanding writes: the pool buffer of each and the
    bytes it has still to send; [wire] has been sent and not yet read.
    [sent] records the messages for which [write] found a buffer. *)
Record Link := mkLink {
  sender : Channel.State Msg;
  pool : BufferPool.State;
  pending : list (Z * bytes);
  wire : bytes;
  receiver : Channel.State Msg;
  sent : list Msg
}.

Inductive Op :=
| Send (m : Msg)
| Transfer (i k : nat)   (* the [i]-th outstanding write sends [k] bytes *)
| Receive (n : nat).     (* the outstanding read takes at most [n] bytes *)

Definition send (l : Link) (m : Msg) : res Link :=
  let! (a, p) := Channel.write frame BUFFER_CAPACITY POOL_SIZE (sender l) (pool l) m in
  let new := drop (length (Channel.tx (sender l))) (Channel.tx a) in
  Ok (mkLink a p (pending l ++ new) (wire l) (receiver l) (sent l ++ (if new then [] else [m]))).

(** [async_write] completes when its last byte is sent. *)
Definition transfer (l : Link) (i k : nat) : Link :=
  match pending l !! i with
  | None => l
  | Some (idx, b) =>
      let w := wire l ++ take k b in
      match drop k b with
      | [] =>
          let '(a, p) := Channel.writeDone POOL_SIZE (sender l) (pool l) idx IoOk in
          mkLink a p (take i (pending l) ++ drop (S i) (pending l)) w (receiver l) (sent l)
      | rest => mkLink (sender l) (pool l) (<[i := (idx, rest)]> (pending l)) w (receiver l) (sent l)
      end
  end.

Definition receive (l : Link) (n : nat) : res Link :=
  match Channel.rx (receiver l) with
  | None => Ok l
  | Some (_, avail) =>
      let n := Nat.min n (Nat.min (Z.to_nat avail) (length (wire l))) in
      if (n =? 0)%nat then Ok l
      else
        let! b := Channel.receive unframe (receiver l) (take n (wire l)) in
        Ok (mkLink (sender l) (pool l) (pending l) (drop n (wire l)) b (sent l))
  end.

Definition run_op (l : Link) (o : Op) : res Link :=
  match o with
  | Send m => send l m
  | Transfer i k => Ok (transfer l i k)
  | Receive n => receive l n
  end.

Fixpoint run (l : Link) (ops : list Op) : res Link :=
  match ops with
  | [] => Ok l
  | o :: ops => let! l := run_op l o in run l ops
  end.

(** Both ends as their constructors and the first [read] leave them. *)
Definition init (ida idb capacity : Z) : res Link :=
  let! a := Channel.make ida capacity in
  let! b := Channel.make idb capacity in
  let! b := Channel.read b in
  Ok (mkLink a BufferPool.init [] [] b []).

Lemma link_run_app l ops1 ops2 : run l (ops1 ++ ops2) = let! l := run l ops1 in run l ops2.
Proof.
  revert l. induction ops1 as [|o ops1 IH]; intros l; [done|]. cbn [run app]. destruct (run_op l o); [apply IH|done].
Qed.

(** ** The invariant *)

Context (Hpool : 0 < POOL_SIZE < 2 ^ 31).

(** What the sender may be given, and the one thing the link needs of the
    transport: it sends the bytes of an earlier write before those of a
    later one. *)
Definition op_ok (o : Op) : Prop :=
  match o with
  | Send m => FixedSizeFramer.Framable m /\ Z.of_nat (length (frame m)) < BUFFER_CAPACITY
  | Transfer i _ => i = 0%nat
  | Receive _ => True
  end.

Definition is_send (o : Op) : bool := match o with Send _ => true | _ => false end.
Definition sends (ops : list Op) : Z := Z.of_nat (length (filter (fun o => is_send o = true) ops)).

(** [done] has been posted to the receiver's bus, [p] is in its buffer. *)
Record LinkInv (l : Link) : Prop := {
  w_stream : exists done p ms, sent l = done ++ ms /\ Channel.StreamInv (receiver l) done p /\
    p ++ wire l ++ concat (map snd (pending l)) = frames ms /\
    FixedSizeFramer.tail_of ms p /\ Forall FixedSizeFramer.Framable ms;
  w_sender : Channel.status_ (sender l) = Channel.Connected /\ Channel.events (sender l) = [];
  w_pending : Forall (fun x => x.2 <> []) (pending l)
}.

(** The buffers of the outstanding writes. *)
Definition held (l : Link) : list Z := map fst (pending l).

(** The queue a link implements: what was sent and not yet posted. *)
Definition ahead (l : Link) : list Msg := drop (length (Channel.bus_ (receiver l))) (sent l).

Lemma link_prefix l : LinkInv l -> Channel.bus_ (receiver l) `prefix_of` sent l.
Proof. intros [(don & p & ms & Es & HS & _) _ _]. rewrite (Channel.st_bus _ _ _ HS), Es. by eexists. Qed.

Lemma link_alive l : LinkInv l -> Channel.status_ (receiver l) = Channel.Connected /\ Channel.events (receiver l) = [].
Proof. intros [(don & p & ms & Es & HS & _) _ _]. split; apply HS. Qed.

Lemma frame_ne (m : Msg) : frame m <> [].
Proof. done. Qed.

Lemma tail_snoc ms (p : bytes) m : FixedSizeFramer.tail_of ms p -> FixedSizeFramer.tail_of (ms ++ [m]) p.
Proof. destruct ms as [|m' ms]; [|done]. cbn. intros ->. exists (frame m). split; [done|apply frame_ne]. Qed.

Lemma frames_snoc ms (m : Msg) : frames (ms ++ [m]) = frames ms ++ frame m.
Proof. unfold FixedSizeFramer.frames. rewrite map_app, concat_app. cbn. by rewrite app_nil_r. Qed.

(** ** What the operations do to the queue *)

Lemma link_send l m p idx : LinkInv l -> BufferPool.acquire POOL_SIZE (pool l) = (p, Some idx) -> op_ok (Send m) ->
  exists l', send l m = Ok l' /\ LinkInv l' /\ pool l' = p /\ Permutation (held l') (idx :: held l) /\
    length (pending l') = S (length (pending l)) /\ sent l' = sent l ++ [m] /\ receiver l' = receiver l /\
    ahead l' = ahead l ++ [m].
Proof.
  intros HL HA [Hm Hlen]. pose proof (link_prefix l HL) as Hpre. destruct HL as [(don & q & ms & Es & HS & E & Ht & Hfr) [Hc He] Hne].
  unfold send, Channel.write. rewrite Hc, HA.
  destruct (Z.ltb_spec BUFFER_CAPACITY (Z.of_nat (length (frame m)))); [lia|].
  destruct (Z.ltb_spec (Z.of_nat (length (frame m))) BUFFER_CAPACITY); [|lia]. cbn [negb].
  eexists. split; [reflexivity|]. cbn [Channel.tx]. rewrite drop_app_length. split; [|split; [done|]].
  - split; cbn; [|done|].
    + exists don, q, (ms ++ [m]). split; [by rewrite Es, <- (assoc_L app)|]. split; [done|].
      rewrite map_app, concat_app, frames_snoc, <- E. cbn. rewrite app_nil_r, <- !(assoc_L app).
      split; [done|]. split; [by apply tail_snoc|]. apply Forall_app. by split; [|constructor].
    + apply Forall_app. split; [done|]. constructor; [apply frame_ne|done].
  - split; [unfold held; cbn; rewrite map_app; symmetry; apply Permutation_cons_append|].
    split; [cbn; rewrite length_app; cbn; lia|]. split; [done|]. split; [done|].
    unfold ahead. cbn. apply drop_app_le. by apply prefix_length.
Qed.

Lemma link_drop l m p : LinkInv l -> BufferPool.acquire POOL_SIZE (pool l) = (p, None) ->
  exists l', send l m = Ok l' /\ LinkInv l' /\ pool l' = p /\ pending l' = pending l /\ sent l' = sent l.
Proof.
  intros [Hst [Hc He] Hne] HA. unfold send, Channel.write. rewrite Hc, HA. eexists. split; [reflexivity|].
  rewrite drop_all, !app_nil_r. by split.
Qed.

Lemma link_transfer l k : LinkInv l -> LinkInv (transfer l 0 k) /\ sent (transfer l 0 k) = sent l /\
  receiver (transfer l 0 k) = receiver l /\
  ((held (transfer l 0 k) = held l /\ pool (transfer l 0 k) = pool l) \/
   exists idx, held l = idx :: held (transfer l 0 k) /\ pool (transfer l 0 k) = BufferPool.release POOL_SIZE (pool l) idx).
Proof.
  intros [(don & p & ms & Es & HS & E & Ht & Hfr) [Hc He] Hne].
  unfold transfer, held. destruct (pending l) as [|[idx b] rest] eqn:Ep; cbn [lookup list_lookup].
  { rewrite Ep. split; [|auto]. split; rewrite ?Ep; try done. by exists don, p, ms. }
  apply Forall_cons in Hne as [Hb Hne]. cbn in E.
  destruct (drop k b) as [|x b'] eqn:Ed; cbn; (split; [|split; [done|split; [done|eauto]]]); split; cbn; try done.
  - exists don, p, ms. repeat (split; [done|]). split; [|done]. rewrite <- E, <- !(assoc_L app). do 2 f_equal.
    f_equal. by rewrite <- (take_drop k b) at 2; rewrite Ed, app_nil_r.
  - exists don, p, ms. repeat (split; [done|]). split; [|done]. rewrite <- E, <- !(assoc_L app). do 2 f_equal.
    rewrite app_comm_cons, <- Ed, (assoc_L app). by rewrite take_drop.
  - by constructor.
Qed.

Lemma link_receive l k : LinkInv l -> exists l' ms, receive l k = Ok l' /\ LinkInv l' /\ sent l' = sent l /\
  pending l' = pending l /\ pool l' = pool l /\ Channel.bus_ (receiver l') = Channel.bus_ (receiver l) ++ ms /\
  ahead l = ms ++ ahead l' /\ ((0 < k)%nat -> wire l <> [] -> (length (wire l') < length (wire l))%nat).
Proof.
  intros HL. pose proof HL as [(don & p & ms & Es & HS & E & Ht & Hfr) Hsd Hne]. unfold receive.
  pose proof (Channel.st_rx _ _ _ HS) as (avail & Hr & _ & Hmin). rewrite Hr.
  unfold SlidingBuffer.MIN_READ_CAPACITY in Hmin.
  set (c := Nat.min k (Nat.min (Z.to_nat avail) (length (wire l)))).
  destruct (Nat.eqb_spec c 0) as [E0|Hc0].
  { exists l, []. rewrite app_nil_r. do 7 (split; [done|]).
    intros Hk Hw. destruct (wire l); [done|]. cbn [length] in *. lia. }
  assert (Hlen : length (take c (wire l)) = c) by (rewrite length_take; lia).
  destruct (Channel.receive_frames (receiver l) don p (take c (wire l)) ms (drop c (wire l) ++ concat (map snd (pending l))) HS)
    as (b & ms1 & ms2 & p' & Hrec & -> & HS' & E' & Ht').
  - eexists _, _. split; [exact Hr|]. rewrite Hlen. lia.
  - done.
  - rewrite <- E. by rewrite (assoc_L app (take c (wire l))), take_drop.
  - rewrite Hrec. eexists _, ms1. split; [reflexivity|].
    assert (Hb : Channel.bus_ b = Channel.bus_ (receiver l) ++ ms1)
      by (by rewrite (Channel.st_bus _ _ _ HS), (Channel.st_bus _ _ _ HS')).
    split; [|do 3 (split; [done|]); split; [exact Hb|split]].
    + split; cbn; try done. exists (don ++ ms1), p', ms2. split; [by rewrite Es, <- (assoc_L app)|].
      split; [done|]. split; [done|]. split; [done|]. by apply Forall_app in Hfr as [_ ?].
    + unfold ahead. cbn. rewrite Hb, (Channel.st_bus _ _ _ HS), Es, drop_app_length, length_app, <- drop_drop, drop_app_length.
      by rewrite drop_app_length.
    + intros _ _. cbn. rewrite length_drop. lia.
Qed.

(** ** Runs *)

Record Inv (l : Link) (n : Z) : Prop := {
  w_link : LinkInv l;
  w_pool : BufferPool.Inv POOL_SIZE (pool l) (held l);
  w_next : 0 <= BufferPool.nextFreeIdx_ (pool l) <= n
}.

Lemma pool_perm s l l' : l ≡ₚ l' -> BufferPool.Inv POOL_SIZE s l -> BufferPool.Inv POOL_SIZE s l'.
Proof. intros H [H1 H2 H3]. split; [by rewrite <- H|by rewrite <- H|done]. Qed.

Lemma acquire_next p : (0 <= BufferPool.nextFreeIdx_ p < 2 ^ 32 - 1) ->
  0 <= BufferPool.nextFreeIdx_ (BufferPool.acquire POOL_SIZE p).1 <= BufferPool.nextFreeIdx_ p + 1.
Proof. intros H. unfold BufferPool.acquire. destruct (BufferPool.indexQueue_ p); cbn; rewrite ?u32_small; lia. Qed.

Lemma send_ok l n m : Inv l n -> n < 2 ^ 32 - 1 -> op_ok (Send m) ->
  exists l', send l m = Ok l' /\ Inv l' (n + 1) /\ (exists x, sent l' = sent l ++ x).
Proof.
  intros [HL HP Hn] Hlt Hok. pose proof (acquire_next (pool l) ltac:(lia)) as Hnx.
  pose proof (BufferPool.acquire_buffer_ok POOL_SIZE Hpool (pool l) (held l) HP ltac:(lia)) as HA.
  destruct (BufferPool.acquire POOL_SIZE (pool l)) as [p' [idx|]] eqn:Ea; cbn [fst] in Hnx.
  - destruct HA as (HA & _ & _). destruct (link_send l m p' idx HL Ea Hok) as (l' & E & HL' & Hp & Hh & _ & Hs & _).
    exists l'. split; [done|]. split; [split; rewrite ?Hp; [done|by eapply pool_perm|lia]|by eexists].
  - destruct HA as [HA _]. destruct (link_drop l m p' HL Ea) as (l' & E & HL' & Hp & Hh & Hs).
    exists l'. split; [done|]. split; [|exists []; by rewrite app_nil_r].
    split; unfold held; rewrite ?Hp, ?Hh; [done|done|lia].
Qed.

Lemma transfer_ok l n k : Inv l n -> Inv (transfer l 0 k) n /\ sent (transfer l 0 k) = sent l.
Proof.
  intros [HL HP Hn]. destruct (link_transfer l k HL) as (HL' & Hs & _ & [[Hh Hp]|(idx & Hh & Hp)]); (split; [|done]).
  - split; by rewrite ?Hh, ?Hp.
  - rewrite Hh in HP. pose proof (BufferPool.release_buffer_ok POOL_SIZE Hpool (pool l) [] idx _ HP) as HP'.
    split; rewrite ?Hp; [done|done|]. unfold BufferPool.release. by destruct (_ <? _).
Qed.

Lemma link_receive_ok l n k : Inv l n -> exists l', receive l k = Ok l' /\ Inv l' n /\ sent l' = sent l /\
  pending l' = pending l /\ ((0 < k)%nat -> wire l <> [] -> (length (wire l') < length (wire l))%nat).
Proof.
  intros [HL HP Hn]. destruct (link_receive l k HL) as (l' & ms & E & HL' & Hs & Hp & Hpl & _ & _ & Hlt).
  exists l'. split; [done|]. split; [split; unfold held; by rewrite ?Hpl, ?Hp|]. done.
Qed.

Lemma link_run_Inv ops l n : Inv l n -> n + sends ops < 2 ^ 32 - 1 -> Forall op_ok ops ->
  exists l', run l ops = Ok l' /\ Inv l' (n + sends ops) /\ (exists x, sent l' = sent l ++ x) /\
    (Forall (fun o => is_send o = false) ops -> sent l' = sent l).
Proof.
  revert l n. induction ops as [|o ops IH]; intros l n HI Hn Hok.
  { exists l. cbn. rewrite Z.add_0_r. split; [done|]. split; [done|]. split; [by exists []; rewrite app_nil_r|done]. }
  apply Forall_cons in Hok as [Ho Hok]. unfold sends in *. rewrite filter_cons in *. cbn [run].
  destruct o as [m|i k|k]; cbn [is_send run_op] in *.
  - rewrite decide_True in * by done. cbn [length] in *.
    destruct (send_ok l n m HI ltac:(lia) Ho) as (l1 & -> & HI1 & [x1 Hx1]).
    destruct (IH l1 (n + 1) HI1 ltac:(lia) Hok) as (l2 & E & HI2 & [x2 Hx2] & _).
    exists l2. split; [done|]. split; [by replace (n + Z.of_nat (S (length (filter (fun o => is_send o = true) ops)))) with
      (n + 1 + Z.of_nat (length (filter (fun o => is_send o = true) ops))) by lia|].
    split; [exists (x1 ++ x2); by rewrite Hx2, Hx1, (assoc_L app)|]. by intros [? _]%Forall_cons.
  - rewrite decide_False in * by done. cbn in Ho. subst i. destruct (transfer_ok l n k HI) as [HI1 Hs1].
    destruct (IH _ n HI1 Hn Hok) as (l2 & E & HI2 & [x Hx] & Hns).
    exists l2. split; [done|]. split; [done|]. rewrite Hs1 in *. split; [by exists x|].
    intros [_ H]%Forall_cons. by apply Hns.
  - rewrite decide_False in * by done. destruct (link_receive_ok l n k HI) as (l1 & -> & HI1 & Hs1 & _).
    destruct (IH _ n HI1 Hn Hok) as (l2 & E & HI2 & [x Hx] & Hns).
    exists l2. split; [done|]. split; [done|]. rewrite Hs1 in *. split; [by exists x|].
    intros [_ H]%Forall_cons. by apply Hns.
Qed.

Lemma link_init ida idb capacity l : 1538 <= capacity -> init ida idb capacity = Ok l ->
  LinkInv l /\ pool l = BufferPool.init /\ pending l = [] /\ sent l = [] /\ ahead l = [].
Proof.
  intros Hcap. unfold init. destruct (Channel.make ida capacity) as [a|] eqn:Ea; [|done].
  destruct (Channel.make idb capacity) as [b0|] eqn:Eb; [|done]. destruct (Channel.read b0) as [b|] eqn:Er; [|done].
  intros [= <-]. split; [|unfold ahead; cbn; by rewrite drop_nil]. split; cbn.
  - exists [], [], []. split; [done|]. split; [by eapply Channel.StreamInv_start|]. done.
  - unfold Channel.make in Ea. destruct (SlidingBuffer.make capacity); [|done]. by injection Ea as <-.
  - done.
Qed.

Lemma Inv_init ida idb capacity l : 1538 <= capacity -> init ida idb capacity = Ok l -> Inv l 0 /\ sent l = [].
Proof.
  intros Hcap E. destruct (link_init ida idb capacity l Hcap E) as (HL & Hp & Hpe & Hs & _). split; [|done].
  split; [done| |]; unfold held; rewrite ?Hp, ?Hpe; [apply BufferPool.buffers_Inv_init|cbn; lia].
Qed.

(** ** Draining *)

Lemma drain_pending l n : Inv l n -> exists fin l', run l fin = Ok l' /\ Inv l' n /\ pending l' = [] /\ sent l' = sent l /\
  Forall (fun o => is_send o = false) fin /\ Forall op_ok fin.
Proof.
  remember (length (pending l)) as k eqn:Ek. revert l Ek. induction k as [|k IH]; intros l Ek HI.
  { exists [], l. destruct (pending l); done. }
  destruct (pending l) as [|[idx b] rest] eqn:Ep; [done|].
  destruct (transfer_ok l n (length b) HI) as [HI1 Hs1].
  assert (Hp1 : pending (transfer l 0 (length b)) = rest).
  { unfold transfer. rewrite Ep. cbn [lookup list_lookup]. by rewrite drop_all. }
  destruct (IH (transfer l 0 (length b))) as (fin & l' & Er & HI' & Hp' & Hs' & Hf & Hf2); [rewrite Hp1; by injection Ek|done|].
  exists (Transfer 0 (length b) :: fin), l'. split; [done|]. split; [done|]. split; [done|]. split; [congruence|].
  split; by constructor.
Qed.

Lemma drain_wire l n : Inv l n -> pending l = [] -> exists fin l', run l fin = Ok l' /\ Inv l' n /\ pending l' = [] /\
  wire l' = [] /\ sent l' = sent l /\ Forall (fun o => is_send o = false) fin /\ Forall op_ok fin.
Proof.
  remember (length (wire l)) as k eqn:Ek. revert l Ek. induction (lt_wf k) as [k _ IH]. intros l -> HI Hp.
  destruct (decide (wire l = [])) as [Hw|Hw]; [by exists [], l|].
  destruct (link_receive_ok l n 1 HI) as (l1 & E1 & HI1 & Hs1 & Hp1 & Hlt). specialize (Hlt ltac:(lia) Hw).
  destruct (IH _ Hlt l1 eq_refl HI1) as (fin & l' & Er & HI' & Hp' & Hw' & Hs' & Hf & Hf2); [congruence|].
  exists (Receive 1 :: fin), l'. cbn [run run_op]. rewrite E1. split; [done|]. split; [done|]. split; [done|].
  split; [done|]. split; [congruence|]. split; by constructor.
Qed.

Lemma drained l n : Inv l n -> pending l = [] -> wire l = [] -> Channel.bus_ (receiver l) = sent l.
Proof.
  intros [[(don & p & ms & Es & HS & E & Ht & _) _ _] _ _] Hp Hw. rewrite Hp, Hw in E. cbn in E. rewrite app_nil_r in E.
  rewrite (Channel.st_bus _ _ _ HS), Es. destruct ms as [|m ms]; [by rewrite app_nil_r|].
  destruct Ht as (q & Eq & Hq). exfalso. change (frames (m :: ms)) with (frame m ++ frames ms) in E. rewrite E in Eq.
  rewrite <- app_assoc in Eq. apply (f_equal length) in Eq. rewrite !length_app in Eq. destruct q; [done|]. cbn in Eq. lia.
Qed.

(** C23: two channels that use [FixedSizeFramer] (the FlatBuffers build; the
    SBE build's framer gives up on a message that is cut) with a read buffer
    of at least 1538 bytes, over a connection that sends the bytes of one
    write after the other and cuts them anywhere, are a queue of messages, for
    fewer than 2^32 - 1 messages that the framer can carry (read back by the
    serializer, at most 1024 bytes) and whose frames are shorter than a pool
    buffer: whatever is sent and however writes and reads progress, nothing faults,
    both ends stay connected and report nothing, and what the receiver has
    posted to its bus is a prefix of what was sent, in order and unchanged;
    the outstanding writes and reads can always be completed, and then it
    is all of it.  Only a message for which the pool has no buffer is not
    sent. *)
Theorem link_delivers_in_order ida idb capacity l0 ops :
  1538 <= capacity -> init ida idb capacity = Ok l0 -> Forall op_ok ops -> sends ops < 2 ^ 32 - 1 ->
  exists l, run l0 ops = Ok l /\
    Channel.bus_ (receiver l) `prefix_of` sent l /\
    Channel.status_ (receiver l) = Channel.Connected /\ Channel.events (receiver l) = [] /\
    Channel.status_ (sender l) = Channel.Connected /\ NoDup (map fst (pending l)) /\
    exists fin l', Forall (fun o => is_send o = false) fin /\ run l0 (ops ++ fin) = Ok l' /\
      Channel.bus_ (receiver l') = sent l.
Proof.
  intros Hcap E Hok Hn. destruct (Inv_init _ _ _ _ Hcap E) as [HI0 Hs0].
  destruct (link_run_Inv ops l0 0 HI0 ltac:(lia) Hok) as (l & Er & HI & _ & _). exists l. split; [done|].
  pose proof HI as [HL HP _]. destruct (link_alive l HL) as [Ha1 Ha2].
  split; [by apply link_prefix|]. split; [done|]. split; [done|]. split; [apply HL|].
  split; [by apply BufferPool.bp_nodup, NoDup_app in HP as [? _]|].
  destruct (drain_pending l _ HI) as (f1 & l1 & E1 & HI1 & Hp1 & Hs1 & Hf1 & _).
  destruct (drain_wire l1 _ HI1 Hp1) as (f2 & l2 & E2 & HI2 & Hp2 & Hw2 & Hs2 & Hf2 & _).
  exists (f1 ++ f2), l2. split; [by apply Forall_app|]. split; [by rewrite link_run_app, Er, link_run_app, E1|].
  rewrite (drained l2 _ HI2 Hp2 Hw2). congruence.
Qed.
End Wire.

(** ** FlatBuffers messages over a link *)

(** Every message of the domain that its schema can hold is one the framer
    takes, if it is short enough. *)
Lemma fbs_framable build verify_root (build_reads : forall t, Fbs.in_schema t -> verify_root (build t) = Some t) m :
  Fbs.u32_fields m -> Fbs.fits m -> 1 <= Z.of_nat (length (Fbs.serialize build m)) <= 1024 ->
  FixedSizeFramer.Framable (SER := Fbs.serializer build verify_root) m.
Proof. intros Hu Hf Hl. split; [done|]. by apply Fbs.fbs_reads_back. Qed.

#[local] Existing Instance Channel.byte_serializer.

(** One-byte messages, and a pool of eight buffers of 128 bytes. *)
Definition byte_link : Link (Msg := Z) := match init 1 2 2048 with Ok l => l | Err _ => mkLink Channel.fresh_channel BufferPool.init [] [] Channel.fresh_channel [] end.

Definition byte_ops : list (Op (Msg := Z)) :=
  [Send 65; Send 66; Transfer 0 2; Receive 100; Transfer 0 1; Transfer 0 3; Receive 2; Send 67].

Lemma link_delivers_in_order_witness : exists l, run 128 8 byte_link byte_ops = Ok l /\
  Channel.bus_ (receiver l) = [65] /\ Channel.bus_ (receiver l) `prefix_of` sent l /\
  exists fin l', run 128 8 byte_link (byte_ops ++ fin) = Ok l' /\ Channel.bus_ (receiver l') = [65; 66; 67].
Proof.
  destruct (link_delivers_in_order 128 8 ltac:(lia) 1 2 2048 byte_link byte_ops) as (l & E & Hp & _ & _ & _ & _ & fin & l' & _ & E' & H').
  - lia.
  - reflexivity.
  - repeat constructor; cbn; try reflexivity; lia.
  - reflexivity.
  - exists l. split; [exact E|]. vm_compute in E. injection E as <-. split; [reflexivity|]. split; [exact Hp|].
    exists fin, l'. split; [exact E'|]. rewrite H'. reflexivity.
Defined.

(** Nothing in [Channel::write] keeps one write from starting while another
    is outstanding, and asio lets the bytes of two outstanding writes mix:
    the receiver posts a message that nobody sent and gives up. *)
Theorem overlapping_writes_break_stream : exists l,
  run 128 8 byte_link [Send 65; Send 66; Transfer 0 2; Transfer 1 3; Transfer 0 1; Receive 100] = Ok l /\
  sent l = [65; 66] /\ Channel.bus_ (receiver l) = [1] /\ Channel.status_ (receiver l) = Channel.ConnError.
Proof. eexists. split; [vm_compute; reflexivity|]. done. Qed.
End Wire.
