(* ===== verification/SystemTypes.v ===== *)
(** * Types in the whole system

    Lifts [ServerTypes.v] to the system of [System.v]: every order an engine
    sends and every status it is told has its numbers within the 32 bits of
    their fields and a ticker of four characters, so that it is a message the
    serializers take (Serialization.v), and nothing wraps between a client's
    draw and the status it gets.  The hypothesis of [ServerTypes.v] on the
    clients' orders is proved of the engines here. *)

From S2P Require Import Prelude SlotId HugeArray Types SlotIdPool OrderGateway Coordinator Server ServerRun ServerTypes.
From S2P Require Import SequencedSPSC Fifo Telemetry TradeEngine System.

Module SystemTypes.
Abbreviation is_u32 := ServerTypes.is_u32.
#[local] Existing Instance TradeEngine.ClientOrder_zeroed.

Definition order_typed (o : Order) : Prop :=
  is_u32 (o_id o) /\ is_u32 (o_quantity o) /\ is_u32 (o_price o) /\ length (o_ticker o) = TICKER_SIZE.

Definition status_typed (st : OrderStatus) : Prop :=
  is_u32 (os_orderId st) /\ is_u32 (os_systemOrderId st) /\ is_u32 (os_quantity st) /\ is_u32 (os_fillPrice st).

Definition record_typed (r : TradeEngine.ClientOrder) : Prop :=
  order_typed (TradeEngine.co_order r) /\ is_u32 (TradeEngine.co_sysOId r).

Lemma zero_record_typed : record_typed TradeEngine.ClientOrder_zeroed.
Proof. pose proof ServerTypes.zero_u32. by split_and!. Qed.

Section SystemTypes.
Context `{B : Build} `{BO : !BuildOk B} {Q : Type} `{FQ : !Fifo Q Z} (cap : Z)
  `{FO : !FifoOk Q Z cap (fun x => 0 <= x < 2 ^ 32)}.

Record EngineTyped (e : TradeEngine.State Q) : Prop := {
  et_market : Forall (fun x => length x.1 = TICKER_SIZE) (TradeEngine.marketData_ e);
  et_records : forall i, record_typed (TradeEngine.record e i)
}.

Record Typed (y : System.Sys Q) : Prop := {
  y_server : ServerTypes.Typed (System.server y);
  y_clients : forall c cl, System.clients y !! c = Some cl ->
    ServerTypes.is_u64 c /\ EngineTyped (System.engine cl) /\
    Forall order_typed (System.up cl) /\ Forall status_typed (System.down cl)
}.

(** ** The engine *)

Lemma set_records (a a' : gmap Z TradeEngine.ClientOrder) c i r :
  (forall j, record_typed (HugeArray.at_ a j)) -> record_typed r -> HugeArray.set c a i r = Ok a' ->
  forall j, record_typed (HugeArray.at_ a' j).
Proof.
  intros Ha Hr ->%System.set_inv j. rewrite HugeArray.at_set. by case_decide.
Qed.

Lemma cancel_typed (e : TradeEngine.State Q) now e' out sent :
  EngineTyped e -> TradeEngine.sendCancel e now = Ok (e', out, sent) ->
  EngineTyped e' /\ Forall order_typed (System.orders_of out) /\ (length out <= 1)%nat.
Proof.
  intros [Hm Hr]. unfold TradeEngine.sendCancel. destruct (fifo_read _) as [q [idx|]]; cbn.
  2: { intros [= <- <- _]. split; [by split|]. split; [exact (Forall_nil_2 _)|cbn; lia]. }
  destruct (HugeArray.get _ _ idx) as [r|] eqn:Eg; [|done]. apply System.get_inv in Eg as [_ <-].
  pose proof (Hr idx) as [Ho Hs]. destruct (HugeArray.set _ _ idx _) as [os|] eqn:Es; [|done]. intros [= <- <- _].
  split; [split; [done|eapply set_records, Es; [exact Hr|by split]]|]. split; [|cbn; lia].
  apply Forall_singleton. destruct Ho as (? & ? & ? & ?). by split_and!.
Qed.

Lemma new_typed (e : TradeEngine.State Q) g d now e' out go :
  TradeEngine.Inv cap e g -> EngineTyped e -> (is_Some (System.quote e) -> is_u32 (TradeEngine.d_quantity d)) ->
  TradeEngine.sendNew e d now = Ok (e', out, go) ->
  EngineTyped e' /\ Forall order_typed (System.orders_of out) /\ (length out <= 1)%nat.
Proof.
  intros HI [Hm Hr]. destruct (TradeEngine.e_pool _ _ _ HI) as (local & shared & ids & HP & _).
  unfold TradeEngine.sendNew, System.quote. destruct (TradeEngine.marketData_ e !! _) as [[t p]|] eqn:Eq; [|done].
  intros Hd. specialize (Hd ltac:(by eexists)). cbn [TradeEngine.set_cursor TradeEngine.idPool_].
  destruct (Pool.acquire_ok _ SYSTEM_ORDER_BITS _ _ _ _ HP) as (pl & id & -> & [Hacq|(-> & _ & _)]).
  - pose proof (Pool.acquired_fresh _ _ _ _ Hacq) as (Hv & Hid & _ & _). rewrite Hv. cbn [negb].
    destruct (HugeArray.set _ _ _ _) as [os|] eqn:Es; [|done]. intros [= <- <- _].
    assert (Ho : order_typed (mkOrder (SlotId.raw id) t (TradeEngine.d_quantity d)
        (TradeEngine.fluctuateThePrice p (TradeEngine.d_offset d)) (if TradeEngine.d_side d =? 0 then Buy else Sell))).
    { split_and!; cbn; [done|done|apply u32_range|]. rewrite Forall_forall in Hm.
      by apply (Hm _ (list_elem_of_lookup_2 _ _ _ Eq)). }
    split; [split; [done|eapply set_records, Es; [exact Hr|by split]]|]. split; [|cbn; lia]. by apply Forall_singleton.
  - rewrite SlotId.invalid_not_valid. intros [= <- <- _]. split; [by split|]. split; [exact (Forall_nil_2 _)|cbn; lia].
Qed.

Lemma round_typed (e : TradeEngine.State Q) g d now e' out go :
  TradeEngine.Inv cap e g -> 0 < now -> EngineTyped e -> (is_Some (System.quote e) -> is_u32 (TradeEngine.d_quantity d)) ->
  TradeEngine.tradeRound e false d now = Ok (e', out, go) ->
  EngineTyped e' /\ Forall order_typed (System.orders_of out) /\ (length out <= 1)%nat.
Proof.
  intros HI Hnow HT Hd. unfold TradeEngine.tradeRound. destruct (TradeEngine.trading_ e); cbn [negb].
  2: { intros [= <- <- _]. split; [done|]. split; [exact (Forall_nil_2 _)|cbn; lia]. }
  destruct (TradeEngine.sendCancel e now) as [[[e1 out1] [|]]|] eqn:E1; [|..|done].
  - intros [= <- <- _]. by eapply cancel_typed.
  - destruct (TradeEngine.sendCancel_ok cap e g now HI Hnow) as [(? & ? & E & _)|(? & E & HI1 & _)]; [congruence|].
    rewrite E1 in E. injection E as <- ->. destruct (cancel_typed _ _ _ _ _ HT E1) as [HT1 _].
    destruct (System.cancel_sends _ _ _ _ _ E1) as (_ & Hq & _).
    destruct (TradeEngine.sendNew e1 d now) as [[[e2 out2] sent]|] eqn:E2; [|done]. intros [= <- <- _].
    cbn [app]. eapply new_typed; [exact HI1|exact HT1|by rewrite Hq|exact E2].
Qed.

Lemma release_records (e e' : TradeEngine.State Q) id : TradeEngine.release e id = Ok e' ->
  TradeEngine.marketData_ e' = TradeEngine.marketData_ e /\ TradeEngine.orders_ e' = TradeEngine.orders_ e.
Proof. unfold TradeEngine.release. destruct (Pool.release _ _ _); [|done]. by intros [= <-]. Qed.

Lemma engine_typed_frame (e e' : TradeEngine.State Q) :
  TradeEngine.marketData_ e' = TradeEngine.marketData_ e -> TradeEngine.orders_ e' = TradeEngine.orders_ e ->
  EngineTyped e -> EngineTyped e'.
Proof. intros Hm Ho [H1 H2]. split; unfold TradeEngine.record; by rewrite ?Hm, ?Ho. Qed.

Lemma engine_status_typed (e : TradeEngine.State Q) st cycl coin e' out :
  EngineTyped e -> status_typed st -> TradeEngine.postStatus e false st cycl coin = Ok (e', out) -> EngineTyped e'.
Proof.
  intros HT (_ & Hsys & _ & _). pose proof HT as [Hm Hr]. unfold TradeEngine.postStatus.
  destruct (negb _); [by intros [= <- _]|]. destruct (HugeArray.get _ _ _) as [r|] eqn:Eg; [|done].
  apply System.get_inv in Eg as [_ <-]. destruct (negb _); [by intros [= <- _]|].
  destruct (HugeArray.set _ _ _ _) as [os|] eqn:Es; [|done].
  assert (HT1 : EngineTyped (TradeEngine.set_orders e os)).
  { split; [done|]. eapply set_records, Es; [exact Hr|]. split; [apply Hr|done]. }
  destruct (os_state st).
  1: destruct (coin =? 1).
  all: repeat match goal with |- context [TradeEngine.release ?x ?i] =>
      let E := fresh "E" in destruct (TradeEngine.release x i) eqn:E; [apply release_records in E as [? ?]|done] end;
    intros [= <- _]; eapply engine_typed_frame, HT1; done.
Qed.

(** ** The system *)

Lemma told_typed c sent : Forall ServerTypes.sent_typed sent -> Forall status_typed (System.told_to c sent).
Proof.
  unfold System.told_to. rewrite !Forall_forall. intros Hs st Hin.
  apply list_elem_of_omap in Hin as ([so|x] & Hin & E); [|done]. cbn in E. destruct (decide _); [|done]. injection E as <-.
  destruct (Hs _ Hin) as (_ & ? & ? & ? & ?). by split_and!.
Qed.

Lemma serve_typed (y y' : System.Sys Q) gs out lost cs o m :
  System.Inv cap y gs out lost -> ServerTypes.Typed (System.server y) -> Typed (System.mkSys (System.server y) cs) ->
  ServerTypes.op_typed o -> System.serve y cs o = Ok (y', m) -> Typed y'.
Proof.
  intros HY HS [_ HC] Ho. unfold System.serve. destruct (Server.run_op _ o) as [[s sent]|] eqn:E; [|done].
  intros [= <- _]. destruct (ServerTypes.op_keeps_types _ _ _ _ _ _ (System.y_server _ _ _ _ _ HY) Ho HS E) as [HS' Hs].
  split; cbn; [done|]. intros c cl'. rewrite System.tell_lookup. destruct (cs !! c) as [cl|] eqn:Ec; [|done].
  intros [= <-]. destruct (HC c cl Ec) as (? & ? & ? & ?). do 3 (split; [done|]). apply Forall_app.
  split; [done|by apply told_typed].
Qed.

Lemma typed_insert (y : System.Sys Q) c cl e up down : Typed y -> System.clients y !! c = Some cl ->
  EngineTyped e -> Forall order_typed up -> Forall status_typed down ->
  Typed (System.mkSys (System.server y) (<[c := System.mkClient e up down]> (System.clients y))).
Proof.
  intros [HS HC] Hc He Hu Hd. destruct (HC _ _ Hc) as (Hcid & _). split; [done|]. cbn. intros c' cl'.
  destruct (decide (c = c')) as [<-|]; [rewrite lookup_insert_eq|rewrite lookup_insert_ne by done; apply HC].
  by intros [= <-].
Qed.

Lemma system_op_typed (y y' : System.Sys Q) gs out lost o m :
  System.Inv cap y gs out lost -> Typed y -> System.op_ok y o -> System.run_op y o = Ok (y', m) -> Typed y'.
Proof.
  intros HY HT Hok E. pose proof HT as [HS HC].
  assert (Hcl : forall c cl, System.clients y !! c = Some cl -> TradeEngine.Inv cap (System.engine cl) (gs c)).
  { intros c cl Hc. apply TradeEngine.engine_Reach_Inv, (System.y_clients _ _ _ _ _ HY c cl Hc). }
  destruct o as [c|c|c p|c d now|c|o|c cycl coin]; cbn [System.run_op] in E.
  6: { destruct o as [so|w|]; [by injection E as <- _|..]; by eapply serve_typed; [..|exact E]. }
  all: destruct (System.clients y !! c) as [cl|] eqn:Hc; [|by injection E as <- _];
    pose proof (HC c cl Hc) as (Hcid & He & Hu & Hd).
  - injection E as <- _. apply (typed_insert y c cl); [done..| |by rewrite app_nil_r|done].
    unfold TradeEngine.tradeStart. destruct (TradeEngine.trading_ _); [done|]. by eapply engine_typed_frame, He.
  - injection E as <- _. apply (typed_insert y c cl); [done..| |by rewrite app_nil_r|done].
    unfold TradeEngine.tradeStop. destruct (negb _); [done|]. by eapply engine_typed_frame, He.
  - injection E as <- _. apply (typed_insert y c cl); [done..| |by rewrite app_nil_r|done].
    destruct He as [Hm Hr]. split; [|done]. cbn. apply Forall_map. eapply Forall_impl; [exact Hm|].
    intros [t x] Ht. cbn. by case_bool_decide.
  - destruct Hok as [Hnow Hdr]. specialize (Hdr cl Hc).
    destruct (TradeEngine.tradeRound _ false d now) as [[[e mo] go]|] eqn:Er; [|done]. injection E as <- _.
    destruct (round_typed _ (gs c) d now e mo go (Hcl c cl Hc) Hnow He) as (He' & Ho & _); [|done|].
    { intros [[t p] Hq]. by destruct (Hdr t p Hq) as (_ & _ & _ & _ & ?). }
    apply (typed_insert y c cl); [done..|by apply Forall_app|done].
  - destruct (System.up cl) as [|o rest] eqn:Eu; [by injection E as <- _|]. apply Forall_cons in Hu as [Ho Hu].
    eapply serve_typed; [exact HY|done| | |exact E].
    + by apply (typed_insert y c cl).
    + destruct Ho as (? & ? & ? & ?). by split_and!.
  - destruct (System.down cl) as [|st rest] eqn:Ed; [by injection E as <- _|]. apply Forall_cons in Hd as [Hst Hd].
    destruct (TradeEngine.postStatus _ false st cycl coin) as [[e mo]|] eqn:Ep; [|done]. injection E as <- _.
    destruct (System.downstream_step cap y gs out lost HY c cl st rest cycl coin Hc Ed) as (e1 & m1 & _ & E1 & _).
    rewrite Ep in E1. injection E1 as <- ->. apply (typed_insert y c cl); [done|done|by eapply engine_status_typed|by rewrite app_nil_r|done].
Qed.

Lemma run_typed ops : forall (y y' : System.Sys Q) gs out lost m,
  System.Inv cap y gs out lost -> Typed y -> System.run_ok y ops -> System.run y ops = Ok (y', m) -> Typed y'.
Proof.
  induction ops as [|o ops IH]; intros y y' gs out lost m HY HT Hok E; [by injection E as <- _|].
  destruct Hok as [Ho Hok]. destruct (System.op_steps cap y gs out lost HY o Ho) as (y1 & m1 & gs1 & out1 & lost1 & E1 & HY1 & _).
  cbn [System.run] in E. rewrite E1 in E. destruct (System.run y1 ops) as [[y2 m2]|] eqn:E2; [|done]. injection E as <- _.
  eapply IH; [exact HY1|exact (system_op_typed y y1 gs out lost o m1 HY HT Ho E1)|by apply (Hok y1 m1)|exact E2].
Qed.

(** ** Statuses of a step *)

(** How many of the messages go to clients. *)
Definition told (sent : list Server.Sent) : nat :=
  length (omap (fun m => match m with Server.ToClient st => Some st | _ => None end) sent).

Lemma told_cons m sent : told (m :: sent) = (told [m] + told sent)%nat.
Proof. unfold told. cbn. by destruct m. Qed.

Lemma told_app l1 l2 : told (l1 ++ l2) = (told l1 + told l2)%nat.
Proof. unfold told. by rewrite omap_app, length_app. Qed.

Lemma told_bus l : Forall Server.to_bus l -> told l = 0%nat.
Proof. unfold told. by induction 1 as [|[] l H _ IH]. Qed.

(** A step of the server tells at most one client. *)
Lemma route_told outs : forall s s' sent, Server.route s outs = Ok (s', sent) -> (told sent <= length outs)%nat.
Proof.
  induction outs as [|[st|e] outs IH]; intros s s' sent; cbn [Server.route].
  - by intros [= _ <-].
  - destruct (Server.route s outs) as [[s1 m]|] eqn:E; [|done]. intros [= _ <-]. apply IH in E. rewrite told_cons. cbn. lia.
  - destruct (Market.post _ _) as [[c errs]|]; [|done]. destruct (Server.route _ outs) as [[s1 m]|] eqn:E; [|done].
    intros [= _ <-]. apply IH in E. rewrite told_app, told_bus by apply Server.bus_only. cbn. lia.
Qed.

Lemma postOrder_outs g so g' outs : Gateway.postOrder g so = Ok (g', outs) -> (length outs <= 1)%nat.
Proof.
  unfold Gateway.postOrder, Gateway.newOrder, Gateway.cancelOrder. intros E.
  repeat case_match; simplify_eq; cbn; lia.
Qed.

Lemma postStatus_outs g st g' outs : Gateway.postStatus g st = Ok (g', outs) -> (length outs <= 1)%nat.
Proof. unfold Gateway.postStatus. intros E. repeat case_match; simplify_eq; cbn; lia. Qed.

Lemma server_told s o s' sent : Server.run_op s o = Ok (s', sent) -> (told sent <= 1)%nat.
Proof.
  destruct o as [so|w|]; cbn [Server.run_op].
  - unfold Server.submit. destruct (Gateway.postOrder _ so) as [[g outs]|] eqn:E; [|done]. intros Hr%route_told.
    apply postOrder_outs in E. lia.
  - intros (c & msgs & _ & Hb & _)%Server.work_result. rewrite told_bus by done. lia.
  - unfold Server.deliver. destruct (Server.statusQueue s) as [|st q]; [intros [= _ <-]; cbn; lia|].
    destruct (Gateway.postStatus _ st) as [[g outs]|] eqn:E; [|done]. intros Hr%route_told. apply postStatus_outs in E. lia.
Qed.

(** Clients whose tickers are tickers and whose ids are ids. *)
Definition typed_clients (cs : gmap Z (System.Client Q)) : Prop := forall c cl, cs !! c = Some cl ->
  ServerTypes.is_u64 c /\ Forall (fun x => length x.1 = TICKER_SIZE) (TradeEngine.marketData_ (System.engine cl)).

Lemma fresh_typed data coresApp (cs : gmap Z (System.Client Q)) :
  (forall c cl, cs !! c = Some cl -> System.fresh_client cap cl) -> typed_clients cs ->
  Typed (System.mkSys (Server.init data coresApp) cs).
Proof.
  intros Hcs Hty. split; cbn; [apply ServerTypes.init_typed|]. intros c cl Hc.
  destruct (Hcs c cl Hc) as (md & q & -> & _ & _). destruct (Hty c _ Hc) as [Hid Hm]. split; [done|].
  split; [|by split]. split; [done|]. intros i. unfold TradeEngine.record. cbn. rewrite HugeArray.at_alloc.
  apply zero_record_typed.
Qed.

(** ** Runs

    What holds at every moment of a run, for the systems that refine this
    one. *)

Definition SInv (y : System.Sys Q) : Prop :=
  (exists gs out lost, System.Inv cap y gs out lost) /\ Typed y.

Lemma sinv_step y o : SInv y -> System.op_ok y o -> exists y' m, System.run_op y o = Ok (y', m) /\ SInv y' /\ System.telemetry_only m.
Proof.
  intros [(gs & out & lost & HY) HT] Ho.
  destruct (System.op_steps cap y gs out lost HY o Ho) as (y' & m & gs' & out' & lost' & E & HY' & Hm).
  exists y', m. split; [done|]. split; [|done]. split; [by exists gs', out', lost'|].
  by eapply (system_op_typed y y' gs out lost).
Qed.

Lemma system_run_app (y : System.Sys Q) l1 l2 : System.run y (l1 ++ l2) =
  let! (y, m1) := System.run y l1 in let! (y, m2) := System.run y l2 in Ok (y, m1 ++ m2).
Proof.
  revert y. induction l1 as [|o l1 IH]; intros y; cbn [app System.run].
  - by destruct (System.run y l2) as [[? ?]|].
  - destruct (System.run_op y o) as [[y1 m1]|]; [|done]. rewrite IH. destruct (System.run y1 l1) as [[y2 m2]|]; [|done].
    destruct (System.run y2 l2) as [[y3 m3]|]; [|done]. by rewrite (assoc_L app).
Qed.

Lemma system_run_ok_app (y : System.Sys Q) l1 l2 : System.run_ok y l1 ->
  (forall y' m, System.run y l1 = Ok (y', m) -> System.run_ok y' l2) -> System.run_ok y (l1 ++ l2).
Proof.
  revert y. induction l1 as [|o l1 IH]; intros y H1 H2; [by apply (H2 y [])|]. destruct H1 as [Ho H1]. split; [done|].
  intros y' m E. apply IH; [by apply (H1 y' m)|]. intros y2 m2 E2. apply (H2 y2 (m ++ m2)). cbn. by rewrite E, E2.
Qed.

Lemma sinv_run ops : forall y, SInv y -> System.run_ok y ops -> exists y' m, System.run y ops = Ok (y', m) /\ SInv y' /\
  System.telemetry_only m.
Proof.
  induction ops as [|o ops IH]; intros y HY Hok; [exists y, []; split; [done|]; split; [done|constructor]|].
  destruct Hok as [Ho Hok]. destruct (sinv_step y o HY Ho) as (y1 & m1 & E1 & HY1 & Hm1).
  destruct (IH y1 HY1 (Hok y1 m1 E1)) as (y2 & m2 & E2 & HY2 & Hm2). exists y2, (m1 ++ m2). cbn [System.run]. rewrite E1, E2.
  split; [done|]. split; [done|]. by apply Forall_app.
Qed.

Lemma sinv_init prices coresApp data (cs : gmap Z (System.Client Q)) :
  (length coresApp <= 1)%nat -> Market.loadMarketData (inl prices) coresApp = Ok data ->
  (forall c cl, cs !! c = Some cl -> System.fresh_client cap cl) -> typed_clients cs ->
  SInv (System.mkSys (Server.init data coresApp) cs).
Proof.
  intros Hlen E Hcs Hty. split; [exists (fun _ => ∅), [], []; by eapply System.system_Inv_init|by apply fresh_typed].
Qed.

(** In every run of the system whose draws and schedule are those of
    [system_keeps_protocol], all the values that travel stay within the
    fields of their messages: the records of the engines and of the gateway,
    the orders going up, the events and statuses inside the server, and the
    statuses going down, whatever was drawn. *)
Theorem system_values_in_range prices coresApp data (cs : gmap Z (System.Client Q)) ops y m :
  (length coresApp <= 1)%nat -> Market.loadMarketData (inl prices) coresApp = Ok data ->
  (forall c cl, cs !! c = Some cl -> System.fresh_client cap cl) -> typed_clients cs ->
  System.run_ok (System.mkSys (Server.init data coresApp) cs) ops ->
  System.run (System.mkSys (Server.init data coresApp) cs) ops = Ok (y, m) -> Typed y.
Proof.
  intros Hlen E Hcs Hty Hok Er. eapply (run_typed ops); [by eapply System.system_Inv_init|by apply fresh_typed|exact Hok|exact Er].
Qed.
End SystemTypes.

Section Concrete.
#[local] Existing Instance build_cicd.
#[local] Existing Instance System.concrete_fifo.
#[local] Existing Instance System.concrete_fifo_ok.

Lemma two_traders_typed : typed_clients System.two_traders.
Proof.
  intros c cl. unfold System.two_traders.
  intros [[<- <-]|[_ [<- <-]%lookup_singleton_Some]]%lookup_insert_Some;
    (split; [by vm_compute|]); by repeat constructor.
Qed.

Lemma trading_run_ok : System.run_ok (System.mkSys Server.server_0 System.two_traders) System.trading_ops.
Proof.
  eapply System.system_run_okb_ok; [apply (System.system_Inv_init 1024 Market.three_tickers [] Server.one_worker_data System.two_traders);
    [cbn; lia|reflexivity|exact System.two_traders_fresh]|]. vm_compute. reflexivity.
Qed.

Lemma system_values_in_range_witness : exists y m,
  System.run (System.mkSys Server.server_0 System.two_traders) System.trading_ops = Ok (y, m) /\ Typed y.
Proof.
  destruct (System.run_steps 1024 System.trading_ops (System.mkSys Server.server_0 System.two_traders) (fun _ => ∅) [] [])
    as (y & m & _ & _ & _ & E & _).
  - apply (System.system_Inv_init 1024 Market.three_tickers [] Server.one_worker_data System.two_traders);
      [cbn; lia|reflexivity|exact System.two_traders_fresh].
  - exact trading_run_ok.
  - exists y, m. split; [exact E|].
    apply (system_values_in_range 1024 Market.three_tickers [] Server.one_worker_data System.two_traders System.trading_ops y m).
    + cbn. lia.
    + reflexivity.
    + exact System.two_traders_fresh.
    + exact two_traders_typed.
    + exact trading_run_ok.
    + exact E.
Defined.
End Concrete.
End SystemTypes.
