(* ===== verification/WiredSystem.v ===== *)
(** * The system over its connections

    [System.v] with the queues between a client and the server replaced by
    what is there: an upstream and a downstream TCP connection per client
    ([Wire.v]), the buffer pool of each client and the one pool that the
    channels of all sessions share in the server, and messages as bytes of a
    serializer.  What a read completes is posted while the bytes are handled:
    orders to the gateway, statuses to the engine, as many as have arrived.

    [view] forgets the bytes.  Every run over the connections is seen through
    it as a run of [System.v]: bytes that move are no step, a read is one step
    for each message it completes.  The theorems of [System.v] thus hold for
    the system over its connections. *)

From S2P Require Import Prelude SlotId HugeArray Types SlotIdPool OrderGateway Coordinator Server ServerRun ServerTypes.
From S2P Require Import SequencedSPSC Fifo Telemetry TradeEngine System SystemTypes.
From S2P Require Import SlidingBuffer Framing Channel Serialization Wire.

Module WiredSystem.

(** ** What the system needs of a serializer *)

Definition typed_message (m : DomainMessage) : Prop :=
  match m with
  | MOrder o => SystemTypes.order_typed o
  | MOrderStatus st => SystemTypes.status_typed st
  | _ => False
  end.

(** Orders and statuses come back as they were sent and fit a buffer of the
    pool. *)
Class WireFormat `{SER : Serializer DomainMessage} (BUFFER_CAPACITY : Z) := wire_format :
  forall m, typed_message m ->
    FixedSizeFramer.Framable m /\ Z.of_nat (length (FixedSizeFramer.frame m)) < BUFFER_CAPACITY.

Definition order_of (m : DomainMessage) : option Order := match m with MOrder o => Some o | _ => None end.
Definition status_of (m : DomainMessage) : option OrderStatus := match m with MOrderStatus st => Some st | _ => None end.

Lemma orders_back l : omap order_of (map MOrder l) = l.
Proof. induction l as [|o l IH]; [done|]. cbn. by rewrite IH. Qed.
Lemma statuses_back l : omap status_of (map MOrderStatus l) = l.
Proof. induction l as [|o l IH]; [done|]. cbn. by rewrite IH. Qed.

(** ** The system *)

Section Wired.
Context `{B : Build} {Q : Type} `{FQ : !Fifo Q Z} `{SER : Serializer DomainMessage}.
Context (BUFFER_CAPACITY POOL_SIZE : Z).

Abbreviation Link := (Wire.Link (Msg := DomainMessage)).
Abbreviation wire_send := (Wire.send BUFFER_CAPACITY POOL_SIZE).

(** The upstream connection carries orders, from the client's
    [upstreamChannel_] to that of its session, the downstream connection
    statuses the other way.  The pool of an [uplink] is its client's. *)
Record Peer := mkPeer { engine : TradeEngine.State Q; uplink : Link; downlink : Link }.

Record Wired := mkWired { server : Server.State; pool : BufferPool.State; peers : gmap Z Peer }.

Definition with_pool (l : Link) (p : BufferPool.State) : Link :=
  Wire.mkLink (Wire.sender l) p (Wire.pending l) (Wire.wire l) (Wire.receiver l) (Wire.sent l).

Fixpoint write_all (l : Link) (ms : list DomainMessage) : res Link :=
  match ms with
  | [] => Ok l
  | m :: ms => let! l := wire_send l m in write_all l ms
  end.

(** The engine posts its orders to the upstream channel. *)
Definition with_engine (w : Wired) (c : Z) (p : Peer) (e : TradeEngine.State Q) (out : list TradeEngine.Out) : res Wired :=
  let! l := write_all (uplink p) (map MOrder (System.orders_of out)) in
  Ok (mkWired (server w) (pool w) (<[c := mkPeer e l (downlink p)]> (peers w))).

(** A status goes to the downstream channel of the session it names. *)
Definition tell (w : Wired) (m : Server.Sent) : res Wired :=
  match m with
  | Server.ToSystemBus _ => Ok w
  | Server.ToClient st =>
      match peers w !! sos_clientId st with
      | None => Ok w
      | Some p =>
          let! l := wire_send (with_pool (downlink p) (pool w)) (MOrderStatus (sos_orderStatus st)) in
          Ok (mkWired (server w) (Wire.pool l) (<[sos_clientId st := mkPeer (engine p) (uplink p) l]> (peers w)))
      end
  end.

Fixpoint tell_all (w : Wired) (sent : list Server.Sent) : res Wired :=
  match sent with
  | [] => Ok w
  | m :: sent => let! w := tell w m in tell_all w sent
  end.

Definition serve (w : Wired) (o : Server.Op) : res Wired :=
  let! (s, sent) := Server.run_op (server w) o in tell_all (mkWired s (pool w) (peers w)) sent.

(** What a session's bus and a client's bus do with a message; the rest of
    what they do, for messages that are not sent here, is in [Session.v] and
    [ClientConnection.v]. *)
Definition upstream (w : Wired) (c : Z) (m : DomainMessage) : res Wired :=
  match m with MOrder o => serve w (Server.Submit (mkServerOrder c o)) | _ => Ok w end.

Fixpoint upstream_all (w : Wired) (c : Z) (ms : list DomainMessage) : res Wired :=
  match ms with
  | [] => Ok w
  | m :: ms => let! w := upstream w c m in upstream_all w c ms
  end.

Definition downstream (w : Wired) (c : Z) (m : DomainMessage) (cycl coin : Z) : res (Wired * list (Z * TradeEngine.Out)) :=
  match peers w !! c, m with
  | Some p, MOrderStatus st =>
      let! (e, out) := TradeEngine.postStatus (engine p) false st cycl coin in
      let! w := with_engine w c p e out in
      Ok (w, map (pair c) (System.own_of out))
  | _, _ => Ok (w, [])
  end.

(** [draws] are the clock and the coin for each of the messages. *)
Fixpoint downstream_all (w : Wired) (c : Z) (ms : list DomainMessage) (draws : list (Z * Z)) : res (Wired * list (Z * TradeEngine.Out)) :=
  match ms with
  | [] => Ok (w, [])
  | m :: ms =>
      let '(cycl, coin) := hd (0, 0) draws in
      let! (w, m1) := downstream w c m cycl coin in
      let! (w, m2) := downstream_all w c ms (tl draws) in
      Ok (w, m1 ++ m2)
  end.

Inductive Op :=
| TradeStart (c : Z)
| TradeStop (c : Z)
| Price (c : Z) (p : TickerPrice)
| Round (c : Z) (d : TradeEngine.Draw) (now : Z)
| ServerStep (o : Server.Op)
| TransferUp (c : Z) (i k : nat)
| TransferDown (c : Z) (i k : nat)
| ReceiveUp (c : Z) (n : nat)
| ReceiveDown (c : Z) (n : nat) (draws : list (Z * Z)).

(** What a read posted: the bus of the channel before and after. *)
Definition posted (l l' : Link) : list DomainMessage :=
  drop (length (Channel.bus_ (Wire.receiver l))) (Channel.bus_ (Wire.receiver l')).

Definition run_op (w : Wired) (o : Op) : res (Wired * list (Z * TradeEngine.Out)) :=
  let peer c (f : Peer -> res (Wired * list (Z * TradeEngine.Out))) :=
    match peers w !! c with Some p => f p | None => Ok (w, []) end in
  let silent (r : res Wired) : res (Wired * list (Z * TradeEngine.Out)) := let! w := r in Ok (w, []) in
  match o with
  | TradeStart c => peer c (fun p => silent (with_engine w c p (TradeEngine.tradeStart (engine p)) []))
  | TradeStop c => peer c (fun p => silent (with_engine w c p (TradeEngine.tradeStop (engine p)) []))
  | Price c x => peer c (fun p => silent (with_engine w c p (TradeEngine.postPrice (engine p) x) []))
  | Round c d now => peer c (fun p =>
      let! (e, out, _) := TradeEngine.tradeRound (engine p) false d now in
      let! w := with_engine w c p e out in
      Ok (w, map (pair c) (System.own_of out)))
  | ServerStep (Server.Submit _) => Ok (w, [])
  | ServerStep o => silent (serve w o)
  | TransferUp c i k => peer c (fun p =>
      Ok (mkWired (server w) (pool w)
            (<[c := mkPeer (engine p) (Wire.transfer POOL_SIZE (uplink p) i k) (downlink p)]> (peers w)), []))
  | TransferDown c i k => peer c (fun p =>
      let l := Wire.transfer POOL_SIZE (with_pool (downlink p) (pool w)) i k in
      Ok (mkWired (server w) (Wire.pool l) (<[c := mkPeer (engine p) (uplink p) l]> (peers w)), []))
  | ReceiveUp c n => peer c (fun p =>
      let! l := Wire.receive (uplink p) n in
      silent (upstream_all (mkWired (server w) (pool w) (<[c := mkPeer (engine p) l (downlink p)]> (peers w))) c
                (posted (uplink p) l)))
  | ReceiveDown c n draws => peer c (fun p =>
      let! l := Wire.receive (downlink p) n in
      downstream_all (mkWired (server w) (pool w) (<[c := mkPeer (engine p) (uplink p) l]> (peers w))) c
        (posted (downlink p) l) draws)
  end.

Fixpoint run (w : Wired) (ops : list Op) : res (Wired * list (Z * TradeEngine.Out)) :=
  match ops with
  | [] => Ok (w, [])
  | o :: ops =>
      let! (w, m1) := run_op w o in
      let! (w, m2) := run w ops in
      Ok (w, m1 ++ m2)
  end.

(** ** The system without the bytes *)

Definition view_peer (p : Peer) : System.Client Q :=
  System.mkClient (engine p) (omap order_of (Wire.ahead (uplink p))) (omap status_of (Wire.ahead (downlink p))).

Definition view (w : Wired) : System.Sys Q := System.mkSys (server w) (view_peer <$> peers w).

Fixpoint down_ops (c : Z) (n : nat) (draws : list (Z * Z)) : list System.Op :=
  match n with
  | O => []
  | S n => let '(cycl, coin) := hd (0, 0) draws in System.Downstream c cycl coin :: down_ops c n (tl draws)
  end.

(** The steps of [System.v] that a step is seen as: none when bytes move,
    one for each message a read completes. *)
Definition steps_of (w : Wired) (o : Op) : list System.Op :=
  match o with
  | TradeStart c => [System.TradeStart c]
  | TradeStop c => [System.TradeStop c]
  | Price c x => [System.Price c x]
  | Round c d now => [System.Round c d now]
  | ServerStep o => [System.ServerStep o]
  | TransferUp _ _ _ | TransferDown _ _ _ => []
  | ReceiveUp c n =>
      match peers w !! c with
      | Some p =>
          match Wire.receive (uplink p) n with
          | Ok l => replicate (length (posted (uplink p) l)) (System.Upstream c)
          | Err _ => []
          end
      | None => []
      end
  | ReceiveDown c n draws =>
      match peers w !! c with
      | Some p =>
          match Wire.receive (downlink p) n with
          | Ok l => down_ops c (length (posted (downlink p) l)) draws
          | Err _ => []
          end
      | None => []
      end
  end.

Fixpoint trace (w : Wired) (ops : list Op) : list System.Op :=
  match ops with
  | [] => []
  | o :: ops => steps_of w o ++ match run_op w o with Ok (w, _) => trace w ops | Err _ => [] end
  end.

(** The buffers of the server's pool that are in use. *)
Definition outstanding (ps : gmap Z Peer) : list Z := flat_map (fun x => Wire.held (downlink x.2)) (map_to_list ps).

End Wired.
Arguments Peer Q : clear implicits.
Arguments Wired Q : clear implicits.

(** ** The invariant *)

Section Refines.
Context `{B : Build} `{BO : !BuildOk B} {Q : Type} `{FQ : !Fifo Q Z} (cap : Z)
  `{FO : !FifoOk Q Z cap (fun x => 0 <= x < 2 ^ 32)} `{SER : Serializer DomainMessage}.
Context (BUFFER_CAPACITY POOL_SIZE : Z) (Hpool : 0 < POOL_SIZE < 2 ^ 31) `{WF : !WireFormat BUFFER_CAPACITY}.

Abbreviation Link := (Wire.Link (Msg := DomainMessage)).
Abbreviation Whole := (BufferPool.Whole POOL_SIZE).
Abbreviation SInv := (SystemTypes.SInv cap).
Abbreviation told := SystemTypes.told.

Lemma outstanding_split (ps : gmap Z (Peer Q)) c p : ps !! c = Some p ->
  outstanding ps ≡ₚ Wire.held (downlink p) ++ outstanding (delete c ps).
Proof. intros Hc. unfold outstanding. by rewrite <- (map_to_list_delete ps c p Hc). Qed.

Lemma outstanding_insert (ps : gmap Z (Peer Q)) c p :
  outstanding (<[c := p]> ps) ≡ₚ Wire.held (downlink p) ++ outstanding (delete c ps).
Proof. rewrite (outstanding_split _ c p (lookup_insert_eq _ _ _)). by rewrite delete_insert_eq. Qed.

Lemma outstanding_same (ps : gmap Z (Peer Q)) c p p' : ps !! c = Some p ->
  Wire.held (downlink p') = Wire.held (downlink p) -> outstanding (<[c := p']> ps) ≡ₚ outstanding ps.
Proof. intros Hc Hh. by rewrite outstanding_insert, (outstanding_split ps c p Hc), Hh. Qed.

Record PeerInv (p : Peer Q) : Prop := {
  p_up : Wire.LinkInv (uplink p);
  p_down : Wire.LinkInv (downlink p);
  p_pool : Whole (Wire.pool (uplink p)) (Wire.held (uplink p));
  p_orders : exists os, Wire.ahead (uplink p) = map MOrder os;
  p_statuses : exists ss, Wire.ahead (downlink p) = map MOrderStatus ss
}.

Record WInv (w : Wired Q) : Prop := {
  w_peers : forall c p, peers w !! c = Some p -> PeerInv p;
  w_pool : Whole (pool w) (outstanding (peers w))
}.

Lemma with_pool_inv (l : Link) p : Wire.LinkInv l -> Wire.LinkInv (with_pool l p).
Proof. by intros [H1 H2 H3]. Qed.

(** One peer changes, and with it the buffers it holds of the server's pool. *)
Lemma winv_insert w s c p p' pl : WInv w -> peers w !! c = Some p -> PeerInv p' ->
  Whole pl (Wire.held (downlink p') ++ outstanding (delete c (peers w))) ->
  WInv (mkWired s pl (<[c := p']> (peers w))).
Proof.
  intros [HP HW] Hc Hp' Hpl. split; cbn.
  - intros c' q. destruct (decide (c = c')) as [<-|]; [rewrite lookup_insert_eq; by intros [= <-]|].
    rewrite lookup_insert_ne by done. apply HP.
  - eapply BufferPool.whole_perm, Hpl. by rewrite outstanding_insert.
Qed.

Lemma winv_same w s c p p' : WInv w -> peers w !! c = Some p -> PeerInv p' ->
  Wire.held (downlink p') = Wire.held (downlink p) -> WInv (mkWired s (pool w) (<[c := p']> (peers w))).
Proof.
  intros HW Hc Hp' Hh. eapply winv_insert; [done|done|done|]. rewrite Hh.
  eapply BufferPool.whole_perm, (w_pool _ HW). by apply outstanding_split.
Qed.

Lemma view_insert s pl (ps : gmap Z (Peer Q)) c p : view (mkWired s pl (<[c := p]> ps)) =
  System.mkSys s (<[c := view_peer p]> (view_peer <$> ps)).
Proof. unfold view. cbn. by rewrite fmap_insert. Qed.

(** ** Writing *)

Lemma sendable m : typed_message m -> Wire.op_ok BUFFER_CAPACITY (Wire.Send m).
Proof. apply wire_format. Qed.

Lemma write_all_ok ms : forall l, Wire.LinkInv l -> Whole (Wire.pool l) (Wire.held l) -> Forall typed_message ms ->
  Z.of_nat (length (Wire.pending l) + length ms) <= POOL_SIZE ->
  exists l', write_all BUFFER_CAPACITY POOL_SIZE l ms = Ok l' /\ Wire.LinkInv l' /\ Whole (Wire.pool l') (Wire.held l') /\
    Wire.ahead l' = Wire.ahead l ++ ms.
Proof.
  induction ms as [|m ms IH]; intros l HL HW Hm Hlen; cbn [write_all].
  { exists l. by rewrite app_nil_r. }
  apply Forall_cons in Hm as [Hm Hms]. cbn in Hlen.
  destruct (BufferPool.whole_acquire POOL_SIZE Hpool _ _ HW) as (p & i & Ea & HW1); [unfold Wire.held; rewrite length_map; lia|].
  destruct (Wire.link_send _ POOL_SIZE l m p i HL Ea (sendable m Hm)) as (l1 & -> & HL1 & Hp & Hh & Hn & _ & _ & Ha).
  destruct (IH l1 HL1) as (l2 & -> & HL2 & HW2 & Ha2); [|done|lia|].
  - rewrite Hp. by eapply BufferPool.whole_perm, HW1.
  - exists l2. split; [done|]. split; [done|]. split; [done|]. by rewrite Ha2, Ha, <- (assoc_L app).
Qed.

Lemma with_engine_ok w c p e out : WInv w -> peers w !! c = Some p -> Forall SystemTypes.order_typed (System.orders_of out) ->
  Z.of_nat (length (Wire.pending (uplink p)) + length (System.orders_of out)) <= POOL_SIZE ->
  exists w', with_engine BUFFER_CAPACITY POOL_SIZE w c p e out = Ok w' /\ WInv w' /\
    view w' = System.with_engine (view w) c (view_peer p) e out.
Proof.
  intros HW Hc Ho Hlen. pose proof (w_peers _ HW c p Hc) as [Hu Hd Hpl (os & Hos) Hss]. unfold with_engine.
  destruct (write_all_ok (map MOrder (System.orders_of out)) (uplink p) Hu Hpl) as (l & -> & HL & HP & Ha).
  - by apply Forall_map.
  - by rewrite length_map.
  - eexists. split; [reflexivity|]. split.
    + eapply winv_same; [done|done| |done]. split; try done. exists (os ++ System.orders_of out). cbn. by rewrite map_app, Ha, Hos.
    + rewrite view_insert. unfold System.with_engine, view_peer. cbn. by rewrite Ha, omap_app, orders_back.
Qed.
(** ** Telling the clients *)

Lemma tell_ok w m : WInv w -> ServerTypes.sent_typed m ->
  Z.of_nat (length (outstanding (peers w)) + told [m]) <= POOL_SIZE ->
  exists w', tell BUFFER_CAPACITY POOL_SIZE w m = Ok w' /\ WInv w' /\
    view w' = System.mkSys (server w) (System.tell (System.clients (view w)) m) /\
    (length (outstanding (peers w')) <= length (outstanding (peers w)) + told [m])%nat.
Proof.
  intros HW Ht Hlen. destruct m as [st|x]; cbn in Hlen |- *; [|exists w; repeat (split; [done|]); lia].
  destruct (peers w !! sos_clientId st) as [p|] eqn:Hc.
  2: { exists w. split; [done|]. split; [done|]. split; [|lia]. unfold view. cbn. f_equal. symmetry.
       apply alter_id. intros x. by rewrite lookup_fmap, Hc. }
  pose proof (w_peers _ HW _ p Hc) as [Hu Hd Hpl Hos (ss & Hss)].
  destruct (BufferPool.whole_acquire POOL_SIZE Hpool _ _ (w_pool _ HW)) as (pl & i & Ea & HW1); [lia|].
  destruct Ht as (_ & H1 & H2 & H3 & H4).
  destruct (Wire.link_send _ POOL_SIZE (with_pool (downlink p) (pool w)) (MOrderStatus (sos_orderStatus st)) pl i
    (with_pool_inv _ _ Hd) Ea (sendable (MOrderStatus _) (conj H1 (conj H2 (conj H3 H4)))))
    as (l & -> & HL & Hp & Hh & _ & _ & _ & Ha).
  change (Wire.held (with_pool _ _)) with (Wire.held (downlink p)) in Hh.
  change (Wire.ahead (with_pool _ _)) with (Wire.ahead (downlink p)) in Ha.
  eexists. split; [reflexivity|]. split; [|split].
  - eapply winv_insert; [done|done| |].
    + split; try done. cbn. exists (ss ++ [sos_orderStatus st]). by rewrite map_app, Ha, Hss.
    + cbn. rewrite Hp. eapply BufferPool.whole_perm, HW1. rewrite Hh. cbn. f_equiv. by apply outstanding_split.
  - rewrite view_insert. unfold System.tell, view. cbn. f_equal. apply map_eq. intros c'.
    destruct (decide (sos_clientId st = c')) as [<-|Hne].
    + rewrite lookup_insert_eq, lookup_alter_eq, lookup_fmap, Hc. cbn. unfold view_peer. cbn. by rewrite Ha, omap_app.
    + by rewrite lookup_insert_ne, lookup_alter_ne by done.
  - cbn. rewrite (Permutation_length (outstanding_insert _ _ _)). cbn. rewrite length_app, (Permutation_length Hh). cbn.
    rewrite (Permutation_length (outstanding_split _ _ _ Hc)), length_app. lia.
Qed.

Lemma tell_all_ok sent : forall w, WInv w -> Forall ServerTypes.sent_typed sent ->
  Z.of_nat (length (outstanding (peers w)) + told sent) <= POOL_SIZE ->
  exists w', tell_all BUFFER_CAPACITY POOL_SIZE w sent = Ok w' /\ WInv w' /\
    view w' = System.mkSys (server w) (foldl System.tell (System.clients (view w)) sent) /\
    (length (outstanding (peers w')) <= length (outstanding (peers w)) + told sent)%nat.
Proof.
  induction sent as [|m sent IH]; intros w HW Ht Hlen; cbn [tell_all].
  { exists w. repeat (split; [done|]). lia. }
  apply Forall_cons in Ht as [Hm Ht]. rewrite SystemTypes.told_cons in *.
  destruct (tell_ok w m HW Hm ltac:(lia)) as (w1 & -> & HW1 & Hv1 & Ho1).
  destruct (IH w1 HW1 Ht ltac:(lia)) as (w2 & -> & HW2 & Hv2 & Ho2). exists w2. split; [done|]. split; [done|].
  split; [|lia]. rewrite Hv2, Hv1. cbn. f_equal. by apply (f_equal System.server) in Hv1.
Qed.

(** ** Orders that arrive *)

(** Orders that have been read off a connection and are still to be handled
    stand before those on it. *)
Definition before (os : list Order) (cl : System.Client Q) : System.Client Q :=
  System.mkClient (System.engine cl) (os ++ System.up cl) (System.down cl).
Definition push_up (c : Z) (os : list Order) (y : System.Sys Q) : System.Sys Q :=
  System.mkSys (System.server y) (alter (before os) c (System.clients y)).

Lemma push_up_nil c y : push_up c [] y = y.
Proof. destruct y as [s cs]. unfold push_up. cbn. f_equal. apply alter_id. by intros []. Qed.

Lemma tell_push_up os c cs sent :
  foldl System.tell (alter (before os) c cs) sent = alter (before os) c (foldl System.tell cs sent).
Proof.
  apply map_eq. intros c'. rewrite System.tell_lookup. destruct (decide (c = c')) as [<-|].
  - rewrite !lookup_alter_eq, System.tell_lookup. by destruct (cs !! c).
  - by rewrite !lookup_alter_ne, System.tell_lookup by done.
Qed.

Lemma serve_ok w o s sent : WInv w -> Server.run_op (server w) o = Ok (s, sent) -> Forall ServerTypes.sent_typed sent ->
  Z.of_nat (length (outstanding (peers w)) + 1) <= POOL_SIZE ->
  exists w', serve BUFFER_CAPACITY POOL_SIZE w o = Ok w' /\ WInv w' /\
    view w' = System.mkSys s (foldl System.tell (System.clients (view w)) sent) /\
    (length (outstanding (peers w')) <= length (outstanding (peers w)) + 1)%nat.
Proof.
  intros [HP HW] E Ht Hlen. pose proof (SystemTypes.server_told _ _ _ _ E) as H1. unfold serve. rewrite E.
  destruct (tell_all_ok sent (mkWired s (pool w) (peers w))) as (w' & Ew & HW' & Hv & Ho); [by split|done|cbn; lia|].
  exists w'. split; [done|]. split; [done|]. split; [exact Hv|]. cbn in Ho. lia.
Qed.

Lemma upstream_ok c os : forall w, WInv w -> SInv (push_up c os (view w)) -> is_Some (peers w !! c) ->
  Z.of_nat (length (outstanding (peers w)) + length os) <= POOL_SIZE ->
  exists w', upstream_all BUFFER_CAPACITY POOL_SIZE w c (map MOrder os) = Ok w' /\ WInv w' /\
    System.run (push_up c os (view w)) (replicate (length os) (System.Upstream c)) = Ok (view w', []).
Proof.
  induction os as [|o os IH]; intros w HW HY Hc Hlen.
  { exists w. rewrite push_up_nil. done. }
  destruct Hc as [p Hc]. cbn [length] in Hlen.
  destruct (SystemTypes.sinv_step cap _ (System.Upstream c) HY I) as (y1 & m1 & E1 & HY1 & _).
  assert (Hcl : System.clients (push_up c (o :: os) (view w)) !! c = Some (before (o :: os) (view_peer p))).
  { cbn. by rewrite lookup_alter_eq, lookup_fmap, Hc. }
  pose proof HY as [(gs & out & lost & HI) [HS HC]]. destruct (HC _ _ Hcl) as (Hid & _ & Hup & _).
  apply Forall_cons in Hup as [(H1 & H2 & H3 & _) _].
  cbn [System.run replicate length]. rewrite E1. cbn [System.run_op] in E1. rewrite Hcl in E1. cbn in E1.
  unfold System.serve in E1. cbn [System.server push_up view] in E1.
  destruct (Server.run_op (server w) (Server.Submit (mkServerOrder c o))) as [[s sent]|] eqn:Es; [|done].
  injection E1 as Ey <-.
  destruct (ServerTypes.op_keeps_types _ _ _ (Server.Submit (mkServerOrder c o)) s sent (System.y_server _ _ _ _ _ HI)) as [_ Hst];
    [by split_and!|exact HS|exact Es|].
  destruct (serve_ok w _ s sent HW Es Hst ltac:(lia)) as (w1 & Ew1 & HW1 & Hv1 & Ho1).
  assert (Hy1 : y1 = push_up c os (view w1)).
  { rewrite <- Ey, Hv1. unfold push_up. cbn [System.server System.clients]. rewrite <- tell_push_up. do 2 f_equal. apply map_eq. intros c'.
    destruct (decide (c = c')) as [<-|]; [|by rewrite lookup_insert_ne, !lookup_alter_ne by done].
    rewrite lookup_insert_eq, lookup_alter_eq. cbn. by rewrite lookup_fmap, Hc. }
  destruct (IH w1 HW1) as (w2 & Ew2 & HW2 & Er2); [by rewrite <- Hy1| |lia|].
  { apply (f_equal System.clients) in Hv1. cbn in Hv1.
    assert (is_Some ((view_peer <$> peers w1) !! c)) as Hx.
    { rewrite Hv1, System.tell_lookup, lookup_fmap, Hc. by eexists. }
    rewrite lookup_fmap in Hx. by apply fmap_is_Some in Hx. }
  exists w2. cbn [map upstream_all upstream]. rewrite Ew1. split; [done|]. split; [done|].
  rewrite Hy1, Er2. done.
Qed.
(** ** Statuses that arrive *)

Definition before_down (ss : list OrderStatus) (cl : System.Client Q) : System.Client Q :=
  System.mkClient (System.engine cl) (System.up cl) (ss ++ System.down cl).
Definition push_down (c : Z) (ss : list OrderStatus) (y : System.Sys Q) : System.Sys Q :=
  System.mkSys (System.server y) (alter (before_down ss) c (System.clients y)).

Lemma push_down_nil c y : push_down c [] y = y.
Proof. destruct y as [s cs]. unfold push_down. cbn. f_equal. apply alter_id. by intros []. Qed.

Lemma whole_room s live : Whole s live -> Z.of_nat (length live) <= POOL_SIZE.
Proof. intros [_ Hc Hb]. rewrite length_app in Hc. lia. Qed.

Lemma downstream_ok c ss : forall w draws, WInv w -> SInv (push_down c ss (view w)) -> is_Some (peers w !! c) ->
  exists w' m, downstream_all BUFFER_CAPACITY POOL_SIZE w c (map MOrderStatus ss) draws = Ok (w', m) /\ WInv w' /\
    System.run (push_down c ss (view w)) (down_ops c (length ss) draws) = Ok (view w', m).
Proof.
  induction ss as [|st ss IH]; intros w draws HW HY Hc.
  { exists w, []. rewrite push_down_nil. done. }
  destruct Hc as [p Hc]. cbn [map downstream_all down_ops length]. destruct (hd (0, 0) draws) as [cycl coin].
  destruct (SystemTypes.sinv_step cap _ (System.Downstream c cycl coin) HY I) as (y1 & m1 & E1 & HY1 & _).
  assert (Hcl : System.clients (push_down c (st :: ss) (view w)) !! c = Some (before_down (st :: ss) (view_peer p))).
  { cbn. by rewrite lookup_alter_eq, lookup_fmap, Hc. }
  pose proof HY as [(gs & out & lost & HI) _].
  destruct (System.downstream_step cap _ gs out lost HI c _ st (ss ++ System.down (view_peer p)) cycl coin Hcl eq_refl)
    as (e & mt & _ & Ep & _).
  cbn [System.run]. rewrite E1. cbn [System.run_op] in E1. rewrite Hcl in E1. cbn [before_down System.down System.engine System.up app] in E1.
  change (System.engine (view_peer p)) with (engine p) in E1, Ep. cbn [System.engine before_down] in Ep.
  change (System.engine (view_peer p)) with (engine p) in Ep. rewrite Ep in E1. injection E1 as Ey <-.
  destruct (with_engine_ok w c p e [TradeEngine.OutTelemetry mt] HW Hc) as (w1 & Ew1 & HW1 & Hv1); [constructor| |].
  { pose proof (whole_room _ _ (p_pool _ (w_peers _ HW c p Hc))) as Hr. unfold Wire.held in Hr. rewrite length_map in Hr. cbn. lia. }
  assert (Hy1 : y1 = push_down c ss (view w1)).
  { rewrite <- Ey, Hv1. unfold push_down, System.with_engine. cbn [System.server System.clients]. f_equal. apply map_eq. intros c'.
    destruct (decide (c = c')) as [<-|]; [|by rewrite lookup_insert_ne, !lookup_alter_ne, lookup_insert_ne by done].
    by rewrite lookup_alter_eq, !lookup_insert_eq. }
  destruct (IH w1 (tl draws) HW1) as (w2 & m2 & Ew2 & HW2 & Er2); [by rewrite <- Hy1| |].
  { apply (f_equal System.clients) in Hv1. cbn in Hv1.
    assert (is_Some ((view_peer <$> peers w1) !! c)) as Hx by (rewrite Hv1, lookup_insert_eq; by eexists).
    rewrite lookup_fmap in Hx. by apply fmap_is_Some in Hx. }
  eexists w2, _. unfold downstream at 1. rewrite Hc, Ep, Ew1. cbn [System.own_of]. rewrite Ew2. split; [reflexivity|]. split; [done|].
  by rewrite Hy1, Er2.
Qed.
(** ** Every step *)

(** A draw and a schedule of [System.v]; the transport sends earlier writes
    first; the pools have room for what is written. *)
Definition op_ok (w : Wired Q) (o : Op) : Prop :=
  match o with
  | Round c d now => System.op_ok (view w) (System.Round c d now) /\
      forall p, peers w !! c = Some p -> Z.of_nat (length (Wire.pending (uplink p))) < POOL_SIZE
  | ServerStep o => ServerRun.op_ok (server w) o /\ Z.of_nat (length (outstanding (peers w))) < POOL_SIZE
  | TransferUp _ i _ | TransferDown _ i _ => i = 0%nat
  | ReceiveUp c _ => forall p, peers w !! c = Some p ->
      Z.of_nat (length (outstanding (peers w)) + length (Wire.ahead (uplink p))) <= POOL_SIZE
  | _ => True
  end.

Fixpoint run_ok (w : Wired Q) (ops : list Op) : Prop :=
  match ops with
  | [] => True
  | o :: ops => op_ok w o /\ forall w' m, run_op BUFFER_CAPACITY POOL_SIZE w o = Ok (w', m) -> run_ok w' ops
  end.

Definition simulated (w : Wired Q) (o : Op) : Prop :=
  exists w' m, run_op BUFFER_CAPACITY POOL_SIZE w o = Ok (w', m) /\ WInv w' /\
    System.run_ok (view w) (steps_of w o) /\ System.run (view w) (steps_of w o) = Ok (view w', m).

Lemma simulated_one w o so : steps_of w o = [so] -> System.op_ok (view w) so ->
  (exists w' m, run_op BUFFER_CAPACITY POOL_SIZE w o = Ok (w', m) /\ WInv w' /\
     System.run_op (view w) so = Ok (view w', m)) -> simulated w o.
Proof.
  intros Es Ho (w' & m & E & HW & Er). exists w', m. rewrite Es. split; [done|]. split; [done|]. split; [done|].
  cbn [System.run]. rewrite Er. by rewrite app_nil_r.
Qed.

Lemma simulated_none w o : steps_of w o = [] ->
  (exists w', run_op BUFFER_CAPACITY POOL_SIZE w o = Ok (w', []) /\ WInv w' /\ view w' = view w) -> simulated w o.
Proof. intros Es (w' & E & HW & Hv). exists w', []. rewrite Es, Hv. done. Qed.

Lemma view_lookup (w : Wired Q) c p : peers w !! c = Some p -> System.clients (view w) !! c = Some (view_peer p).
Proof. intros Hc. cbn. by rewrite lookup_fmap, Hc. Qed.

Lemma peer_room w c p : WInv w -> peers w !! c = Some p -> Z.of_nat (length (Wire.pending (uplink p)) + 0) <= POOL_SIZE.
Proof.
  intros HW Hc. pose proof (whole_room _ _ (p_pool _ (w_peers _ HW c p Hc))) as Hr. unfold Wire.held in Hr.
  rewrite length_map in Hr. lia.
Qed.

(** What the engine does on its own. *)
Lemma silent_sim w o so c (f : TradeEngine.State Q -> TradeEngine.State Q) : WInv w -> steps_of w o = [so] ->
  System.op_ok (view w) so ->
  run_op BUFFER_CAPACITY POOL_SIZE w o = match peers w !! c with
    | Some p => let! w := with_engine BUFFER_CAPACITY POOL_SIZE w c p (f (engine p)) [] in Ok (w, []) | None => Ok (w, []) end ->
  System.run_op (view w) so = match System.clients (view w) !! c with
    | Some cl => Ok (System.with_engine (view w) c cl (f (System.engine cl)) [], []) | None => Ok (view w, []) end ->
  simulated w o.
Proof.
  intros HW Es Ho E1 E2. apply (simulated_one w o so Es Ho). rewrite E1, E2. destruct (peers w !! c) as [p|] eqn:Hc.
  - destruct (with_engine_ok w c p (f (engine p)) [] HW Hc) as (w' & -> & HW' & Hv);
      [exact (Forall_nil_2 _)|exact (peer_room w c p HW Hc)|].
    exists w', []. rewrite (view_lookup w c p Hc), Hv. done.
  - exists w, []. cbn. by rewrite lookup_fmap, Hc.
Qed.

Lemma round_sim w c d now : WInv w -> SInv (view w) -> op_ok w (Round c d now) -> simulated w (Round c d now).
Proof.
  intros HW HY [Ho Hroom]. apply (simulated_one w _ (System.Round c d now)); [done|done|].
  destruct (SystemTypes.sinv_step cap _ _ HY Ho) as (y' & m' & E & _). cbn [run_op System.run_op] in *.
  destruct (peers w !! c) as [p|] eqn:Hc; [|exists w, []; cbn; by rewrite lookup_fmap, Hc].
  rewrite (view_lookup w c p Hc) in *. destruct HY as [(gs & out & lost & HI) [_ HT]].
  change (System.engine (view_peer p)) with (engine p) in *.
  destruct (TradeEngine.tradeRound (engine p) false d now) as [[[e mo] go]|] eqn:Er; [|done].
  destruct (HT _ _ (view_lookup w c p Hc)) as (_ & He & _). destruct Ho as [Hnow Hdr].
  destruct (SystemTypes.round_typed cap (engine p) (gs c) d now e mo go) as (_ & Hty & Hlen); [|done|exact He| |exact Er|].
  { apply TradeEngine.engine_Reach_Inv, (System.y_clients _ _ _ _ _ HI c _ (view_lookup w c p Hc)). }
  { intros [[t x] Hq]. by destruct (Hdr _ (view_lookup w c p Hc) t x Hq) as (_ & _ & _ & _ & ?). }
  destruct (with_engine_ok w c p e mo HW Hc Hty) as (w' & -> & HW' & Hv).
  { specialize (Hroom p eq_refl). assert (length (System.orders_of mo) <= length mo)%nat by (unfold System.orders_of; clear; induction mo as [|[]]; cbn in *; lia). lia. }
  eexists w', _. split; [reflexivity|]. split; [done|]. by rewrite Hv.
Qed.

Lemma server_sim w o : WInv w -> SInv (view w) -> op_ok w (ServerStep o) -> simulated w (ServerStep o).
Proof.
  intros HW HY [Ho Hroom]. apply (simulated_one w _ (System.ServerStep o)); [done|done|].
  destruct (SystemTypes.sinv_step cap _ (System.ServerStep o) HY Ho) as (y' & m' & E & _).
  destruct HY as [(gs & out & lost & HI) [HT _]].
  destruct o as [so|w0|]; [by exists w, []|..]; cbn [run_op System.run_op] in *; unfold System.serve in *;
    cbn [System.server view] in *;
    match type of E with context [Server.run_op _ ?o] => destruct (Server.run_op (server w) o) as [[s sent]|] eqn:Es; [|done] end.
  all: match type of Es with Server.run_op _ ?o = _ =>
      destruct (ServerTypes.op_keeps_types _ _ _ o _ _ (System.y_server _ _ _ _ _ HI) I HT Es) as [_ Hst] end;
    destruct (serve_ok w _ s sent HW Es Hst ltac:(lia)) as (w' & -> & HW' & Hv & _);
    exists w', []; split; [done|]; split; [done|]; by rewrite Hv.
Qed.
Lemma transfer_view (l : Link) k : Wire.LinkInv l -> Wire.ahead (Wire.transfer POOL_SIZE l 0 k) = Wire.ahead l.
Proof. intros HL. destruct (Wire.link_transfer POOL_SIZE l k HL) as (_ & Hs & Hr & _). unfold Wire.ahead. by rewrite Hs, Hr. Qed.

(** The buffer of a completed write goes back to its pool. *)
Lemma transfer_pool (l : Link) k others : Wire.LinkInv l -> Whole (Wire.pool l) (Wire.held l ++ others) ->
  Whole (Wire.pool (Wire.transfer POOL_SIZE l 0 k)) (Wire.held (Wire.transfer POOL_SIZE l 0 k) ++ others).
Proof.
  intros HL HW. destruct (Wire.link_transfer POOL_SIZE l k HL) as (_ & _ & _ & [[-> ->]|(idx & Hh & ->)]); [done|].
  rewrite Hh in HW. by apply (BufferPool.whole_release POOL_SIZE Hpool _ []).
Qed.

Lemma transfer_up_sim w c k : WInv w -> simulated w (TransferUp c 0 k).
Proof.
  intros HW. apply simulated_none; [done|]. cbn [run_op]. destruct (peers w !! c) as [p|] eqn:Hc; [|by exists w].
  pose proof (w_peers _ HW c p Hc) as [Hu Hd Hpl Hos Hss]. eexists. split; [reflexivity|]. split.
  - eapply winv_same; [done|done| |done]. split; cbn; try done.
    + by apply Wire.link_transfer.
    + rewrite <- (app_nil_r (Wire.held _)). apply transfer_pool; [done|]. by rewrite app_nil_r.
    + by rewrite transfer_view.
  - rewrite view_insert. unfold view. f_equal. apply insert_id. rewrite lookup_fmap, Hc. unfold view_peer. cbn.
    by rewrite transfer_view.
Qed.

Lemma transfer_down_sim w c k : WInv w -> simulated w (TransferDown c 0 k).
Proof.
  intros HW. apply simulated_none; [done|]. cbn [run_op]. destruct (peers w !! c) as [p|] eqn:Hc; [|by exists w].
  pose proof (w_peers _ HW c p Hc) as [Hu Hd Hpl Hos Hss]. pose proof (with_pool_inv _ (pool w) Hd) as Hd'.
  eexists. split; [reflexivity|]. split.
  - eapply winv_insert; [done|done| |].
    + split; cbn; try done; [by apply Wire.link_transfer|by rewrite transfer_view].
    + cbn. apply transfer_pool; [done|]. cbn. eapply BufferPool.whole_perm, (w_pool _ HW). by apply outstanding_split.
  - rewrite view_insert. unfold view. f_equal. apply insert_id. rewrite lookup_fmap, Hc. unfold view_peer. cbn.
    by rewrite transfer_view.
Qed.

Lemma posted_app (l l' : Link) ms : Channel.bus_ (Wire.receiver l') = Channel.bus_ (Wire.receiver l) ++ ms -> posted l l' = ms.
Proof. intros E. unfold posted. by rewrite E, drop_app_length. Qed.

Lemma free_run_ok ops : Forall (fun o => forall y : System.Sys Q, System.op_ok y o) ops -> forall y, System.run_ok y ops.
Proof. induction 1 as [|o ops Ho _ IH]; intros y; [done|]. split; [apply Ho|]. intros y' m _. apply IH. Qed.

Lemma receive_up_sim w c n : WInv w -> SInv (view w) -> op_ok w (ReceiveUp c n) -> simulated w (ReceiveUp c n).
Proof.
  intros HW HY Hroom. unfold simulated. cbn [run_op steps_of op_ok] in *.
  destruct (peers w !! c) as [p|] eqn:Hc; [|by exists w, []].
  pose proof (w_peers _ HW c p Hc) as [Hu Hd Hpl (os & Hos) Hss]. specialize (Hroom p eq_refl).
  destruct (Wire.link_receive (uplink p) n Hu) as (l & ms & -> & HL & _ & Hpe & Hpo & Hb & Ha & _).
  rewrite (posted_app _ _ _ Hb). rewrite Hos in Ha. apply map_eq_app in Ha as (os1 & os2 & -> & <- & Ha).
  set (wm := mkWired _ _ _).
  assert (HWm : WInv wm).
  { eapply winv_same; [done|done| |done]. split; try done; cbn; [|by exists os2]. unfold Wire.held. by rewrite Hpo, Hpe. }
  assert (Hv : push_up c os1 (view wm) = view w).
  { unfold push_up, view, wm. cbn [server peers System.server System.clients]. f_equal. apply map_eq. intros c'.
    destruct (decide (c = c')) as [<-|]; [|by rewrite lookup_alter_ne, !lookup_fmap, lookup_insert_ne by done].
    rewrite lookup_alter_eq, !lookup_fmap, lookup_insert_eq, Hc. cbn. unfold before, view_peer. cbn.
    by rewrite Hos, <- Ha, map_app, omap_app, !orders_back. }
  destruct (upstream_ok c os1 wm HWm) as (w' & -> & HW' & Er).
  - by rewrite Hv.
  - cbn. rewrite lookup_insert_eq. by eexists.
  - rewrite Hos, length_map, length_app in Hroom. cbn. rewrite (Permutation_length (outstanding_same _ c p (mkPeer (engine p) l (downlink p)) Hc eq_refl)). lia.
  - exists w', []. rewrite length_map. split; [done|]. split; [done|]. split; [|by rewrite <- Hv].
    apply free_run_ok, Forall_replicate. done.
Qed.

Lemma down_ops_free c n : forall draws, Forall (fun o => forall y : System.Sys Q, System.op_ok y o) (down_ops c n draws).
Proof.
  induction n as [|n IH]; intros draws; cbn; [constructor|]. destruct (hd _ draws). by constructor.
Qed.

Lemma receive_down_sim w c n draws : WInv w -> SInv (view w) -> simulated w (ReceiveDown c n draws).
Proof.
  intros HW HY. unfold simulated. cbn [run_op steps_of].
  destruct (peers w !! c) as [p|] eqn:Hc; [|by exists w, []].
  pose proof (w_peers _ HW c p Hc) as [Hu Hd Hpl Hos (ss & Hss)].
  destruct (Wire.link_receive (downlink p) n Hd) as (l & ms & -> & HL & _ & Hpe & Hpo & Hb & Ha & _).
  rewrite (posted_app _ _ _ Hb). rewrite Hss in Ha. apply map_eq_app in Ha as (ss1 & ss2 & -> & <- & Ha).
  set (wm := mkWired _ _ _).
  assert (HWm : WInv wm).
  { eapply winv_same; [done|done| |]; [split; try done; by exists ss2|]. cbn. unfold Wire.held. by rewrite Hpe. }
  assert (Hv : push_down c ss1 (view wm) = view w).
  { unfold push_down, view, wm. cbn [server peers System.server System.clients]. f_equal. apply map_eq. intros c'.
    destruct (decide (c = c')) as [<-|]; [|by rewrite lookup_alter_ne, !lookup_fmap, lookup_insert_ne by done].
    rewrite lookup_alter_eq, !lookup_fmap, lookup_insert_eq, Hc. cbn. unfold before_down, view_peer. cbn.
    by rewrite Hss, <- Ha, map_app, omap_app, !statuses_back. }
  destruct (downstream_ok c ss1 wm draws HWm) as (w' & m & -> & HW' & Er).
  - by rewrite Hv.
  - cbn. rewrite lookup_insert_eq. by eexists.
  - exists w', m. rewrite length_map. split; [done|]. split; [done|]. split; [|by rewrite <- Hv].
    apply free_run_ok, down_ops_free.
Qed.

Lemma step_sim w o : WInv w -> SInv (view w) -> op_ok w o -> simulated w o.
Proof.
  intros HW HY Ho. destruct o as [c|c|c x|c d now|o|c i k|c i k|c n|c n draws].
  - by apply (silent_sim w _ (System.TradeStart c) c TradeEngine.tradeStart).
  - by apply (silent_sim w _ (System.TradeStop c) c TradeEngine.tradeStop).
  - by apply (silent_sim w _ (System.Price c x) c (fun e => TradeEngine.postPrice e x)).
  - by apply round_sim.
  - by apply server_sim.
  - cbn in Ho. subst i. by apply transfer_up_sim.
  - cbn in Ho. subst i. by apply transfer_down_sim.
  - by apply receive_up_sim.
  - by apply receive_down_sim.
Qed.

(** ** Runs *)

Lemma run_sim ops : forall w, WInv w -> SInv (view w) -> run_ok w ops ->
  exists w' m, run BUFFER_CAPACITY POOL_SIZE w ops = Ok (w', m) /\ WInv w' /\
    System.run_ok (view w) (trace BUFFER_CAPACITY POOL_SIZE w ops) /\
    System.run (view w) (trace BUFFER_CAPACITY POOL_SIZE w ops) = Ok (view w', m).
Proof.
  induction ops as [|o ops IH]; intros w HW HY Hok; [by exists w, []|]. destruct Hok as [Ho Hok].
  destruct (step_sim w o HW HY Ho) as (w1 & m1 & E1 & HW1 & Hs1 & Er1).
  destruct (SystemTypes.sinv_run cap _ _ HY Hs1) as (y1 & m1' & E1' & HY1 & _). rewrite Er1 in E1'. injection E1' as <- <-.
  destruct (IH w1 HW1 HY1 (Hok w1 m1 E1)) as (w2 & m2 & E2 & HW2 & Hs2 & Er2).
  exists w2, (m1 ++ m2). cbn [run trace]. rewrite E1, E2. split; [done|]. split; [done|]. split.
  - apply SystemTypes.system_run_ok_app; [done|]. intros y' m. rewrite Er1. by intros [= <- _].
  - by rewrite SystemTypes.system_run_app, Er1, Er2.
Qed.

(** ** From the start *)

(** An authenticated client before its first order: both connections are
    empty. *)
Definition fresh_peer (p : Peer Q) : Prop :=
  (exists a b capacity, 1538 <= capacity /\ Wire.init a b capacity = Ok (uplink p)) /\
  (exists a b capacity, 1538 <= capacity /\ Wire.init a b capacity = Ok (downlink p)) /\
  exists md q, engine p = TradeEngine.init md q /\ md <> [] /\ fifo_holds q [] /\ Forall (fun x => length x.1 = TICKER_SIZE) md.

Lemma fresh_peer_ok p : fresh_peer p -> PeerInv p /\ Wire.held (downlink p) = [] /\
  System.fresh_client cap (view_peer p) /\ Forall (fun x => length x.1 = TICKER_SIZE) (TradeEngine.marketData_ (engine p)).
Proof.
  intros ((a & b & n & Hn & Eu) & (a' & b' & n' & Hn' & Ed) & md & q & Ee & Hmd & Hq & Ht).
  destruct (Wire.link_init a b n _ Hn Eu) as (HLu & Hpu & Hpeu & _ & Hau).
  destruct (Wire.link_init a' b' n' _ Hn' Ed) as (HLd & Hpd & Hped & _ & Had).
  split; [split; [done|done| |by exists []|by exists []]; unfold Wire.held; rewrite Hpu, Hpeu; by apply BufferPool.whole_init|].
  split; [unfold Wire.held; by rewrite Hped|]. rewrite Ee. split; [|done]. exists md, q. unfold view_peer. by rewrite Ee, Hau, Had.
Qed.

Lemma outstanding_none (ps : gmap Z (Peer Q)) : (forall c p, ps !! c = Some p -> Wire.held (downlink p) = []) -> outstanding ps = [].
Proof.
  unfold outstanding. intros H. assert (Hl : forall c p, (c, p) ∈ map_to_list ps -> Wire.held (downlink p) = []).
  { intros c p Hin. by apply (H c), elem_of_map_to_list. }
  induction (map_to_list ps) as [|[c p] l IH]; [done|]. cbn. rewrite (Hl c p) by left. apply IH. intros c' p' Hin. by apply (Hl c'); right.
Qed.

Lemma wired_start prices coresApp data (ps : gmap Z (Peer Q)) :
  (length coresApp <= 1)%nat -> Market.loadMarketData (inl prices) coresApp = Ok data ->
  (forall c p, ps !! c = Some p -> ServerTypes.is_u64 c /\ fresh_peer p) ->
  WInv (mkWired (Server.init data coresApp) BufferPool.init ps) /\
  SInv (view (mkWired (Server.init data coresApp) BufferPool.init ps)).
Proof.
  intros Hlen E Hps. split.
  { split; cbn; [intros c p Hc; by apply fresh_peer_ok, (Hps c)|]. rewrite outstanding_none; [by apply BufferPool.whole_init|].
    intros c p Hc. by apply fresh_peer_ok, (Hps c). }
  assert (Hcs : forall c cl, (view_peer <$> ps) !! c = Some cl -> System.fresh_client cap cl).
  { intros c cl. rewrite lookup_fmap. destruct (ps !! c) as [p|] eqn:Hc; [|done]. intros [= <-]. by apply fresh_peer_ok, (Hps c). }
  apply (SystemTypes.sinv_init cap prices coresApp); [done|done|done|].
  cbn [peers]. intros c cl. rewrite lookup_fmap. destruct (ps !! c) as [p|] eqn:Hc; [|done]. intros [= <-].
  destruct (Hps c p Hc) as [Hid Hp]. split; [done|]. by apply fresh_peer_ok.
Qed.

(** C6: over its connections the system, with at most one worker, does what
    [System.v] says: for any number of clients, however bytes are cut and reads
    and writes interleave with everything else, nothing faults and every run
    is, step for step, a run of the system with queues in the place of
    connections, in the state that results and in all that is posted.  In
    particular no engine gets a status it cannot place, and no connection is
    given up.  This takes a serializer that gives messages back in a buffer's
    space, and of the run ([run_ok]) that the transport sends the bytes of
    earlier writes first, that the pools have room for what is written, that
    the engines draw within range from traded tickers, and that each cancel
    still finds its order resting when the worker takes it. *)
Theorem wired_system_refines prices coresApp data (ps : gmap Z (Peer Q)) ops :
  (length coresApp <= 1)%nat -> Market.loadMarketData (inl prices) coresApp = Ok data ->
  (forall c p, ps !! c = Some p -> ServerTypes.is_u64 c /\ fresh_peer p) ->
  let w0 := mkWired (Server.init data coresApp) BufferPool.init ps in
  run_ok w0 ops ->
  exists w m, run BUFFER_CAPACITY POOL_SIZE w0 ops = Ok (w, m) /\ System.telemetry_only m /\
    System.run_ok (view w0) (trace BUFFER_CAPACITY POOL_SIZE w0 ops) /\
    System.run (view w0) (trace BUFFER_CAPACITY POOL_SIZE w0 ops) = Ok (view w, m) /\
    forall c p, peers w !! c = Some p ->
      Channel.status_ (Wire.receiver (uplink p)) = Channel.Connected /\ Channel.events (Wire.receiver (uplink p)) = [] /\
      Channel.status_ (Wire.receiver (downlink p)) = Channel.Connected /\ Channel.events (Wire.receiver (downlink p)) = [].
Proof.
  intros Hlen E Hps w0 Hok.
  destruct (wired_start prices coresApp data ps Hlen E Hps) as [HW HY]. fold w0 in HW, HY.
  destruct (run_sim ops w0 HW HY Hok) as (w & m & Er & HW' & Hok' & Er').
  destruct (SystemTypes.sinv_run cap _ _ HY Hok') as (y & m' & E' & _ & Hm). rewrite Er' in E'. injection E' as <- <-.
  exists w, m. do 4 (split; [done|]). intros c p Hc. pose proof (w_peers _ HW' c p Hc) as [Hu Hd _ _ _].
  destruct (Wire.link_alive _ Hu), (Wire.link_alive _ Hd). done.
Qed.
End Refines.

(** ** FlatBuffers on the wire *)

Lemma ascii_length s : length (String.list_ascii_of_string s) = String.length s.
Proof. induction s as [|c s IH]; cbn; by rewrite ?IH. Qed.

Section FbsFormat.
Context (build : Fbs.FbsMessage -> bytes) (verify_root : bytes -> option Fbs.FbsMessage).
Context (build_reads : forall t, Fbs.in_schema t -> verify_root (build t) = Some t).

(** The finished buffers of the two tables, which hold numbers and four
    characters, are short. *)
Context (build_order : forall id t q p a, String.length t = TICKER_SIZE -> 1 <= Z.of_nat (length (build (Fbs.FbOrder id (Some t) q p a))) < 126).
Context (build_status : forall i1 i2 q p s, 1 <= Z.of_nat (length (build (Fbs.FbOrderStatus i1 i2 q p s))) < 126).

Lemma fbs_wire_format : WireFormat (SER := Fbs.serializer build verify_root) 128.
Proof.
  intros m Hm. assert (Hlen : 1 <= Z.of_nat (length (Fbs.serialize build m)) < 126).
  { destruct m as [m|m|m|m|m|m]; try done; [|apply build_status]. apply build_order. destruct Hm as (_ & _ & _ & Ht).
    rewrite <- ascii_length, String.list_ascii_of_string_of_list_ascii, <- Ht, firstn_all. done. }
  split; [|unfold FixedSizeFramer.frame; rewrite length_app; cbn -[Fbs.serialize]; lia].
  apply Wire.fbs_framable; [done| | |lia]; destruct m as [m|m|m|m|m|m]; try done.
  - by destruct Hm as (? & ? & ? & ?).
  - by destruct Hm as (? & ? & ? & ?).
Qed.
End FbsFormat.

(** ** A concrete run *)

Section Concrete.
#[local] Existing Instance build_cicd.
#[local] Existing Instance System.concrete_fifo.
#[local] Existing Instance System.concrete_fifo_ok.

(** A codec for the tables of this traffic, and that of [Serialization.v] for
    the others. *)
Definition compact_build (t : Fbs.FbsMessage) : bytes :=
  match t with
  | Fbs.FbOrder i (Some s) q p a =>
      if (String.length s =? 4)%nat then
        1 :: Codecs.put32 i ++ Codecs.put_chars (String.list_ascii_of_string s) ++ Codecs.put32 q ++ Codecs.put32 p ++ [a]
      else 0 :: Codecs.build t
  | Fbs.FbOrderStatus i1 i2 q p s => 2 :: Codecs.put32 i1 ++ Codecs.put32 i2 ++ Codecs.put32 q ++ Codecs.put32 p ++ [s]
  | _ => 0 :: Codecs.build t
  end.

Definition compact_root (b : bytes) : option Fbs.FbsMessage :=
  match b with
  | 0 :: b => Codecs.verify_root b
  | 1 :: b => Some (Fbs.FbOrder (Codecs.get32 b) (Some (String.string_of_list_ascii (Codecs.get_chars (take 4 (drop 4 b)))))
                (Codecs.get32 (drop 8 b)) (Codecs.get32 (drop 12 b)) (nth 16 b 0))
  | 2 :: b => Some (Fbs.FbOrderStatus (Codecs.get32 b) (Codecs.get32 (drop 4 b)) (Codecs.get32 (drop 8 b))
                (Codecs.get32 (drop 12 b)) (nth 16 b 0))
  | _ => None
  end.

Lemma compact_reads t : Fbs.in_schema t -> compact_root (compact_build t) = Some t.
Proof.
  intros Ht. destruct t as [n p|t o e|t|i [s|] q p a|i1 i2 q p st|t p| |]; try (by apply Codecs.build_reads).
  - cbn [compact_build]. destruct (Nat.eqb_spec (String.length s) 4) as [Hs|]; [|by apply Codecs.build_reads].
    destruct s as [|c1 [|c2 [|c3 [|c4 [|]]]]]; try done. destruct Ht as (H1 & H2 & H3 & _).
    change (compact_root _) with (Some (Fbs.FbOrder (Codecs.get32 (Codecs.put32 i ++ Codecs.put_chars [c1; c2; c3; c4] ++ Codecs.put32 q ++ Codecs.put32 p ++ [a]))
      (Some (String.string_of_list_ascii (Codecs.get_chars (Codecs.put_chars [c1; c2; c3; c4]))))
      (Codecs.get32 (Codecs.put32 q ++ Codecs.put32 p ++ [a])) (Codecs.get32 (Codecs.put32 p ++ [a])) a)).
    by rewrite !Codecs.get_put32, Codecs.get_put_chars.
  - destruct Ht as (H1 & H2 & H3 & H4 & _).
    change (compact_root _) with (Some (Fbs.FbOrderStatus (Codecs.get32 (Codecs.put32 i1 ++ Codecs.put32 i2 ++ Codecs.put32 q ++ Codecs.put32 p ++ [st]))
      (Codecs.get32 (Codecs.put32 i2 ++ Codecs.put32 q ++ Codecs.put32 p ++ [st])) (Codecs.get32 (Codecs.put32 q ++ Codecs.put32 p ++ [st]))
      (Codecs.get32 (Codecs.put32 p ++ [st])) st)).
    by rewrite !Codecs.get_put32.
Qed.

#[local] Instance compact_serializer : Serializer DomainMessage := Fbs.serializer compact_build compact_root.

#[local] Instance compact_format : WireFormat 128.
Proof.
  apply (fbs_wire_format compact_build compact_root compact_reads); [|done]. intros i t q p a Ht. cbn [compact_build].
  rewrite Ht. cbn. rewrite !length_app. unfold Codecs.put_chars. rewrite length_map, ascii_length, Ht. cbn. lia.
Qed.
Abbreviation POOL := 1024.
Abbreviation spsc_wired := (Wired Spsc.Queue).

Definition room (n : nat) (limit : Z) : bool := Z.of_nat n <? limit.

Definition op_okb (w : spsc_wired) (o : Op) : bool :=
  match o with
  | Round c d now => System.op_okb (view w) (System.Round c d now) &&
      match peers w !! c with Some p => room (length (Wire.pending (uplink p))) POOL | None => true end
  | ServerStep o => ServerRun.op_okb (server w) o && room (length (outstanding (peers w))) POOL
  | TransferUp _ i _ | TransferDown _ i _ => (i =? 0)%nat
  | ReceiveUp c _ => match peers w !! c with
      | Some p => Z.of_nat (length (outstanding (peers w)) + length (Wire.ahead (uplink p))) <=? POOL | None => true end
  | _ => true
  end.

Fixpoint run_okb (w : spsc_wired) (ops : list Op) : bool :=
  match ops with
  | [] => true
  | o :: ops => op_okb w o && match run_op 128 POOL w o with Ok (w', _) => run_okb w' ops | Err _ => true end
  end.

Lemma wired_op_okb_ok w o : SystemTypes.SInv 1024 (view w) -> op_okb w o = true -> op_ok POOL w o.
Proof.
  intros [(gs & out & lost & HI) _] H. destruct o as [c|c|c x|c d now|o|c i k|c i k|c n|c n draws]; try done; cbn [op_okb op_ok] in H |- *.
  - apply andb_prop in H as [H1 H2]. split; [exact (System.system_op_okb_ok _ _ _ _ (System.Round c d now) HI H1)|].
    intros p Hc. rewrite Hc in H2. by apply Z.ltb_lt.
  - apply andb_prop in H as [H1 H2]. split; [|by apply Z.ltb_lt].
    by apply (ServerRun.op_okb_ok _ out lost); [apply (System.y_server _ _ _ _ _ HI)|].
  - by apply Nat.eqb_eq.
  - by apply Nat.eqb_eq.
  - intros p Hc. rewrite Hc in H. by apply Z.leb_le.
Qed.

Lemma wired_run_okb_ok ops : forall w, WInv POOL w -> SystemTypes.SInv 1024 (view w) -> run_okb w ops = true -> run_ok 128 POOL w ops.
Proof.
  induction ops as [|o ops IH]; intros w HW HY H; [done|]. apply andb_prop in H as [Ho H].
  pose proof (wired_op_okb_ok w o HY Ho) as Hok. split; [done|]. intros w' m E. rewrite E in H.
  destruct (step_sim 1024 128 POOL ltac:(lia) w o HW HY Hok) as (w1 & m1 & E1 & HW1 & Hs1 & Er1).
  rewrite E in E1. injection E1 as <- <-. destruct (SystemTypes.sinv_run _ _ _ HY Hs1) as (y1 & m1' & E1' & HY1 & _).
  rewrite Er1 in E1'. injection E1' as <- <-. by apply IH.
Qed.

(** A client with new connections: what [Wire.init 1 2 2048] gives. *)
Definition new_channel (id : Z) (reading : bool) : Channel.State DomainMessage :=
  Channel.mkState id Channel.Connected (SlidingBuffer.mkState 0 0 2048 (replicate 2048 0))
    (if reading then Some (0, 2048) else None) [] [] [].

Definition empty_link : Wire.Link := Wire.mkLink (new_channel 1 false) BufferPool.init [] [] (new_channel 2 true) [].

Definition connected (md : list (Ticker * Z)) : Peer Spsc.Queue := mkPeer (TradeEngine.init md (Spsc.init 1024)) empty_link empty_link.

Definition two_peers : gmap Z (Peer Spsc.Queue) :=
  {[ 7 := connected [(Market.AAA, 60)]; 8 := connected [(Market.BBB, 40); (Market.AAA, 60)] ]}.

Definition wired_0 : spsc_wired := mkWired Server.server_0 BufferPool.init two_peers.

(** Client 7 sells, sees its order accepted and cancels it; its bytes arrive
    in pieces, while one read takes two orders of client 8, and one both
    answers to it. *)
Definition wired_ops : list Op :=
  [TradeStart 7; TradeStart 8; Round 7 (TradeEngine.mkDraw 3 1 9) 5; Round 8 (TradeEngine.mkDraw 1 0 4) 6;
   Round 8 (TradeEngine.mkDraw 1 0 4) 7; TransferUp 7 0 10; ReceiveUp 7 3; TransferUp 7 0 100; ReceiveUp 7 100;
   ServerStep (Server.Work 0); TransferUp 8 0 100; TransferUp 8 0 100; ReceiveUp 8 100; ServerStep Server.Deliver;
   TransferDown 7 0 7; ReceiveDown 7 100 []; TransferDown 7 0 100; ReceiveDown 7 100 [(1, 1)];
   ServerStep (Server.Work 0); ServerStep (Server.Work 0); ServerStep Server.Deliver; ServerStep Server.Deliver;
   TransferDown 8 0 100; TransferDown 8 0 100; ReceiveDown 8 100 [(3, 0); (4, 0)];
   Round 7 (TradeEngine.mkDraw 0 0 1) 8; TransferUp 7 0 100; ReceiveUp 7 100; ServerStep (Server.Work 0);
   ServerStep Server.Deliver; TransferDown 7 0 100; ReceiveDown 7 100 [(2, 0)]].

Lemma two_peers_fresh c p : two_peers !! c = Some p -> ServerTypes.is_u64 c /\ fresh_peer 1024 p.
Proof.
  assert (Hl : exists a b capacity, 1538 <= capacity /\ Wire.init a b capacity = Ok empty_link) by (exists 1, 2, 2048; split; [lia|reflexivity]).
  unfold two_peers.
  intros [[<- <-]|[_ [<- <-]%lookup_singleton_Some]]%lookup_insert_Some; (split; [by vm_compute|]);
    (split; [exact Hl|]); (split; [exact Hl|]); eexists _, _; (split; [reflexivity|]); (split; [done|]);
    (split; [by apply (spsc_holds_init 1024 10)|]); by repeat constructor.
Qed.

Lemma wired_0_ok : run_ok 128 POOL wired_0 wired_ops.
Proof.
  destruct (wired_start 1024 POOL ltac:(lia) Market.three_tickers [] Server.one_worker_data two_peers) as [HW HY];
    [cbn; lia|reflexivity|exact two_peers_fresh|].
  apply wired_run_okb_ok; [exact HW|exact HY|]. vm_compute. reflexivity.
Qed.

Lemma wired_system_refines_witness : exists w m,
  run 128 POOL wired_0 wired_ops = Ok (w, m) /\ System.telemetry_only m /\
  System.run (view wired_0) (trace 128 POOL wired_0 wired_ops) = Ok (view w, m).
Proof.
  destruct (wired_system_refines 1024 128 POOL ltac:(lia) Market.three_tickers [] Server.one_worker_data two_peers wired_ops)
    as (w & m & H1 & H2 & _ & H3 & _).
  - cbn. lia.
  - reflexivity.
  - exact two_peers_fresh.
  - exact wired_0_ok.
  - exists w, m. split; [exact H1|]. split; [exact H2|exact H3].
Defined.

(** What that run amounts to in messages. *)
Example wired_trace : trace 128 POOL wired_0 wired_ops =
  [System.TradeStart 7; System.TradeStart 8; System.Round 7 (TradeEngine.mkDraw 3 1 9) 5;
   System.Round 8 (TradeEngine.mkDraw 1 0 4) 6; System.Round 8 (TradeEngine.mkDraw 1 0 4) 7;
   System.Upstream 7; System.ServerStep (Server.Work 0); System.Upstream 8; System.Upstream 8;
   System.ServerStep Server.Deliver; System.Downstream 7 1 1; System.ServerStep (Server.Work 0);
   System.ServerStep (Server.Work 0); System.ServerStep Server.Deliver; System.ServerStep Server.Deliver;
   System.Downstream 8 3 0; System.Downstream 8 4 0; System.Round 7 (TradeEngine.mkDraw 0 0 1) 8;
   System.Upstream 7; System.ServerStep (Server.Work 0); System.ServerStep Server.Deliver; System.Downstream 7 2 0].
Proof. vm_compute. reflexivity. Qed.
End Concrete.
End WiredSystem.
