(* ===== verification/ShmSystem.v ===== *)
(** * The system over shared memory

    [System.v] with one client, as server and client are built for shared
    memory: [TrustedConnectionManager] and [TrustedSessionManager]
    (client/src/connection, server/src/session) over the two queues of the
    mapped files, each with a writer in one program and a reader that the
    other program's reactor polls (common/src/transport/shm).  Messages are
    the bytes of their structs, copied into and out of the slots.

    The two queues are shared: a transport's own record of its queue is
    replaced by the shared one before each call and copied back after it
    ([on], [see]).  Calls are atomic here; that a concurrent write and read of a
    queue amount to that is proved in [SequencedSPSC.v].

    [view] forgets the bytes, and every operation is one operation of
    [System.v]. *)

From S2P Require Import Prelude SlotId HugeArray Types SlotIdPool OrderGateway Coordinator Server ServerRun ServerTypes.
From S2P Require Import SequencedSPSC Fifo Telemetry TradeEngine System SystemTypes.
From S2P Require Import Channel ShmQueue ShmTransport Session ClientConnection.

Module ShmSystem.

Section Shm.
Context `{B : Build} {Q : Type} `{FQ : !Fifo Q Z} `{CO : !Codec Order} `{CS : !Codec OrderStatus} (SlotCount : Z).

Abbreviation Shm := ShmQueue.ShmQueue.
Abbreviation Transport := ShmIo.Transport.
Abbreviation Posts := (list (Z * TradeEngine.Out)).

(** ** The ends of the queues *)

Definition on (t : Transport) (q : Shm) : Transport :=
  ShmIo.mkTransport (ShmIo.type_ t) (ShmIo.t_reader t)
    (option_map (fun w => ShmIo.mkWriter (ShmIo.closed_ w) q) (ShmIo.t_writer t)).

Definition queue_of (t : option Transport) (q : Shm) : Shm :=
  match t with
  | Some t => match ShmIo.t_writer t with Some w => ShmIo.w_shm w | None => q end
  | None => q
  end.

(** [syncTx] of the bytes of a message.  The call itself never faults on a
    transport that a factory made ([ShmIo.t_syncTx_wf]). *)
Definition tx {A} `{Codec A} (q : Shm) (t : Transport) (a : A) : Transport * IoResult :=
  match ShmIo.t_syncTx SlotCount (on t q) (fun _ q => q) (put a) with
  | Ok r => r
  | Err _ => (t, mkIoResult 0 IoError)
  end.

Definition t_close (t : Transport) : Transport := (ShmIo.t_close t ∅).1.

(** The one reader of each reactor is number 0. *)
Definition see (r : ShmIo.Reactor) (q : Shm) : ShmIo.Reactor :=
  ShmIo.set_store r (alter (fun rd => ShmIo.mkReader q (ShmIo.r_buf rd) (ShmIo.r_state rd)) 0%nat (ShmIo.store r)).

Definition seen (r : ShmIo.Reactor) (q : Shm) : Shm :=
  match ShmIo.store r !! 0%nat with Some rd => ShmIo.r_shm rd | None => q end.

(** A callback that leaves the readers alone. *)
Definition keep (id : nat) (bs : list Z) (m : gmap nat ShmIo.Reader) : gmap nat ShmIo.Reader := m.

(** One poll of a reader: its reactor, the shared queue, and the message that
    was copied into the reader's buffer. *)
Definition poll (r : ShmIo.Reactor) (q : Shm) : res (ShmIo.Reactor * Shm * option (list Z)) :=
  let! (r, p) := ShmIo.poll SlotCount keep (see r q) 0 in
  Ok (r, seen r q, match p with ShmIo.PBusy => snd <$> last (ShmIo.rx r) | _ => None end).

(** ** The two programs *)

(** [clientOut] and [serverOut] are what the managers told their control
    centers. *)
Record Sys := mkSys {
  server : Server.State;
  session : TrustedSessionManager.State (Transport := Transport);
  serverReactor : ShmIo.Reactor;
  engine : TradeEngine.State Q;
  conn : TrustedClient.State (Transport := Transport);
  clientReactor : ShmIo.Reactor;
  upstream : Shm;
  downstream : Shm;
  clientOut : list ServerConnectionState;
  serverOut : list InternalError
}.

Definition set_server s sv ss r := mkSys sv ss r (engine s) (conn s) (clientReactor s) (upstream s) (downstream s) (clientOut s) (serverOut s).
Definition set_client s e c r := mkSys (server s) (session s) (serverReactor s) e c r (upstream s) (downstream s) (clientOut s) (serverOut s).
Definition set_queues s up down := mkSys (server s) (session s) (serverReactor s) (engine s) (conn s) (clientReactor s) up down (clientOut s) (serverOut s).
Definition add_out s co so := mkSys (server s) (session s) (serverReactor s) (engine s) (conn s) (clientReactor s) (upstream s) (downstream s)
  (clientOut s ++ co) (serverOut s ++ so).

(** *** The client *)

(** A reset has closed the transports; closing the reading one also closes
    its reader. *)
Definition close_reader (c : TrustedClient.State (Transport := Transport)) (r : ShmIo.Reactor) : ShmIo.Reactor :=
  match TrustedClient.downstreamChannel_ c with
  | Some t => ShmIo.set_store r (ShmIo.t_close t (ShmIo.store r)).2
  | None => r
  end.

Definition client_state (s : Sys) (x : ServerConnectionState) : Sys :=
  add_out (match x with ServerDisconnected => set_client s (engine s) (conn s) (close_reader (conn s) (clientReactor s)) | _ => s end) [x] [].

Definition post_order (s : Sys) (o : Order) : res Sys :=
  let! (c, outs) := TrustedClient.postOrder (tx (upstream s)) t_close (conn s) o in
  let s := set_queues (set_client s (engine s) c (clientReactor s)) (queue_of (TrustedClient.upstreamChannel_ c) (upstream s)) (downstream s) in
  Ok (foldl (fun s x => match x with TrustedClient.OutState x => client_state s x | _ => s end) s outs).

Fixpoint post_orders (s : Sys) (os : list Order) : res Sys :=
  match os with [] => Ok s | o :: os => let! s := post_order s o in post_orders s os end.

Definition with_engine (s : Sys) (e : TradeEngine.State Q) (out : list TradeEngine.Out) : res (Sys * Posts) :=
  let! s := post_orders (set_client s e (conn s) (clientReactor s)) (System.orders_of out) in
  Ok (s, map (pair 0) (System.own_of out)).

(** What the connection manager posts: a status goes to the engine. *)
Fixpoint client_outs (s : Sys) (cycl coin : Z) (outs : list TrustedClient.Out) : res (Sys * Posts) :=
  match outs with
  | [] => Ok (s, [])
  | TrustedClient.OutState x :: outs => client_outs (client_state s x) cycl coin outs
  | TrustedClient.OutStatus st :: outs =>
      let! (e, out) := TradeEngine.postStatus (engine s) false st cycl coin in
      let! (s, m1) := with_engine s e out in
      let! (s, m2) := client_outs s cycl coin outs in
      Ok (s, m1 ++ m2)
  end.

Definition client_poll (s : Sys) (cycl coin : Z) : res (Sys * Posts) :=
  let! (r, q, got) := poll (clientReactor s) (downstream s) in
  let s := set_queues (set_client s (engine s) (conn s) r) (upstream s) q in
  match got with
  | None => Ok (s, [])
  | Some bs =>
      let c := TrustedClient.mkState (TrustedClient.upstreamChannel_ (conn s)) (TrustedClient.downstreamChannel_ (conn s))
                 (TrustedClient.pricesChannel_ (conn s)) (get bs) in
      let '(c, outs) := TrustedClient.postIo t_close c (mkIoResult (u32 (Z.of_nat (length bs))) IoOk) in
      client_outs (set_client s (engine s) c (clientReactor s)) cycl coin outs
  end.

(** *** The server *)

(** There is one session: a status goes to its channel, whatever client it
    names. *)
Definition tell (s : Sys) (m : Server.Sent) : res Sys :=
  match m with
  | Server.ToSystemBus _ => Ok s
  | Server.ToClient st =>
      let! (ss, outs) := TrustedSessionManager.postStatus (tx (downstream s)) (session s) false st in
      Ok (add_out (set_queues (set_server s (server s) ss (serverReactor s)) (upstream s)
                     (queue_of (TrustedSessionManager.downChannel_ ss) (downstream s)))
            [] (omap (fun x => match x with TrustedSessionManager.OutError e => Some e | _ => None end) outs))
  end.

Fixpoint tell_all (s : Sys) (sent : list Server.Sent) : res Sys :=
  match sent with [] => Ok s | m :: sent => let! s := tell s m in tell_all s sent end.

Definition serve (s : Sys) (o : Server.Op) : res Sys :=
  let! (sv, sent) := Server.run_op (server s) o in tell_all (set_server s sv (session s) (serverReactor s)) sent.

Fixpoint server_outs (s : Sys) (outs : list TrustedSessionManager.Out) : res Sys :=
  match outs with
  | [] => Ok s
  | TrustedSessionManager.OutError e :: outs => server_outs (add_out s [] [e]) outs
  | TrustedSessionManager.OutServerOrder so :: outs => let! s := serve s (Server.Submit so) in server_outs s outs
  end.

Definition server_poll (s : Sys) : res (Sys * Posts) :=
  let! (r, q, got) := poll (serverReactor s) (upstream s) in
  let s := set_queues (set_server s (server s) (session s) r) q (downstream s) in
  match got with
  | None => Ok (s, [])
  | Some bs =>
      let ss := TrustedSessionManager.mkState (get bs) (TrustedSessionManager.upChannel_ (session s)) (TrustedSessionManager.downChannel_ (session s)) in
      let s := set_server s (server s) ss (serverReactor s) in
      let! s := server_outs s (TrustedSessionManager.postIo ss false (mkIoResult (u32 (Z.of_nat (length bs))) IoOk)) in
      Ok (s, [])
  end.

(** ** Runs *)

Inductive Op :=
| TradeStart
| TradeStop
| Price (p : TickerPrice)
| Round (d : TradeEngine.Draw) (now : Z)
| ServerStep (o : Server.Op)
| ServerPoll
| ClientPoll (cycl coin : Z).

Definition run_op (s : Sys) (o : Op) : res (Sys * Posts) :=
  match o with
  | TradeStart => with_engine s (TradeEngine.tradeStart (engine s)) []
  | TradeStop => with_engine s (TradeEngine.tradeStop (engine s)) []
  | Price p => with_engine s (TradeEngine.postPrice (engine s) p) []
  | Round d now =>
      let! (e, out, _) := TradeEngine.tradeRound (engine s) false d now in with_engine s e out
  | ServerStep (Server.Submit _) => Ok (s, [])
  | ServerStep o => let! s := serve s o in Ok (s, [])
  | ServerPoll => server_poll s
  | ClientPoll cycl coin => client_poll s cycl coin
  end.

Fixpoint run (s : Sys) (ops : list Op) : res (Sys * Posts) :=
  match ops with
  | [] => Ok (s, [])
  | o :: ops => let! (s, m1) := run_op s o in let! (s, m2) := run s ops in Ok (s, m1 ++ m2)
  end.

(** The two programs once both have attached: the reactors run with the
    readers that the managers have started, and the client has been told. *)
Definition reading (q : Shm) (buf : nat) : res ShmIo.Reactor :=
  ShmIo.t_asyncRx (ShmIo.makeReader 0)
    (ShmIo.mkReactor [] {[ 0%nat := ShmIo.mkReader q 0 ShmIo.Ready ]} false [] []) (Z.of_nat buf).

Definition started (r : ShmIo.Reactor) : ShmIo.Reactor :=
  ShmIo.mkReactor (ShmIo.readers_ r) (ShmIo.store r) true (ShmIo.rx r) (ShmIo.polls r).

Definition start (sv : Server.State) (e : TradeEngine.State Q) (o : Order) (st : OrderStatus) : res Sys :=
  let q := ShmQueue.increment (ShmQueue.increment (ShmQueue.init SlotCount)) in
  let ss := TrustedSessionManager.mkState o None None in
  let ss := TrustedSessionManager.acceptUpstream ss (ShmIo.makeReader 0) in
  let ss := TrustedSessionManager.acceptDownstream ss (ShmIo.makeWriter q) in
  let! r1 := reading q (sizeof_ (A := Order)) in
  let '(c, outs) := TrustedClient.initialize (TrustedClient.mkState None None None st) (ShmIo.makeWriter q) (ShmIo.makeReader 0) in
  let! r2 := reading q (sizeof_ (A := OrderStatus)) in
  Ok (mkSys sv ss (started r1) e c (started r2) q q
        (omap (fun x => match x with TrustedClient.OutState x => Some x | _ => None end) outs) []).

(** ** What a run amounts to *)

(** The messages in a queue, oldest first. *)
Fixpoint drain {A} `{Codec A} (n : nat) (q : Spsc.Queue) : list A :=
  match n with
  | O => []
  | S n =>
      let '(q, got) := Spsc.read SlotCount q (Z.of_nat sizeof_) in
      match got with Some bs => get bs :: drain n q | None => [] end
  end.

Definition contents {A} `{Codec A} (q : Shm) : list A := drain (Z.to_nat SlotCount) (ShmQueue.queue q).

Definition view (s : Sys) : System.Sys Q :=
  System.mkSys (server s) {[ 0 := System.mkClient (engine s) (contents (upstream s)) (contents (downstream s)) ]}.

Definition sys_op (o : Op) : System.Op :=
  match o with
  | TradeStart => System.TradeStart 0
  | TradeStop => System.TradeStop 0
  | Price p => System.Price 0 p
  | Round d now => System.Round 0 d now
  | ServerStep o => System.ServerStep o
  | ServerPoll => System.Upstream 0
  | ClientPoll cycl coin => System.Downstream 0 cycl coin
  end.
End Shm.
Arguments Sys Q : clear implicits.

(** ** One queue *)

Section Queue.
Context (SlotCount bits : Z) (Hpow : SlotCount = 2 ^ bits) (Hbits : 1 <= bits <= 32).
Context {A : Type} `{CA : Codec A} (fits : A -> Prop) `{CO : !CodecOk A fits} (Hsize : (0 < sizeof_ <= Spsc.MAX_DATA_SIZE)%nat).

Definition holds (q : ShmQueue.ShmQueue) (l : list A) : Prop := spsc_holds SlotCount fits (ShmQueue.queue q) l.

#[local] Instance slot_fifo : Fifo Spsc.Queue A := spsc_fifo SlotCount.
#[local] Instance slot_fifo_ok : FifoOk Spsc.Queue A SlotCount fits := spsc_fifo_ok SlotCount bits Hpow Hbits fits (proj2 Hsize).

Lemma contents_holds q l : holds q l -> contents SlotCount q = l.
Proof.
  intros H. pose proof (fifo_bound _ _ (FifoOk := slot_fifo_ok) H) as Hb. unfold contents.
  assert (Hn : (length l <= Z.to_nat SlotCount)%nat) by lia. clear Hb. unfold holds in H.
  revert H. generalize (ShmQueue.queue q) as x. revert Hn. generalize (Z.to_nat SlotCount) as n.
  induction l as [|a l IH]; intros n Hn x H.
  - destruct n as [|n]; [done|]. pose proof (fifo_read_empty _ (FifoOk := slot_fifo_ok) H) as E.
    cbn [fifo_read slot_fifo spsc_fifo] in E. cbn [drain]. destruct (Spsc.read _ _ _) as [x' [bs|]]; [done|done].
  - destruct n as [|n]; [cbn in Hn; lia|]. destruct (fifo_read_ok _ _ _ (FifoOk := slot_fifo_ok) H) as (x1 & E & H1).
    cbn [fifo_read slot_fifo spsc_fifo] in E. cbn [drain]. destruct (Spsc.read _ _ _) as [x' [bs|]]; [|done].
    injection E as -> <-. f_equal. apply IH; [cbn in Hn; lia|done].
Qed.

Definition writer (q : ShmQueue.ShmQueue) : ShmIo.Transport := ShmIo.mkTransport ShmIo.TWriter None (Some (ShmIo.mkWriter false q)).

(** A write with room. *)
Lemma tx_holds q q0 l a : holds q l -> fits a -> Z.of_nat (length l) < SlotCount ->
  exists q' n, tx SlotCount q (writer q0) a = (writer q', mkIoResult n IoOk) /\ holds q' (l ++ [a]).
Proof.
  intros H Ha Hl. destruct (fifo_write_ok _ _ _ (FifoOk := slot_fifo_ok) H Ha Hl) as (x & E & Hx).
  cbn [fifo_write slot_fifo spsc_fifo] in E. unfold tx, on, writer, ShmIo.t_syncTx, ShmIo.syncTx, ShmIo.tx_fuel.
  cbn [ShmIo.type_ ShmIo.t_reader ShmIo.t_writer option_map ShmIo.closed_ ShmIo.w_shm ShmIo.tx_loop]. rewrite E.
  eexists _, _. split; [reflexivity|]. unfold holds, ShmQueue.notify. cbn. by destruct (ShmQueue.waitFlag q).
Qed.

(** The reader a program's reactor polls. *)
Definition active (r : ShmIo.Reactor) : Prop :=
  exists q, ShmIo.store r !! 0%nat = Some (ShmIo.mkReader q (Z.of_nat sizeof_) ShmIo.Active).

Lemma poll_holds r q a l : active r -> holds q (a :: l) ->
  exists r' q', poll SlotCount r q = Ok (r', q', Some (put a)) /\ active r' /\ holds q' l.
Proof.
  intros [q0 Hr] H. destruct H as [Hf (R & HI)]. apply Forall_cons in Hf as [Ha Hf].
  destruct (spsc_read_ok SlotCount bits Hpow Hbits (proj2 Hsize) _ R (put a) (map put l) (Z.of_nat sizeof_) HI) as (x & E & Hx); [by rewrite put_length|].
  unfold poll, ShmIo.poll, see. cbn [ShmIo.set_store ShmIo.store]. rewrite lookup_alter_eq, Hr. cbn. rewrite E.
  assert (Hne : put a <> []). { intros E0. pose proof (put_length a) as Hl. rewrite E0 in Hl. cbn in Hl. lia. }
  destruct (put a) as [|b bs] eqn:Ep; [done|]. cbn. rewrite last_snoc. eexists _, _. split; [reflexivity|]. unfold keep, seen.
  split; [eexists; cbn; by rewrite lookup_insert_eq|]. cbn. rewrite lookup_insert_eq. split; [done|].
  exists (R ++ [b :: bs]). cbn. by rewrite <- (assoc_L app).
Qed.

Lemma poll_empty r q : active r -> holds q [] ->
  exists r' q', poll SlotCount r q = Ok (r', q', None) /\ active r' /\ holds q' [].
Proof.
  intros [q0 Hr] [Hf (R & HI)]. rewrite app_nil_r in HI.
  unfold poll, ShmIo.poll, see. cbn [ShmIo.set_store ShmIo.store]. rewrite lookup_alter_eq, Hr. cbn.
  rewrite (spsc_read_empty SlotCount bits Hpow Hbits (proj2 Hsize) _ R _ HI). eexists _, _. split; [reflexivity|]. unfold seen. cbn. rewrite lookup_insert_eq.
  split; [eexists; cbn; by rewrite lookup_insert_eq|]. split; [done|]. exists R. by rewrite app_nil_r.
Qed.
End Queue.

(** ** One client

    Over shared memory every order is posted under client 0, so every status
    is for client 0. *)

Section OneClient.
Context `{B : Build}.

Definition owned (g : Gateway.State) : Prop := forall i, Gateway.r_clientId (Gateway.record g i) = 0.
Definition status_to_0 (st : ServerOrderStatus) : Prop := sos_clientId st = 0.
Definition out_to_0 (m : Gateway.Out) : Prop := match m with Gateway.OutStatus st => status_to_0 st | Gateway.OutEvent _ => True end.
Definition to_0 (m : Server.Sent) : Prop := match m with Server.ToClient st => status_to_0 st | Server.ToSystemBus _ => True end.
Definition from_0 (o : Server.Op) : Prop := match o with Server.Submit so => so_clientId so = 0 | _ => True end.

Lemma owned_put g i r g1 : owned g -> Gateway.r_clientId r = 0 -> Gateway.put_record g i r = Ok g1 -> owned g1.
Proof.
  intros Hg Hr. unfold Gateway.put_record. destruct (HugeArray.set _ _ i r) as [m|] eqn:E; [|done]. intros [= <-] j.
  apply System.set_inv in E as ->. unfold Gateway.record. cbn. rewrite HugeArray.at_set. case_decide; [done|apply Hg].
Qed.

Lemma owned_post_order g so g' outs : owned g -> so_clientId so = 0 -> Gateway.postOrder g so = Ok (g', outs) ->
  owned g' /\ Forall out_to_0 outs.
Proof.
  intros Hg Hso. unfold Gateway.postOrder. destruct (Gateway.closed_ g); [by intros [= <- <-]|].
  destruct (Gateway.isValid so); cbn [negb]; [|intros [= <- <-]; split; [done|by apply Forall_singleton]].
  assert (Hnew : Gateway.newOrder g so = Ok (g', outs) -> owned g' /\ Forall out_to_0 outs).
  { unfold Gateway.newOrder. destruct (Pool.acquire _ _) as [[p id]|]; [|done]. destruct (negb _).
    - intros [= <- <-]. split; [exact Hg|by apply Forall_singleton].
    - destruct (Gateway.put_record _ _ _) as [g1|] eqn:E; [|done]. intros [= <- <-]. split; [|by apply Forall_singleton].
      by eapply owned_put, E. }
  destruct (o_action (so_order so)); try done; try (by intros [= <- <-]).
  intros E. rewrite (Gateway.cancelOrder_same _ _ _ _ E). split; [done|]. revert E. unfold Gateway.cancelOrder.
  destruct (HugeArray.get _ _ _) as [r|]; [|done]. destruct (_ || _)%bool; intros [= _ <-]; [done|by apply Forall_singleton].
Qed.

Lemma owned_post_status g st g' outs : owned g -> Gateway.postStatus g st = Ok (g', outs) -> owned g' /\ Forall out_to_0 outs.
Proof.
  intros Hg. unfold Gateway.postStatus. destruct (Gateway.closed_ g); [by intros [= <- <-]|].
  destruct (HugeArray.get _ _ _) as [r|] eqn:Eg; [|done]. apply System.get_inv in Eg as [_ Er].
  assert (Hr : Gateway.r_clientId r = 0) by (rewrite <- Er; apply Hg).
  assert (Hcl : forall i g1, Gateway.closeRecord g i r = Ok g1 -> owned g1).
  { intros i g1. unfold Gateway.closeRecord. destruct (Gateway.put_record _ _ _) as [g2|] eqn:E; [|done].
    destruct (Pool.release _ _ _); [|done]. intros [= <-]. exact (owned_put _ _ (Gateway.setState r Gateway.RClosed) _ Hg Hr E). }
  destruct (ios_state st);
    first [destruct (Gateway.closeRecord _ _ _) as [g1|] eqn:E; [|done]; intros [= <- <-]; split; [by eapply Hcl, E|by apply Forall_singleton]
          |destruct (Gateway.put_record _ _ _) as [g1|] eqn:E; [|done]; intros [= <- <-]; split; [by eapply owned_put, E|by apply Forall_singleton]].
Qed.

Lemma owned_route outs : forall s s' sent, Server.route s outs = Ok (s', sent) -> Forall out_to_0 outs ->
  Server.gateway s' = Server.gateway s /\ Forall to_0 sent.
Proof.
  induction outs as [|[st|e] outs IH]; intros s s' sent; cbn [Server.route].
  - by intros [= <- <-].
  - destruct (Server.route s outs) as [[s1 m]|] eqn:E; [|done]. intros [= <- <-] [H1 H2]%Forall_cons.
    destruct (IH _ _ _ E H2). split; [done|by constructor].
  - destruct (Market.post _ _) as [[c errs]|]; [|done]. destruct (Server.route _ outs) as [[s1 m]|] eqn:E; [|done].
    intros [= <- <-] [_ H2]%Forall_cons. destruct (IH _ _ _ E H2) as [Hg Hm]. split; [exact Hg|]. apply Forall_app. split; [|done].
    apply (Forall_impl Server.to_bus); [apply Server.bus_only|by intros []].
Qed.

Lemma owned_op s o s' sent : owned (Server.gateway s) -> from_0 o -> Server.run_op s o = Ok (s', sent) ->
  owned (Server.gateway s') /\ Forall to_0 sent.
Proof.
  intros Hg Ho. destruct o as [so|w|]; cbn [Server.run_op].
  - unfold Server.submit. destruct (Gateway.postOrder _ so) as [[g outs]|] eqn:E; [|done]. intros Er.
    destruct (owned_post_order _ _ _ _ Hg Ho E) as [H1 H2]. by destruct (owned_route _ _ _ _ Er H2) as [-> ?].
  - intros (c & msgs & _ & Hb & -> & _)%Server.work_result. split; [exact Hg|].
    apply (Forall_impl Server.to_bus); [done|by intros []].
  - unfold Server.deliver. destruct (Server.statusQueue s) as [|st q]; [by intros [= <- <-]|].
    destruct (Gateway.postStatus _ st) as [[g outs]|] eqn:E; [|done]. intros Er.
    destruct (owned_post_status _ _ _ _ Hg E) as [H1 H2]. by destruct (owned_route _ _ _ _ Er H2) as [-> ?].
Qed.
End OneClient.

(** ** Refinement *)

Section Refines.
Context `{B : Build} `{BO : !BuildOk B} {Q : Type} `{FQ : !Fifo Q Z} (cap : Z)
  `{FO : !FifoOk Q Z cap (fun x => 0 <= x < 2 ^ 32)}.
Context `{CO : !Codec Order} `{CS : !Codec OrderStatus}
  `{COO : !CodecOk Order SystemTypes.order_typed} `{CSO : !CodecOk OrderStatus SystemTypes.status_typed}.
Context (SlotCount bits : Z) (Hpow : SlotCount = 2 ^ bits) (Hbits : 1 <= bits <= 32).
Context (Horder : (0 < sizeof_ (A := Order) <= Spsc.MAX_DATA_SIZE)%nat)
  (Hstatus : (0 < sizeof_ (A := OrderStatus) <= Spsc.MAX_DATA_SIZE)%nat).

Abbreviation up_holds := (holds SlotCount SystemTypes.order_typed).
Abbreviation down_holds := (holds SlotCount SystemTypes.status_typed).
Abbreviation SInv := (SystemTypes.SInv cap).

(** The queues hold the messages [ups] and [downs]; both ends of both are
    open, and nobody was told of an error. *)
Record ShInv (s : Sys Q) (ups : list Order) (downs : list OrderStatus) : Prop := {
  h_up : up_holds (upstream s) ups;
  h_down : down_holds (downstream s) downs;
  h_conn : exists q, TrustedClient.upstreamChannel_ (conn s) = Some (writer q);
  h_sess : exists q, TrustedSessionManager.downChannel_ (session s) = Some (writer q);
  h_sr : active (A := Order) (serverReactor s);
  h_cr : active (A := OrderStatus) (clientReactor s);
  h_owned : owned (Server.gateway (server s));
  h_co : clientOut s = [ServerConnected];
  h_so : serverOut s = []
}.

Lemma view_inv s ups downs : ShInv s ups downs ->
  view SlotCount s = System.mkSys (server s) {[ 0 := System.mkClient (engine s) ups downs ]}.
Proof.
  intros H. unfold view.
  by rewrite (contents_holds SlotCount bits Hpow Hbits _ Horder _ _ (h_up _ _ _ H)), (contents_holds SlotCount bits Hpow Hbits _ Hstatus _ _ (h_down _ _ _ H)).
Qed.

(** *** The client's side *)

Lemma post_order_ok s ups downs o : ShInv s ups downs -> SystemTypes.order_typed o -> Z.of_nat (length ups) < SlotCount ->
  exists s', post_order SlotCount s o = Ok s' /\ ShInv s' (ups ++ [o]) downs /\ server s' = server s /\ engine s' = engine s.
Proof.
  intros H Ho Hlen. destruct (h_conn _ _ _ H) as [q0 Hq].
  destruct (tx_holds SlotCount bits Hpow Hbits _ Horder _ q0 ups o (h_up _ _ _ H) Ho Hlen) as (q & n & E & Hup).
  unfold post_order, TrustedClient.postOrder. rewrite Hq, E. cbn. eexists. split; [reflexivity|]. split; [|done].
  destruct H. split; cbn; try done. by exists q.
Qed.

Lemma post_orders_ok os : forall s ups downs, ShInv s ups downs -> Forall SystemTypes.order_typed os ->
  Z.of_nat (length ups + length os) <= SlotCount ->
  exists s', post_orders SlotCount s os = Ok s' /\ ShInv s' (ups ++ os) downs /\ server s' = server s /\ engine s' = engine s.
Proof.
  induction os as [|o os IH]; intros s ups downs H Ho Hlen; cbn [post_orders].
  { exists s. by rewrite app_nil_r. }
  apply Forall_cons in Ho as [Ho Hos]. cbn [length] in Hlen.
  destruct (post_order_ok s ups downs o H Ho ltac:(lia)) as (s1 & -> & H1 & Hs1 & He1).
  destruct (IH s1 (ups ++ [o]) downs H1 Hos) as (s2 & -> & H2 & Hs2 & He2); [rewrite length_app; cbn; lia|].
  exists s2. rewrite <- (assoc_L app) in H2. split; [done|]. split; [done|]. split; congruence.
Qed.

Lemma shm_with_engine_ok s ups downs e out : ShInv s ups downs -> Forall SystemTypes.order_typed (System.orders_of out) ->
  Z.of_nat (length ups + length (System.orders_of out)) <= SlotCount ->
  exists s', with_engine SlotCount s e out = Ok (s', map (pair 0) (System.own_of out)) /\
    ShInv s' (ups ++ System.orders_of out) downs /\ server s' = server s /\ engine s' = e.
Proof.
  intros H Ho Hlen. unfold with_engine.
  destruct (post_orders_ok (System.orders_of out) (set_client s e (conn s) (clientReactor s)) ups downs) as (s' & -> & H' & Hs & He);
    [destruct H; by split|done|done|]. by exists s'.
Qed.

(** *** The server's side *)

Lemma shm_tell_ok s ups downs st : ShInv s ups downs -> SystemTypes.status_typed (sos_orderStatus st) ->
  Z.of_nat (length downs) < SlotCount ->
  exists s', tell SlotCount s (Server.ToClient st) = Ok s' /\ ShInv s' ups (downs ++ [sos_orderStatus st]) /\
    server s' = server s /\ engine s' = engine s.
Proof.
  intros H Ht Hlen. destruct (h_sess _ _ _ H) as [q0 Hq].
  destruct (tx_holds SlotCount bits Hpow Hbits _ Hstatus _ q0 downs (sos_orderStatus st) (h_down _ _ _ H) Ht Hlen) as (q & n & E & Hd).
  unfold tell, TrustedSessionManager.postStatus. rewrite Hq, E. cbn. eexists. split; [reflexivity|]. split; [|done].
  destruct H. split; cbn; try done; [by exists q| |]; by rewrite app_nil_r.
Qed.

Lemma shm_tell_all_ok sent : forall s ups downs, ShInv s ups downs -> Forall ServerTypes.sent_typed sent -> Forall to_0 sent ->
  Z.of_nat (length downs + SystemTypes.told sent) <= SlotCount ->
  exists s', tell_all SlotCount s sent = Ok s' /\ ShInv s' ups (downs ++ System.told_to 0 sent) /\
    server s' = server s /\ engine s' = engine s.
Proof.
  induction sent as [|[st|x] sent IH]; intros s ups downs H Ht H0 Hlen; cbn [tell_all].
  { exists s. cbn. by rewrite app_nil_r. }
  - apply Forall_cons in Ht as [(_ & H1 & H2 & H3 & H4) Ht]. apply Forall_cons in H0 as [Hst H0].
    rewrite SystemTypes.told_cons in Hlen. cbn in Hlen.
    destruct (shm_tell_ok s ups downs st H) as (s1 & -> & Hs1 & E1 & E2); [by split_and!|lia|].
    destruct (IH s1 ups (downs ++ [sos_orderStatus st]) Hs1 Ht H0) as (s2 & -> & Hs2 & E3 & E4); [rewrite length_app; cbn; lia|].
    exists s2. split; [done|]. split; [|split; congruence].
    rewrite <- (assoc_L app) in Hs2. cbn. by rewrite decide_True by done.
  - apply Forall_cons in Ht as [_ Ht]. apply Forall_cons in H0 as [_ H0]. cbn [tell]. apply IH; done.
Qed.

(** A step of the server that [System.v] can make. *)
Lemma shm_serve_ok s ups downs o sv sent : ShInv s ups downs -> from_0 o -> Server.run_op (server s) o = Ok (sv, sent) ->
  Forall ServerTypes.sent_typed sent -> Z.of_nat (length downs) < SlotCount ->
  exists s', serve SlotCount s o = Ok s' /\ ShInv s' ups (downs ++ System.told_to 0 sent) /\ server s' = sv /\ engine s' = engine s.
Proof.
  intros H Ho E Ht Hlen. destruct (owned_op _ _ _ _ (h_owned _ _ _ H) Ho E) as [Hg H0].
  pose proof (SystemTypes.server_told _ _ _ _ E) as H1. unfold serve. rewrite E.
  apply (shm_tell_all_ok sent (set_server s sv (session s) (serverReactor s))); [|done|done|lia]. destruct H. by split.
Qed.

Lemma tell_single sent e ups downs :
  foldl System.tell {[ 0 := System.mkClient e ups downs ]} sent =
  ({[ 0 := System.mkClient e ups (downs ++ System.told_to 0 sent) ]} : gmap Z (System.Client Q)).
Proof.
  apply map_eq. intros c. rewrite System.tell_lookup. destruct (decide (c = 0)) as [->|Hc]; [by rewrite !lookup_singleton_eq|].
  by rewrite !lookup_singleton_ne.
Qed.

(** *** Every step *)

(** A draw and a schedule of [System.v]; the queues have room for what is
    written. *)
Definition op_ok (s : Sys Q) (o : Op) : Prop :=
  System.op_ok (view SlotCount s) (sys_op o) /\
  match o with
  | Round _ _ => Z.of_nat (length (contents (A := Order) SlotCount (upstream s))) < SlotCount
  | ServerStep _ | ServerPoll => Z.of_nat (length (contents (A := OrderStatus) SlotCount (downstream s))) < SlotCount
  | _ => True
  end.

Fixpoint run_ok (s : Sys Q) (ops : list Op) : Prop :=
  match ops with
  | [] => True
  | o :: ops => op_ok s o /\ forall s' m, run_op SlotCount s o = Ok (s', m) -> run_ok s' ops
  end.

Definition simulated (s : Sys Q) (o : Op) : Prop :=
  exists s' m ups downs, run_op SlotCount s o = Ok (s', m) /\ ShInv s' ups downs /\
    System.run_op (view SlotCount s) (sys_op o) = Ok (view SlotCount s', m).

Lemma up_bound s ups downs : ShInv s ups downs -> Z.of_nat (length ups) <= SlotCount.
Proof. intros H. exact (fifo_bound _ _ (FifoOk := slot_fifo_ok SlotCount bits Hpow Hbits _ Horder) (h_up _ _ _ H)). Qed.

Lemma up_room s ups downs : ShInv s ups downs -> contents (A := Order) SlotCount (upstream s) = ups.
Proof. intros H. exact (contents_holds SlotCount bits Hpow Hbits _ Horder _ _ (h_up _ _ _ H)). Qed.
Lemma down_room s ups downs : ShInv s ups downs -> contents (A := OrderStatus) SlotCount (downstream s) = downs.
Proof. intros H. exact (contents_holds SlotCount bits Hpow Hbits _ Hstatus _ _ (h_down _ _ _ H)). Qed.

(** What the client does, with the orders it sends. *)
Lemma engine_sim s ups downs downs' e out s0 : ShInv s0 ups downs' -> server s0 = server s ->
  Forall SystemTypes.order_typed (System.orders_of out) -> Z.of_nat (length ups + length (System.orders_of out)) <= SlotCount ->
  exists s', with_engine SlotCount s0 e out = Ok (s', map (pair 0) (System.own_of out)) /\
    ShInv s' (ups ++ System.orders_of out) downs' /\
    view SlotCount s' = System.with_engine (System.mkSys (server s) {[ 0 := System.mkClient (engine s) ups downs ]}) 0
      (System.mkClient (engine s) ups downs') e out.
Proof.
  intros H0 Hs Ho Hlen. destruct (shm_with_engine_ok s0 ups downs' e out H0 Ho Hlen) as (s' & E & H' & Es & Ee).
  exists s'. split; [done|]. split; [done|]. rewrite (view_inv _ _ _ H'), Es, Ee, Hs. unfold System.with_engine. cbn.
  by rewrite insert_singleton_eq.
Qed.

Lemma shm_silent_sim s ups downs o (f : TradeEngine.State Q -> TradeEngine.State Q) : ShInv s ups downs ->
  run_op SlotCount s o = with_engine SlotCount s (f (engine s)) [] ->
  (forall y : System.Sys Q, System.run_op y (sys_op o) = match System.clients y !! 0 with
    | Some cl => Ok (System.with_engine y 0 cl (f (System.engine cl)) [], []) | None => Ok (y, []) end) ->
  simulated s o.
Proof.
  intros H E1 E2. destruct (engine_sim s ups downs downs (f (engine s)) [] s H eq_refl) as (s' & E & H' & Hv);
    [exact (Forall_nil_2 _)|pose proof (up_bound _ _ _ H); cbn; lia|].
  exists s', [], (ups ++ []), downs. rewrite E1, E. split; [done|]. split; [done|].
  rewrite E2, (view_inv _ _ _ H). cbn [System.clients]. by rewrite lookup_singleton_eq, Hv.
Qed.

Lemma shm_round_sim s ups downs d now : ShInv s ups downs -> SInv (view SlotCount s) -> op_ok s (Round d now) -> simulated s (Round d now).
Proof.
  intros H HY [Ho Hroom]. rewrite (up_room _ _ _ H) in Hroom.
  destruct (SystemTypes.sinv_step cap _ _ HY Ho) as (y' & m' & E & _). unfold simulated.
  rewrite (view_inv _ _ _ H) in *. set (cl := System.mkClient (engine s) ups downs) in *.
  assert (Hc : System.clients (System.mkSys (server s) {[ 0 := cl ]}) !! 0 = Some cl) by exact (lookup_singleton_eq _ _).
  cbn [sys_op System.run_op run_op] in *. rewrite Hc in *. cbn [System.engine cl] in E |- *.
  destruct (TradeEngine.tradeRound (engine s) false d now) as [[[e mo] go]|] eqn:Er; [|done].
  destruct HY as [(gs & out & lost & HI) [_ HT]]. destruct (HT _ _ Hc) as (_ & He & _). destruct Ho as [Hnow Hdr].
  destruct (SystemTypes.round_typed cap (engine s) (gs 0) d now e mo go) as (_ & Hty & Hlen); [|done|exact He| |exact Er|].
  { apply TradeEngine.engine_Reach_Inv, (System.y_clients _ _ _ _ _ HI 0 _ Hc). }
  { intros [[t x] Hq]. by destruct (Hdr _ Hc t x Hq) as (_ & _ & _ & _ & ?). }
  destruct (engine_sim s ups downs downs e mo s H eq_refl Hty) as (s' & Ew & H' & Hv).
  { assert (length (System.orders_of mo) <= length mo)%nat by (unfold System.orders_of; clear; induction mo as [|[]]; cbn in *; lia). lia. }
  rewrite Ew. eexists s', _, _, _. split; [reflexivity|]. split; [exact H'|]. by rewrite Hv.
Qed.

Lemma shm_server_sim s ups downs o : ShInv s ups downs -> SInv (view SlotCount s) -> op_ok s (ServerStep o) -> simulated s (ServerStep o).
Proof.
  intros H HY [Ho Hroom]. rewrite (down_room _ _ _ H) in Hroom.
  destruct (SystemTypes.sinv_step cap _ _ HY Ho) as (y' & m' & E & _). unfold simulated.
  destruct o as [so|w|]; [by exists s, [], ups, downs|..]; cbn [sys_op System.run_op run_op] in *; rewrite (view_inv _ _ _ H) in *;
    unfold System.serve in *; cbn [System.server System.clients] in *;
    match goal with |- context [Server.run_op _ ?o] => destruct (Server.run_op (server s) o) as [[sv sent]|] eqn:Es; [|done];
      destruct HY as [(gs & out & lost & HI) [HT _]];
      destruct (ServerTypes.op_keeps_types _ _ _ o _ _ (System.y_server _ _ _ _ _ HI) I HT Es) as [_ Hst];
      destruct (shm_serve_ok s ups downs o sv sent H I Es Hst Hroom) as (s' & -> & H' & E1 & E2) end;
    eexists s', [], _, _; (split; [reflexivity|]); (split; [exact H'|]);
    by rewrite (view_inv _ _ _ H'), tell_single, E1, E2.
Qed.

(** A poll takes the oldest order, or finds none. *)
Lemma server_poll_sim s ups downs : ShInv s ups downs -> SInv (view SlotCount s) -> op_ok s ServerPoll -> simulated s ServerPoll.
Proof.
  intros H HY [Ho Hroom]. rewrite (down_room _ _ _ H) in Hroom.
  destruct (SystemTypes.sinv_step cap _ _ HY Ho) as (y' & m' & E & _). unfold simulated.
  cbn [sys_op System.run_op run_op] in *. unfold server_poll. rewrite (view_inv _ _ _ H) in *. cbn [System.clients] in *.
  rewrite lookup_singleton_eq in *. cbn [System.up System.engine System.down] in *.
  destruct ups as [|o ups].
  - destruct (poll_empty SlotCount bits Hpow Hbits _ Horder _ _ (h_sr _ _ _ H) (h_up _ _ _ H)) as (r & q & -> & Hr & Hq).
    eexists _, [], [], downs. split; [reflexivity|].
    assert (H' : ShInv (set_queues (set_server s (server s) (session s) r) q (downstream s)) [] downs) by (destruct H; by split).
    split; [exact H'|]. by rewrite (view_inv _ _ _ H').
  - destruct (poll_holds SlotCount bits Hpow Hbits _ Horder _ _ o ups (h_sr _ _ _ H) (h_up _ _ _ H)) as (r & q & -> & Hr & Hq).
    rewrite put_get.
    2: { destruct (h_up _ _ _ H) as [Hf _]. by apply Forall_cons in Hf as [? _]. }
    set (s1 := set_server _ _ _ _). cbn [TrustedSessionManager.postIo io_ok io_code]. unfold io_ok. cbn [io_code].
    assert (H1 : ShInv s1 ups downs) by (destruct H; by split).
    unfold System.serve in E |- *. cbn [System.server System.clients] in E |- *.
    destruct (Server.run_op (server s) (Server.Submit (mkServerOrder 0 o))) as [[sv sent]|] eqn:Es; [|done].
    destruct HY as [(gs & out & lost & HI) [HT HC]].
    destruct (HC 0 _ (lookup_singleton_eq _ _)) as (_ & _ & Hup & _). apply Forall_cons in Hup as [(T1 & T2 & T3 & _) _].
    destruct (ServerTypes.op_keeps_types _ _ _ (Server.Submit (mkServerOrder 0 o)) sv sent (System.y_server _ _ _ _ _ HI)) as [_ Hst];
      [by split_and!|exact HT|exact Es|].
    destruct (shm_serve_ok s1 ups downs (Server.Submit (mkServerOrder 0 o)) sv sent H1 eq_refl Es Hst Hroom) as (s' & E' & H' & E1 & E2).
    rewrite bool_decide_true by done. cbn [negb server_outs]. change (TrustedSessionManager.order_ _) with o. rewrite E'.
    eexists s', [], _, _. split; [reflexivity|]. split; [exact H'|].
    rewrite (view_inv _ _ _ H'), insert_singleton_eq, tell_single, E1, E2. done.
Qed.

Lemma client_poll_sim s ups downs cycl coin : ShInv s ups downs -> SInv (view SlotCount s) -> simulated s (ClientPoll cycl coin).
Proof.
  intros H [(gs & out & lost & HI) _]. unfold simulated.
  cbn [sys_op System.run_op run_op] in *. unfold client_poll. rewrite (view_inv _ _ _ H) in *. cbn [System.clients].
  rewrite lookup_singleton_eq. cbn [System.up System.engine System.down].
  destruct downs as [|st downs].
  - destruct (poll_empty SlotCount bits Hpow Hbits _ Hstatus _ _ (h_cr _ _ _ H) (h_down _ _ _ H)) as (r & q & -> & Hr & Hq).
    eexists _, [], ups, []. split; [reflexivity|].
    assert (H' : ShInv (set_queues (set_client s (engine s) (conn s) r) (upstream s) q) ups []) by (destruct H; by split).
    split; [exact H'|]. by rewrite (view_inv _ _ _ H').
  - destruct (poll_holds SlotCount bits Hpow Hbits _ Hstatus _ _ st downs (h_cr _ _ _ H) (h_down _ _ _ H)) as (r & q & -> & Hr & Hq).
    rewrite put_get.
    2: { destruct (h_down _ _ _ H) as [Hf _]. by apply Forall_cons in Hf as [? _]. }
    unfold TrustedClient.postIo. cbn [io_code]. rewrite bool_decide_true by done. cbn [client_outs TrustedClient.status_].
    set (s1 := set_client _ _ _ _). assert (H1 : ShInv s1 ups downs) by (destruct H; by split).
    destruct (System.downstream_step cap _ gs out lost HI 0 _ st downs cycl coin (lookup_singleton_eq _ _) eq_refl) as (e & mt & _ & Ep & _).
    cbn [System.engine] in Ep. change (engine s1) with (engine s). rewrite Ep.
    destruct (engine_sim s ups (st :: downs) downs e [TradeEngine.OutTelemetry mt] s1 H1 eq_refl) as (s' & -> & H' & Hv);
      [exact (Forall_nil_2 _)|pose proof (up_bound _ _ _ H); cbn; lia|].
    eexists s', _, _, _. split; [reflexivity|]. split; [exact H'|]. rewrite app_nil_r, Hv. unfold System.with_engine. cbn.
    by rewrite !insert_singleton_eq.
Qed.

Lemma shm_step_sim s ups downs o : ShInv s ups downs -> SInv (view SlotCount s) -> op_ok s o -> simulated s o.
Proof.
  intros H HY Ho. destruct o as [| |p|d now|o| |cycl coin].
  - by apply (shm_silent_sim s ups downs TradeStart TradeEngine.tradeStart).
  - by apply (shm_silent_sim s ups downs TradeStop TradeEngine.tradeStop).
  - by apply (shm_silent_sim s ups downs (Price p) (fun e => TradeEngine.postPrice e p)).
  - by eapply shm_round_sim.
  - by eapply shm_server_sim.
  - by eapply server_poll_sim.
  - by eapply client_poll_sim.
Qed.

Lemma shm_run_sim ops : forall s ups downs, ShInv s ups downs -> SInv (view SlotCount s) -> run_ok s ops ->
  exists s' m ups' downs', run SlotCount s ops = Ok (s', m) /\ ShInv s' ups' downs' /\
    System.run_ok (view SlotCount s) (map sys_op ops) /\
    System.run (view SlotCount s) (map sys_op ops) = Ok (view SlotCount s', m).
Proof.
  induction ops as [|o ops IH]; intros s ups downs H HY Hok; [by exists s, [], ups, downs|]. destruct Hok as [Ho Hok].
  destruct (shm_step_sim s ups downs o H HY Ho) as (s1 & m1 & u1 & d1 & E1 & H1 & Er1).
  destruct (SystemTypes.sinv_step cap _ _ HY (proj1 Ho)) as (y1 & m1' & E1' & HY1 & _). rewrite Er1 in E1'. injection E1' as <- <-.
  destruct (IH s1 u1 d1 H1 HY1 (Hok s1 m1 E1)) as (s2 & m2 & u2 & d2 & E2 & H2 & Hs2 & Er2).
  exists s2, (m1 ++ m2), u2, d2. cbn [run map System.run]. rewrite E1, E2, Er1, Er2. split; [done|]. split; [done|]. split; [|done].
  split; [exact (proj1 Ho)|]. intros y' m. rewrite Er1. intros [= <- _]. done.
Qed.

(** *** From the start *)

Lemma reading_active {A} `{Codec A} q n : n = sizeof_ (A := A) -> exists r, reading q n = Ok r /\ active (A := A) (started r).
Proof.
  intros ->. unfold reading, ShmIo.t_asyncRx, ShmIo.asyncRx. cbn. rewrite lookup_singleton_eq. eexists. split; [reflexivity|].
  exists q. unfold ShmIo.add. cbn. by rewrite lookup_insert_eq.
Qed.

Lemma owned_init data coresApp : owned (Server.gateway (Server.init data coresApp)).
Proof. intros i. unfold Gateway.record. cbn. by rewrite HugeArray.at_alloc. Qed.

Lemma start_ok sv e o st : owned (Server.gateway sv) ->
  exists s0, start SlotCount sv e o st = Ok s0 /\ ShInv s0 [] [] /\ server s0 = sv /\ engine s0 = e.
Proof.
  intros Hg. unfold start.
  destruct (reading_active (A := Order) (ShmQueue.increment (ShmQueue.increment (ShmQueue.init SlotCount))) _ eq_refl) as (r1 & -> & H1).
  destruct (reading_active (A := OrderStatus) (ShmQueue.increment (ShmQueue.increment (ShmQueue.init SlotCount))) _ eq_refl) as (r2 & E2 & H2).
  cbn [TrustedClient.initialize TrustedClient.onUpstream TrustedClient.onDownstream TrustedClient.upstreamChannel_ TrustedClient.downstreamChannel_].
  rewrite E2. eexists. split; [reflexivity|]. split; [|done]. split; cbn; try done.
  - by apply (spsc_holds_init SlotCount bits).
  - by apply (spsc_holds_init SlotCount bits).
  - by eexists.
  - by eexists.
Qed.

(** C7: over shared memory the system, with at most one worker, does what
    [System.v] says of one client: server and client start connected, and
    however their threads and the polls of the two reactors interleave, every
    operation is the operation of the system of queues, in the state that
    results and in all that is posted.  In particular nothing faults, no
    message is lost or torn, a status can always be placed, and neither side is
    ever told of an error or a disconnect.  Of the run this takes ([run_ok])
    that the shared queues have room before each write, that the engine draws
    within range from traded tickers, and that each cancel still finds its
    order resting when the worker takes it. *)
Theorem shm_system_refines prices coresApp data md q o st :
  (length coresApp <= 1)%nat -> Market.loadMarketData (inl prices) coresApp = Ok data ->
  md <> [] -> fifo_holds q [] -> Forall (fun x => length x.1 = TICKER_SIZE) md ->
  exists s0, start SlotCount (Server.init data coresApp) (TradeEngine.init md q) o st = Ok s0 /\
    view SlotCount s0 = System.mkSys (Server.init data coresApp) {[ 0 := System.mkClient (TradeEngine.init md q) [] [] ]} /\
    forall ops, run_ok s0 ops ->
      exists s m, run SlotCount s0 ops = Ok (s, m) /\ System.telemetry_only m /\
        System.run_ok (view SlotCount s0) (map sys_op ops) /\
        System.run (view SlotCount s0) (map sys_op ops) = Ok (view SlotCount s, m) /\
        clientOut s = [ServerConnected] /\ serverOut s = [].
Proof.
  intros Hlen E Hmd Hq Ht. destruct (start_ok (Server.init data coresApp) (TradeEngine.init md q) o st (owned_init data coresApp)) as (s0 & E0 & H0 & Es & Ee).
  assert (Hv : view SlotCount s0 = System.mkSys (Server.init data coresApp) {[ 0 := System.mkClient (TradeEngine.init md q) [] [] ]})
    by (by rewrite (view_inv _ _ _ H0), Es, Ee).
  exists s0. split; [done|]. split; [done|]. intros ops Hok.
  assert (HY : SInv (view SlotCount s0)).
  { rewrite Hv. apply (SystemTypes.sinv_init cap prices); [done|done|..]; intros c cl [<- <-]%lookup_singleton_Some.
    - by exists md, q.
    - split; [|done]. unfold ServerTypes.is_u64. lia. }
  destruct (shm_run_sim ops s0 [] [] H0 HY Hok) as (s & m & ups & downs & Er & H' & Hok' & Er').
  destruct (SystemTypes.sinv_run cap _ _ HY Hok') as (y & m' & E' & _ & Hm). rewrite Er' in E'. injection E' as <- <-.
  exists s, m. do 4 (split; [done|]). destruct H'. done.
Qed.
End Refines.

(** ** The structs

    [Order] and [OrderStatus] as the compiler lays them out: four fields of
    four bytes, one byte, three of padding. *)

Section Layout.

Definition action_byte (a : OrderAction) : Z := match a with Dummy => 0 | Buy => 1 | Sell => 2 | Modify => 4 | Cancel => 8 end.
Definition byte_action (b : Z) : OrderAction :=
  if b =? 1 then Buy else if b =? 2 then Sell else if b =? 4 then Modify else if b =? 8 then Cancel else Dummy.
Definition state_byte (s : OrderState) : Z := match s with Accepted => 0 | Rejected => 1 | Cancelled => 2 | Partial => 3 | Full => 4 end.
Definition byte_state (b : Z) : OrderState :=
  if b =? 1 then Rejected else if b =? 2 then Cancelled else if b =? 3 then Partial else if b =? 4 then Full else Accepted.

Definition ticker_bytes (t : Ticker) : list Z := map (fun c => Z.of_nat (Ascii.nat_of_ascii c)) (take TICKER_SIZE (t ++ replicate TICKER_SIZE Ascii.zero)).
Definition bytes_ticker (b : list Z) : Ticker := map (fun z => Ascii.ascii_of_nat (Z.to_nat z)) b.

Definition order_codec : Codec Order := {|
  sizeof_ := 20;
  put o := put (o_id o) ++ ticker_bytes (o_ticker o) ++ put (o_quantity o) ++ put (o_price o) ++ [action_byte (o_action o); 0; 0; 0];
  get b := mkOrder (get (take 4 b)) (bytes_ticker (take 4 (drop 4 b))) (get (take 4 (drop 8 b))) (get (take 4 (drop 12 b))) (byte_action (nth 16 b 0))
|}.

Definition status_codec : Codec OrderStatus := {|
  sizeof_ := 20;
  put s := put (os_orderId s) ++ put (os_systemOrderId s) ++ put (os_quantity s) ++ put (os_fillPrice s) ++ [state_byte (os_state s); 0; 0; 0];
  get b := mkOrderStatus (get (take 4 b)) (get (take 4 (drop 4 b))) (get (take 4 (drop 8 b))) (get (take 4 (drop 12 b))) (byte_state (nth 16 b 0))
|}.

#[local] Existing Instance order_codec.
#[local] Existing Instance status_codec.

Lemma ticker_bytes_length t : length (ticker_bytes t) = 4%nat.
Proof. unfold ticker_bytes. rewrite length_map, length_take, length_app, length_replicate. unfold TICKER_SIZE. lia. Qed.

Lemma shm_ticker_roundtrip t : length t = TICKER_SIZE -> bytes_ticker (ticker_bytes t) = t.
Proof.
  intros Ht. unfold bytes_ticker, ticker_bytes. rewrite <- Ht, take_app_length, map_map.
  rewrite <- (map_id t) at 2. apply map_ext. intros c. by rewrite Nat2Z.id, Ascii.ascii_nat_embedding.
Qed.

#[local] Instance order_codec_ok : CodecOk Order SystemTypes.order_typed.
Proof.
  split.
  - intros o. cbn [put order_codec]. by rewrite !length_app, ticker_bytes_length.
  - intros [id t q p a] (H1 & H2 & H3 & Ht). cbn [o_id o_quantity o_price o_ticker] in *.
    pose proof (shm_ticker_roundtrip t Ht) as Et. pose proof (ticker_bytes_length t) as El.
    cbn [put get order_codec o_id o_quantity o_price o_ticker o_action]. destruct (ticker_bytes t) as [|b0 [|b1 [|b2 [|b3 [|]]]]]; try done.
    f_equal; [exact (put_get id H1)|exact Et|exact (put_get q H2)|exact (put_get p H3)|by destruct a].
Qed.

#[local] Instance status_codec_ok : CodecOk OrderStatus SystemTypes.status_typed.
Proof.
  split.
  - intros s. cbn [put status_codec]. by rewrite !length_app.
  - intros [i1 i2 q p s] (H1 & H2 & H3 & H4). cbn [put get status_codec os_orderId os_systemOrderId os_quantity os_fillPrice os_state] in *.
    f_equal; [exact (put_get i1 H1)|exact (put_get i2 H2)|exact (put_get q H3)|exact (put_get p H4)|by destruct s].
Qed.
End Layout.

(** ** A concrete run *)

Section Concrete.
#[local] Existing Instance build_cicd.
#[local] Existing Instance System.concrete_fifo.
#[local] Existing Instance System.concrete_fifo_ok.
#[local] Existing Instance order_codec.
#[local] Existing Instance status_codec.
#[local] Existing Instance order_codec_ok.
#[local] Existing Instance status_codec_ok.

Abbreviation SLOTS := 16.
Abbreviation spsc_sys := (Sys Spsc.Queue).

Lemma order_fits_slot : (0 < sizeof_ (A := Order) <= Spsc.MAX_DATA_SIZE)%nat.
Proof. cbn. unfold Spsc.MAX_DATA_SIZE. lia. Qed.
Lemma status_fits_slot : (0 < sizeof_ (A := OrderStatus) <= Spsc.MAX_DATA_SIZE)%nat.
Proof. cbn. unfold Spsc.MAX_DATA_SIZE. lia. Qed.

Definition op_okb (s : spsc_sys) (o : Op) : bool :=
  System.op_okb (view SLOTS s) (sys_op o) &&
  match o with
  | Round _ _ => Z.of_nat (length (contents (A := Order) SLOTS (upstream s))) <? SLOTS
  | ServerStep _ | ServerPoll => Z.of_nat (length (contents (A := OrderStatus) SLOTS (downstream s))) <? SLOTS
  | _ => true
  end.

Fixpoint run_okb (s : spsc_sys) (ops : list Op) : bool :=
  match ops with
  | [] => true
  | o :: ops => op_okb s o && match run_op SLOTS s o with Ok (s', _) => run_okb s' ops | Err _ => true end
  end.

Lemma shm_op_okb_ok s o : SystemTypes.SInv 1024 (view SLOTS s) -> op_okb s o = true -> op_ok SLOTS s o.
Proof.
  intros [(gs & out & lost & HI) _] [H1 H2]%andb_prop. split; [exact (System.system_op_okb_ok _ _ _ _ _ HI H1)|].
  destruct o; try done; by apply Z.ltb_lt.
Qed.

Lemma shm_run_okb_ok ops : forall s ups downs, ShInv SLOTS s ups downs -> SystemTypes.SInv 1024 (view SLOTS s) ->
  run_okb s ops = true -> run_ok SLOTS s ops.
Proof.
  induction ops as [|o ops IH]; intros s ups downs H HY Hb; [done|]. apply andb_prop in Hb as [Ho Hb].
  pose proof (shm_op_okb_ok s o HY Ho) as Hok. split; [done|]. intros s' m E. rewrite E in Hb.
  destruct (shm_step_sim 1024 SLOTS 4 eq_refl ltac:(lia) order_fits_slot status_fits_slot s ups downs o H HY Hok)
    as (s1 & m1 & u1 & d1 & E1 & H1 & Er1). rewrite E in E1. injection E1 as <- <-.
  destruct (SystemTypes.sinv_step 1024 _ _ HY (proj1 Hok)) as (y1 & m1' & E1' & HY1 & _). rewrite Er1 in E1'. injection E1' as <- <-.
  by apply (IH s' u1 d1).
Qed.

Definition no_order : Order := mkOrder 0 Market.AAA 0 0 Dummy.
Definition no_status : OrderStatus := mkOrderStatus 0 0 0 0 Accepted.
Definition market_0 : list (Ticker * Z) := [(Market.AAA, 60)].

Definition shm_0 : spsc_sys :=
  match start SLOTS Server.server_0 (TradeEngine.init market_0 (Spsc.init 1024)) no_order no_status with
  | Ok s => s
  | Err _ => mkSys Server.server_0 (TrustedSessionManager.mkState no_order None None) (ShmIo.mkReactor [] ∅ false [] [])
               (TradeEngine.init [] (Spsc.init 1024)) (TrustedClient.mkState None None None no_status) (ShmIo.mkReactor [] ∅ false [] [])
               (ShmQueue.init SLOTS) (ShmQueue.init SLOTS) [] []
  end.

(** The client sells, sees its order accepted and cancels it; some polls find
    nothing. *)
Definition shm_ops : list Op :=
  [TradeStart; ServerPoll; Round (TradeEngine.mkDraw 3 1 9) 5; ServerPoll; ClientPoll 9 9; ServerStep (Server.Work 0);
   ServerStep Server.Deliver; ServerPoll; ClientPoll 1 1; Round (TradeEngine.mkDraw 0 0 1) 8; ServerPoll; ServerStep (Server.Work 0);
   ServerStep Server.Deliver; ClientPoll 2 0].

Lemma shm_system_refines_witness : exists s m,
  run SLOTS shm_0 shm_ops = Ok (s, m) /\ System.telemetry_only m /\ clientOut s = [ServerConnected] /\ serverOut s = [].
Proof.
  destruct (shm_system_refines 1024 SLOTS 4 eq_refl ltac:(lia) order_fits_slot status_fits_slot
    Market.three_tickers [] Server.one_worker_data market_0 (Spsc.init 1024) no_order no_status) as (s0 & E0 & Hv & H).
  - cbn. lia.
  - reflexivity.
  - done.
  - by apply (spsc_holds_init 1024 10).
  - by repeat constructor.
  - assert (Es : s0 = shm_0) by (unfold shm_0, Server.server_0; by rewrite E0). rewrite <- Es.
    destruct (H shm_ops) as (s & m & H1 & H2 & _ & _ & H5 & H6); [|by exists s, m].
    destruct (start_ok SLOTS 4 eq_refl ltac:(lia) (Server.init Server.one_worker_data []) (TradeEngine.init market_0 (Spsc.init 1024)) no_order no_status
      (owned_init _ _)) as (s1 & E1 & HI & _). rewrite E0 in E1. injection E1 as <-.
    apply (shm_run_okb_ok shm_ops s0 [] [] HI).
    + rewrite Hv. apply (SystemTypes.sinv_init 1024 Market.three_tickers []); [cbn; lia|reflexivity|..]; intros c cl [<- <-]%lookup_singleton_Some.
      * eexists _, _. split; [reflexivity|]. split; [done|]. by apply (spsc_holds_init 1024 10).
      * split; [by vm_compute|]. by repeat constructor.
    + rewrite Es. vm_compute. reflexivity.
Defined.
End Concrete.
End ShmSystem.
