(* ===== verification/Utils.v ===== *)
(** * Small utilities

    Models time_utils.hpp, thread_utils.hpp, profiling_utils.hpp, rng.hpp,
    trait_utils.hpp and the rest of string_utils.hpp (all in
    common/src/utils).  What the operating system and the processor answer
    (clocks, counters, results of calls) is an argument. *)

From Stdlib Require Import Ascii Sorting.Sorted.
From stdpp Require Import list strings pretty.
From S2P Require Import Prelude Types.

(** ** Clocks *)

Module TimeUtils.

(** What [clock_gettime] fills in. *)
Record timespec := mkTimespec { tv_sec : Z; tv_nsec : Z }.

Definition getTimestamp (ts : timespec) : Z := u64 (u64 (u64 (tv_sec ts) * 1000000) + tv_nsec ts / 1000).
Definition getTimestampNs (ts : timespec) : Z := u64 (u64 (u64 (tv_sec ts) * 1000000000) + tv_nsec ts).

(** A time of a monotonic clock before the nanoseconds since boot leave 64
    bits, in 584 years. *)
Definition sane (ts : timespec) : Prop := 0 <= tv_sec ts < 18446744073 /\ 0 <= tv_nsec ts < 1000000000.

Definition before (a b : timespec) : Prop :=
  tv_sec a < tv_sec b \/ tv_sec a = tv_sec b /\ tv_nsec a < tv_nsec b.

Lemma timestamp_ns_exact ts : sane ts -> getTimestampNs ts = tv_sec ts * 1000000000 + tv_nsec ts.
Proof. intros [H1 H2]. unfold getTimestampNs. rewrite (u64_small (tv_sec ts)), (u64_small (_ * _)), u64_small by lia. done. Qed.

(** The two clocks agree: a time stamp in microseconds is the one in
    nanoseconds cut to microseconds, neither wraps, and later times have
    later stamps. *)
Theorem timestamps_agree a b : sane a -> sane b -> before a b ->
  getTimestamp a = getTimestampNs a / 1000 /\ getTimestampNs a < getTimestampNs b /\ getTimestamp a <= getTimestamp b.
Proof.
  assert (Hus : forall ts, sane ts -> getTimestamp ts = getTimestampNs ts / 1000).
  { intros ts H. rewrite timestamp_ns_exact by done. destruct H as [H1 H2]. unfold getTimestamp.
    assert (0 <= tv_nsec ts / 1000 < 1000000) by (split; [apply Z.div_pos; lia|apply Z.div_lt_upper_bound; lia]).
    rewrite (u64_small (tv_sec ts)), (u64_small (_ * _)), u64_small by lia.
    replace (tv_sec ts * 1000000000) with (tv_sec ts * 1000000 * 1000) by lia. rewrite Z.div_add_l by lia. done. }
  intros Ha Hb Hlt. rewrite !Hus by done. split; [done|].
  assert (getTimestampNs a < getTimestampNs b).
  { rewrite !timestamp_ns_exact by done. destruct Ha as [? ?], Hb as [? ?]. destruct Hlt as [?|[? ?]]; lia. }
  split; [done|]. apply Z.div_le_mono; lia.
Qed.

(** The two numbers [getNsPerCycle] divides, as a difference of time points
    and one of counters. *)
Definition nsPerCycle (t1 t2 c1 c2 : Z) : Z * Z := (t2 - t1, u64 (c2 - c1)).
End TimeUtils.

(** ** Threads *)

Module ThreadUtils.

Definition CORE_ID_MASK : Z := 0xFFF.
Definition EPERM : Z := 1.

(** What a failed call logs; the result of the call is all that decides. *)
Definition pinThreadToCore (coreId result : Z) : option string :=
  if result =? 0 then None
  else Some ("Failed to pin thread to core: " +:+ pretty coreId +:+ ", error: " +:+ pretty result)%string.

Definition setThreadRealTime (priority result : Z) : option string :=
  if result =? 0 then None
  else if result =? EPERM then Some "Insufficient permissions for Real-Time priority (99)"%string
  else Some ("Failed to set real-time priority: " +:+ pretty priority +:+ ", error: " +:+ pretty result)%string.

(** [aux] is the processor's [IA32_TSC_AUX]: the node above twelve bits of
    the core. *)
Definition getCoreId (aux : Z) : Z := Z.land aux CORE_ID_MASK.

(** [join]: whether the calling thread [self] waits for [th]. *)
Definition join (th : option Z) (self : Z) : bool :=
  match th with Some id => negb (self =? id) | None => false end.

Theorem core_id_of_node node core : 0 <= core < 4096 -> 0 <= node -> getCoreId (Z.lor (Z.shiftl node 12) core) = core.
Proof.
  intros Hc Hn. unfold getCoreId, CORE_ID_MASK. change 0xFFF with (Z.ones 12). rewrite Z.land_ones by lia.
  rewrite Z.lor_comm. assert (E : Z.lor core (Z.shiftl node 12) = core + Z.shiftl node 12).
  { assert (Z.land core (Z.shiftl node 12) = 0); [|pose proof (Z.add_lor_land core (Z.shiftl node 12)); lia].
    apply Z.bits_inj'. intros k Hk. rewrite Z.land_spec, Z.bits_0. destruct (Z.ltb_spec k 12).
    - rewrite Z.shiftl_spec_low by done. by rewrite andb_false_r.
    - replace core with (core mod 2 ^ 12) by (apply Z.mod_small; lia). by rewrite Z.mod_pow2_bits_high by lia. }
  rewrite E, Z.shiftl_mul_pow2 by lia. rewrite Z.mod_add by lia. apply Z.mod_small. lia.
Qed.

(** No thread waits for itself. *)
Theorem join_never_self self : join (Some self) self = false.
Proof. unfold join. by rewrite Z.eqb_refl. Qed.
End ThreadUtils.

(** ** Profiling *)

Module ProfilingUtils.

(** What [getrusage] fills in: seconds and microseconds, and counts. *)
Record rusage := mkRusage {
  utime_sec : Z; utime_usec : Z; stime_sec : Z; stime_usec : Z;
  ru_nvcsw : Z; ru_nivcsw : Z; ru_minflt : Z; ru_majflt : Z
}.

Record RUsageSnapshot := mkSnapshot {
  userTimeNs : Z; systemTimeNs : Z; volSwitches : Z; involSwitches : Z; softPageFaults : Z; hardPageFaults : Z
}.

Definition time_ns (sec usec : Z) : Z := u64 (u64 (sec * 1000000000) + u64 (usec * 1000)).

Definition getRUsage (result : Z) (usage : rusage) : res RUsageSnapshot :=
  if negb (result =? 0) then Err (Throw "getrusage failed")
  else Ok (mkSnapshot (time_ns (utime_sec usage) (utime_usec usage)) (time_ns (stime_sec usage) (stime_usec usage))
             (u64 (ru_nvcsw usage)) (u64 (ru_nivcsw usage)) (u64 (ru_minflt usage)) (u64 (ru_majflt usage))).

(** [PROFILE_EXEC]: the counter after a call that began at [start] and ended
    at [stop] cycles. *)
Definition PROFILE_EXEC (counter start stop : Z) : Z := Z.max counter (u64 (stop - start)).

Definition profile (counter : Z) (calls : list (Z * Z)) : Z := foldl (fun c x => PROFILE_EXEC c x.1 x.2) counter calls.

(** The counter is the longest call, also when the cycle counter wrapped
    during one. *)
Theorem profile_is_longest calls : forall counter, 0 <= counter ->
  Forall (fun x => u64 (x.2 - x.1) <= profile counter calls) calls /\ counter <= profile counter calls /\
  (profile counter calls = counter \/ exists x, x ∈ calls /\ profile counter calls = u64 (x.2 - x.1)).
Proof.
  induction calls as [|[a b] calls IH]; intros counter Hc; cbn [profile foldl].
  - split; [constructor|]. split; [unfold profile; cbn; lia|by left].
  - change (foldl _ ?c calls) with (profile c calls). unfold PROFILE_EXEC. cbn [fst snd].
    pose proof (u64_range (b - a)) as Hr. set (d := u64 (b - a)) in *.
    destruct (IH (Z.max counter d) ltac:(lia)) as (H1 & H2 & H3). split; [|split].
    + constructor; [cbn; subst d; lia|done].
    + lia.
    + destruct H3 as [H3|(x & Hx & H3)]; [|right; exists x; split; [by right|done]].
      rewrite H3. destruct (Z.max_spec counter d) as [[? ->]|[? ->]]; [right; exists (a, b)|by left]. split; [by left|done].
Qed.

(** Times below 500 years come out exactly. *)
Theorem rusage_exact usage s : 0 <= utime_sec usage < 2 ^ 34 -> 0 <= utime_usec usage < 1000000 ->
  getRUsage 0 usage = Ok s -> userTimeNs s = 1000 * (utime_sec usage * 1000000 + utime_usec usage).
Proof.
  intros H1 H2 [= <-]. cbn. unfold time_ns. rewrite (u64_small (_ * 1000000000)), (u64_small (_ * 1000)), u64_small by lia. lia.
Qed.
End ProfilingUtils.

(** ** Random numbers *)

Module RNG.
Section RNG.
(** A draw of [std::uniform_int_distribution]. *)
Context (distribution : Z -> Z -> Z).

Definition generate (min max : Z) : Z := if max <? min then distribution max min else distribution min max.

(** The bounds can be given in either order. *)
Theorem generate_between min max : (forall a b, a <= b -> a <= distribution a b <= b) ->
  Z.min min max <= generate min max <= Z.max min max.
Proof.
  intros H. unfold generate. destruct (Z.ltb_spec max min); [specialize (H max min)|specialize (H min max)]; lia.
Qed.
End RNG.
End RNG.

(** ** Strings *)

Module Strings.
Open Scope string_scope.

(** [toString] of a vector; the elements are printed already. *)
Fixpoint toString_elements (l : list string) : string :=
  match l with
  | [] => ""
  | [x] => x +:+ ""
  | x :: l => x +:+ "," +:+ toString_elements l
  end.
Definition toString_vector (l : list string) : string := "[" +:+ toString_elements l +:+ "]".

(** [std::tolower] in the C locale. *)
Definition tolower (c : ascii) : ascii :=
  let n := N_of_ascii c in if ((65 <=? n) && (n <=? 90))%N then ascii_of_N (n + 32) else c.
Fixpoint toLower (s : string) : string := match s with "" => "" | String c s => String (tolower c) (toLower s) end.

Definition isEmpty (t : Ticker) : bool := forallb (fun c => Ascii.eqb c zero) t.

(** A number with two decimals is a parameter. *)
Definition formatNs (two_decimals : Z -> Z -> string) (ns : Z) : string :=
  if (ns <? 1000)%Z then pretty ns +:+ "ns"
  else if (ns <? 1000000)%Z then two_decimals ns 1000%Z +:+ "µs"
  else two_decimals ns 1000000%Z +:+ "ms".

Definition toShortCount (one_decimal : Z -> Z -> string) (count : Z) : string :=
  if (count <? 1000)%Z then pretty count
  else if (count <? 1000000)%Z then one_decimal count 1000%Z +:+ "K"
  else one_decimal count 1000000%Z +:+ "M".

Lemma tolower_idem c : tolower (tolower c) = tolower c.
Proof.
  destruct c as [b0 b1 b2 b3 b4 b5 b6 b7].
  destruct b0, b1, b2, b3, b4, b5, b6, b7; reflexivity.
Qed.

(** Lowering twice is lowering once, and keeps the length. *)
Theorem toLower_idempotent s : toLower (toLower s) = toLower s /\ String.length (toLower s) = String.length s.
Proof.
  induction s as [|c s [IH1 IH2]]; [done|]. cbn [toLower String.length]. by rewrite tolower_idem, IH1, IH2.
Qed.

Theorem isEmpty_iff t : isEmpty t = true <-> t = replicate (length t) zero.
Proof.
  unfold isEmpty. rewrite forallb_forall. split.
  - intros H. induction t as [|c t IH]; [done|]. cbn. f_equal; [apply Ascii.eqb_eq, H; by left|]. apply IH. intros x Hx. apply H. by right.
  - intros -> x Hx. apply list_elem_of_In, elem_of_replicate in Hx as [-> _]. by apply Ascii.eqb_eq.
Qed.
End Strings.

(** ** Type lists *)

Module TraitUtils.
Section Types.
Context {T : Type} `{EqDecision T}.

Fixpoint contains (t : T) (types : list T) : bool :=
  match types with [] => false | u :: types => bool_decide (t = u) || contains t types end.

(** [None] is the failed [static_assert]. *)
Fixpoint indexOf (t : T) (types : list T) : option nat :=
  match types with
  | [] => None
  | first :: rest => if decide (t = first) then Some 0%nat else S <$> indexOf t rest
  end.

(** A type that is among others has an index, its first. *)
Theorem indexOf_first t types : contains t types = true <->
  exists i, indexOf t types = Some i /\ types !! i = Some t /\ forall j, (j < i)%nat -> types !! j <> Some t.
Proof.
  induction types as [|u types IH]; cbn.
  { split; [done|by intros (i & ? & _)]. }
  destruct (decide (t = u)) as [<-|Hne].
  - rewrite bool_decide_true by done. split; [|done]. intros _. exists 0%nat. split; [done|]. split; [done|]. intros j Hj. lia.
  - rewrite bool_decide_false by done. cbn. rewrite IH. split.
    + intros (i & E & Hi & Hj). exists (S i). rewrite E. split; [done|]. split; [done|].
      intros [|j] Hlt; [cbn; congruence|]. apply Hj. lia.
    + intros (i & E & Hi & Hj). destruct (indexOf t types) as [k|]; [|done]. injection E as <-. exists k.
      split; [done|]. split; [done|]. intros j Hlt. apply (Hj (S j)). lia.
Qed.
End Types.

Fixpoint is_ascending (l : list Z) : bool :=
  match l with
  | [] | [_] => true
  | first :: (next :: _) as rest => (first <=? next) && is_ascending rest
  end.

(** The check of neighbours orders the whole list. *)
Theorem is_ascending_sorted l : is_ascending l = true <-> StronglySorted Z.le l.
Proof.
  assert (H : is_ascending l = true <-> Sorted Z.le l).
  { induction l as [|x [|y l] IH]; [split; [constructor|done]|split; [repeat constructor|done]|].
    change (is_ascending (x :: y :: l)) with ((x <=? y) && is_ascending (y :: l)). rewrite andb_true_iff, IH, Z.leb_le. split.
    - intros [H1 H2]. constructor; [done|by constructor].
    - intros Hs. apply Sorted_inv in Hs as [H2 H1]. by inversion H1. }
  rewrite H. split; [apply Sorted_StronglySorted; intros a b c; lia|apply StronglySorted_Sorted].
Qed.
End TraitUtils.
