(* ===== verification/Console.v ===== *)
(** * The console

    Models [ConsoleReader] (common/src/utils/console_reader.hpp): the timer
    that looks for input, the line it reads and the command it posts, down to
    what [poll] and [std::getline] see of the input.

    The standard input is non-blocking.  It is a list of chunks, one for each
    [read] that will find data: a terminal gives one line per chunk, a pipe
    whatever was written.  [std::cin] keeps what it has read and not yet
    returned, and a flag that a read found nothing, which no call clears. *)

From stdpp Require Import list strings.
From Stdlib Require Import Ascii.
From S2P Require Import Prelude Commands.

Module Console.

Definition INPUT_CHECK_RATE_MS : Z := 200.

Definition newline : ascii := "010"%char.

(** [armed] while a wait on [timer_] is outstanding. *)
Record State := mkState {
  armed : bool;
  buffered : list ascii;
  failed : bool;
  fd : list (list ascii);
  hungUp : bool
}.

(** The constructor schedules the first check. *)
Definition construct : State := mkState true [] false [] false.

(** The characters up to the first newline, and those after it. *)
Fixpoint split_line (l : list ascii) : option (list ascii * list ascii) :=
  match l with
  | [] => None
  | c :: l =>
      if bool_decide (c = newline) then Some ([], l)
      else match split_line l with Some (a, b) => Some (c :: a, b) | None => None end
  end.

(** [std::getline] on a stream that has not failed: it reads until it has a
    line; when nothing is left to read the stream fails and the partial line
    is returned. *)
Fixpoint getline_from (buf : list ascii) (chunks : list (list ascii)) : list ascii * list ascii * list (list ascii) * bool :=
  match split_line buf with
  | Some (line, rest) => (line, rest, chunks, false)
  | None =>
      match chunks with
      | c :: chunks => getline_from (buf ++ c) chunks
      | [] => (buf, [], [], true)
      end
  end.

Definition getline (s : State) : State * string :=
  if failed s then (s, EmptyString)
  else
    let '(line, rest, chunks, fail) := getline_from (buffered s) (fd s) in
    (mkState (armed s) rest fail chunks (hungUp s), String.string_of_list_ascii line).

(** [poll]: data in the descriptor, or its other end closed; what [std::cin]
    has buffered does not count. *)
Definition poll (s : State) : bool := negb (bool_decide (fd s = [])) || hungUp s.

Section Reader.
Context {Out : Type} (parser : string -> bool * list Out).

(** [inputCheck]: the new state and what was posted. *)
Definition inputCheck (s : State) : State * list Out :=
  if poll s then let '(s, line) := getline s in (s, Commands.inputCheck parser (Some line))
  else (s, Commands.inputCheck parser None).

Inductive Op :=
| Typed (chunk : list ascii)        (* input arrives *)
| HangUp
| Expired                           (* the timer *)
| Failed.                           (* the wait is cancelled *)

Definition set_armed (s : State) (b : bool) : State := mkState b (buffered s) (failed s) (fd s) (hungUp s).

(** The handler of [scheduleInputCheck]: an error ends the checks. *)
Definition run_op (s : State) (o : Op) : State * list Out :=
  match o with
  | Typed c => (mkState (armed s) (buffered s) (failed s) (fd s ++ [c]) (hungUp s), [])
  | HangUp => (mkState (armed s) (buffered s) (failed s) (fd s) true, [])
  | Expired =>
      if armed s then let '(s, o) := inputCheck (set_armed s false) in (set_armed s true, o) else (s, [])
  | Failed => (set_armed s false, [])
  end.

Fixpoint run (s : State) (os : list Op) : State * list Out :=
  match os with
  | [] => (s, [])
  | o :: os => let '(s, a) := run_op s o in let '(s, b) := run s os in (s, a ++ b)
  end.

(** A line as a terminal delivers it. *)
Definition line_chunk (line : string) : list ascii := String.list_ascii_of_string line ++ [newline].

Definition one_line (line : string) : Prop := newline ∉ String.list_ascii_of_string line.

Lemma split_line_app l rest : newline ∉ l -> split_line (l ++ newline :: rest) = Some (l, rest).
Proof.
  induction l as [|c l IH]; cbn; [done|]. intros Hni.
  rewrite bool_decide_false by (intros ->; apply Hni; left). rewrite IH; [done|]. intros H. apply Hni. by right.
Qed.

Lemma split_line_none l : newline ∉ l -> split_line l = None.
Proof.
  induction l as [|c l IH]; cbn; [done|]. intros Hni.
  rewrite bool_decide_false by (intros ->; apply Hni; left). rewrite IH; [done|]. intros H. apply Hni. by right.
Qed.

(** The reader of a terminal: nothing read ahead, whole lines to come. *)
Definition terminal (s : State) (lines : list string) : Prop :=
  s = mkState true [] false (map line_chunk lines) false /\ Forall one_line lines.

Definition posted (line : string) : list Out := Commands.inputCheck parser (Some line).

Lemma terminal_tick s line lines : terminal s (line :: lines) ->
  terminal (run_op s Expired).1 lines /\ (run_op s Expired).2 = posted line.
Proof.
  intros [-> Hl]. apply Forall_cons in Hl as [H1 Hl]. unfold run_op, inputCheck, poll, getline, set_armed.
  cbn [armed buffered failed fd hungUp map getline_from split_line negb orb]. rewrite bool_decide_false by done. cbn [negb orb app].
  assert (E : getline_from (line_chunk line) (map line_chunk lines) = (String.list_ascii_of_string line, [], map line_chunk lines, false)).
  { destruct (map line_chunk lines); cbn [getline_from]; unfold line_chunk at 1; by rewrite split_line_app. }
  rewrite E. cbn. rewrite String.string_of_list_ascii_of_string. by repeat split.
Qed.

Lemma terminal_idle s : terminal s [] -> run_op s Expired = (s, []).
Proof. by intros [-> _]. Qed.

Lemma terminal_typed s lines line : terminal s lines -> one_line line ->
  terminal (run_op s (Typed (line_chunk line))).1 (lines ++ [line]).
Proof.
  intros [-> Hl] H1. split; [cbn; by rewrite map_app|]. apply Forall_app. split; [done|by constructor].
Qed.

(** The lines that an operation types, and the checks. *)
Inductive Use : list Op -> list string -> nat -> Prop :=
| use_nil : Use [] [] 0%nat
| use_line line os lines n : one_line line -> Use os lines n -> Use (Typed (line_chunk line) :: os) (line :: lines) n
| use_tick os lines n : Use os lines n -> Use (Expired :: os) lines (S n).

Lemma console_run_app s os1 os2 : run s (os1 ++ os2) =
  (let '(s1, a) := run s os1 in let '(s2, b) := run s1 os2 in (s2, a ++ b)).
Proof.
  revert s. induction os1 as [|o os1 IH]; intros s; cbn [run app]; [by destruct (run s os2)|].
  destruct (run_op s o) as [s1 a]. rewrite IH. destruct (run s1 os1) as [s2 b]. destruct (run s2 os2). by rewrite app_assoc.
Qed.

Lemma ticks_drain s lines n : terminal s lines -> (length lines <= n)%nat ->
  terminal (run s (replicate n Expired)).1 [] /\ (run s (replicate n Expired)).2 = flat_map posted lines.
Proof.
  revert s lines. induction n as [|n IH]; intros s lines Ht Hn.
  { destruct lines; [done|cbn in Hn; lia]. }
  cbn [replicate run]. destruct lines as [|line lines].
  - rewrite (terminal_idle s Ht). specialize (IH s [] Ht ltac:(cbn; lia)).
    by destruct (run s (replicate n Expired)).
  - destruct (terminal_tick s line lines Ht) as [Ht1 Ho]. destruct (run_op s Expired) as [s1 a]. cbn [fst snd] in *.
    specialize (IH s1 lines Ht1 ltac:(cbn in Hn; lia)). destruct (run s1 _) as [s2 b]. cbn [fst snd flat_map] in *.
    destruct IH as [? ->]. by rewrite Ho.
Qed.

Lemma use_posts os lines n : Use os lines n -> forall s before, terminal s before ->
  exists done_ left_, before ++ lines = done_ ++ left_ /\
    terminal (run s os).1 left_ /\ (run s os).2 = flat_map posted done_.
Proof.
  induction 1 as [|line os lines n H1 Hu IH|os lines n Hu IH]; intros s before Ht; cbn [run].
  - exists [], before. by rewrite app_nil_r.
  - pose proof (terminal_typed s before line Ht H1) as Ht1.
    destruct (run_op s (Typed (line_chunk line))) as [s1 a] eqn:E. assert (a = []) as -> by (by injection E).
    destruct (IH s1 _ Ht1) as (d & l & Hd & Hl & Ho). destruct (run s1 os) as [s2 b]. exists d, l.
    split; [by rewrite <- Hd, <- app_assoc|done].
  - destruct before as [|x before].
    + rewrite (terminal_idle s Ht). destruct (IH s [] Ht) as (d & l & Hd & Hl & Ho). destruct (run s os) as [s2 b].
      by exists d, l.
    + destruct (terminal_tick s x before Ht) as [Ht1 Hx]. destruct (run_op s Expired) as [s1 a]. cbn [fst snd] in *.
      destruct (IH s1 before Ht1) as (d & l & Hd & Hl & Ho). destruct (run s1 os) as [s2 b]. cbn [fst snd] in *.
      exists (x :: d), l. cbn. split; [by rewrite Hd|]. split; [done|]. by rewrite Hx, Ho.
Qed.

(** C38: on a terminal, however typing and checks alternate, the console has at
    every moment posted exactly what a first part of the typed lines parses
    to, in order; after as many further checks as there are lines it has
    posted all of them, and it still listens. *)
Theorem console_posts_every_line os lines n : Use os lines n ->
  (exists done_ left_, lines = done_ ++ left_ /\ (run construct os).2 = flat_map posted done_) /\
  let '(s, o) := run construct (os ++ replicate (length lines) Expired) in
  o = flat_map posted lines /\ armed s = true /\ fd s = [] /\ buffered s = [].
Proof.
  intros Hu. assert (H0 : terminal construct []) by (by split).
  destruct (use_posts os lines n Hu construct [] H0) as (d & l & Hd & Hl & Ho). cbn [app] in Hd.
  split; [by exists d, l|]. rewrite console_run_app. destruct (run construct os) as [s1 a]. cbn [fst snd] in *.
  destruct (ticks_drain s1 l (length lines) Hl) as [Ht Hp]. { rewrite Hd, length_app. lia. }
  destruct (run s1 _) as [s2 b]. cbn [fst snd] in *. destruct Ht as [-> _]. repeat split.
  by rewrite Ho, Hp, Hd, flat_map_app.
Qed.

(** Input that is not a terminal's: once a check finds an unfinished line the
    console is deaf, whatever is typed later. *)
Lemma deaf_stays s os : failed s = true ->
  failed (run s os).1 = true /\ (run s os).2 = [].
Proof.
  intros Hf. revert s Hf. induction os as [|o os IH]; intros s Hf; [done|]. cbn [run].
  assert (H1 : failed (run_op s o).1 = true /\ (run_op s o).2 = []).
  { destruct o; cbn; try done. destruct (armed s); [|done]. unfold inputCheck. destruct (poll _); [|done].
    unfold getline. cbn [failed set_armed]. rewrite Hf. done. }
  destruct (run_op s o) as [s1 a]. cbn [fst snd] in H1. destruct H1 as [H1 ->].
  specialize (IH s1 H1). by destruct (run s1 os).
Qed.
End Reader.

(** ** What other inputs do *)

Definition server_parser := ServerCommand.parse.

Definition typed (s : string) : Op := Typed (String.list_ascii_of_string s).
Definition line (s : string) : Op := Typed (line_chunk s).

(** A pipe that delivers the start of a command before a check: what was read
    is looked up, nothing is posted, and no command is ever read again. *)
Theorem partial_line_deafens os :
  (run server_parser construct ([typed "p"; Expired; line "+"] ++ os)).2 = [].
Proof.
  rewrite console_run_app. set (r := run server_parser construct _). vm_compute in r. subst r. cbn [app].
  destruct (deaf_stays server_parser (mkState true [] true [["+"%char; newline]] false) os eq_refl) as [_ H].
  destruct (run server_parser _ os). cbn in *. done.
Qed.

(** Two commands that arrive together: the second one waits in the stream's
    buffer, unseen by [poll], until more input comes. *)
Theorem second_line_waits n :
  (run server_parser construct
     (Typed (line_chunk "p+" ++ line_chunk "q") :: replicate (S n) Expired)).2 = [ServerCommand.PriceFeed_Start].
Proof.
  change (replicate (S n) Expired) with (Expired :: replicate n Expired).
  assert (Hn : forall s, armed s = true -> fd s = [] -> hungUp s = false -> run server_parser s (replicate n Expired) = (s, [])).
  { induction n as [|k IH]; [done|]. intros [a b f d h]. cbn. intros -> -> ->. unfold inputCheck, poll. cbn.
    change (set_armed (set_armed _ _) _) with (mkState true b f [] false). by rewrite IH. }
  cbn [run]. set (r := run_op server_parser _ _). vm_compute in r. subst r. cbn [run].
  set (r := run_op server_parser _ Expired). vm_compute in r. subst r. cbn. by rewrite Hn.
Qed.

Lemma console_posts_every_line_witness :
  (run server_parser construct ([line "p+"; Expired; line "x"; line "q"] ++ replicate 3 Expired)).2 =
  [ServerCommand.PriceFeed_Start; ServerCommand.Shutdown].
Proof.
  assert (Hu : Use [line "p+"; Expired; line "x"; line "q"] ["p+"; "x"; "q"]%string 1).
  { repeat (apply use_line; [by apply (bool_decide_unpack _)|] || apply use_tick). apply use_nil. }
  destruct (console_posts_every_line server_parser _ _ _ Hu) as [_ H]. cbn [length] in H.
  destruct (run server_parser construct _) as [s o]. by destruct H as [-> _].
Defined.

(** ** The list of commands *)

(** [printCommands]: names padded to three characters. *)
Definition pad3 (s : string) : string :=
  (s ++ match String.length s with 0%nat => "   " | 1%nat => "  " | 2%nat => " " | _ => "" end)%string.

Definition printCommands {C} (toString : C -> string) (commands : list (string * C)) : list string :=
  "Commands:"%string :: map (fun c => ("> " ++ pad3 c.1 ++ " => " ++ toString c.2)%string) commands.

Example server_help : printCommands ServerCommand.toString ServerCommand.commands =
  ["Commands:"; "> p+  => price feed start"; "> p-  => price feed stop"; "> t+  => telemetry start";
   "> t-  => telemetry stop"; "> q   => shutdown"]%string.
Proof. reflexivity. Qed.
End Console.
