(* ===== verification/Printing.v ===== *)
(** * What log lines say

    Models the [toString] functions of the messages
    (common/src/types/domain_types.hpp, telemetry_types.hpp,
    server/src/gateway, server/src/domain, server/src/events.hpp,
    common/src/transport/connection_status.hpp) and of the latency histogram
    (common/src/utils/rtt_tracker.hpp), and the lines in which the programs
    print their configurations and topics, and shows which lines identify the
    message they were printed from.  Numbers print in decimal; the
    floating-point values of the histogram are a parameter. *)

From Stdlib Require Import Ascii.
From stdpp Require Import list strings pretty.
From S2P Require Import Prelude Types.
From S2P Require Import Channel Session Telemetry Config Kafka Utils Commands Console.

Module Printing.
Open Scope string_scope.

(** ** Messages *)

Definition string_of_chars (l : list ascii) : string := String.string_of_list_ascii l.
Definition toString_bool (b : bool) : string := if b then "true" else "false".

Definition toString_LoginRequest (m : LoginRequest) : string :=
  "LoginRequest " +:+ lr_name m +:+ " " +:+ lr_password m.
Definition toString_TokenBindRequest (m : TokenBindRequest) : string := "TokenBindRequest " +:+ pretty (tbr_token m).
Definition toString_LoginResponse (m : LoginResponse) : string :=
  "LoginResponse " +:+ pretty (lresp_token m) +:+ " " +:+ toString_bool (lresp_ok m) +:+ " " +:+ lresp_error m.

(** [String(ticker.data(), TICKER_SIZE)] *)
Definition toString_Ticker (t : Ticker) : string := string_of_chars (take TICKER_SIZE t).

Definition toString_Order (o : Order) : string :=
  "Order: Id:" +:+ pretty (o_id o) +:+ " Ticker:" +:+ toString_Ticker (o_ticker o) +:+
  " Qty:" +:+ pretty (o_quantity o) +:+ " Price:" +:+ pretty (o_price o) +:+
  " Action:" +:+ (if bool_decide (o_action o = Buy) then "Buy" else "Sell").

Definition toString_OrderStatus (s : OrderStatus) : string :=
  "OrderStatus: ExternalId:" +:+ pretty (os_orderId s) +:+ " SystemId:" +:+ pretty (os_systemOrderId s) +:+
  " Qty:" +:+ pretty (os_quantity s) +:+ " FillPrice:" +:+ pretty (os_fillPrice s) +:+
  " State:" +:+ toString_OrderState (os_state s).

Definition toString_TickerPrice (p : TickerPrice) : string :=
  toString_Ticker (tp_ticker p) +:+ ": $" +:+ pretty (tp_price p).

Definition toString_InternalOrder (o : InternalOrder) : string :=
  "InternalOrder " +:+ pretty (io_id o) +:+ " " +:+ pretty (io_bookOId o) +:+ " " +:+ pretty (io_quantity o) +:+
  " " +:+ pretty (io_price o).

Definition toString_InternalOrderEvent (e : InternalOrderEvent) : string :=
  "InternalOrderEvent " +:+ toString_InternalOrder (ioe_order e) +:+ " " +:+ toString_OrderAction (ioe_action e) +:+
  " " +:+ toString_Ticker (ioe_ticker e).

Definition toString_InternalOrderStatus (s : InternalOrderStatus) : string :=
  "InternalOrderStatus " +:+ pretty (ios_id s) +:+ " " +:+ pretty (ios_bookOId s) +:+ " " +:+ pretty (ios_fillQty s) +:+
  " " +:+ pretty (ios_fillPrice s) +:+ " " +:+ toString_OrderState (ios_state s).

Definition toString_ServerOrder (m : ServerOrder) : string :=
  "ClientId " +:+ pretty (so_clientId m) +:+ " " +:+ toString_Order (so_order m).
Definition toString_ServerOrderStatus (m : ServerOrderStatus) : string :=
  "ClientId " +:+ pretty (sos_clientId m) +:+ " " +:+ toString_OrderStatus (sos_orderStatus m).

(** The messages of the authentication between the server's parts. *)
Definition toString_ServerLoginRequest (connectionId : Z) (request : LoginRequest) : string :=
  pretty connectionId +:+ " " +:+ toString_LoginRequest request.
Definition toString_ServerTokenBindRequest (connectionId : Z) (request : TokenBindRequest) : string :=
  pretty connectionId +:+ " " +:+ toString_TokenBindRequest request.
Definition toString_ServerLoginResponse (m : Authenticator.ServerLoginResponse) : string :=
  pretty (Authenticator.slr_connectionId m) +:+ " " +:+ pretty (Authenticator.slr_clientId m) +:+ " " +:+
  toString_bool (Authenticator.slr_ok m) +:+ " " +:+ Authenticator.slr_error m.

Definition toString_ConnectionStatusEvent (connectionId : Z) (status : Channel.ConnectionStatus) : string :=
  "ConnectionStatusEvent " +:+ pretty connectionId +:+ " " +:+ Channel.toString_ConnectionStatus status.
Definition toString_ChannelStatusEvent (clientId : option Z) (connectionId : Z) (status : Channel.ConnectionStatus) : string :=
  "ChannelStatusEvent " +:+ pretty (default 0%Z clientId) +:+ " " +:+ toString_ConnectionStatusEvent connectionId status.

(** The component id is not printed. *)
Definition toString_TelemetryMsg (m : Telemetry.TelemetryMsg) : string :=
  let header := "Source:" +:+ (match Telemetry.tm_source m with Telemetry.FromServer => "Server" | Telemetry.FromClient => "Client" end) +:+ " | " in
  header +:+
  match Telemetry.tm_data m with
  | Telemetry.Startup pid coreId buildInfo =>
      "Startup: Pid:" +:+ pretty pid +:+ " Core:" +:+ pretty coreId +:+ " Build:" +:+ string_of_chars (Telemetry.fromArray buildInfo)
  | Telemetry.OrderLatency id created fulfilled notified placed ful =>
      "Order: ID:" +:+ pretty id +:+ " Created:" +:+ pretty created +:+ " Fulfilled:" +:+ pretty fulfilled +:+
      " Notified:" +:+ pretty notified +:+ " Placed:" +:+ pretty placed +:+ " Fulfilled:" +:+ pretty ful
  | Telemetry.Runtime ts rps avgLatNs =>
      "Metrics: TS:" +:+ pretty ts +:+ " RPS:" +:+ pretty rps +:+ " AvgLat:" +:+ pretty avgLatNs +:+ "ns"
  | Telemetry.Profiling spins wait wake maxCall =>
      "Profiling: Spins:" +:+ pretty spins +:+ " FtxWait:" +:+ pretty wait +:+ " FtxWake:" +:+ pretty wake +:+
      " MaxCall:" +:+ pretty maxCall +:+ "ns"
  | Telemetry.Log level msg => "LOG: Level:" +:+ pretty level +:+ " Msg:" +:+ string_of_chars (Telemetry.fromArray msg)
  end.

(** ** Configurations and topics

    The lines a program prints at its start. *)

Definition endpoints (url : string) (up down udp : Z) : string :=
  "Url:" +:+ url +:+ " TcpUp:" +:+ pretty up +:+ " TcpDown:" +:+ pretty down +:+ " Udp:" +:+ pretty udp.

Definition cores (l : list Z) : string := Strings.toString_vector (map pretty l).

Definition print_ServerConfig (c : ServerConfig) : list string :=
  [endpoints (s_url c) (s_portTcpUp c) (s_portTcpDown c) (s_portUdp c);
   "SystemCore:" +:+ pretty (default 0%Z (s_coreSystem c)) +:+ " NetworkCore:" +:+ pretty (default 0%Z (s_coreNetwork c)) +:+
   " GatewayCore:" +:+ pretty (default 0%Z (s_coreGateway c)) +:+ " AppCores:" +:+ cores (s_coresApp c) +:+
   " PriceFeedRate:" +:+ pretty (s_priceFeedRate c) +:+ "µs";
   "LogOutput: " +:+ s_logOutput c].

Definition print_ClientConfig (c : ClientConfig) : list string :=
  [endpoints (c_url c) (c_portTcpUp c) (c_portTcpDown c) (c_portUdp c);
   "SystemCore:" +:+ pretty (default 0%Z (c_coreSystem c)) +:+ " NetworkCore:" +:+ pretty (default 0%Z (c_coreNetwork c)) +:+
   " AppCores:" +:+ cores (c_coresApp c) +:+ " TradeRate:" +:+ pretty (c_tradeRate c) +:+ "us";
   "LogOutput: " +:+ c_logOutput c;
   "Name: " +:+ c_name c +:+ " Password: " +:+ c_password c].

Definition print_MonitorConfig (c : MonitorConfig) : list string := ["LogOutput: " +:+ m_logOutput c].

(** [greetings] of the three control centers. *)
Definition greetings (who : string) (config commands : list string) : list string :=
  [who +:+ " go stonks"; "Configuration:"] ++ config ++ commands.

Definition server_greetings (cfg : ServerConfig) (tickers : nat) : list string :=
  greetings "Server" (print_ServerConfig cfg) (Console.printCommands ServerCommand.toString ServerCommand.commands) ++
  ["Tickers loaded: " +:+ pretty tickers].
Definition client_greetings (cfg : ClientConfig) : list string :=
  greetings "Client" (print_ClientConfig cfg) (Console.printCommands ClientCommand.toString ClientCommand.commands).
Definition monitor_greetings (cfg : MonitorConfig) : list string :=
  greetings "Monitor" (print_MonitorConfig cfg) (Console.printCommands MonitorCommand.toString MonitorCommand.commands).

Definition newline : string := String "010"%char "".

Definition printTopics (c : KafkaAdapter.Config) : string :=
  "Kafka consume topics: " +:+ foldr (fun topic rest => topic +:+ " " +:+ rest) "" (KafkaAdapter.consumeTopics_ c) +:+
  newline +:+ "Kafka produce topics: " +:+ foldr (fun topic rest => topic +:+ " " +:+ rest) "" (KafkaAdapter.produceTopics_ c).

(** ** The histogram *)

Section Histogram.
(** The bounds of the buckets; the share of a bucket, with two decimals, and
    its mean cut to an integer. *)
Context (Ranges : list Z) (percent : Z -> Z -> string) (mean : Z -> Z -> Z).

Definition range_header : string :=
  "[" +:+ foldr (fun r rest => "<" +:+ RttTracker.toScale r +:+ "|" +:+ rest)
            (">" +:+ RttTracker.toScale (List.last Ranges 0) +:+ "]") Ranges.

Definition sample_text (totalCount : Z) (s : RttTracker.RttSample) : string :=
  if (RttTracker.size s =? 0)%Z then "0%"
  else percent (RttTracker.size s) totalCount +:+ "%" +:+ " avg:" +:+ RttTracker.toScale (mean (RttTracker.sum s) (RttTracker.size s)).

Definition toString_Snapshot (stats : RttTracker.RttStats) : string :=
  let totalCount := foldl (fun total s => u64 (total + RttTracker.size s)) 0 (RttTracker.samples stats) in
  if (totalCount =? 0)%Z then ""
  else range_header +:+ " " +:+
    foldr (fun s rest => sample_text totalCount s +:+ " | " +:+ rest)
      ("Max:" +:+ RttTracker.toScale (RttTracker.globalMax stats)) (RttTracker.samples stats).
End Histogram.

(** ** Numbers in a line *)

(** The characters of a number: no space among them. *)
Fixpoint no_space (s : string) : Prop :=
  match s with "" => True | String c s => c <> " "%char /\ no_space s end.

Lemma no_space_app a b : no_space a -> no_space b -> no_space (a +:+ b).
Proof. induction a as [|c a IH]; cbn; [done|]. intros [? ?] ?. split; auto. Qed.

Lemma pretty_N_char_no_space x : pretty_N_char x <> " "%char.
Proof.
  unfold pretty_N_char. repeat case_match; discriminate.
Qed.

Lemma pretty_N_go_no_space x s : no_space s -> no_space (pretty_N_go x s).
Proof.
  revert s. induction (N.lt_wf_0 x) as [x _ IH]. intros s Hs.
  destruct (decide (0 < x)%N) as [Hx|Hx].
  - rewrite pretty_N_go_step by done. apply IH; [apply N.div_lt; lia|]. split; [apply pretty_N_char_no_space|done].
  - assert (x = 0%N) as -> by lia. by rewrite pretty_N_go_0.
Qed.

Lemma pretty_N_no_space (n : N) : no_space (pretty n).
Proof. unfold pretty, pretty_N. case_decide; [done|]. by apply pretty_N_go_no_space. Qed.

Lemma pretty_Z_no_space (z : Z) : no_space (pretty z).
Proof.
  destruct z as [|p|p]; [done|exact (pretty_N_no_space (Npos p))|].
  split; [discriminate|exact (pretty_N_no_space (Npos p))].
Qed.

(** What stands before the first space is determined by the line. *)
Lemma cut_space a b r r' : no_space a -> no_space b -> a +:+ String " " r = b +:+ String " " r' -> a = b /\ r = r'.
Proof.
  revert b. induction a as [|c a IH]; intros [|d b] Ha Hb; cbn in *.
  - intros E. by injection E.
  - intros E. injection E as <- _. by destruct Hb.
  - intros E. injection E as -> _. by destruct Ha.
  - intros E. injection E as -> E. destruct Ha as [_ Ha], Hb as [_ Hb]. by destruct (IH b Ha Hb E) as [-> ->].
Qed.

Lemma cut_number (x y : Z) r r' : pretty x +:+ String " " r = pretty y +:+ String " " r' -> x = y /\ r = r'.
Proof.
  intros E. destruct (cut_space _ _ _ _ (pretty_Z_no_space x) (pretty_Z_no_space y) E) as [E1 ->].
  split; [|done]. by apply (inj pretty).
Qed.

Lemma state_line_inj s s' : toString_OrderState s = toString_OrderState s' -> s = s'.
Proof. by destruct s, s'. Qed.

Lemma injection_app (p r r' : string) : p +:+ r = p +:+ r' -> r = r'.
Proof. induction p as [|c p IH]; [done|]. cbn. intros E. injection E. apply IH. Qed.

(** A line about the status of an order names the order, the quantity, the
    price and the state without ambiguity, on the client's side, inside the
    server, and with the client it is for. *)
Theorem status_lines_exact :
  (forall s s', toString_OrderStatus s = toString_OrderStatus s' -> s = s') /\
  (forall s s', toString_ServerOrderStatus s = toString_ServerOrderStatus s' -> s = s') /\
  (forall s s', toString_InternalOrderStatus s = toString_InternalOrderStatus s' -> s = s').
Proof.
  assert (H1 : forall s s', toString_OrderStatus s = toString_OrderStatus s' -> s = s').
  { intros [a b c d e] [a' b' c' d' e'] H. unfold toString_OrderStatus in H. cbn [os_orderId os_systemOrderId os_quantity os_fillPrice os_state] in H.
    apply injection_app, cut_number in H as [-> H]. apply (injection_app "SystemId:"), cut_number in H as [-> H].
    apply (injection_app "Qty:"), cut_number in H as [-> H]. apply (injection_app "FillPrice:"), cut_number in H as [-> H].
    apply (injection_app "State:"), state_line_inj in H as ->. done. }
  split; [done|]. split.
  - intros [c s] [c' s'] H. unfold toString_ServerOrderStatus in H. cbn [sos_clientId sos_orderStatus] in H.
    apply injection_app, cut_number in H as [-> H]. by apply H1 in H as ->.
  - intros [a b c d e] [a' b' c' d' e'] H. unfold toString_InternalOrderStatus in H. cbn [ios_id ios_bookOId ios_fillQty ios_fillPrice ios_state] in H.
    apply injection_app, cut_number in H as [-> H]. apply cut_number in H as [-> H]. apply cut_number in H as [-> H].
    apply cut_number in H as [-> H]. by apply state_line_inj in H as ->.
Qed.

(** The line about an order does not: every action but Buy prints as Sell,
    so a cancel reads as a sell order of the same number. *)
Theorem cancel_prints_as_sell id t q p :
  toString_Order (mkOrder id t q p Cancel) = toString_Order (mkOrder id t q p Sell).
Proof. done. Qed.

(** A core that is not configured prints as core 0, which no accepted
    configuration uses: the line does not leave the system and network cores
    of the server ambiguous, as long as its workers print alike. *)
Lemma unset_core_prints_as_zero (c c' : option Z) :
  c <> Some 0%Z -> c' <> Some 0%Z -> pretty (default 0%Z c) = pretty (default 0%Z c') -> c = c'.
Proof. intros H H' E. apply (inj pretty) in E. destruct c, c'; cbn in E; congruence. Qed.

Lemma sumZ_zero_iff l : Forall (fun x => 0 <= x)%Z l -> sumZ l = 0%Z <-> Forall (fun x => x = 0%Z) l.
Proof.
  induction 1 as [|x l Hx Hl IH]; [done|]. change (sumZ (x :: l)) with (x + sumZ l)%Z. rewrite Forall_cons, <- IH.
  pose proof (sumZ_nonneg l Hl). lia.
Qed.

Lemma total_sum l t : (0 <= t)%Z -> Forall (fun s => 0 <= RttTracker.size s)%Z l -> (t + sumZ (map RttTracker.size l) < 2 ^ 64)%Z ->
  foldl (fun total s => u64 (total + RttTracker.size s)) t l = (t + sumZ (map RttTracker.size l))%Z.
Proof.
  revert t. induction l as [|s l IH]; intros t Ht Hl Hlt; [cbn; lia|]. apply Forall_cons in Hl as [H1 Hl]. cbn [map foldl] in *.
  change (sumZ (?x :: ?l)) with (x + sumZ l)%Z in *.
  pose proof (sumZ_nonneg (map RttTracker.size l) ltac:(by rewrite Forall_map)).
  rewrite u64_small by lia. rewrite IH by (done || lia). lia.
Qed.

(** A histogram prints as nothing exactly when it holds nothing, as long as
    its counts do not wrap. *)
Theorem snapshot_empty_iff Ranges percent mean stats :
  Forall (fun s => 0 <= RttTracker.size s)%Z (RttTracker.samples stats) ->
  (sumZ (map RttTracker.size (RttTracker.samples stats)) < 2 ^ 64)%Z ->
  toString_Snapshot Ranges percent mean stats = "" <-> Forall (fun s => RttTracker.size s = 0%Z) (RttTracker.samples stats).
Proof.
  intros Hs Hb. unfold toString_Snapshot. rewrite total_sum by done. rewrite Z.add_0_l.
  rewrite <- (Forall_map RttTracker.size (fun x => x = 0%Z)), <- sumZ_zero_iff by (by rewrite Forall_map).
  by destruct (Z.eqb_spec (sumZ (map RttTracker.size (RttTracker.samples stats))) 0).
Qed.
End Printing.
