(* ===== verification/Lifetimes.v ===== *)
(** * Programs and objects from construction to destruction

    [HugeArray] as an owner of memory (common/src/containers/huge_array.hpp):
    moves, assignments and destructors over the blocks the system has mapped.
    The one [ShmReactor] of a process and the readers that find it
    (common/src/transport/shm/shm_reactor.cpp, shm_reader.cpp), with the
    shared-memory ends of server and client that run it
    (server/src/ipc/shm, client/src/ipc/shm).  How each thread of the programs
    starts and what it tells when it fails.  The [main] functions of the three
    programs and what they do on signals. *)

From stdpp Require Import list strings.
From S2P Require Import Prelude Types.
From S2P Require Import ShmQueue ShmTransport ControlCenter Config Utils.

(** ** Who owns a block *)

Module HugeOwner.

(** [mapped] are the blocks [mmap] gave and [munmap] did not take back;
    [vars] are the live arrays with their [data_], [None] for [nullptr]. *)
Record State := mkState { mapped : gset Z; vars : gmap nat (option Z) }.

Definition init : State := mkState ∅ ∅.

(** [freeHuge]; giving back a block twice, which could take another one's
    pages, is a fault. *)
Definition freeHuge (m : gset Z) (data : option Z) : res (gset Z) :=
  match data with
  | None => Ok m
  | Some a => if decide (a ∈ m) then Ok (m ∖ {[a]}) else Err OutOfBounds
  end.

Inductive Op :=
| Construct (x : nat) (addr : Z)     (* [addr] is what [mmap] answers *)
| MoveConstruct (x y : nat)          (* [HugeArray x{std::move(y)}] *)
| MoveAssign (x y : nat)             (* [x = std::move(y)] *)
| Destroy (x : nat).

Definition run_op (s : State) (o : Op) : res State :=
  match o with
  | Construct x addr => Ok (mkState (mapped s ∪ {[addr]}) (<[x := Some addr]> (vars s)))
  | MoveConstruct x y =>
      match vars s !! y with
      | Some d => Ok (mkState (mapped s) (<[x := d]> (<[y := None]> (vars s))))
      | None => Err NullDeref
      end
  | MoveAssign x y =>
      match vars s !! x, vars s !! y with
      | Some dx, Some dy =>
          if (x =? y)%nat then Ok s
          else
            let! m := match dx with Some _ => freeHuge (mapped s) dx | None => Ok (mapped s) end in
            Ok (mkState m (<[y := None]> (<[x := dy]> (vars s))))
      | _, _ => Err NullDeref
      end
  | Destroy x =>
      match vars s !! x with
      | Some d => let! m := freeHuge (mapped s) d in Ok (mkState m (delete x (vars s)))
      | None => Err NullDeref
      end
  end.

Fixpoint run (s : State) (ops : list Op) : res State :=
  match ops with [] => Ok s | o :: ops => let! s := run_op s o in run s ops end.

(** What the language and the system see to: an object is constructed where
    there is none and used while it lives, and [mmap] answers with a block
    that is not in use. *)
Definition op_ok (s : State) (o : Op) : Prop :=
  match o with
  | Construct x addr => vars s !! x = None /\ addr ∉ mapped s
  | MoveConstruct x y => vars s !! x = None /\ is_Some (vars s !! y)
  | MoveAssign x y => is_Some (vars s !! x) /\ is_Some (vars s !! y)
  | Destroy x => is_Some (vars s !! x)
  end.

Fixpoint run_ok (s : State) (ops : list Op) : Prop :=
  match ops with
  | [] => True
  | o :: ops => op_ok s o /\ forall s', run_op s o = Ok s' -> run_ok s' ops
  end.

(** Every mapped block belongs to one live array, and no array has a block
    that is not mapped. *)
Record Inv (s : State) : Prop := {
  h_owned : forall a, a ∈ mapped s <-> exists x, vars s !! x = Some (Some a);
  h_once : forall a x y, vars s !! x = Some (Some a) -> vars s !! y = Some (Some a) -> x = y
}.

Lemma owner_init : Inv init.
Proof. split; cbn; [intros a; split; [set_solver|intros [x Hx]; by rewrite lookup_empty in Hx]|intros a x y Hx; by rewrite lookup_empty in Hx]. Qed.

(** Changing where the blocks are. *)
Lemma owner_move (m : gset Z) (v v' : gmap nat (option Z)) :
  Inv (mkState m v) -> (forall a x, v' !! x = Some (Some a) -> exists y, v !! y = Some (Some a)) ->
  (forall a y, v !! y = Some (Some a) -> exists x, v' !! x = Some (Some a)) ->
  (forall a x y, v' !! x = Some (Some a) -> v' !! y = Some (Some a) -> x = y) -> Inv (mkState m v').
Proof.
  intros [H1 H2] Hto Hfrom Hone. split; cbn in *; [|exact Hone]. intros a. rewrite H1. split; intros [x Hx]; eauto.
Qed.

(** Giving up the block of one array. *)
Lemma owner_free (s : State) x d v' : Inv s -> vars s !! x = Some d ->
  (forall a y, v' !! y = Some (Some a) <-> y <> x /\ vars s !! y = Some (Some a)) ->
  exists m, freeHuge (mapped s) d = Ok m /\ Inv (mkState m v').
Proof.
  intros [H1 H2] Hx Hv. destruct d as [a|]; cbn [freeHuge].
  - rewrite decide_True by (apply H1; by exists x). eexists. split; [done|]. split; cbn.
    + intros b. rewrite elem_of_difference, H1, not_elem_of_singleton. split.
      * intros [[y Hy] Hne]. exists y. apply Hv. split; [|done]. intros ->. congruence.
      * intros [y [Hne Hy]%Hv]. split; [by exists y|]. intros ->. by apply Hne, (H2 a).
    + intros b y z [_ Hy]%Hv [_ Hz]%Hv. by apply (H2 b).
  - eexists. split; [done|]. split; cbn.
    + intros b. rewrite H1. split; intros [y Hy].
      * exists y. apply Hv. split; [|done]. intros ->. congruence.
      * apply Hv in Hy as [_ Hy]. by exists y.
    + intros b y z [_ Hy]%Hv [_ Hz]%Hv. by apply (H2 b).
Qed.

Lemma owner_construct s x addr : Inv s -> vars s !! x = None -> addr ∉ mapped s ->
  Inv (mkState (mapped s ∪ {[addr]}) (<[x := Some addr]> (vars s))).
Proof.
  intros [H1 H2] Hx Ha. split; cbn.
  - intros a. rewrite elem_of_union, elem_of_singleton, H1. split.
    + intros [[y Hy]| ->]; [exists y; by rewrite lookup_insert_ne by congruence|exists x; by rewrite lookup_insert_eq].
    + intros [y [[_ [= ->]]|[_ Hy]]%lookup_insert_Some]; [by right|left; by exists y].
  - intros a y z [[<- [= <-]]|[Hy Hy']]%lookup_insert_Some [[<- E]|[Hz Hz']]%lookup_insert_Some.
    + done.
    + exfalso. apply Ha, H1. by exists z.
    + injection E as <-. exfalso. apply Ha, H1. by exists y.
    + by apply (H2 a).
Qed.

Lemma owner_step s o : Inv s -> op_ok s o -> exists s', run_op s o = Ok s' /\ Inv s'.
Proof.
  intros HI Ho. destruct o as [x addr|x y|x y|x]; cbn [run_op op_ok] in *.
  - destruct Ho as [Hx Ha]. eexists. split; [done|]. by apply owner_construct.
  - destruct Ho as [Hx [d Hy]]. rewrite Hy. eexists. split; [done|]. destruct s as [m v]. cbn in *.
    assert (Hlook : forall a z, <[x := d]> (<[y := None]> v) !! z = Some (Some a) <->
      (z = x /\ d = Some a) \/ (z <> x /\ z <> y /\ v !! z = Some (Some a))).
    { intros a z. rewrite !lookup_insert_Some. naive_solver. }
    eapply owner_move; [exact HI| | |].
    + intros a z [[-> ->]|(_ & _ & Hz)]%Hlook; eauto.
    + intros a z Hz. destruct (decide (z = y)) as [->|]; [exists x|exists z]; apply Hlook; [left|right]; naive_solver.
    + intros a z z' [[-> ->]|(Hn1 & Hn2 & Hz)]%Hlook [[-> E]|(Hn1' & Hn2' & Hz')]%Hlook; try done.
      * exfalso. apply Hn2'. by apply (h_once _ HI a).
      * subst d. exfalso. apply Hn2. by apply (h_once _ HI a).
      * by apply (h_once _ HI a).
  - destruct Ho as [[dx Hx] [dy Hy]]. rewrite Hx, Hy. destruct (Nat.eqb_spec x y) as [|Hne]; [by exists s|].
    assert (Hm : (match dx with Some _ => freeHuge (mapped s) dx | None => Ok (mapped s) end) = freeHuge (mapped s) dx) by (by destruct dx).
    rewrite Hm. destruct (owner_free s x dx (<[x := None]> (vars s)) HI Hx) as (m & -> & HI').
    { intros a z. rewrite lookup_insert_Some. naive_solver. }
    eexists. split; [done|].
    assert (Hlook : forall a z, <[y := None]> (<[x := dy]> (vars s)) !! z = Some (Some a) <->
      (z = x /\ dy = Some a) \/ (z <> x /\ z <> y /\ vars s !! z = Some (Some a))).
    { intros a z. rewrite !lookup_insert_Some. naive_solver. }
    eapply owner_move; [exact HI'| | |].
    + intros a z [[-> ->]|(H1 & _ & Hz)]%Hlook; [exists y|exists z]; by rewrite lookup_insert_ne.
    + intros a z Hz. apply lookup_insert_Some in Hz as [[_ [=]]|[Hzx Hz]].
      destruct (decide (z = y)) as [->|]; [exists x|exists z]; apply Hlook; [left|right]; naive_solver.
    + intros a z z' [[-> ->]|(Hn1 & Hn2 & Hz)]%Hlook [[-> E]|(Hn1' & Hn2' & Hz')]%Hlook; try done.
      * exfalso. apply Hn2'. by apply (h_once _ HI a).
      * subst dy. exfalso. apply Hn2. by apply (h_once _ HI a).
      * by apply (h_once _ HI a).
  - destruct Ho as [d Hx]. rewrite Hx. destruct (owner_free s x d (delete x (vars s)) HI Hx) as (m & -> & HI').
    { intros a z. rewrite lookup_delete_Some. naive_solver. }
    by eexists.
Qed.

(** C39: arrays that are constructed, moved from and to, assigned, to themselves
    too, and destroyed: no block is ever given back twice, two arrays never
    share one, and when no array is left no block is. *)
Theorem huge_arrays_freed_once ops : run_ok init ops ->
  exists s, run init ops = Ok s /\ Inv s /\ (vars s = ∅ -> mapped s = ∅).
Proof.
  assert (H : forall s, Inv s -> run_ok s ops -> exists s', run s ops = Ok s' /\ Inv s').
  { induction ops as [|o ops IH]; intros s HI Hok; [by exists s|]. destruct Hok as [Ho Hok].
    destruct (owner_step s o HI Ho) as (s1 & E1 & HI1). cbn [run]. rewrite E1. by apply IH; [|apply Hok]. }
  intros Hok. destruct (H init owner_init Hok) as (s & E & HI). exists s. split; [done|]. split; [done|].
  intros Hv. apply set_eq. intros a. rewrite (h_owned _ HI), Hv. split; [intros [x Hx]; by rewrite lookup_empty in Hx|set_solver].
Qed.

#[export] Instance op_ok_dec s o : Decision (op_ok s o).
Proof. destruct o; cbn; apply _. Defined.

Fixpoint run_okb (s : State) (ops : list Op) : bool :=
  match ops with
  | [] => true
  | o :: ops => bool_decide (op_ok s o) && match run_op s o with Ok s' => run_okb s' ops | Err _ => true end
  end.

Lemma owner_run_okb_ok ops : forall s, run_okb s ops = true -> run_ok s ops.
Proof.
  induction ops as [|o ops IH]; intros s H; [done|]. apply andb_prop in H as [Ho H]. split; [by apply bool_decide_eq_true in Ho|].
  intros s' E. rewrite E in H. by apply IH.
Qed.

Definition sample_ops : list Op :=
  [Construct 0 4096; Construct 1 8192; MoveAssign 0 1; MoveConstruct 2 0; MoveAssign 2 2; Destroy 0; Destroy 1; Destroy 2].

Lemma huge_arrays_freed_once_witness : exists s, run init sample_ops = Ok s /\ mapped s = ∅.
Proof.
  destruct (huge_arrays_freed_once sample_ops) as (s & E & _ & Hm).
  - apply owner_run_okb_ok. vm_compute. reflexivity.
  - exists s. split; [exact E|]. apply Hm. vm_compute in E. injection E as <-. reflexivity.
Defined.
End HugeOwner.

(** ** The reactor of a process *)

Module ReactorLife.
Import ShmIo.

(** A reactor: [started_] and the readers registered with it.  A reader: the
    reactor it found and its state. *)
Record World := mkWorld {
  instance : option nat;
  reactors : gmap nat (bool * list nat);
  readers : gmap nat (nat * RState)
}.

Definition init : World := mkWorld None ∅ ∅.

Inductive Op :=
| NewReactor (r : nat)
| Run (r : nat)
| Stop (r : nat)
| DestroyReactor (r : nat)
| NewReader (x : nat)
| AsyncRx (x : nat)
| MoveReader (x y : nat)   (* [ShmReader y{std::move(x)}] *)
| DestroyReader (x : nat).

Definition with_reactor (w : World) (r : nat) (f : bool * list nat -> World) : res World :=
  match reactors w !! r with Some o => Ok (f o) | None => Err NullDeref end.

Definition add (w : World) (r x : nat) : res World :=
  with_reactor w r (fun o =>
    if (o.1 : bool) then w else mkWorld (instance w) (<[r := (false, o.2 ++ [x])]> (reactors w)) (readers w)).

(** The constructors of a reader; [init] throws without an instance. *)
Definition newReader (w : World) (x : nat) : res World :=
  match instance w with
  | None => Err (Throw "ShmReactor is not initialized")
  | Some r => Ok (mkWorld (instance w) (reactors w) (<[x := (r, Ready)]> (readers w)))
  end.

Definition moveReader (w : World) (x y : nat) : res World :=
  match readers w !! x with
  | Some (r, st) => Ok (mkWorld (instance w) (reactors w) (<[x := (r, Closed)]> (<[y := (r, st)]> (readers w))))
  | None => Err NullDeref
  end.

(** An exception of a constructor leaves no object. *)
Definition run_op (w : World) (o : Op) : res World :=
  match o with
  | NewReactor r =>
      match instance w with
      | None => Ok (mkWorld (Some r) (<[r := (false, [])]> (reactors w)) (readers w))
      | Some _ => Err (Throw "ShmReactor is already initialized")
      end
  | Run r => with_reactor w r (fun o =>
      if (o.1 : bool) then w else mkWorld (instance w) (<[r := (true, o.2)]> (reactors w)) (readers w))
  | Stop r => with_reactor w r (fun o =>
      if (o.1 : bool) then mkWorld None (<[r := (true, [])]> (reactors w)) (readers w) else w)
  | DestroyReactor r => with_reactor w r (fun _ => mkWorld (instance w) (delete r (reactors w)) (readers w))
  | NewReader x => newReader w x
  | AsyncRx x =>
      match readers w !! x with
      | Some (r, Ready) => add (mkWorld (instance w) (reactors w) (<[x := (r, Active)]> (readers w))) r x
      | Some _ => Ok w
      | None => Err NullDeref
      end
  | MoveReader x y => moveReader w x y
  | DestroyReader x => Ok (mkWorld (instance w) (reactors w) (delete x (readers w)))
  end.

Fixpoint run (w : World) (ops : list Op) : res World :=
  match ops with [] => Ok w | o :: ops => let! w := run_op w o in run w ops end.

(** Reactors are destroyed after they were run and stopped, or at least not
    while they are the instance. *)
Definition orderly (w : World) (o : Op) : Prop :=
  match o with DestroyReactor r => instance w <> Some r | _ => True end.

Fixpoint run_orderly (w : World) (ops : list Op) : Prop :=
  match ops with
  | [] => True
  | o :: ops => orderly w o /\ forall w', run_op w o = Ok w' -> run_orderly w' ops
  end.

Definition Inv (w : World) : Prop := forall r, instance w = Some r -> is_Some (reactors w !! r).

Lemma reactor_step w o w' : Inv w -> orderly w o -> run_op w o = Ok w' -> Inv w'.
Proof.
  intros HI Ho E r Hr.
  assert (Hins : forall r' v, is_Some (reactors w !! r) -> is_Some (<[r' := v]> (reactors w) !! r))
    by (intros; apply lookup_insert_is_Some'; by right).
  destruct o as [r'|r'|r'|r'|x|x|x y|x]; cbn in E; unfold newReader, moveReader, add, with_reactor in E; cbn in E.
  - destruct (instance w); [done|]. injection E as <-. injection Hr as <-. cbn. rewrite lookup_insert_eq. by eexists.
  - destruct (reactors w !! r') as [[[|] l]|]; [..|done]; injection E as <-; [by apply HI|]. cbn. by apply Hins, HI.
  - destruct (reactors w !! r') as [[[|] l]|]; [..|done]; injection E as <-; [done|by apply HI].
  - destruct (reactors w !! r'); [|done]. injection E as <-. cbn in Hr |- *. rewrite lookup_delete_ne; [by apply HI|].
    cbn in Ho. congruence.
  - destruct (instance w) eqn:Ei; [|done]. injection E as <-. cbn in Hr |- *. apply HI. congruence.
  - destruct (readers w !! x) as [[r' []]|]; try done; try (injection E as <-; by apply HI).
    destruct (reactors w !! r') as [[[|] l]|]; [..|done]; injection E as <-; cbn in *; [by apply HI|by apply Hins, HI].
  - destruct (readers w !! x) as [[r' st]|]; [|done]. injection E as <-. by apply HI.
  - injection E as <-. by apply HI.
Qed.

(** As long as no reactor is destroyed while it is the instance: a reader is
    only ever made for a reactor that exists, so that its first read does
    not fault and, before the reactor runs, registers it; without one the
    constructor throws.  There is at most one instance. *)
Theorem new_reader_finds_reactor ops w x : run_orderly init ops -> run init ops = Ok w ->
  match instance w with
  | None => run_op w (NewReader x) = Err (Throw "ShmReactor is not initialized")
  | Some r => exists started l w', reactors w !! r = Some (started, l) /\ run w [NewReader x; AsyncRx x] = Ok w' /\
      readers w' !! x = Some (r, Active) /\ reactors w' !! r = Some (started, if (started : bool) then l else l ++ [x]) /\
      forall r', run_op w (NewReactor r') = Err (Throw "ShmReactor is already initialized")
  end.
Proof.
  assert (H : forall ops w0 w, Inv w0 -> run_orderly w0 ops -> run w0 ops = Ok w -> Inv w).
  { clear. induction ops as [|o ops IH]; intros w0 w HI Ho E; [by injection E as <-|]. destruct Ho as [Ho Hs]. cbn in E.
    destruct (run_op w0 o) as [w1|] eqn:E1; [|done]. apply (IH w1); [by eapply reactor_step|by apply Hs|done]. }
  intros Ho E. pose proof (H ops init w ltac:(done) Ho E) as HI.
  destruct (instance w) as [r|] eqn:Ei; [|cbn; unfold newReader; by rewrite Ei]. destruct (HI r Ei) as [[st l] Hr].
  exists st, l. cbn. unfold newReader. rewrite Ei. cbn. rewrite lookup_insert_eq. unfold add, with_reactor. cbn. rewrite Hr. cbn.
  destruct st; eexists; (split; [done|]); (split; [done|]); cbn; rewrite lookup_insert_eq; (split; [done|]);
    rewrite ?lookup_insert_eq; done.
Qed.

(** The destructor does not reset the instance, and [stop] does only after
    [run]: a reactor that was never run leaves its address behind.  No other
    can be made, and a reader that finds it uses a destroyed object. *)
Theorem reactor_never_run_dangles : exists w, run init [NewReactor 0; Stop 0; DestroyReactor 0] = Ok w /\
  run_op w (NewReactor 1) = Err (Throw "ShmReactor is already initialized") /\
  run w [NewReader 5; AsyncRx 5] = Err NullDeref.
Proof. eexists. split; [vm_compute; reflexivity|]. split; reflexivity. Qed.

(** [started_] is never reset: a stopped reactor does not run again, and it
    takes no more readers. *)
Theorem reactor_never_restarts w w' r : run_op w (Stop r) = Ok w' -> (exists l, reactors w !! r = Some (true, l)) ->
  run_op w' (Run r) = Ok w' /\ forall x, add w' r x = Ok w'.
Proof.
  intros E [l Hr]. cbn in E. unfold with_reactor in E. rewrite Hr in E. injection E as <-.
  split; [|intros x]; cbn; unfold add, with_reactor; cbn; by rewrite lookup_insert_eq.
Qed.

(** A reader that is moved after its first read: the reactor keeps polling
    the one that was moved from, which is closed, and never the new one. *)
Theorem moved_reader_is_lost : exists w, run init [NewReactor 0; NewReader 1; AsyncRx 1; MoveReader 1 2; Run 0] = Ok w /\
  reactors w !! 0%nat = Some (true, [1%nat]) /\ readers w !! 1%nat = Some (0%nat, Closed) /\ readers w !! 2%nat = Some (0%nat, Active).
Proof. eexists. split; [vm_compute; reflexivity|]. done. Qed.

(** *** The ends that run it

    The reading end of a program: the transport is made as [x] and moved to
    where its handler keeps it, [y], which starts to read; then the reactor
    [r] of the program is run.  The server looks first whether it runs. *)

Definition attach_reader (x y : nat) : list Op := [NewReader x; MoveReader x y; AsyncRx y; DestroyReader x].

Definition ShmServer_start (w : World) (r x y : nat) : res World :=
  match reactors w !! r with
  | Some (true, _) => Ok w
  | _ => run w (attach_reader x y ++ [Run r])
  end.

Definition ShmClient_start (w : World) (r x y : nat) : res World := run w (attach_reader x y ++ [Run r]).

Definition ShmServer_stop (w : World) (r : nat) : res World := run_op w (Stop r).
Definition ShmClient_stop (w : World) (r : nat) : res World := run_op w (Stop r).

(** Either program, started once with the reactor its end has constructed,
    polls exactly the reader its session keeps, which is active; the temporary
    it was moved from is gone. *)
Theorem shm_end_polls_its_reader r x y : x <> y -> exists w0 w, run_op init (NewReactor r) = Ok w0 /\
  ShmServer_start w0 r x y = Ok w /\ ShmClient_start w0 r x y = Ok w /\
  reactors w !! r = Some (true, [y]) /\ readers w = {[ y := (r, Active) ]}.
Proof.
  intros Hxy. eexists. exists (mkWorld (Some r) {[ r := (true, [y]) ]} {[ y := (r, Active) ]}). split; [reflexivity|].
  assert (Hc : forall w1, w1 = mkWorld (Some r) {[ r := (false, []) ]} ∅ ->
    ShmClient_start w1 r x y = Ok (mkWorld (Some r) {[ r := (true, [y]) ]} {[ y := (r, Active) ]})).
  { intros w1 ->. unfold ShmClient_start. cbn. unfold moveReader. cbn. rewrite lookup_insert_eq. cbn.
    rewrite lookup_insert_ne by done. rewrite lookup_insert_eq. unfold add, with_reactor. cbn. rewrite lookup_singleton_eq. cbn.
    repeat (rewrite lookup_insert_eq; cbn). repeat f_equal.
    - apply map_eq. intros i. destruct (decide (i = r)) as [->|Hi]; by simplify_map_eq.
    - apply map_eq. intros i. destruct (decide (i = x)) as [->|Hx].
      + by simplify_map_eq.
      + destruct (decide (i = y)) as [->|Hy]; by simplify_map_eq. }
  split; [|split; [by apply Hc|split; [cbn; by simplify_map_eq|done]]].
  unfold ShmServer_start. cbn [reactors]. rewrite lookup_insert_eq. by apply Hc.
Qed.

(** After a stop neither starts again: the server takes its reactor for a
    running one, the client's transport finds no reactor. *)
Theorem stopped_shm_end_stays w w' r x y l : reactors w !! r = Some (true, l) -> ShmServer_stop w r = Ok w' ->
  ShmServer_start w' r x y = Ok w' /\ ShmClient_start w' r x y = Err (Throw "ShmReactor is not initialized").
Proof.
  intros Hr E. unfold ShmServer_stop in E. cbn in E. unfold with_reactor in E. rewrite Hr in E. injection E as <-.
  split; [|done]. unfold ShmServer_start. cbn. by rewrite lookup_insert_eq.
Qed.
End ReactorLife.

(** ** Threads *)

Module Threads.
Import ThreadUtils.
Open Scope string_scope.

(** How the loop of a thread ends. *)
Inductive Ends := Returned | StdException (what : string) | OtherException.

(** What becomes of the thread: it ends and has posted errors on its bus, or
    the program is terminated. *)
Inductive Outcome := Finished (posted : list InternalError) | Terminated.

(** A thread first asks for real-time scheduling and, when a core is
    configured, for that core; a refusal is only logged.  [answers] are those
    of the two calls. *)
Definition begin (coreId : option Z) (answers : Z * Z) : list string :=
  option_list (setThreadRealTime 99 answers.1) ++
  match coreId with Some core => option_list (pinThreadToCore core answers.2) | None => [] end.

Definition runner_thread (name : string) (e : Ends) : Outcome :=
  match e with
  | Returned => Finished []
  | StdException what => Finished [mkInternalError SError ("std exception in LfqRunner " +:+ name +:+ ": " +:+ what)]
  | OtherException => Finished [mkInternalError SError ("unknown exception in LfqRunner " +:+ name)]
  end.

Definition reactor_thread (e : Ends) : Outcome :=
  match e with
  | Returned => Finished []
  | StdException what => Finished [mkInternalError SError ("Exception in ShmReader {}" +:+ what)]
  | OtherException => Finished [mkInternalError SError "Unknown exception in ShmReader"]
  end.

Definition server_network_thread (e : Ends) : Outcome :=
  match e with
  | Returned => Finished []
  | StdException what => Finished [mkInternalError SError what]
  | OtherException => Finished [mkInternalError SError "Unknown"]
  end.

(** These two catch standard exceptions only. *)
Definition client_network_thread (e : Ends) : Outcome :=
  match e with
  | Returned => Finished []
  | StdException what => Finished [mkInternalError SError what]
  | OtherException => Terminated
  end.

Definition engine_thread (e : Ends) : Outcome :=
  match e with
  | Returned => Finished []
  | StdException what => Finished [mkInternalError SError what]
  | OtherException => Terminated
  end.

Lemma append_3 (a b c : string) : (a +:+ b) +:+ c = a +:+ b +:+ c.
Proof. induction a as [|x a IH]; [done|]. exact (f_equal (String x) IH). Qed.

(** Every thread that fails with a standard exception reports it once, as an
    error and with its message at the end, and nothing is reported when it
    returns. *)
Theorem failed_thread_reports_once name what thread :
  thread ∈ [runner_thread name; reactor_thread; server_network_thread; client_network_thread; engine_thread] ->
  thread Returned = Finished [] /\
  exists prefix, thread (StdException what) = Finished [mkInternalError SError (prefix +:+ what)].
Proof.
  intros Hin. repeat (apply elem_of_cons in Hin as [->|Hin]; [split; [done|]|]); [..|by apply elem_of_nil in Hin].
  - exists ("std exception in LfqRunner " +:+ name +:+ ": "). unfold runner_thread. by rewrite !append_3.
  - by exists "Exception in ShmReader {}".
  - by exists "".
  - by exists "".
  - by exists "".
Qed.

(** The placeholder in the reactor's message is not one. *)
Lemma reactor_error_keeps_braces what :
  reactor_thread (StdException what) = Finished [mkInternalError SError ("Exception in ShmReader {}" +:+ what)].
Proof. done. Qed.
End Threads.

(** ** Starting and stopping a program *)

Module Startup.

(** How the control center's constructor and [start] end. *)
Inductive Ends := Returned | StdException (what : string) | OtherException.

(** What the process does: the status it exits with and what it writes to
    standard error, or termination by an exception nothing catches. *)
Inductive Outcome := Exit (code : Z) (err : list string) | Terminate.

(** [parse_command_line] with the option [config] and the flag [help]. *)
Inductive Cmdline := BadOption (what : string) | Help | RunWith (configPath : string).

Definition std (f : fault) : Ends := match f with Throw what => StdException what | _ => OtherException end.

Section Main.
(** The file's configuration, its worker cores, and the control center. *)
Context {C : Type} (load : string -> res C) (coresApp : C -> list Z) (center : C -> Ends).

(** Between [try] and the handlers. *)
Definition body (shm : bool) (path : string) : Ends :=
  match load path with
  | Err f => std f
  | Ok cfg => match Config.main_check shm (coresApp cfg) with Err f => std f | Ok _ => center cfg end
  end.

Definition server_main (shm : bool) (args : Cmdline) : Outcome :=
  match args with
  | BadOption _ => Terminate
  | Help => Exit 0 []
  | RunWith path =>
      match body shm path with
      | Returned => Exit 0 []
      | StdException what => Exit 0 [("Exception caught in main " +:+ what)%string]
      | OtherException => Terminate
      end
  end.

Definition client_main (shm : bool) (args : Cmdline) : Outcome :=
  match args with
  | BadOption _ => Terminate
  | Help => Exit 0 []
  | RunWith path =>
      match body shm path with
      | Returned => Exit 0 []
      | StdException what => Exit 0 [("Exception caught in main " +:+ what)%string]
      | OtherException => Exit 0 ["Unknown exception caught in main"%string]
      end
  end.

(** The monitor does not look at its cores. *)
Definition monitor_main (args : Cmdline) : Outcome :=
  match args with
  | BadOption _ => Terminate
  | Help => Exit 0 []
  | RunWith path =>
      match match load path with Err f => std f | Ok cfg => center cfg end with
      | Returned => Exit 0 []
      | StdException what => Exit 0 [("Exception caught in main {}" +:+ what)%string]
      | OtherException => Terminate
      end
  end.

(** Whatever fails after the options are read, the programs exit with the
    status of success; a mistake in the options themselves is thrown outside
    of the [try] and terminates them. *)
Theorem main_never_reports_failure shm args :
  (forall code err, server_main shm args = Exit code err \/ client_main shm args = Exit code err \/ monitor_main args = Exit code err -> code = 0) /\
  (forall what, server_main shm (BadOption what) = Terminate /\ client_main shm (BadOption what) = Terminate /\
     monitor_main (BadOption what) = Terminate).
Proof.
  split; [|done]. intros code err H. unfold server_main, client_main, monitor_main in H.
  destruct H as [H|[H|H]]; repeat case_match; congruence.
Qed.

(** More than one worker is refused over shared memory before anything is
    started. *)
Theorem shm_refuses_workers path cfg : load path = Ok cfg -> (1 < length (coresApp cfg))%nat ->
  server_main true (RunWith path) = Exit 0 ["Exception caught in main Multi-worker currently not supported for shm"%string] /\
  client_main true (RunWith path) = server_main true (RunWith path).
Proof.
  intros E Hl. unfold server_main, client_main, body. rewrite E. unfold Config.main_check.
  destruct (Nat.ltb_spec 1 (length (coresApp cfg))); [|lia]. by split.
Qed.
End Main.

(** *** Signals

    [signal_set]: the signals it was made for no longer take the process
    down; each calls a handler if an [async_wait] is outstanding. *)

Record Signals := mkSignals { registered : list Z; waiting : bool }.

Definition SIGINT : Z := 2.
Definition SIGTERM : Z := 15.

Inductive OnSignal := Killed | Handled | Ignored.

(** An [async_wait] is for one signal. *)
Definition raise_signal (s : Signals) (sig : Z) : Signals * OnSignal :=
  if bool_decide (sig ∈ registered s) then
    if waiting s then (mkSignals (registered s) false, Handled) else (s, Ignored)
  else (s, Killed).

(** The constructors of the control centers: the server's and the client's
    wait, the monitor's does not. *)
Definition server_signals : Signals := mkSignals [SIGINT; SIGTERM] true.
Definition client_signals : Signals := mkSignals [SIGINT; SIGTERM] true.
Definition monitor_signals : Signals := mkSignals [SIGINT; SIGTERM] false.

(** The server's handler stops it. *)
Definition server_on_signal (how : ServerControl.Call -> ControlCenter.Outcome) (sg : Signals) (s : ServerControl.State) (sig : Z)
    : Signals * ServerControl.State * bool :=
  match raise_signal sg sig with
  | (sg, Handled) => (sg, ServerControl.stop how s, true)
  | (sg, Ignored) => (sg, s, true)
  | (sg, Killed) => (sg, s, false)
  end.

(** An interrupt stops the server, in the order of [stop]. *)
Theorem server_stops_on_interrupt how s : (forall c, how c = ControlCenter.Returns) ->
  exists s', server_on_signal how server_signals s SIGINT = (mkSignals [SIGINT; SIGTERM] false, s', true) /\
    ServerControl.made s' = ServerControl.made s ++
      [ServerControl.RequestStop; ServerControl.IpcStop; ServerControl.CoordinatorStop; ServerControl.GatewayStop;
       ServerControl.SessionsClose; ServerControl.BusStop].
Proof.
  intros Ht. exists (ServerControl.stop how s). split; [done|]. by apply ServerControl.server_stop_order.
Qed.

(** The monitor takes SIGINT and SIGTERM from the system and waits for
    neither: however often they are sent, nothing happens. *)
Theorem monitor_ignores_interrupts sigs : Forall (fun sig => sig = SIGINT \/ sig = SIGTERM) sigs ->
  forall sig, sig ∈ sigs -> raise_signal monitor_signals sig = (monitor_signals, Ignored).
Proof. intros H sig Hin. rewrite Forall_forall in H. by destruct (H sig Hin) as [-> | ->]. Qed.
End Startup.
