(* ===== verification/Conformance.v ===== *)
(** * Conformance to the repository's tests

    The unit tests (tests/unit/src/test_order_book.cpp,
    test_containers.cpp, test_sbe_serializer.cpp) and the order test of the
    integration suite (tests/integration/test_server.py), run on the model:
    each example makes the calls of the test on concrete data and states what
    the test asserts, with the values in full where the test only counts. *)

From Stdlib Require Import Ascii.
From stdpp Require Import gmap list strings.
From S2P Require Import Prelude SlotId Types PriceLevelBook SequencedSPSC.
From S2P Require Import Coordinator Serialization Server.

Module Conformance.

(** ** test_order_book.cpp *)

#[local] Existing Instance build_cicd.

(** [makeOrder], with the value of the counter of [syoId] and [booId]. *)
Definition makeOrder (counter qty price : Z) (action : OrderAction) : InternalOrderEvent :=
  mkInternalOrderEvent
    (mkInternalOrder (SlotId.make MAX_SYSTEM_ORDERS counter 1) (SlotId.make MAX_BOOK_ORDERS counter 1) qty price)
    Market.AAA action.

(** The statuses that the fixture's [post] collects. *)
Definition statusq (r : res (Book.State * list Book.Msg)) : list InternalOrderStatus :=
  match r with
  | Ok (_, ms) => omap (fun m => match m with Book.PostStatus s => Some s | _ => None end) ms
  | Err _ => []
  end.

Definition states (r : res (Book.State * list Book.Msg)) : list (OrderState * Z * Z) :=
  map (fun s => (ios_state s, ios_fillQty s, ios_fillPrice s)) (statusq r).

(** [TEST_F(OrderBookFixture, OrdersWontMatch)]: six acknowledgements. *)
Definition orders_wont_match : list InternalOrderEvent :=
  [makeOrder 0 1 40 Sell; makeOrder 1 1 50 Sell; makeOrder 2 1 60 Sell;
   makeOrder 3 1 30 Buy; makeOrder 4 1 20 Buy; makeOrder 5 1 10 Buy].

Example OrdersWontMatch : length (statusq (Book.add_all Book.init orders_wont_match)) = 6%nat /\
  Forall (fun s => ios_state s = Accepted) (statusq (Book.add_all Book.init orders_wont_match)).
Proof. split; [by vm_compute|]. apply (Forall_impl (fun s => bool_decide (ios_state s = Accepted) = true)).
  - apply Forall_forall. intros s. revert s. apply Forall_forall. vm_compute. repeat constructor.
  - intros s H. by apply bool_decide_eq_true in H.
Qed.

(** [3Buy3SellMatch]: three acknowledgements and three fills, each at the
    limit of the sell, with the best bid first. *)
Definition three_buy_three_sell : list InternalOrderEvent :=
  [makeOrder 0 1 40 Buy; makeOrder 1 1 50 Buy; makeOrder 2 1 60 Buy;
   makeOrder 3 1 30 Sell; makeOrder 4 1 20 Sell; makeOrder 5 1 10 Sell].

Example ThreeBuyThreeSellMatch :
  length (statusq (Book.add_all Book.init three_buy_three_sell)) = 6%nat /\
  map ios_state (statusq (Book.add_all Book.init three_buy_three_sell)) = [Accepted; Accepted; Accepted; Full; Full; Full].
Proof. by vm_compute. Qed.

(** [10Buy1SellMatch]: nine acknowledgements and one fill.  The quantity
    of the sell is one more than the nine bids together. *)
Definition bids : list (Z * Z) := map (fun i => (Z.of_nat i - 1, Z.of_nat i)) (seq 1 9).
Definition ten_buy_one_sell : list InternalOrderEvent :=
  map (fun x => makeOrder x.1 x.2 10 Buy) bids ++ [makeOrder 9 (1 + sumZ (map snd bids)) 10 Sell].

Example TenBuyOneSellMatch :
  length (statusq (Book.add_all Book.init ten_buy_one_sell)) = 10%nat /\
  states (Book.add_all Book.init ten_buy_one_sell) !! 9%nat = Some (Partial, 45, 10).
Proof. by vm_compute. Qed.

(** ** test_containers.cpp *)

(** What one thread writes, another reads, in order; on a queue of eight
    slots. *)
Definition messages : list (list Z) := [[1; 2; 3]; [4]; [5; 6]; [7; 8; 9; 10]].

Definition write_all (ms : list (list Z)) : Spsc.Queue :=
  foldl (fun q m => (Spsc.write 8 q m).1) (Spsc.init 8) ms.

Fixpoint read_all (n : nat) (q : Spsc.Queue) : list (list Z) :=
  match n with
  | O => []
  | S n => match Spsc.read 8 q 52 with
           | (q, Some m) => m :: read_all n q
           | (_, None) => []
           end
  end.

Example SequencedSPSCBasic : read_all 8 (write_all messages) = messages.
Proof. by vm_compute. Qed.

(** ** test_sbe_serializer.cpp *)

(** [serializeDeserialize] and [SeveralMessagesInOneBuffer], with the
    codec of the model for the generated one. *)
Definition request (n : Z) : DomainMessage :=
  MLoginRequest (mkLoginRequest ("name" +:+ String (ascii_of_N (Z.to_N (48 + n))) "") ("password" +:+ String (ascii_of_N (Z.to_N (48 + n))) "")).

Example SeveralMessagesInOneBuffer :
  match Sbe.serialize Codecs.sbe_encode (request 0), Sbe.serialize Codecs.sbe_encode (request 1) with
  | Ok b0, Ok b1 =>
      Z.of_nat (length b0) = Sbe.sbeBlockAndHeaderLength 1 /\
      Sbe.deserialize Codecs.sbe_template Codecs.sbe_decode (b0 ++ b1) =
        Ok ([request 0], inl (Sbe.sbeBlockAndHeaderLength 1)) /\
      Sbe.deserialize Codecs.sbe_template Codecs.sbe_decode (drop (Z.to_nat (Sbe.sbeBlockAndHeaderLength 1)) (b0 ++ b1)) =
        Ok ([request 1], inl (Sbe.sbeBlockAndHeaderLength 1))
  | _, _ => False
  end.
Proof. by vm_compute. Qed.

(** ** test_server.py *)

Definition sent_to_client (r : res (Server.State * list Server.Sent)) : list OrderStatus :=
  match r with
  | Ok (_, ms) => omap (fun m => match m with Server.ToClient s => Some (sos_orderStatus s) | _ => None end) ms
  | Err _ => []
  end.

(** [test_order]: the buy is accepted, the sell of the same quantity and
    price is filled at that price; the buyer hears nothing of the trade. *)
Example test_order :
  map (fun s => (os_orderId s, os_quantity s, os_fillPrice s, os_state s))
    (sent_to_client (Server.run Server.server_0
      [Server.Submit (Server.order 7 1 1 1 Market.AAA Buy); Server.Work 0; Server.Deliver;
       Server.Submit (Server.order 7 3 1 1 Market.AAA Sell); Server.Work 0; Server.Deliver])) =
  [(1, 0, 1, Accepted); (3, 1, 1, Full)].
Proof. by vm_compute. Qed.
End Conformance.
